(* ===== verification/_CoqProject ===== *)
-Q . S2P
Prelude.v
Mfdef.v
Comm.v
Strl.v
Errstring.v
Tailq.v
Stm.v
Macros.v
Smfi.v
Inet.v
Engine.v
EngineProps.v
EngineOrder.v
EngineReply.v
Utils.v
Log.v
Toml.v
TomlParse.v
TomlStates.v
TomlRiders.v
TomlMachine.v
TomlText.v
TomlLookup.v
TomlTree.v
TomlTyped.v
TomlQuirks.v
Config.v
ConfigFile.v
Session.v
MrbClass.v
MrbArgs.v
SessionProps.v
SessionSafe.v
SessionVerdict.v
SessionTheorems.v
Worker.v
WorkerProps.v
WorkerTheorems.v
WorkerQueue.v
Monitor.v
Listener.v
Server.v
Service.v
Main.v
