(* ===== verification/Prelude.v ===== *)
(** * Verification of pmilter, a programmable mail filter server

    pmilter is a milter: a mail server (MTA) connects to it for every SMTP
    connection it has itself, tells it of each step of the SMTP dialogue in the
    milter protocol, and asks what to do.  The program consists of

    - libmilter, a fork of sendmail's library (src/src/libmilter): it accepts
      the connections, reads commands, checks that they are in order, calls the
      filter's callbacks and sends their verdicts;
    - pmilter itself (src/src/pmilter*.c): the callbacks, which record what the
      dialogue says and run the mruby handler that the configuration names for
      the phase; the methods those handlers call; the configuration;
    - libtoml (src/src/libtoml): the parser and the tree of the configuration
      file;
    - mruby and ICU (src/src/mruby, src/src/icu), vendored: pmilter's functions
      call a small part of each.

    The development follows this structure, one file per component.

    ** The model

    [Exec] (this file): a C function is a state transformer [cM W A] whose run
    ends in [Done], [Blocked] (a system call the environment has not answered),
    [Exited] or [Undef], a fault such as a NULL dereference, an access outside
    an object or to a freed one, or through a pointer of the wrong type.  [wp F
    m Q w]: every result of [m] from [w] satisfies [Q], and if [F] is false no
    run of it is faulty.  Integers are [Z] with the conversions of the C types
    written out ([u32], [s32], ...); bytes are [byte]; a C string is read from
    its buffer up to the NUL.

    [world] (Mfdef.v) is what a session's thread acts on: the context
    [smfi_str], the socket [net], the library's static variables, the filter's
    private memory, and a ghost trace of the callbacks made.  The environment is
    part of the world: the answers of the kernel to poll, read and writev (with
    partial transfers, interruptions and failures), the allocations that fail
    and the stop requests are lists the run consumes, so that a theorem for all
    worlds is a theorem for all environments.

    ** Files

    - Prelude.v: the monad, machine integers, C strings, automation;
    - Mfdef.v: protocol constants, context, world, filter descriptor
      (mfdef.h, mfapi.h, libmilter.h);
    - Comm.v: frames on the socket (comm.c);
    - Strl.v: bounded string functions (strl.c);
    - Errstring.v: the texts of error numbers (errstring.c);
    - Tailq.v: the queues of pointers (tailq.h), which implement lists;
    - Stm.v: the protocol's state machine and command table (engine.c);
    - Macros.v: argument vectors and macros (engine.c, smfi_getsymval);
    - Smfi.v: the filter's requests and replies (smfi.c);
    - Inet.v: inet_aton and inet_ntop of the C library;
    - Engine.v: negotiation, command handlers, replies and the loop mi_engine
      (engine.c); EngineProps.v, EngineOrder.v, EngineReply.v: its properties;
    - Utils.v: dates, log levels, client addresses (pmilter_utils.c,
      pmilter_log.c); Log.v: the lines of the log (pmilter_log.c);
    - Toml.v: the tree of the configuration file and its lookup (toml.c,
      toml_private.c); TomlTree.v: walking, freeing and printing it (toml.c);
    - TomlParse.v: the parser, the state machine of toml_parse.rl with its
      actions, and the function of ICU it calls; TomlStates.v: the sets of
      positions the machine can be in, computed; TomlRiders.v: why positions
      beside the main one do not matter; TomlMachine.v: the machine stays in
      those states and stops; TomlText.v: what the parser makes
      of the lines of a file; TomlLookup.v: reading the values back;
      TomlTyped.v: the types of the tree's nodes; TomlQuirks.v: texts that the
      parser does not treat as TOML says;
    - Config.v: from the file to the configuration (pmilter_config.c);
      ConfigFile.v: what the configuration of a file's text is;
    - Session.v: the callbacks, session state and mruby methods on an explicit
      heap (pmilter.c, pmilter_config.c, pmilter_mruby_session.c,
      pmilter_mruby_core.c); SessionProps.v, SessionSafe.v, SessionVerdict.v,
      SessionTheorems.v: its properties;
    - MrbClass.v: the classes and constants a handler sees (pmilter_init.c and
      the two above); MrbArgs.v: the arguments of its calls (mruby's class.c);
    - Worker.v: the pool of worker threads and its controller (worker.c), a
      transition system; WorkerProps.v: its invariants; WorkerTheorems.v: its
      properties; WorkerQueue.v: its accesses to the queue of sessions;
    - Monitor.v: the thread that watches how long callbacks take (monitor.c);
    - Listener.v: the listening socket and the context of a new session
      (listener.c, sm_gethost.c);
    - Server.v: the accept loop and the stop requests beside the pool
      (listener.c, signal.c), and their properties;
    - Service.v: mi_engine inside the server, and pmilter's sessions in it;
    - Main.v: start and end of the process (main.c, signal.c, pmilter.c).

    ** Threads

    A session's calls of mi_engine are sequential code, and [Engine] has their
    effect.  How threads come to make them is [Worker]: a state of the task
    manager, the contexts, all workers and the controller, and an executable
    step function [exec].  The code between lock and unlock is one step; what
    the environment decides (failures, time, what poll reports, what mi_engine
    returns) comes with the action.  [reachable] are the states of all
    interleavings.  [Server] adds the listener and the signal thread in the same
    way and refines the pool; [Service] makes each return of mi_engine a run of
    [Engine] on the context the worker holds; [Main] runs the server as the
    program does.

    ** Interfaces

    [WellBehaved F smfi] (EngineProps.v) is what the engine needs of a filter:
    that a callback does not touch the engine's side of the world, keeps the
    strings of the context terminated and, if [F] is false, has no undefined
    behaviour.  The engine's theorems are proved for every filter of this class;
    [smfilter_wb] (SessionProps.v) shows that pmilter is one.  [HasMalloc]
    (Config.v) is the allocation the configuration code needs.
    [same_pool_fields] (Worker.v) is what the pool assumes of mi_engine: that
    it leaves alone the fields of the context the pool reads; [mi_engine_held]
    (EngineOrder.v) proves it.

    ** What the theorems show

    - Order: [xxfi_eom] is only called inside a message, for every input of the
      MTA ([eom_inside_message]), also for pmilter ([pmilter_eom_order]); the
      close callback is the last ([close_is_last]); sessions start in the state
      these theorems are about ([listener_context]); the table of the state
      machine is what makes it so ([eom_needs_mail_rcpt], [trans_ok_spec]), and
      it does not depend on the order in which sessions negotiate
      ([fix_stm_union]).
    - Replies: each verdict is answered by exactly its reply
      ([verdict_reply]), the promise not to reply is kept
      ([noreply_promise_kept]), negotiation agrees only to what was offered
      ([negotiation_within_offer]), requests are gated and well formed
      ([request_gated], [request_sends_frame], [replacebody_chunks],
      [setreply_exact], [setmlreply_exact], [enhsc_exact]).
    - Input and output: frames, the client's address, macros, argument vectors,
      dates and table names survive the round trip ([frame_roundtrip],
      [connect_roundtrip], [macro_roundtrip], [dec_argv_exact],
      [http_date_roundtrip], [SawTable_roundtrip]); whatever the kernel answers,
      nothing but the frame is read or written ([mi_rd_cmd_exact],
      [mi_wr_cmd_prefix]); the string functions are concatenation, cut at the
      size ([sm_strlcat2_equiv], [sm_strlcpyn_truncates]).
    - Memory safety: of the engine's handlers on any data ([handlers_safe]), of
      any sequence of pmilter's message callbacks ([session_safe]), of connect
      ([connect_establishes]) and of the deletion of a session
      ([delete_conf_exact]).
    - Types: every pointer reachable from a session points to an object of its
      declared type ([session_typed]).
    - Threads: a session is used by one thread at a time and never after it was
      freed ([session_exclusive]), is never forgotten ([no_session_lost]), the
      counters are exact ([pool_counts]), and a session that is ready is taken
      up by any worker that keeps taking steps ([ready_task_taken]); the
      pointers of its queue are those of the list of the model, and valid
      wherever a thread follows one ([tailq_refines_list], [queue_simulates]);
      the monitor stops the milter exactly if a callback takes too long
      ([monitor_watches], [monitor_safe]); the server
      refines the pool ([server_refines_pool]) and is what the program runs
      ([listener_runs_server]); an event wakes the session it is for
      ([event_wakes_session]).  With the engine inside the server, the order of
      callbacks and the final close hold of every session of pmilter, in every
      interleaving ([pmilter_serves]).
    - Start and end: a socket description is opened as what it says
      ([conn_roundtrip]), sockets are not leaked ([socket_lifecycle],
      [listener_exit]); [main_outcomes] tells every way main can end.
    - Function of the filter: a callback answers what the handler of its phase
      decided ([callback_answers]); the configuration is what the file says
      ([config_of_file], from the bytes of the file on; [config_parse_exact]
      from the tree on); a method that a handler calls acts exactly on the
      arguments that suit it ([func_args_exact]).
    - Configuration file: the parser's machine does on the text of a list of
      lines what a line-by-line reading does ([toml_parse_lines]), and what a
      line says is found under its key ([toml_parse_get]); it stops
      ([toml_parse_total]) and looks at no character but those of the text and
      the one after it ([toml_machine_in_bounds]); every tree it leaves is well
      typed ([toml_parse_typed]) and freed exactly once ([toml_free_exact]).
    - Log: a record reads back as its time and level ([log_record_exact]); an
      error number has the text of its case or is printed whole
      ([errstring_text]).
    - Termination: [engine_loop_terminates], [toml_parse_total].
    - Where the code does not do what it means to: [close_use_after_free],
      [refused_client_confuses], [stale_body_chunk], [config_types_unchecked],
      [connect_unterminated], [getsymval_odd_reads_past_end],
      [bodyend_answers_twice], [unknown_bypasses_mail],
      [launch_failure_strands], [poll_timeout_indeterminate],
      [stop_taken_for_failure], [cleanup_without_mruby],
      [monitor_init_failure], [monitor_spins], [toml_long_string],
      [toml_prefix_key] and the examples of TomlQuirks.v.

    ** Bounds and fuel

    The loops over buffers and lists are structural.  [engine_loop] has as fuel
    the number of poll answers of the environment plus one:
    [engine_loop_terminates] shows that each round consumes one, so that it is
    never exhausted.  The loops of comm.c consume the kernel's answers
    themselves.  The runs of Worker.v and Server.v are lists of actions of any
    length; theorems are about all of them.  [gmtime_r] (Utils.v) searches the
    year within one cycle of the calendar, 400 years, so that 400 steps are
    enough.  [toml_parse] has as fuel the rounds of the machine, which can read
    a character again after fhold: [toml_parse_total] shows that six rounds a
    character and ten more are enough for any text, and that is what Config.v
    gives it ([rounds_for]).  [SM_TAILQ_FOREACH] has a round for each element,
    which [tailq_refines_list] shows to be enough.

    ** Not modelled

    - The rounds of mi_engine in different threads interleave only as whole
      calls.  What they share is the table of the state machine, which sessions
      of a filter with all callbacks never change.
    - Mutexes and condition variables are the atomicity of steps; a wait on the
      condition can end at any time, as it has a timeout.  A lock that is taken
      after the controller has destroyed it is a fault.
    - The sleeps of the listener after failures, and options of a connection's
      socket whose failure is only logged.
    - mruby, but for the definition of methods and constants and the arguments
      of C functions: what a handler file compiles to is a parameter of
      Session.v, a tree of method calls; a handler that never ends is not
      represented.
    - Of the parser: strtod and the digits of a double are parameters; the line
      numbers and texts of its error messages are left out.
    - ICU, but for the conversion of one UTF-16 unit, which is all the parser
      asks of it.
    - The syslog messages and debug output of the library, and code that the
      build leaves out: IPv6 sockets, LDAP error texts, and handler.c with the
      engine of a library without worker pool.  The thread monitor, which is
      off by default too, is modelled as it is when it is on. *)

From stdpp Require Import base list gmap strings numbers.
From Stdlib Require Import Strings.Byte ZArith Lia.
From Stdlib Require Strings.String.

Abbreviation bytes := (list byte).

#[global] Instance byte_eq_dec : EqDecision byte := Byte.byte_eq_dec.

(** ** Bytes and machine integers *)

Module CInt.
Local Open Scope Z_scope.

(** [unsigned char] and [char] (signed, as gcc has it on x86) views of a byte. *)
Definition uchar (b : byte) : Z := Z.of_N (Byte.to_N b).
Definition schar (b : byte) : Z := if uchar b <? 128 then uchar b else uchar b - 256.

(** Conversion of an integer to a [char]: the low eight bits. *)
Definition byte_of (z : Z) : byte := default x00 (Byte.of_N (Z.to_N (z mod 256))).

(** Conversions to [uint32_t], [unsigned long] and [int]. *)
Definition u32 (z : Z) : Z := z mod 2 ^ 32.
Definition u64 (z : Z) : Z := z mod 2 ^ 64.
Definition s32 (z : Z) : Z := (z + 2 ^ 31) mod 2 ^ 32 - 2 ^ 31.

(** [htonl] followed by [memcpy] of the four bytes. *)
Definition be32 (z : Z) : bytes :=
  [byte_of (Z.shiftr z 24); byte_of (Z.shiftr z 16); byte_of (Z.shiftr z 8); byte_of z].

(** [memcpy] of four bytes at [off] followed by [ntohl]; [None] is a read past
    the end of the buffer. *)
Definition de32 (b : bytes) (off : nat) : option Z :=
  match drop off b with
  | b3 :: b2 :: b1 :: b0 :: _ =>
      Some (uchar b3 * 2 ^ 24 + uchar b2 * 2 ^ 16 + uchar b1 * 2 ^ 8 + uchar b0)
  | _ => None
  end.

(** [bitset(bit, word)] of sm/misc.h. *)
Definition bitset (bit word : Z) : bool := negb (Z.land word bit =? 0).

Lemma uchar_range b : 0 <= uchar b < 256.
Proof.
  unfold uchar. pose proof (Byte.to_N_bounded b). lia.
Qed.

Lemma byte_of_some z : Byte.of_N (Z.to_N (z mod 256)) = Some (byte_of z).
Proof.
  unfold byte_of. destruct (Byte.of_N _) eqn:E; [done|].
  apply Byte.of_N_None_iff in E. pose proof (Z.mod_pos_bound z 256). lia.
Qed.

Lemma uchar_byte_of z : uchar (byte_of z) = z mod 256.
Proof.
  unfold uchar. pose proof (byte_of_some z) as E. apply Byte.to_of_N in E.
  rewrite E. pose proof (Z.mod_pos_bound z 256). lia.
Qed.

Lemma byte_of_uchar b : byte_of (uchar b) = b.
Proof.
  unfold byte_of. rewrite Z.mod_small by apply uchar_range.
  unfold uchar. by rewrite N2Z.id, Byte.of_to_N.
Qed.

Lemma uchar_inj b c : uchar b = uchar c -> b = c.
Proof. intros E. rewrite <- (byte_of_uchar b), <- (byte_of_uchar c). by rewrite E. Qed.

Lemma length_be32 z : length (be32 z) = 4%nat.
Proof. done. Qed.

(** Decoding what was encoded gives the value back modulo [2^32]. *)
Lemma de32_be32_app p z r : de32 (p ++ be32 z ++ r) (length p) = Some (u32 z).
Proof.
  unfold de32. rewrite drop_app_length. simpl. f_equal.
  rewrite !uchar_byte_of, !Z.shiftr_div_pow2 by lia. unfold u32.
  pose proof (Z.div_mod z (2 ^ 24)). pose proof (Z.div_mod z (2 ^ 16)).
  pose proof (Z.div_mod z (2 ^ 8)). pose proof (Z.div_mod z 256).
  rewrite (Z.mod_eq z (2 ^ 32)) by lia.
  rewrite !Z.mod_eq by lia.
  rewrite !Z.div_div by lia.
  change (2 ^ 8 * 256) with (2 ^ 16). change (2 ^ 16 * 256) with (2 ^ 24).
  change (2 ^ 24 * 256) with (2 ^ 32). change 256 with (2 ^ 8). lia.
Qed.

Lemma de32_be32 z r : de32 (be32 z ++ r) 0 = Some (u32 z).
Proof. apply (de32_be32_app []). Qed.

Lemma de32_range b off z : de32 b off = Some z -> 0 <= z < 2 ^ 32.
Proof.
  unfold de32. destruct (drop off b) as [|b3 [|b2 [|b1 [|b0 r]]]]; try done.
  intros [= <-].
  pose proof (uchar_range b3). pose proof (uchar_range b2).
  pose proof (uchar_range b1). pose proof (uchar_range b0). lia.
Qed.

Lemma de32_Some b off : (off + 4 <= length b)%nat -> exists z, de32 b off = Some z.
Proof.
  intros H. unfold de32.
  assert (4 <= length (drop off b))%nat as L by (rewrite length_drop; lia).
  destruct (drop off b) as [|b3 [|b2 [|b1 [|b0 r]]]]; simpl in L; try lia. eauto.
Qed.

Lemma u32_small z : 0 <= z < 2 ^ 32 -> u32 z = z.
Proof. apply Z.mod_small. Qed.

Lemma u64_small z : 0 <= z < 2 ^ 64 -> u64 z = z.
Proof. apply Z.mod_small. Qed.

Lemma s32_small z : - 2 ^ 31 <= z < 2 ^ 31 -> s32 z = z.
Proof. intros H. unfold s32. rewrite Z.mod_small; lia. Qed.

(** [expl = ntohl(expl) - 1] of comm.c, when the result is positive. *)
Lemma s32_u32_pred n : 0 <= n < 2 ^ 32 -> 0 < s32 (u32 (n - 1)) -> s32 (u32 (n - 1)) = n - 1.
Proof.
  intros Hn. destruct (decide (n = 0)) as [->|Hn0]; [done|].
  rewrite u32_small by lia. unfold s32.
  destruct (decide (n - 1 < 2 ^ 31)).
  - intros _. rewrite Z.mod_small; lia.
  - replace (n - 1 + 2 ^ 31) with (n - 1 - 2 ^ 31 + 1 * 2 ^ 32) by lia.
    rewrite Z.mod_add by lia. rewrite Z.mod_small; lia.
Qed.

Lemma s32_range z : - 2 ^ 31 <= s32 z < 2 ^ 31.
Proof. unfold s32. pose proof (Z.mod_pos_bound (z + 2 ^ 31) (2 ^ 32)). lia. Qed.

#[global] Arguments de32 : simpl never.
#[global] Arguments be32 : simpl never.

End CInt.
Export CInt.

(** ** C strings in buffers *)

Module CStr.

(** The C string that starts at the head of a buffer; [None] when no NUL is met
    before the end, i.e. when the C code would read past the buffer. *)
Fixpoint cstr (b : bytes) : option bytes :=
  match b with
  | [] => None
  | c :: b' => if decide (c = x00) then Some [] else cons c <$> cstr b'
  end.

Definition cstr_at (b : bytes) (off : nat) : option bytes := cstr (drop off b).
Definition strlen (b : bytes) (off : nat) : option nat := length <$> cstr_at b off.

(** String constants of the source. *)
Definition lit (s : string) : bytes := String.list_byte_of_string s.

#[global] Arguments lit s%_string.

(** printf's %d: 20 digits are enough for 64 bits. *)
Fixpoint udec (fuel : nat) (n : Z) : bytes :=
  match fuel with
  | O => []
  | S fuel => (if (n <? 10)%Z then [] else udec fuel (n / 10)) ++ [byte_of (48 + n mod 10)]
  end.
Definition fmt_d (n : Z) : bytes := if (n <? 0)%Z then "-"%byte :: udec 20 (- n) else udec 20 n.

Definition no_nul (s : bytes) : Prop := Forall (fun c => c ≠ x00) s.
#[global] Instance no_nul_dec s : Decision (no_nul s).
Proof. unfold no_nul. apply _. Defined.

Lemma cstr_app s r : no_nul s -> cstr (s ++ x00 :: r) = Some s.
Proof.
  induction 1 as [|c s Hc _ IH]; simpl; [done|].
  rewrite decide_False by done. by rewrite IH.
Qed.

Lemma cstr_Some b s : cstr b = Some s -> no_nul s /\ exists r, b = s ++ x00 :: r.
Proof.
  revert s. induction b as [|c b IH]; intros s; simpl; [done|].
  case_decide as Hc.
  - intros [= <-]. subst. split; [constructor|]. by exists b.
  - destruct (cstr b) as [s'|]; [|done]. intros [= <-].
    destruct (IH s' eq_refl) as [Hn [r ->]]. split; [by constructor|]. by exists r.
Qed.

Lemma cstr_no_nul b s : cstr b = Some s -> no_nul s.
Proof. intros H. by apply cstr_Some in H as [? _]. Qed.

Lemma no_nul_app s t : no_nul (s ++ t) <-> no_nul s /\ no_nul t.
Proof. apply Forall_app. Qed.

Lemma no_nul_cons c s : no_nul (c :: s) <-> c ≠ x00 /\ no_nul s.
Proof. apply Forall_cons_iff. Qed.

Lemma no_nul_take n s : no_nul s -> no_nul (take n s).
Proof. apply Forall_take. Qed.

Lemma no_nul_drop n s : no_nul s -> no_nul (drop n s).
Proof. apply Forall_drop. Qed.

End CStr.
Export CStr.

Create HintDb cmem.
#[export] Hint Resolve no_nul_take no_nul_drop cstr_no_nul uchar_range s32_range : cmem.

(** ** The execution monad of the model

    A C function is a state transformer that ends in one of four ways:
    it returns ([Done]); it waits in a system call to which the environment has
    not answered ([Blocked]); it called [exit] ([Exited]); or it performed an
    operation that has no defined behaviour ([Undef]), with the state at that
    point. *)

Module Exec.

Inductive fault :=
  | NullDeref        (* a NULL pointer is dereferenced *)
  | OutOfBounds      (* an access outside the object pointed into *)
  | UseAfterFree     (* an access to an object that was freed *)
  | BadCast          (* an object is accessed as another structure *)
  | Indeterminate    (* a variable is used that was not set *)
  | SignedOverflow   (* a signed integer overflows *)
  | DestroyedLock    (* a mutex is locked that was destroyed *)
  | AssertFailed.    (* a failed assertion *)

#[global] Instance fault_eq_dec : EqDecision fault.
Proof. solve_decision. Defined.

Inductive outcome (W A : Type) :=
  | Done (a : A) (w : W)
  | Blocked (w : W)
  | Exited (code : Z) (w : W)
  | Undef (f : fault) (w : W).
Arguments Done {W A} a w.
Arguments Blocked {W A} w.
Arguments Exited {W A} code w.
Arguments Undef {W A} f w.

Definition cM (W A : Type) : Type := W -> outcome W A.

Section ops.
Context {W : Type}.

Definition ret {A} (a : A) : cM W A := fun w => Done a w.

Definition bind {A B} (m : cM W A) (k : A -> cM W B) : cM W B := fun w =>
  match m w with
  | Done a w' => k a w'
  | Blocked w' => Blocked w'
  | Exited c w' => Exited c w'
  | Undef f w' => Undef f w'
  end.

Definition get : cM W W := fun w => Done w w.
Definition gets {A} (f : W -> A) : cM W A := fun w => Done (f w) w.
Definition modify (f : W -> W) : cM W unit := fun w => Done tt (f w).
Definition undef {A} (f : fault) : cM W A := fun w => Undef f w.
Definition exit {A} (code : Z) : cM W A := fun w => Exited code w.

(** A pointer access: [None] is the fault [f]. *)
Definition deref {A} (f : fault) (o : option A) : cM W A :=
  match o with Some a => ret a | None => undef f end.

(** What holds of every way a run can end: [Q] of a result, [R] of the state
    of an unfinished or faulty run. *)
Definition ends {A} (Q : A -> W -> Prop) (R : W -> Prop) (o : outcome W A) : Prop :=
  match o with
  | Done a w => Q a w
  | Blocked w => R w
  | Exited _ w => R w
  | Undef _ w => R w
  end.

Lemma bind_ret_l {A B} (a : A) (k : A -> cM W B) w : bind (ret a) k w = k a w.
Proof. done. Qed.

Lemma bind_ret_r {A} (m : cM W A) w : bind m ret w = m w.
Proof. unfold bind. by destruct (m w). Qed.

Lemma bind_assoc {A B C} (m : cM W A) (k : A -> cM W B) (h : B -> cM W C) w :
  bind (bind m k) h w = bind m (fun a => bind (k a) h) w.
Proof. unfold bind. by destruct (m w). Qed.

Lemma bind_Done {A B} (m : cM W A) (k : A -> cM W B) w b w' :
  bind m k w = Done b w' -> exists a w1, m w = Done a w1 /\ k a w1 = Done b w'.
Proof. unfold bind. destruct (m w); try done. eauto. Qed.

(** One step of a run whose first part is known. *)
Lemma bind_run {A B} (m : cM W A) (k : A -> cM W B) w a w' :
  m w = Done a w' -> bind m k w = k a w'.
Proof. unfold bind. by intros ->. Qed.

Lemma ends_bind {A B} (Q : A -> W -> Prop) (Q' : B -> W -> Prop) R (m : cM W A) k w :
  ends Q R (m w) -> (forall a w', Q a w' -> ends Q' R (k a w')) ->
  ends Q' R (bind m k w).
Proof. unfold bind. destruct (m w); simpl; auto. Qed.

Lemma ends_mono {A} (Q Q' : A -> W -> Prop) (R R' : W -> Prop) o :
  ends Q R o -> (forall a w, Q a w -> Q' a w) -> (forall w, R w -> R' w) -> ends Q' R' o.
Proof. destruct o; simpl; auto. Qed.

Lemma ends_Done {A} (Q : A -> W -> Prop) R (m : cM W A) w a w' :
  ends Q R (m w) -> m w = Done a w' -> Q a w'.
Proof. intros H E. by rewrite E in H. Qed.

(** Partial correctness: [Q] holds of every result.  With [F] false the run
    moreover has no undefined behaviour. *)
Definition wp (F : Prop) {A} (m : cM W A) (Q : A -> W -> Prop) (w : W) : Prop :=
  match m w with
  | Done a w' => Q a w'
  | Undef _ _ => F
  | Blocked _ | Exited _ _ => True
  end.

Lemma wp_ret F {A} (a : A) (Q : A -> W -> Prop) w : Q a w -> wp F (ret a) Q w.
Proof. done. Qed.

Lemma wp_bind F {A B} (m : cM W A) (k : A -> cM W B) Q w :
  wp F m (fun a w' => wp F (k a) Q w') w -> wp F (bind m k) Q w.
Proof. unfold wp, bind. by destruct (m w). Qed.

Lemma wp_mono F {A} (m : cM W A) (Q Q' : A -> W -> Prop) w :
  wp F m Q w -> (forall a w', Q a w' -> Q' a w') -> wp F m Q' w.
Proof. unfold wp. destruct (m w); auto. Qed.

Lemma wp_seq F {A B} (m : cM W A) (k : A -> cM W B) Q Q' w :
  wp F m Q w -> (forall a w', Q a w' -> wp F (k a) Q' w') -> wp F (bind m k) Q' w.
Proof. intros H Hk. apply wp_bind. by eapply wp_mono. Qed.

Lemma wp_and_partial F {A} (m : cM W A) (Q Q' : A -> W -> Prop) w :
  wp F m Q w -> wp True m Q' w -> wp F m (fun a w' => Q a w' /\ Q' a w') w.
Proof. unfold wp. by destruct (m w). Qed.

Lemma wp_impl (H : Prop) {A} (m : cM W A) (Q : A -> W -> Prop) w :
  (H -> wp True m Q w) -> wp True m (fun a w' => H -> Q a w') w.
Proof. unfold wp. destruct (m w); auto. Qed.

Lemma wp_and F {A} (m : cM W A) (Q Q' : A -> W -> Prop) w :
  wp F m Q w -> wp F m Q' w -> wp F m (fun a w' => Q a w' /\ Q' a w') w.
Proof. unfold wp. by destruct (m w). Qed.

Lemma wp_deref F {A} f (o : option A) (Q : A -> W -> Prop) w :
  match o with Some a => Q a w | None => F end -> wp F (deref f o) Q w.
Proof. by destruct o. Qed.

Lemma wp_Done F {A} (m : cM W A) (Q : A -> W -> Prop) w a w' :
  wp F m Q w -> m w = Done a w' -> Q a w'.
Proof. unfold wp. intros H E. by rewrite E in H. Qed.

End ops.

Declare Scope cM_scope.
Delimit Scope cM_scope with cM.
Notation "'let*' x ':=' m 'in' k" := (bind m (fun x => k))
  (at level 10, x pattern, m at level 200, k at level 200) : cM_scope.
Notation "m ';;;' k" := (bind m (fun _ => k))
  (at level 90, right associativity) : cM_scope.

(** Case analysis on the first test or match a run is stuck on. *)
Ltac cM_case :=
  match goal with
  | |- context [match ?x with _ => _ end] =>
      lazymatch x with context [match _ with _ => _ end] => fail | _ => destruct x eqn:? end
  end.

Ltac cM_case_in H :=
  match type of H with
  | context [match ?x with _ => _ end] =>
      lazymatch x with context [match _ with _ => _ end] => fail | _ => destruct x eqn:? end
  end.

(** Inversion of a [Done] equation through binds. *)
Ltac cM_inv H :=
  let a := fresh "a" in let w := fresh "w" in
  let E1 := fresh "E" in let E2 := fresh "E" in
  apply bind_Done in H as (a & w & E1 & E2); cbv beta in E1, E2.

End Exec.
Export Exec.
