(* ===== verification/Mfdef.v ===== *)
(** * libmilter's shared definitions

    The protocol constants of include/libmilter/mfdef.h and mfapi.h, the
    context of one session ([struct smfi_str] of libmilter.h), the filter
    descriptor ([struct smfiDesc]) and the state a session thread acts on:
    its context, its socket, the library's static variables and the filter's
    own memory. *)

From stdpp Require Import base list numbers.
From Stdlib Require Import Strings.Byte ZArith Lia.
From S2P Require Import Prelude.
Local Open Scope Z_scope.

(** Results of the library's functions (mfapi.h). *)
Definition MI_SUCCESS : Z := 0.
Definition MI_FAILURE : Z := -1.
Definition MI_CONTINUE : Z := 1.

(** Protocol versions and lengths. *)
Definition SMFI_VERSION : Z := 0x01000001.
Definition SMFI_PROT_VERSION : Z := 6.
Definition MILTER_CHUNK_SIZE : Z := 65535.
Definition MILTER_MAX_DATA_SIZE : Z := 65535.
Definition SMFI_V1_ACTS : Z := 0xF.
Definition SMFI_CURR_ACTS : Z := 0x1FF.

(** Protocol flags (what the MTA can send, what the filter wants). *)
Definition SMFIP_NOCONNECT : Z := 0x1.
Definition SMFIP_NOHELO : Z := 0x2.
Definition SMFIP_NOMAIL : Z := 0x4.
Definition SMFIP_NORCPT : Z := 0x8.
Definition SMFIP_NOBODY : Z := 0x10.
Definition SMFIP_NOHDRS : Z := 0x20.
Definition SMFIP_NOEOH : Z := 0x40.
Definition SMFIP_NR_HDR : Z := 0x80.
Definition SMFIP_NOUNKNOWN : Z := 0x100.
Definition SMFIP_NODATA : Z := 0x200.
Definition SMFIP_SKIP : Z := 0x400.
Definition SMFIP_RCPT_REJ : Z := 0x800.
Definition SMFIP_NR_CONN : Z := 0x1000.
Definition SMFIP_NR_HELO : Z := 0x2000.
Definition SMFIP_NR_MAIL : Z := 0x4000.
Definition SMFIP_NR_RCPT : Z := 0x8000.
Definition SMFIP_NR_DATA : Z := 0x10000.
Definition SMFIP_NR_UNKN : Z := 0x20000.
Definition SMFIP_NR_EOH : Z := 0x40000.
Definition SMFIP_NR_BODY : Z := 0x80000.
Definition SMFI_V1_PROT : Z := 0x3F.
Definition SMFI_CURR_PROT : Z := 0x1FFFFF.
Definition SMFI_INTERNAL : Z := 0x70000000.

(** Actions of a filter. *)
Definition SMFIF_ADDHDRS : Z := 0x1.
Definition SMFIF_CHGBODY : Z := 0x2.
Definition SMFIF_ADDRCPT : Z := 0x4.
Definition SMFIF_DELRCPT : Z := 0x8.
Definition SMFIF_CHGHDRS : Z := 0x10.
Definition SMFIF_QUARANTINE : Z := 0x20.
Definition SMFIF_CHGFROM : Z := 0x40.
Definition SMFIF_ADDRCPT_PAR : Z := 0x80.
Definition SMFIF_SETSYMLIST : Z := 0x100.

(** Results of callbacks, and the engine's internal ones (engine.c). *)
Definition SMFIS_CONTINUE : Z := 0.
Definition SMFIS_REJECT : Z := 1.
Definition SMFIS_DISCARD : Z := 2.
Definition SMFIS_ACCEPT : Z := 3.
Definition SMFIS_TEMPFAIL : Z := 4.
Definition SMFIS_NOREPLY : Z := 7.
Definition SMFIS_SKIP : Z := 8.
Definition SMFIS_ALL_OPTS : Z := 10.
Definition _SMFIS_KEEP : Z := 20.
Definition _SMFIS_ABORT : Z := 21.
Definition _SMFIS_OPTIONS : Z := 22.
Definition _SMFIS_NOREPLY : Z := SMFIS_NOREPLY.
Definition _SMFIS_FAIL : Z := -1.
Definition _SMFIS_NONE : Z := -2.

(** Macro places (mfapi.h); the engine's [CI_] indices agree with them. *)
Definition SMFIM_FIRST : Z := 0.
Definition SMFIM_LAST : Z := 6.
Definition CI_NONE : Z := -1.
Definition CI_CONN : Z := 0.
Definition CI_HELO : Z := 1.
Definition CI_MAIL : Z := 2.
Definition CI_RCPT : Z := 3.
Definition CI_DATA : Z := 4.
Definition CI_EOM : Z := 5.
Definition CI_EOH : Z := 6.

(** Stop requests (libmilter.h). *)
Definition MILTER_CONT : Z := 0.
Definition MILTER_STOP : Z := 1.
Definition MILTER_ABRT : Z := 2.

(** Default of [ctx_timeout]. *)
Definition MI_TIMEOUT : Z := 7210.

(** Protocol characters: address families. *)
Definition SMFIA_UNKNOWN : byte := "U"%byte.
Definition SMFIA_UNIX : byte := "L"%byte.
Definition SMFIA_INET : byte := "4"%byte.
Definition SMFIA_INET6 : byte := "6"%byte.

(** Protocol characters: commands. *)
Definition SMFIC_ABORT : byte := "A"%byte.
Definition SMFIC_BODY : byte := "B"%byte.
Definition SMFIC_CONNECT : byte := "C"%byte.
Definition SMFIC_MACRO : byte := "D"%byte.
Definition SMFIC_BODYEOB : byte := "E"%byte.
Definition SMFIC_HELO : byte := "H"%byte.
Definition SMFIC_QUIT_NC : byte := "K"%byte.
Definition SMFIC_HEADER : byte := "L"%byte.
Definition SMFIC_MAIL : byte := "M"%byte.
Definition SMFIC_EOH : byte := "N"%byte.
Definition SMFIC_OPTNEG : byte := "O"%byte.
Definition SMFIC_QUIT : byte := "Q"%byte.
Definition SMFIC_RCPT : byte := "R"%byte.
Definition SMFIC_DATA : byte := "T"%byte.
Definition SMFIC_UNKNOWN : byte := "U"%byte.

(** Protocol characters: replies. *)
Definition SMFIR_ADDRCPT : byte := "+"%byte.
Definition SMFIR_DELRCPT : byte := "-"%byte.
Definition SMFIR_ADDRCPT_PAR : byte := "2"%byte.
Definition SMFIR_ACCEPT : byte := "a"%byte.
Definition SMFIR_REPLBODY : byte := "b"%byte.
Definition SMFIR_CONTINUE : byte := "c"%byte.
Definition SMFIR_DISCARD : byte := "d"%byte.
Definition SMFIR_CHGFROM : byte := "e"%byte.
Definition SMFIR_ADDHEADER : byte := "h"%byte.
Definition SMFIR_INSHEADER : byte := "i"%byte.
Definition SMFIR_CHGHEADER : byte := "m"%byte.
Definition SMFIR_PROGRESS : byte := "p"%byte.
Definition SMFIR_QUARANTINE : byte := "q"%byte.
Definition SMFIR_REJECT : byte := "r"%byte.
Definition SMFIR_SKIP : byte := "s"%byte.
Definition SMFIR_TEMPFAIL : byte := "t"%byte.
Definition SMFIR_REPLYCODE : byte := "y"%byte.

(** Error codes [mi_rd_cmd] returns in place of a command (libmilter.h). *)
Definition SMFIC_TIMEOUT : byte := x01.
Definition SMFIC_SELECT : byte := x02.
Definition SMFIC_MALLOC : byte := x03.
Definition SMFIC_RECVERR : byte := x04.
Definition SMFIC_EOF : byte := x05.
Definition SMFIC_UNKNERR : byte := x06.
Definition SMFIC_TOOBIG : byte := x07.
Definition SMFIC_VALIDCMD : byte := " "%byte.

Definition MILTER_LEN_BYTES : nat := 4.
Definition MILTER_OPTLEN : nat := MILTER_LEN_BYTES * 3.
Definition MAX_MACROS_ENTRIES : nat := 7.

(** ** The context of one session *)

Record smfi_str (P : Type) := mk_ctx {
  ctx_id : Z;
  ctx_sd : Z;   (* socket descriptor *)
  ctx_dbg : Z;
  ctx_timeout : Z;
  ctx_state : Z;   (* protocol state ST_* *)
  ctx_prot_vers : Z;
  ctx_aflags : Z;   (* milter action flags *)
  ctx_pflags : Z;   (* milter protocol flags *)
  ctx_pflags2mta : Z;   (* the flags sent to the MTA *)
  ctx_prot_vers2mta : Z;
  ctx_mac_ptr : list (option (list (option nat)));   (* argument vectors: offsets into ctx_mac_buf, NULL as None *)
  ctx_mac_buf : list (option bytes);   (* macro buffers as read from the MTA *)
  ctx_mac_list : list (option bytes);   (* macros requested per stage *)
  ctx_reply : option bytes;   (* reply set by the filter, with its NUL *)
  ctx_privdata : P;   (* private data of the filter *)
  ctx_mta_prot_vers : Z;
  ctx_mta_pflags : Z;
  ctx_mta_aflags : Z;
  ctx_sid : Z;
  ctx_wstate : Z;
  ctx_wait : Z
}.
Arguments mk_ctx {P}.
Arguments ctx_id {P} _.
Arguments ctx_sd {P} _.
Arguments ctx_dbg {P} _.
Arguments ctx_timeout {P} _.
Arguments ctx_state {P} _.
Arguments ctx_prot_vers {P} _.
Arguments ctx_aflags {P} _.
Arguments ctx_pflags {P} _.
Arguments ctx_pflags2mta {P} _.
Arguments ctx_prot_vers2mta {P} _.
Arguments ctx_mac_ptr {P} _.
Arguments ctx_mac_buf {P} _.
Arguments ctx_mac_list {P} _.
Arguments ctx_reply {P} _.
Arguments ctx_privdata {P} _.
Arguments ctx_mta_prot_vers {P} _.
Arguments ctx_mta_pflags {P} _.
Arguments ctx_mta_aflags {P} _.
Arguments ctx_sid {P} _.
Arguments ctx_wstate {P} _.
Arguments ctx_wait {P} _.
Definition set_ctx_id {P} (v : Z) (r : smfi_str P) : smfi_str P :=
  mk_ctx v (ctx_sd r) (ctx_dbg r) (ctx_timeout r) (ctx_state r) (ctx_prot_vers r) (ctx_aflags r) (ctx_pflags r) (ctx_pflags2mta r) (ctx_prot_vers2mta r) (ctx_mac_ptr r) (ctx_mac_buf r) (ctx_mac_list r) (ctx_reply r) (ctx_privdata r) (ctx_mta_prot_vers r) (ctx_mta_pflags r) (ctx_mta_aflags r) (ctx_sid r) (ctx_wstate r) (ctx_wait r).
Definition set_ctx_sd {P} (v : Z) (r : smfi_str P) : smfi_str P :=
  mk_ctx (ctx_id r) v (ctx_dbg r) (ctx_timeout r) (ctx_state r) (ctx_prot_vers r) (ctx_aflags r) (ctx_pflags r) (ctx_pflags2mta r) (ctx_prot_vers2mta r) (ctx_mac_ptr r) (ctx_mac_buf r) (ctx_mac_list r) (ctx_reply r) (ctx_privdata r) (ctx_mta_prot_vers r) (ctx_mta_pflags r) (ctx_mta_aflags r) (ctx_sid r) (ctx_wstate r) (ctx_wait r).
Definition set_ctx_dbg {P} (v : Z) (r : smfi_str P) : smfi_str P :=
  mk_ctx (ctx_id r) (ctx_sd r) v (ctx_timeout r) (ctx_state r) (ctx_prot_vers r) (ctx_aflags r) (ctx_pflags r) (ctx_pflags2mta r) (ctx_prot_vers2mta r) (ctx_mac_ptr r) (ctx_mac_buf r) (ctx_mac_list r) (ctx_reply r) (ctx_privdata r) (ctx_mta_prot_vers r) (ctx_mta_pflags r) (ctx_mta_aflags r) (ctx_sid r) (ctx_wstate r) (ctx_wait r).
Definition set_ctx_timeout {P} (v : Z) (r : smfi_str P) : smfi_str P :=
  mk_ctx (ctx_id r) (ctx_sd r) (ctx_dbg r) v (ctx_state r) (ctx_prot_vers r) (ctx_aflags r) (ctx_pflags r) (ctx_pflags2mta r) (ctx_prot_vers2mta r) (ctx_mac_ptr r) (ctx_mac_buf r) (ctx_mac_list r) (ctx_reply r) (ctx_privdata r) (ctx_mta_prot_vers r) (ctx_mta_pflags r) (ctx_mta_aflags r) (ctx_sid r) (ctx_wstate r) (ctx_wait r).
Definition set_ctx_state {P} (v : Z) (r : smfi_str P) : smfi_str P :=
  mk_ctx (ctx_id r) (ctx_sd r) (ctx_dbg r) (ctx_timeout r) v (ctx_prot_vers r) (ctx_aflags r) (ctx_pflags r) (ctx_pflags2mta r) (ctx_prot_vers2mta r) (ctx_mac_ptr r) (ctx_mac_buf r) (ctx_mac_list r) (ctx_reply r) (ctx_privdata r) (ctx_mta_prot_vers r) (ctx_mta_pflags r) (ctx_mta_aflags r) (ctx_sid r) (ctx_wstate r) (ctx_wait r).
Definition set_ctx_prot_vers {P} (v : Z) (r : smfi_str P) : smfi_str P :=
  mk_ctx (ctx_id r) (ctx_sd r) (ctx_dbg r) (ctx_timeout r) (ctx_state r) v (ctx_aflags r) (ctx_pflags r) (ctx_pflags2mta r) (ctx_prot_vers2mta r) (ctx_mac_ptr r) (ctx_mac_buf r) (ctx_mac_list r) (ctx_reply r) (ctx_privdata r) (ctx_mta_prot_vers r) (ctx_mta_pflags r) (ctx_mta_aflags r) (ctx_sid r) (ctx_wstate r) (ctx_wait r).
Definition set_ctx_aflags {P} (v : Z) (r : smfi_str P) : smfi_str P :=
  mk_ctx (ctx_id r) (ctx_sd r) (ctx_dbg r) (ctx_timeout r) (ctx_state r) (ctx_prot_vers r) v (ctx_pflags r) (ctx_pflags2mta r) (ctx_prot_vers2mta r) (ctx_mac_ptr r) (ctx_mac_buf r) (ctx_mac_list r) (ctx_reply r) (ctx_privdata r) (ctx_mta_prot_vers r) (ctx_mta_pflags r) (ctx_mta_aflags r) (ctx_sid r) (ctx_wstate r) (ctx_wait r).
Definition set_ctx_pflags {P} (v : Z) (r : smfi_str P) : smfi_str P :=
  mk_ctx (ctx_id r) (ctx_sd r) (ctx_dbg r) (ctx_timeout r) (ctx_state r) (ctx_prot_vers r) (ctx_aflags r) v (ctx_pflags2mta r) (ctx_prot_vers2mta r) (ctx_mac_ptr r) (ctx_mac_buf r) (ctx_mac_list r) (ctx_reply r) (ctx_privdata r) (ctx_mta_prot_vers r) (ctx_mta_pflags r) (ctx_mta_aflags r) (ctx_sid r) (ctx_wstate r) (ctx_wait r).
Definition set_ctx_pflags2mta {P} (v : Z) (r : smfi_str P) : smfi_str P :=
  mk_ctx (ctx_id r) (ctx_sd r) (ctx_dbg r) (ctx_timeout r) (ctx_state r) (ctx_prot_vers r) (ctx_aflags r) (ctx_pflags r) v (ctx_prot_vers2mta r) (ctx_mac_ptr r) (ctx_mac_buf r) (ctx_mac_list r) (ctx_reply r) (ctx_privdata r) (ctx_mta_prot_vers r) (ctx_mta_pflags r) (ctx_mta_aflags r) (ctx_sid r) (ctx_wstate r) (ctx_wait r).
Definition set_ctx_prot_vers2mta {P} (v : Z) (r : smfi_str P) : smfi_str P :=
  mk_ctx (ctx_id r) (ctx_sd r) (ctx_dbg r) (ctx_timeout r) (ctx_state r) (ctx_prot_vers r) (ctx_aflags r) (ctx_pflags r) (ctx_pflags2mta r) v (ctx_mac_ptr r) (ctx_mac_buf r) (ctx_mac_list r) (ctx_reply r) (ctx_privdata r) (ctx_mta_prot_vers r) (ctx_mta_pflags r) (ctx_mta_aflags r) (ctx_sid r) (ctx_wstate r) (ctx_wait r).
Definition set_ctx_mac_ptr {P} (v : list (option (list (option nat)))) (r : smfi_str P) : smfi_str P :=
  mk_ctx (ctx_id r) (ctx_sd r) (ctx_dbg r) (ctx_timeout r) (ctx_state r) (ctx_prot_vers r) (ctx_aflags r) (ctx_pflags r) (ctx_pflags2mta r) (ctx_prot_vers2mta r) v (ctx_mac_buf r) (ctx_mac_list r) (ctx_reply r) (ctx_privdata r) (ctx_mta_prot_vers r) (ctx_mta_pflags r) (ctx_mta_aflags r) (ctx_sid r) (ctx_wstate r) (ctx_wait r).
Definition set_ctx_mac_buf {P} (v : list (option bytes)) (r : smfi_str P) : smfi_str P :=
  mk_ctx (ctx_id r) (ctx_sd r) (ctx_dbg r) (ctx_timeout r) (ctx_state r) (ctx_prot_vers r) (ctx_aflags r) (ctx_pflags r) (ctx_pflags2mta r) (ctx_prot_vers2mta r) (ctx_mac_ptr r) v (ctx_mac_list r) (ctx_reply r) (ctx_privdata r) (ctx_mta_prot_vers r) (ctx_mta_pflags r) (ctx_mta_aflags r) (ctx_sid r) (ctx_wstate r) (ctx_wait r).
Definition set_ctx_mac_list {P} (v : list (option bytes)) (r : smfi_str P) : smfi_str P :=
  mk_ctx (ctx_id r) (ctx_sd r) (ctx_dbg r) (ctx_timeout r) (ctx_state r) (ctx_prot_vers r) (ctx_aflags r) (ctx_pflags r) (ctx_pflags2mta r) (ctx_prot_vers2mta r) (ctx_mac_ptr r) (ctx_mac_buf r) v (ctx_reply r) (ctx_privdata r) (ctx_mta_prot_vers r) (ctx_mta_pflags r) (ctx_mta_aflags r) (ctx_sid r) (ctx_wstate r) (ctx_wait r).
Definition set_ctx_reply {P} (v : option bytes) (r : smfi_str P) : smfi_str P :=
  mk_ctx (ctx_id r) (ctx_sd r) (ctx_dbg r) (ctx_timeout r) (ctx_state r) (ctx_prot_vers r) (ctx_aflags r) (ctx_pflags r) (ctx_pflags2mta r) (ctx_prot_vers2mta r) (ctx_mac_ptr r) (ctx_mac_buf r) (ctx_mac_list r) v (ctx_privdata r) (ctx_mta_prot_vers r) (ctx_mta_pflags r) (ctx_mta_aflags r) (ctx_sid r) (ctx_wstate r) (ctx_wait r).
Definition set_ctx_privdata {P} (v : P) (r : smfi_str P) : smfi_str P :=
  mk_ctx (ctx_id r) (ctx_sd r) (ctx_dbg r) (ctx_timeout r) (ctx_state r) (ctx_prot_vers r) (ctx_aflags r) (ctx_pflags r) (ctx_pflags2mta r) (ctx_prot_vers2mta r) (ctx_mac_ptr r) (ctx_mac_buf r) (ctx_mac_list r) (ctx_reply r) v (ctx_mta_prot_vers r) (ctx_mta_pflags r) (ctx_mta_aflags r) (ctx_sid r) (ctx_wstate r) (ctx_wait r).
Definition set_ctx_mta_prot_vers {P} (v : Z) (r : smfi_str P) : smfi_str P :=
  mk_ctx (ctx_id r) (ctx_sd r) (ctx_dbg r) (ctx_timeout r) (ctx_state r) (ctx_prot_vers r) (ctx_aflags r) (ctx_pflags r) (ctx_pflags2mta r) (ctx_prot_vers2mta r) (ctx_mac_ptr r) (ctx_mac_buf r) (ctx_mac_list r) (ctx_reply r) (ctx_privdata r) v (ctx_mta_pflags r) (ctx_mta_aflags r) (ctx_sid r) (ctx_wstate r) (ctx_wait r).
Definition set_ctx_mta_pflags {P} (v : Z) (r : smfi_str P) : smfi_str P :=
  mk_ctx (ctx_id r) (ctx_sd r) (ctx_dbg r) (ctx_timeout r) (ctx_state r) (ctx_prot_vers r) (ctx_aflags r) (ctx_pflags r) (ctx_pflags2mta r) (ctx_prot_vers2mta r) (ctx_mac_ptr r) (ctx_mac_buf r) (ctx_mac_list r) (ctx_reply r) (ctx_privdata r) (ctx_mta_prot_vers r) v (ctx_mta_aflags r) (ctx_sid r) (ctx_wstate r) (ctx_wait r).
Definition set_ctx_mta_aflags {P} (v : Z) (r : smfi_str P) : smfi_str P :=
  mk_ctx (ctx_id r) (ctx_sd r) (ctx_dbg r) (ctx_timeout r) (ctx_state r) (ctx_prot_vers r) (ctx_aflags r) (ctx_pflags r) (ctx_pflags2mta r) (ctx_prot_vers2mta r) (ctx_mac_ptr r) (ctx_mac_buf r) (ctx_mac_list r) (ctx_reply r) (ctx_privdata r) (ctx_mta_prot_vers r) (ctx_mta_pflags r) v (ctx_sid r) (ctx_wstate r) (ctx_wait r).
Definition set_ctx_sid {P} (v : Z) (r : smfi_str P) : smfi_str P :=
  mk_ctx (ctx_id r) (ctx_sd r) (ctx_dbg r) (ctx_timeout r) (ctx_state r) (ctx_prot_vers r) (ctx_aflags r) (ctx_pflags r) (ctx_pflags2mta r) (ctx_prot_vers2mta r) (ctx_mac_ptr r) (ctx_mac_buf r) (ctx_mac_list r) (ctx_reply r) (ctx_privdata r) (ctx_mta_prot_vers r) (ctx_mta_pflags r) (ctx_mta_aflags r) v (ctx_wstate r) (ctx_wait r).
Definition set_ctx_wstate {P} (v : Z) (r : smfi_str P) : smfi_str P :=
  mk_ctx (ctx_id r) (ctx_sd r) (ctx_dbg r) (ctx_timeout r) (ctx_state r) (ctx_prot_vers r) (ctx_aflags r) (ctx_pflags r) (ctx_pflags2mta r) (ctx_prot_vers2mta r) (ctx_mac_ptr r) (ctx_mac_buf r) (ctx_mac_list r) (ctx_reply r) (ctx_privdata r) (ctx_mta_prot_vers r) (ctx_mta_pflags r) (ctx_mta_aflags r) (ctx_sid r) v (ctx_wait r).
Definition set_ctx_wait {P} (v : Z) (r : smfi_str P) : smfi_str P :=
  mk_ctx (ctx_id r) (ctx_sd r) (ctx_dbg r) (ctx_timeout r) (ctx_state r) (ctx_prot_vers r) (ctx_aflags r) (ctx_pflags r) (ctx_pflags2mta r) (ctx_prot_vers2mta r) (ctx_mac_ptr r) (ctx_mac_buf r) (ctx_mac_list r) (ctx_reply r) (ctx_privdata r) (ctx_mta_prot_vers r) (ctx_mta_pflags r) (ctx_mta_aflags r) (ctx_sid r) (ctx_wstate r) v.

(** ** The session's socket

    The bytes the MTA sends are [n_rx], those written to it [n_tx].  The
    kernel's answers to the system calls on the socket are given as one list
    per call: an answer is consumed by each call and a call with no answer
    left waits. *)

Inductive errno := EINTR | EAGAIN | EIO.

Inductive poll_ret :=
  | PTimeout
  | PErr (e : errno)
  | PReady (rd exc : bool).     (* readable or writable; error or hangup *)

Inductive read_ret :=
  | RErr (e : errno)
  | RAvail (n : nat).           (* bytes the kernel has buffered *)

Inductive writev_ret :=
  | WErr (e : errno)
  | WAccept (n : nat).          (* bytes the kernel accepts *)

Record net := mk_net {
  n_rx : bytes;
  n_tx : bytes;
  n_poll : list poll_ret;
  n_read : list read_ret;
  n_writev : list writev_ret
}.
Definition set_n_rx  (v : bytes) (r : net) : net :=
  mk_net v (n_tx r) (n_poll r) (n_read r) (n_writev r).
Definition set_n_tx  (v : bytes) (r : net) : net :=
  mk_net (n_rx r) v (n_poll r) (n_read r) (n_writev r).
Definition set_n_poll  (v : list poll_ret) (r : net) : net :=
  mk_net (n_rx r) (n_tx r) v (n_read r) (n_writev r).
Definition set_n_read  (v : list read_ret) (r : net) : net :=
  mk_net (n_rx r) (n_tx r) (n_poll r) v (n_writev r).
Definition set_n_writev  (v : list writev_ret) (r : net) : net :=
  mk_net (n_rx r) (n_tx r) (n_poll r) (n_read r) v.

(** Callbacks, for the ghost trace of the calls the library makes. *)
Inductive callback :=
  | CbConnect | CbHelo | CbEnvfrom | CbEnvrcpt | CbHeader | CbEoh | CbBody
  | CbEom | CbAbort | CbClose | CbUnknown | CbData | CbNegotiate.

#[global] Instance callback_eq_dec : EqDecision callback.
Proof. solve_decision. Defined.

(** ** What a session thread acts on

    [w_next_states] and [w_maxdatasize] are static variables of the library
    (engine.c, comm.c), shared by all sessions.  [w_stop] are the values the
    thread finds in [MilterStop], [w_oom] the [malloc] calls that fail, both
    in the order of the calls; past their ends the filter runs on and [malloc]
    succeeds.  [w_app] is the filter's own memory.  [w_trace] is ghost: the
    callbacks made so far. *)
Record world (P : Type) (S : Type) := mk_world {
  w_ctx : smfi_str P;
  w_net : net;
  w_next_states : list Z;
  w_maxdatasize : Z;
  w_stop : list Z;
  w_oom : list bool;
  w_app : S;
  w_trace : list callback
}.
Arguments mk_world {P S}.
Arguments w_ctx {P S} _.
Arguments w_net {P S} _.
Arguments w_next_states {P S} _.
Arguments w_maxdatasize {P S} _.
Arguments w_stop {P S} _.
Arguments w_oom {P S} _.
Arguments w_app {P S} _.
Arguments w_trace {P S} _.
Definition set_w_ctx {P} {S} (v : smfi_str P) (r : world P S) : world P S :=
  mk_world v (w_net r) (w_next_states r) (w_maxdatasize r) (w_stop r) (w_oom r) (w_app r) (w_trace r).
Definition set_w_net {P} {S} (v : net) (r : world P S) : world P S :=
  mk_world (w_ctx r) v (w_next_states r) (w_maxdatasize r) (w_stop r) (w_oom r) (w_app r) (w_trace r).
Definition set_w_next_states {P} {S} (v : list Z) (r : world P S) : world P S :=
  mk_world (w_ctx r) (w_net r) v (w_maxdatasize r) (w_stop r) (w_oom r) (w_app r) (w_trace r).
Definition set_w_maxdatasize {P} {S} (v : Z) (r : world P S) : world P S :=
  mk_world (w_ctx r) (w_net r) (w_next_states r) v (w_stop r) (w_oom r) (w_app r) (w_trace r).
Definition set_w_stop {P} {S} (v : list Z) (r : world P S) : world P S :=
  mk_world (w_ctx r) (w_net r) (w_next_states r) (w_maxdatasize r) v (w_oom r) (w_app r) (w_trace r).
Definition set_w_oom {P} {S} (v : list bool) (r : world P S) : world P S :=
  mk_world (w_ctx r) (w_net r) (w_next_states r) (w_maxdatasize r) (w_stop r) v (w_app r) (w_trace r).
Definition set_w_app {P} {S} (v : S) (r : world P S) : world P S :=
  mk_world (w_ctx r) (w_net r) (w_next_states r) (w_maxdatasize r) (w_stop r) (w_oom r) v (w_trace r).
Definition set_w_trace {P} {S} (v : list callback) (r : world P S) : world P S :=
  mk_world (w_ctx r) (w_net r) (w_next_states r) (w_maxdatasize r) (w_stop r) (w_oom r) (w_app r) v.

(** A context after [memset(ctx, '\0', sizeof *ctx)], with its private data. *)
Definition zero_ctx {P : Type} (p : P) : smfi_str P :=
  mk_ctx 0 0 0 0 0 0 0 0 0 0 (replicate MAX_MACROS_ENTRIES None)
    (replicate MAX_MACROS_ENTRIES None) (replicate MAX_MACROS_ENTRIES None)
    None p 0 0 0 0 0 0.

Section access.
Context {P S : Type}.
Implicit Types w : world P S.

Definition getc {A} (f : smfi_str P -> A) : cM (world P S) A := gets (fun w => f (w_ctx w)).
Definition modc (f : smfi_str P -> smfi_str P) : cM (world P S) unit :=
  modify (fun w => set_w_ctx (f (w_ctx w)) w).
Definition getn {A} (f : net -> A) : cM (world P S) A := gets (fun w => f (w_net w)).
Definition modn (f : net -> net) : cM (world P S) unit :=
  modify (fun w => set_w_net (f (w_net w)) w).

(** [malloc] of the thread: true when it gives memory. *)
Definition malloc_ok : cM (world P S) bool := fun w =>
  match w_oom w with
  | [] => Done true w
  | failed :: rest => Done (negb failed) (set_w_oom rest w)
  end.

(** signal.c, mi_stop: the value of [MilterStop]. *)
Definition mi_stop : cM (world P S) Z := fun w =>
  match w_stop w with
  | [] => Done MILTER_CONT w
  | v :: rest => Done v (set_w_stop rest w)
  end.

End access.

(** Socket addresses as [st_connectinfo] builds them ([union bigsockaddr]). *)
Inductive sockaddr :=
  | SA_INET (addr : bytes) (port : Z)
  | SA_UNIX (path : bytes).

(** ** The filter descriptor: [struct smfiDesc] of mfapi.h; a NULL callback is
    [None].  [W] is the state the callbacks act on. *)
Record smfiDesc (W : Type) := mk_smfiDesc {
  xxfi_name : bytes;
  xxfi_version : Z;
  xxfi_flags : Z;
  xxfi_connect : option (bytes -> option sockaddr -> cM W Z);
  xxfi_helo : option (bytes -> cM W Z);
  xxfi_envfrom : option (list bytes -> cM W Z);
  xxfi_envrcpt : option (list bytes -> cM W Z);
  xxfi_header : option (bytes -> bytes -> cM W Z);
  xxfi_eoh : option (cM W Z);
  xxfi_body : option (option bytes -> Z -> cM W Z);
  xxfi_eom : option (cM W Z);
  xxfi_abort : option (cM W Z);
  xxfi_close : option (cM W Z);
  xxfi_unknown : option (option bytes -> cM W Z);
  xxfi_data : option (cM W Z);
  (* f0 f1 f2 f3 and the values *pf0 *pf1 on entry; the result and the values on return *)
  xxfi_negotiate : option (Z -> Z -> Z -> Z -> Z -> Z -> cM W (Z * Z * Z))
}.
Arguments xxfi_name {W} _.
Arguments xxfi_version {W} _.
Arguments xxfi_flags {W} _.
Arguments xxfi_connect {W} _.
Arguments xxfi_helo {W} _.
Arguments xxfi_envfrom {W} _.
Arguments xxfi_envrcpt {W} _.
Arguments xxfi_header {W} _.
Arguments xxfi_eoh {W} _.
Arguments xxfi_body {W} _.
Arguments xxfi_eom {W} _.
Arguments xxfi_abort {W} _.
Arguments xxfi_close {W} _.
Arguments xxfi_unknown {W} _.
Arguments xxfi_data {W} _.
Arguments xxfi_negotiate {W} _.
