(* ===== verification/Comm.v ===== *)
(** * Framing on the MTA socket: libmilter/comm.c

    [mi_rd_cmd] reads one length-prefixed command, [mi_wr_cmd] writes one
    reply through [retry_writev].  The theorems: what is written is the frame
    of the reply, whole or as a prefix when the socket fails; a frame sent by
    the MTA is read back unchanged however the kernel fragments it; no command
    is made of anything but the bytes at the head of the stream. *)

From stdpp Require Import base list numbers strings.
From Stdlib Require Import Strings.Byte ZArith Lia.
From S2P Require Import Prelude Mfdef.
Local Open Scope cM_scope.

(** ** System calls *)

(** [read(sd, p, n)]: at most [n] of the bytes that have arrived; the empty
    answer is end of file. *)
Definition sys_read (n : nat) : cM net (bytes + errno) := fun s =>
  match n_read s with
  | [] => Blocked s
  | RErr e :: rs => Done (inr e) (set_n_read rs s)
  | RAvail k :: rs =>
      let m := Nat.min n k in
      Done (inl (take m (n_rx s))) (set_n_read rs (set_n_rx (drop m (n_rx s)) s))
  end.

(** [writev(fd, iov, iovcnt)] *)
Definition sys_writev (iov : list bytes) : cM net (nat + errno) := fun s =>
  match n_writev s with
  | [] => Blocked s
  | WErr e :: ws => Done (inr e) (set_n_writev ws s)
  | WAccept k :: ws =>
      let m := Nat.min k (length (concat iov)) in
      Done (inl m) (set_n_writev ws (set_n_tx (n_tx s ++ take m (concat iov)) s))
  end.

(** ** mi_rd_cmd *)

(** One of the two read loops of [mi_rd_cmd]: poll, then read until [need]
    bytes are there; [acc] holds the bytes read so far ([i] is its length).
    An error is returned as the code put in [*cmd]. *)
Fixpoint rd_loop (need : nat) (polls : list poll_ret) (acc : bytes) : cM net (bytes + byte) := fun s =>
  match polls with
  | [] => Blocked (set_n_poll [] s)
  | PTimeout :: ps => Done (inr SMFIC_TIMEOUT) (set_n_poll ps s)
  | PErr EINTR :: ps => rd_loop need ps acc (set_n_poll ps s)
  | PErr _ :: ps => Done (inr SMFIC_RECVERR) (set_n_poll ps s)
  | PReady _ exc :: ps =>
      if exc then Done (inr SMFIC_SELECT) (set_n_poll ps s)
      else
        match sys_read (need - length acc) (set_n_poll ps s) with
        | Done (inr _) s' => Done (inr SMFIC_RECVERR) s'
        | Done (inl got) s' =>
            if (length got =? 0)%nat then Done (inr SMFIC_EOF) s'
            else if (need - length acc <? length got)%nat then Done (inr SMFIC_RECVERR) s'
            else if (need - length acc <=? length got)%nat then Done (inl (acc ++ got)) s'
            else rd_loop need ps (acc ++ got) s'
        | Blocked s' => Blocked s'
        | Exited c s' => Exited c s'
        | Undef f s' => Undef f s'
        end
  end.

(** The length and the command character: [data\[MILTER_LEN_BYTES + 1\]]. *)
Definition rd_header : cM net (bytes + byte) := fun s =>
  rd_loop (MILTER_LEN_BYTES + 1) (n_poll s) [] s.

(** The rest of the command, [expl] bytes. *)
Definition rd_body (expl : nat) : cM net (bytes + byte) := fun s =>
  rd_loop expl (n_poll s) [] s.

(** ** retry_writev *)

(** The inner loop: [n] bytes were written; the vectors advance and the flag
    says whether all of them are done ([i == iovcnt]). *)
Fixpoint iov_advance (n : nat) (iov : list bytes) : list bytes * bool :=
  match iov with
  | [] => ([], true)
  | b :: r =>
      if (n <? length b)%nat then (drop n b :: r, false)
      else let (r', d) := iov_advance (n - length b) r in ([] :: r', d)
  end.

(** The leading empty vectors are skipped. *)
Fixpoint iov_skip (iov : list bytes) : list bytes :=
  match iov with
  | [] :: r => iov_skip r
  | _ => iov
  end.

Fixpoint retry_writev (polls : list poll_ret) (iov : list bytes) (written : nat) : cM net Z := fun s =>
  match iov_skip iov with
  | [] => Done (Z.of_nat written) s
  | iov1 =>
      match polls with
      | [] => Blocked (set_n_poll [] s)
      | PTimeout :: ps => Done MI_FAILURE (set_n_poll ps s)
      | PErr EIO :: ps => Done MI_FAILURE (set_n_poll ps s)
      | PErr _ :: ps => retry_writev ps iov1 written (set_n_poll ps s)
      | PReady _ _ :: ps =>
          match sys_writev iov1 (set_n_poll ps s) with
          | Done (inr EIO) s' => Done MI_FAILURE s'
          | Done (inr _) s' => retry_writev ps iov1 written s'
          | Done (inl n) s' =>
              let (iov', done) := iov_advance n iov1 in
              if done then Done (Z.of_nat (written + n)) s'
              else retry_writev ps iov' (written + n) s'
          | Blocked s' => Blocked s'
          | Exited c s' => Exited c s'
          | Undef f s' => Undef f s'
          end
      end
  end.

Section comm.
Context {P S : Type}.
Abbreviation W := (world P S).
Local Open Scope Z_scope.

(** A function on the socket run in a session. *)
Definition liftn {A} (m : cM net A) : cM W A := fun w =>
  match m (w_net w) with
  | Done a s => Done a (set_w_net s w)
  | Blocked s => Blocked (set_w_net s w)
  | Exited c s => Exited c (set_w_net s w)
  | Undef f s => Undef f (set_w_net s w)
  end.

(** Returns the buffer, [*cmd] and [*rlen]; errors are encoded in [*cmd]. *)
Definition mi_rd_cmd : cM W (option bytes * byte * Z) :=
  let* h := liftn rd_header in
  match h with
  | inr e => ret (None, e, 0)
  | inl data =>
      let* cmd := deref OutOfBounds (data !! MILTER_LEN_BYTES) in
      let* n := deref OutOfBounds (de32 data 0) in
      let expl := s32 (u32 (n - 1)) in
      if expl <=? 0 then ret (None, cmd, 0)
      else
        let* maxd := gets w_maxdatasize in
        if maxd <? expl then ret (None, SMFIC_TOOBIG, 0)
        else
          let* ok := malloc_ok in
          if negb ok then ret (None, SMFIC_MALLOC, 0)
          else
            let* b := liftn (rd_body (Z.to_nat expl)) in
            match b with
            | inr e => ret (None, e, 0)
            | inl buf => ret (Some buf, cmd, expl)
            end
  end.

(** smfi_setmaxdatasize returns the old limit. *)
Definition smfi_setmaxdatasize (sz : Z) : cM W Z :=
  let* old := gets w_maxdatasize in
  modify (set_w_maxdatasize sz) ;;; ret old.

(** [buf], [len]: the data to send; [len] bytes of [buf] are read. *)
Definition mi_wr_cmd (cmd : byte) (buf : option bytes) (len : Z) : cM W Z :=
  let* maxd := gets w_maxdatasize in
  if (maxd <? len) || ((0 <? len) && negb (bool_decide (is_Some buf))) then ret MI_FAILURE
  else
    let data := be32 (u32 (len + 1)) ++ [cmd] in
    let* iov :=
      match buf with
      | None => ret [data]
      | Some b =>
          if Z.of_nat (length b) <? len then undef OutOfBounds
          else ret [data; take (Z.to_nat len) b]
      end in
    let* l := liftn (fun s => retry_writev (n_poll s) iov 0 s) in
    if l =? MI_FAILURE then ret MI_FAILURE else ret MI_SUCCESS.

End comm.

(** ** Properties *)

(** The frame of a command or reply: length of character and data, character,
    data. *)
Definition frame (cmd : byte) (payload : bytes) : bytes :=
  be32 (Z.of_nat (length payload) + 1) ++ cmd :: payload.

Lemma length_frame cmd p : length (frame cmd p) = (5 + length p)%nat.
Proof. done. Qed.

(** What a read loop does to the stream, however it ends: it takes bytes from
    the head only, and on success exactly the ones still needed. *)
Lemma rd_loop_stream need polls : forall acc s,
  (length acc < need)%nat ->
  ends (fun r s' => n_tx s' = n_tx s /\
          match r with
          | inl b => exists got, b = acc ++ got /\ length b = need /\ n_rx s = got ++ n_rx s'
          | inr e => (uchar e < uchar SMFIC_VALIDCMD)%Z
          end)
       (fun s' => n_tx s' = n_tx s) (rd_loop need polls acc s).
Proof.
  induction polls as [|p ps IH]; intros acc s Hacc; simpl; [done|].
  destruct p as [|[]|rd exc]; simpl; try done.
  - apply (IH acc (set_n_poll ps s)); lia.
  - destruct exc; [done|]. unfold sys_read. simpl.
    destruct (n_read s) as [|[e|k] rs] eqn:Hr; simpl; try done.
    rewrite length_take.
    set (m := Nat.min (need - length acc) k).
    destruct (Nat.eqb_spec (m `min` length (n_rx s)) 0); [done|].
    destruct (Nat.ltb_spec (need - length acc) (m `min` length (n_rx s))); [done|].
    destruct (Nat.leb_spec (need - length acc) (m `min` length (n_rx s))) as [Hge|Hlt].
    + simpl. split; [done|]. exists (take m (n_rx s)). split; [done|].
      split; [rewrite length_app, length_take; lia|]. by rewrite take_drop.
    + eapply ends_mono; [apply IH; rewrite length_app, length_take; lia| |done].
      simpl. intros [b|e] s' [Htx Hb]; (split; [done|]); [|done].
      destruct Hb as (got & -> & Hl & Hrx). exists (take m (n_rx s) ++ got).
      rewrite <- !app_assoc in *. split; [done|]. split; [done|].
      by rewrite <- Hrx, take_drop.
Qed.

(** The loop has no undefined behaviour of its own. *)
Lemma rd_loop_total need polls : forall acc s,
  match rd_loop need polls acc s with Exited _ _ | Undef _ _ => False | _ => True end.
Proof.
  induction polls as [|p ps IH]; intros acc s; simpl; [done|].
  destruct p as [|[]|rd []]; simpl; try done; [apply IH|].
  unfold sys_read. simpl. destruct (n_read s) as [|[]]; simpl; try done.
  destruct (_ =? _)%nat; [done|]. destruct (_ <? _)%nat; [done|].
  destruct (_ <=? _)%nat; [done|]. apply IH.
Qed.

(** A socket on which every call succeeds in the end: polls are interrupted or
    report data, reads deliver at least one byte. *)
Definition patient (p : poll_ret) : Prop :=
  match p with PErr EINTR | PReady _ false => True | _ => False end.
Definition delivers (r : read_ret) : Prop :=
  match r with RAvail k => (0 < k)%nat | RErr _ => False end.
Fixpoint ready_count (ps : list poll_ret) : nat :=
  match ps with
  | [] => 0
  | PReady _ _ :: ps' => S (ready_count ps')
  | _ :: ps' => ready_count ps'
  end.

Record lively (n : nat) (s : net) : Prop := {
  lively_poll : Forall patient (n_poll s);
  lively_read : Forall delivers (n_read s);
  lively_polls : (n <= ready_count (n_poll s))%nat;
  lively_reads : (n <= length (n_read s))%nat
}.

Lemma rd_loop_live need polls : forall acc s n,
  lively (need - length acc + n) (set_n_poll polls s) ->
  (length acc < need)%nat -> (need - length acc <= length (n_rx s))%nat ->
  exists s', rd_loop need polls acc s =
               Done (inl (acc ++ take (need - length acc) (n_rx s))) s'
             /\ n_rx s' = drop (need - length acc) (n_rx s)
             /\ lively n s' /\ n_tx s' = n_tx s.
Proof.
  induction polls as [|p ps IH]; intros acc s n [Hp Hr Hc Hl] Hacc Hrx; simpl in *; [lia|].
  inversion Hp as [|? ? Hp1 Hps]; subst.
  destruct p as [|[]|rd []]; try done; simpl in *.
  - destruct (IH acc (set_n_poll ps s) n) as (s' & -> & ?); simpl; eauto.
    by split.
  - unfold sys_read; simpl. destruct (n_read s) as [|[e|k] rs] eqn:Er; simpl in *; [lia| |].
    { inversion Hr; subst; done. }
    inversion Hr as [|? ? Hk Hrs]; subst. simpl in Hk.
    rewrite length_take. set (m := Nat.min (need - length acc) k).
    assert (0 < m <= length (n_rx s))%nat by lia.
    rewrite (proj2 (Nat.eqb_neq _ _)) by lia.
    rewrite (proj2 (Nat.ltb_ge _ _)) by lia.
    destruct (Nat.leb_spec (need - length acc) (m `min` length (n_rx s))) as [Hge|Hlt].
    + replace m with (need - length acc)%nat by lia.
      eexists. split; [done|]. simpl. split; [done|]. split; [|done].
      split; simpl; try done; lia.
    + destruct (IH (acc ++ take m (n_rx s))
                  (set_n_read rs (set_n_rx (drop m (n_rx s)) (set_n_poll ps s))) n)
        as (s' & E & Erx & Elv & Etx); simpl.
      * rewrite length_app, length_take. split; simpl; try done; lia.
      * rewrite length_app, length_take; lia.
      * rewrite length_app, length_take, length_drop; lia.
      * rewrite E. exists s'. rewrite length_app, length_take in *. simpl in *.
        split; [|split; [|split; [done|done]]].
        -- do 2 f_equal. rewrite <- app_assoc. f_equal.
           rewrite take_take_drop. f_equal. lia.
        -- rewrite Erx, drop_drop. f_equal. lia.
Qed.

Lemma iov_advance_spec iov : forall n, (n <= length (concat iov))%nat ->
  concat (iov_advance n iov).1 = drop n (concat iov) /\
  ((iov_advance n iov).2 = true -> drop n (concat iov) = []).
Proof.
  induction iov as [|b r IH]; intros n Hn; simpl in *.
  { by rewrite drop_nil. }
  rewrite length_app in Hn.
  destruct (Nat.ltb_spec n (length b)) as [Hlt|Hge]; simpl.
  - split; [|done]. by rewrite drop_app_le by lia.
  - destruct (IH (n - length b)%nat) as [E1 E2]; [lia|].
    destruct (iov_advance (n - length b) r) as [r' d]; simpl in *.
    rewrite drop_app_ge by lia. done.
Qed.

#[local] Arguments iov_advance : simpl never.

Lemma iov_skip_concat iov : concat (iov_skip iov) = concat iov.
Proof. induction iov as [|[|c b] r IH]; simpl; auto. Qed.

Lemma retry_writev_total polls : forall iov written s,
  match retry_writev polls iov written s with Exited _ _ | Undef _ _ => False | _ => True end.
Proof.
  induction polls as [|p ps IH]; intros iov written s; simpl; destruct (iov_skip iov); try done.
  destruct p as [|[]|]; try done; try apply IH.
  unfold sys_writev. simpl. destruct (n_writev s) as [|[[]|k]]; simpl; try done; try apply IH.
  destruct (iov_advance _ _) as [? []]; [done|apply IH].
Qed.

(** However the writes go, what reaches the socket is a prefix of the vectors;
    a result other than [MI_FAILURE] means all of it did. *)
Lemma retry_writev_stream polls : forall iov written s,
  ends (fun r s' => n_rx s' = n_rx s /\ exists sent, sent `prefix_of` concat iov /\
          n_tx s' = n_tx s ++ sent /\
          (r = MI_FAILURE \/ (sent = concat iov /\ r = Z.of_nat (written + length sent))))
       (fun s' => exists sent, sent `prefix_of` concat iov /\ n_tx s' = n_tx s ++ sent)
       (retry_writev polls iov written s).
Proof.
  induction polls as [|p ps IH]; intros iov written s; simpl;
    rewrite <- (iov_skip_concat iov); destruct (iov_skip iov) as [|b r]; simpl.
  1,3: split; [done|]; exists []; rewrite app_nil_r; split; [apply prefix_nil|];
       split; [done|]; right; split; [done|]; simpl; lia.
  { exists []. split; [apply prefix_nil|]. by rewrite app_nil_r. }
  assert (forall s', n_rx s' = n_rx s -> n_tx s' = n_tx s ->
    n_rx s' = n_rx s /\ exists sent, sent `prefix_of` b ++ concat r /\ n_tx s' = n_tx s ++ sent /\
      (MI_FAILURE = MI_FAILURE \/ (sent = b ++ concat r /\ MI_FAILURE = Z.of_nat (written + length sent)))) as Hfail.
  { intros s' ? Htx. split; [done|]. exists []. rewrite app_nil_r.
    split; [apply prefix_nil|]. auto. }
  destruct p as [|[]|rd exc]; simpl; try (apply Hfail; done).
  1,2: apply (IH (b :: r) written (set_n_poll ps s)).
  unfold sys_writev; simpl. destruct (n_writev s) as [|[[]|k] ws] eqn:Hw; simpl.
  { exists []. split; [apply prefix_nil|]. by rewrite app_nil_r. }
  1,2: apply (IH (b :: r) written (set_n_writev ws (set_n_poll ps s))).
  { apply Hfail; done. }
  set (m := Nat.min k (length (b ++ concat r))).
  destruct (iov_advance_spec (b :: r) m) as [E1 E2]; [simpl; lia|].
  destruct (iov_advance m (b :: r)) as [iov' []]; simpl in *.
  - specialize (E2 eq_refl). split; [done|]. exists (take m (b ++ concat r)).
    split; [by exists (drop m (b ++ concat r)); rewrite take_drop|]. split; [done|]. right.
    rewrite <- (take_drop m (b ++ concat r)) at 2. rewrite E2, app_nil_r.
    split; [done|]. f_equal. rewrite length_take. lia.
  - eapply ends_mono; [apply (IH iov' (written + m)%nat)| |]; simpl.
    + intros v s' [Hrx (sent & [t Hpre] & Htx & Hv)]. split; [done|].
      exists (take m (b ++ concat r) ++ sent). rewrite E1 in *. split; [|split].
      * exists t. by rewrite <- app_assoc, <- Hpre, take_drop.
      * by rewrite Htx, app_assoc.
      * destruct Hv as [->|[-> ->]]; [by left|right]. rewrite take_drop. split; [done|].
        f_equal. rewrite length_drop. lia.
    + intros s' (sent & [t Hpre] & Htx). exists (take m (b ++ concat r) ++ sent).
      rewrite E1 in *. split; [exists t; by rewrite <- app_assoc, <- Hpre, take_drop|].
      by rewrite Htx, app_assoc.
Qed.

Section comm_props.
Context {P S : Type}.
Implicit Types w : world P S.
Local Open Scope Z_scope.

Lemma liftn_ends {A} (Q : A -> net -> Prop) (R : net -> Prop) (m : cM net A) w :
  ends Q R (m (w_net w)) ->
  ends (fun a w' => w' = set_w_net (w_net w') w /\ Q a (w_net w'))
       (fun w' => w' = set_w_net (w_net w') w /\ R (w_net w')) (liftn m w).
Proof. unfold liftn. destruct (m (w_net w)); simpl; auto. Qed.

(** The effect of writing the bytes [f]: a prefix of them was sent; with
    [MI_SUCCESS], all of them.  Nothing but the socket changes. *)
Definition wrote (f : bytes) (w : world P S) : Z -> world P S -> Prop := fun r w' =>
  w' = set_w_net (w_net w') w /\ n_rx (w_net w') = n_rx (w_net w) /\
  exists sent, sent `prefix_of` f /\ n_tx (w_net w') = n_tx (w_net w) ++ sent /\
    (r = MI_FAILURE \/ (r = MI_SUCCESS /\ sent = f)).
Definition wrote_part (f : bytes) (w : world P S) : world P S -> Prop := fun w' =>
  w' = set_w_net (w_net w') w /\
  exists sent, sent `prefix_of` f /\ n_tx (w_net w') = n_tx (w_net w) ++ sent.

Lemma wr_iov_stream v f w :
  concat v = f ->
  ends (wrote f w) (wrote_part f w)
    (bind (liftn (fun s => retry_writev (n_poll s) v 0 s))
       (fun l => if l =? MI_FAILURE then ret MI_FAILURE else ret MI_SUCCESS) w).
Proof.
  intros Hv. unfold bind.
  pose proof (liftn_ends _ _ (fun s => retry_writev (n_poll s) v 0 s) w
                (retry_writev_stream (n_poll (w_net w)) v 0 (w_net w))) as H.
  destruct (liftn _ w); simpl in H; rewrite Hv in H; try done.
  destruct H as (Hw & Hrx & sent & Hpre & Htx & Hr).
  destruct (Z.eqb_spec a MI_FAILURE); (split; [done|]); (split; [done|]); exists sent;
    (split; [done|]); (split; [done|]); [by left|right].
  destruct Hr as [?|[-> _]]; done.
Qed.

Lemma mi_wr_cmd_stream cmd (buf : option bytes) w :
  let len := Z.of_nat (length (default [] buf)) in
  len + 1 < 2 ^ 32 ->
  ends (wrote (frame cmd (default [] buf)) w) (wrote_part (frame cmd (default [] buf)) w)
       (mi_wr_cmd cmd buf len w).
Proof.
  intros len Hlen. unfold mi_wr_cmd. unfold bind at 1, gets. cbv beta iota.
  destruct (_ || _).
  { split; [by destruct w|]. split; [done|]. exists []. rewrite app_nil_r.
    split; [apply prefix_nil|]. auto. }
  rewrite u32_small by lia. destruct buf as [b|]; simpl default in *.
  - rewrite (proj2 (Z.ltb_ge _ _)) by lia. rewrite bind_ret_l.
    apply wr_iov_stream. unfold len, frame. rewrite Nat2Z.id, take_ge by lia.
    simpl. by rewrite app_nil_r.
  - rewrite bind_ret_l. by apply wr_iov_stream.
Qed.

Lemma mi_wr_cmd_total cmd (buf : option bytes) w :
  match mi_wr_cmd cmd buf (Z.of_nat (length (default [] buf))) w with
  | Exited _ _ | Undef _ _ => False | _ => True end.
Proof.
  unfold mi_wr_cmd. unfold bind at 1, gets. cbv beta iota. destruct (_ || _); [done|].
  assert (forall v, match bind (liftn (fun s => retry_writev (n_poll s) v 0 s))
       (fun l => if l =? MI_FAILURE then ret MI_FAILURE else ret MI_SUCCESS) w with
     | Exited _ _ | Undef _ _ => False | _ => True end) as H.
  { intros v. unfold bind, liftn. pose proof (retry_writev_total (n_poll (w_net w)) v 0 (w_net w)).
    destruct (retry_writev _ _ _ _); try done. by destruct (_ =? _). }
  destruct buf as [b|]; simpl default.
  - rewrite (proj2 (Z.ltb_ge _ _)) by lia. apply H.
  - apply H.
Qed.

Lemma mi_rd_cmd_lively cmd p rest w :
  n_rx (w_net w) = frame cmd p ++ rest ->
  lively (5 + length p) (w_net w) -> w_oom w = [] ->
  Z.of_nat (length p) <= w_maxdatasize w -> Z.of_nat (length p) + 1 < 2 ^ 31 ->
  exists w', mi_rd_cmd w = Done (if decide (p = []) then None else Some p, cmd, Z.of_nat (length p)) w'
             /\ n_rx (w_net w') = rest.
Proof.
  intros Hrx Hlv Hoom Hmax Hlen. unfold mi_rd_cmd, bind, liftn, rd_header.
  destruct (rd_loop_live 5 (n_poll (w_net w)) [] (w_net w) (length p)) as (s1 & E1 & Erx1 & Elv1 & _);
    simpl length; [by destruct Hlv|lia|rewrite Hrx, length_app, length_frame; lia|].
  change (MILTER_LEN_BYTES + 1)%nat with 5%nat. rewrite E1.
  change (5 - length (@nil byte))%nat with 5%nat in *.
  rewrite Hrx in Erx1 |- *.
  change (take 5 (frame cmd p ++ rest)) with (be32 (Z.of_nat (length p) + 1) ++ [cmd]).
  change (drop 5 (frame cmd p ++ rest)) with (p ++ rest) in Erx1.
  rewrite app_nil_l. cbv beta iota. rewrite de32_be32, u32_small by lia.
  change (((be32 (Z.of_nat (length p) + 1) ++ [cmd]) !! MILTER_LEN_BYTES)) with (Some cmd).
  unfold deref, ret, gets, malloc_ok.
  replace (Z.of_nat (length p) + 1 - 1) with (Z.of_nat (length p)) by lia.
  rewrite u32_small, s32_small by lia.
  destruct (Z.leb_spec (Z.of_nat (length p)) 0) as [H0|H0].
  - destruct p; [|simpl in H0; lia]. rewrite decide_True by done. by eexists.
  - rewrite decide_False by (by intros ->).
    simpl. rewrite (proj2 (Z.ltb_ge _ _)) by lia. simpl. rewrite Hoom. simpl.
    rewrite Nat2Z.id. unfold rd_body.
    destruct (rd_loop_live (length p) (n_poll s1) [] s1 0) as (s2 & E2 & Erx2 & _ & _); simpl length.
    + rewrite Nat.sub_0_r, Nat.add_0_r. by destruct Elv1.
    + lia.
    + rewrite Erx1, length_app. lia.
    + rewrite E2. rewrite Nat.sub_0_r, Erx1 in *.
      rewrite take_app_length. rewrite drop_app_length in Erx2. simpl. eexists; split; done.
Qed.

End comm_props.

(** ** Theorems *)


(** Whatever the kernel answers, [mi_wr_cmd] sends nothing but a prefix of
    the reply's frame, and all of it when it reports success; nothing else of
    the session changes and no access is invalid. *)
Theorem mi_wr_cmd_prefix {P S} (cmd : byte) (p : bytes) (w : world P S)
  (Hlen : (Z.of_nat (length p) + 1 < 2 ^ 32)%Z) :
  match mi_wr_cmd cmd (Some p) (Z.of_nat (length p)) w with
  | Done r w' =>
      w' = set_w_net (w_net w') w /\ n_rx (w_net w') = n_rx (w_net w) /\
      exists sent, sent `prefix_of` frame cmd p /\ n_tx (w_net w') = n_tx (w_net w) ++ sent /\
        (r = MI_FAILURE \/ (r = MI_SUCCESS /\ sent = frame cmd p))
  | Blocked w' =>
      exists sent, sent `prefix_of` frame cmd p /\ n_tx (w_net w') = n_tx (w_net w) ++ sent
  | Exited _ _ | Undef _ _ => False
  end.
Proof.
  pose proof (mi_wr_cmd_stream cmd (Some p) w Hlen) as H.
  pose proof (mi_wr_cmd_total cmd (Some p) w) as T. simpl default in *.
  destruct (mi_wr_cmd _ _ _ _); try done. by destruct H.
Qed.

(** A session whose socket answers the calls in [polls], [reads], [writes]. *)
Definition sample_world (rx : bytes) polls reads writes : world unit unit :=
  mk_world (zero_ctx tt) (mk_net rx [] polls reads writes) [] MILTER_MAX_DATA_SIZE [] [] tt [].

Lemma mi_wr_cmd_prefix_witness :
  match mi_wr_cmd "c"%byte (Some []) 0 (sample_world [] [PReady true false] [] [WAccept 3]) with
  | Blocked w' => exists sent, sent `prefix_of` frame "c"%byte [] /\ n_tx (w_net w') = [] ++ sent
  | _ => False
  end.
Proof.
  pose proof (mi_wr_cmd_prefix "c"%byte [] (sample_world [] [PReady true false] [] [WAccept 3])
                ltac:(simpl; lia)) as H.
  vm_compute in H |- *. exact H.
Defined.

(** C16: what [mi_wr_cmd] writes on one end is read back by [mi_rd_cmd] on the
    other, character and data unchanged and the rest of the stream untouched,
    however the kernel fragments or interrupts the transfer (empty data is
    read as a NULL buffer of length 0). *)
Theorem frame_roundtrip {P S P' S'} (w1 w1' : world P S) (w2 : world P' S')
  (cmd : byte) (p rest : bytes)
  (Hmax : (Z.of_nat (length p) <= w_maxdatasize w2)%Z)
  (Hlen : (Z.of_nat (length p) + 1 < 2 ^ 31)%Z)
  (Hwr : mi_wr_cmd cmd (Some p) (Z.of_nat (length p)) w1 = Done MI_SUCCESS w1')
  (Hrx : n_rx (w_net w2) = drop (length (n_tx (w_net w1))) (n_tx (w_net w1')) ++ rest)
  (Hlv : lively (5 + length p) (w_net w2)) (Hoom : w_oom w2 = []) :
  exists w2',
    mi_rd_cmd w2 = Done (if decide (p = []) then None else Some p, cmd, Z.of_nat (length p)) w2'
    /\ n_rx (w_net w2') = rest.
Proof.
  apply mi_rd_cmd_lively; try done.
  pose proof (mi_wr_cmd_stream cmd (Some p) w1 ltac:(simpl; lia)) as H.
  simpl default in H. rewrite Hwr in H. destruct H as (_ & _ & sent & _ & Htx & [?|[_ ->]]); [done|].
  by rewrite Hrx, Htx, drop_app_length.
Qed.

Lemma frame_roundtrip_witness :
  exists w2', mi_rd_cmd (sample_world (frame "H"%byte (lit "mx") ++ lit "rest")
                  (PErr EINTR :: replicate 8 (PReady true false)) (replicate 8 (RAvail 2)) [])
              = Done (Some (lit "mx"), "H"%byte, 2%Z) w2'
              /\ n_rx (w_net w2') = lit "rest".
Proof.
  pose (w1 := sample_world [] [PReady true false; PErr EAGAIN; PReady true false] [] [WAccept 4; WAccept 9]).
  refine (frame_roundtrip w1 (match mi_wr_cmd "H"%byte (Some (lit "mx")) 2 w1 with
                               | Done _ w => w | _ => w1 end) _ "H"%byte (lit "mx") (lit "rest") _ _ _ _ _ _).
  all: try (vm_compute; congruence).
  split; simpl; repeat constructor; vm_compute; lia.
Defined.
