(* ===== verification/Strl.v ===== *)
(** * Bounded string functions: libmilter/strl.c

    The functions work on memory objects: a pointer is the object it points
    to, seen from there, and an access outside it makes the result [None].
    The theorems give the string each function leaves in [dst] - the requested
    concatenation cut to [size - 1] characters, always terminated - and the
    length it returns, and so that no access leaves the buffers. *)

From stdpp Require Import base list numbers strings option.
From Stdlib Require Import Strings.Byte ZArith Lia.
From S2P Require Import Prelude.

(** [dst\[j\] = c] *)
Definition store (dst : bytes) (j : nat) (c : byte) : option bytes :=
  if (j <? length dst)%nat then Some (<[j := c]> dst) else None.

(** [for (; i < size && (dst\[j\] = src\[i\]) != 0; i++, j++)] with [k] the
    number of rounds [size] still allows; returns [dst], [i] and [j]. *)
Fixpoint copy_loop (k : nat) (dst src : bytes) (i j : nat) : option (bytes * nat * nat) :=
  match k with
  | 0 => Some (dst, i, j)
  | S k' =>
      c ← src !! i;
      dst' ← store dst j c;
      if decide (c = x00) then Some (dst', i, j) else copy_loop k' dst' src (S i) (S j)
  end.

Definition sm_strlcpy (dst src : bytes) (size : Z) : option (bytes * nat) :=
  if (size <=? 0)%Z then n ← strlen src 0; Some (dst, n)
  else
    '(dst, i, _) ← copy_loop (Z.to_nat (size - 1)) dst src 0 0;
    dst ← store dst i x00;
    c ← src !! i;
    if decide (c = x00) then Some (dst, i)
    else n ← strlen src i; Some (dst, i + n).

Definition sm_strlcat (dst src : bytes) (size : Z) : option (bytes * nat) :=
  o ← strlen dst 0;
  if (size <? Z.of_nat o + 1)%Z then n ← strlen src 0; Some (dst, o + n)
  else
    '(dst, i, j) ← copy_loop (Z.to_nat (size - (Z.of_nat o + 1))) dst src 0 o;
    dst ← store dst j x00;
    c ← src !! i;
    if decide (c = x00) then Some (dst, j)
    else n ← strlen src i; Some (dst, j + n).

Definition sm_strlcat2 (dst src1 src2 : bytes) (len : Z) : option (bytes * nat) :=
  o ← strlen dst 0;
  if (len <? Z.of_nat o + 1)%Z then
    n1 ← strlen src1 0; n2 ← strlen src2 0; Some (dst, o + n1 + n2)
  else
    let len := (len - (Z.of_nat o + 1))%Z in
    '(dst, i, j) ← copy_loop (Z.to_nat len) dst src1 0 o;
    c ← src1 !! i;
    if decide (c = x00) then
      let len := (len - Z.of_nat i)%Z in
      '(dst, i, j) ← copy_loop (Z.to_nat len) dst src2 0 j;
      dst ← store dst j x00;
      c ← src2 !! i;
      if decide (c = x00) then Some (dst, j)
      else n ← strlen src2 i; Some (dst, j + n)
    else
      dst ← store dst j x00;
      n1 ← strlen src1 i; n2 ← strlen src2 0; Some (dst, j + n1 + n2).

(** The sum of the lengths of the strings not copied. *)
Fixpoint strlens (strs : list bytes) : option nat :=
  match strs with
  | [] => Some 0
  | s :: r => n ← strlen s 0; m ← strlens r; Some (n + m)
  end.

(** The loop of [sm_strlcpyn] over the source strings. *)
Fixpoint strlcpyn_loop (dst : bytes) (len : Z) (strs : list bytes) (j : nat) : option (bytes * nat) :=
  match strs with
  | [] => dst ← store dst j x00; Some (dst, j)
  | str :: r =>
      '(dst, i, j) ← copy_loop (Z.to_nat (len - Z.of_nat j)) dst str 0 j;
      c ← str !! i;
      if decide (c = x00) then strlcpyn_loop dst len r j
      else
        dst ← store dst j x00;
        n ← strlen str i; m ← strlens r; Some (dst, j + n + m)
  end.

Definition sm_strlcpyn (dst : bytes) (len : Z) (strs : list bytes) : option (bytes * nat) :=
  if (len <=? 0)%Z then n ← strlens strs; Some (dst, n)
  else strlcpyn_loop dst (len - 1) strs 0.

(** ** Properties *)

(** [dst] with the bytes from [j] on replaced by [s]. *)
Definition put (dst : bytes) (j : nat) (s : bytes) : bytes :=
  take j dst ++ s ++ drop (j + length s) dst.

Lemma length_put dst j s : (j + length s <= length dst)%nat -> length (put dst j s) = length dst.
Proof. intros H. unfold put. rewrite !length_app, length_take, length_drop. lia. Qed.

Lemma put_nil dst j : put dst j [] = dst.
Proof. unfold put. simpl. rewrite Nat.add_0_r. apply take_drop. Qed.

Lemma put_one dst j c : (j < length dst)%nat -> <[j := c]> dst = put dst j [c].
Proof.
  intros H. unfold put. rewrite insert_take_drop by done. simpl. by rewrite Nat.add_1_r.
Qed.

Lemma put_put dst j s t :
  (j + length s + length t <= length dst)%nat ->
  put (put dst j s) (j + length s) t = put dst j (s ++ t).
Proof.
  intros H. unfold put.
  assert (length (take j dst) = j) as Hj by (rewrite length_take; lia).
  rewrite (app_assoc (take j dst)), take_app_length' by (rewrite length_app; lia).
  rewrite drop_app_ge by (rewrite length_app; lia).
  rewrite drop_drop, !length_app, Hj, <- !app_assoc. do 4 f_equal. lia.
Qed.

Lemma store_put dst j c : (j < length dst)%nat -> store dst j c = Some (put dst j [c]).
Proof. intros H. unfold store. rewrite (proj2 (Nat.ltb_lt _ _)) by done. by rewrite put_one. Qed.

(** The loop copies [m] characters, and their terminator when it gets there. *)
Lemma copy_loop_spec k : forall dst src i j s,
  cstr_at src i = Some s -> (j + k <= length dst)%nat ->
  let m := Nat.min k (length s) in
  copy_loop k dst src i j =
    Some (put dst j (take m s ++ (if (length s <? k)%nat then [x00] else [])), i + m, j + m)%nat.
Proof.
  induction k as [|k IH]; intros dst src i j s Hs Hd; simpl.
  { rewrite put_nil. by rewrite !Nat.add_0_r. }
  unfold cstr_at in Hs. destruct (drop i src) as [|c r] eqn:Ed; [done|].
  assert (src !! i = Some c) as ->.
  { rewrite <- (Nat.add_0_r i), <- lookup_drop, Ed. done. }
  simpl in *. rewrite store_put by lia. simpl. case_decide as Hc.
  - injection Hs as <-. simpl. subst. by rewrite !Nat.add_0_r.
  - destruct (cstr r) as [s'|] eqn:Er; [|done]. injection Hs as <-. simpl.
    rewrite (IH _ src (S i) (S j) s').
    + f_equal. f_equal; [f_equal|]; try lia.
      replace (S j) with (j + length [c])%nat by (simpl; lia).
      rewrite put_put; [done|]. simpl. rewrite length_app, length_take.
      change (S (length s') <? S k)%nat with (length s' <? k)%nat.
      destruct (Nat.ltb_spec (length s') k); simpl; lia.
    + unfold cstr_at. rewrite <- Er. f_equal.
      rewrite <- Nat.add_1_r, <- drop_drop, Ed. done.
    + rewrite length_put by (simpl; lia). lia.
Qed.

(** What is left in [src] where the loop stopped. *)
Lemma cstr_at_drop src i s n : cstr_at src i = Some s -> (n <= length s)%nat ->
  cstr_at src (i + n) = Some (drop n s).
Proof.
  unfold cstr_at. intros H Hn. apply cstr_Some in H as [Hs [r H]].
  rewrite <- drop_drop, H, drop_app_le by done. apply cstr_app. auto with cmem.
Qed.

Lemma cstr_drop src s n : cstr src = Some s -> (n <= length s)%nat ->
  cstr_at src n = Some (drop n s).
Proof. apply (cstr_at_drop src 0). Qed.

Lemma cstr_at_head src i s : cstr_at src i = Some s ->
  src !! i = Some (if s is c :: _ then c else x00).
Proof.
  unfold cstr_at. intros H. apply cstr_Some in H as [Hs [r H]].
  rewrite <- (Nat.add_0_r i), <- lookup_drop, H. by destruct s.
Qed.

Lemma cstr_at_nul src i s c : cstr_at src i = Some s -> src !! i = Some c ->
  (c = x00 <-> s = []).
Proof.
  intros H1 H2. pose proof (cstr_at_head _ _ _ H1) as H. rewrite H2 in H. injection H as ->.
  unfold cstr_at in H1. apply cstr_no_nul in H1. destruct s; [done|].
  apply no_nul_cons in H1 as [? _]. naive_solver.
Qed.

Lemma put_over dst j a b b' :
  (length b <= length b')%nat -> (j + length a + length b' <= length dst)%nat ->
  put (put dst j (a ++ b)) (j + length a) b' = put dst j (a ++ b').
Proof.
  intros Hb H. rewrite <- (put_put dst j a b), <- (put_put dst j a b') by lia.
  set (d := put dst j a). assert (length d = length dst) as Hd by (apply length_put; lia).
  unfold put. set (n := (j + length a)%nat).
  assert (length (take n d) = n) as Hn by (rewrite length_take; lia).
  rewrite take_app_length' by done.
  rewrite drop_app_ge by lia. rewrite drop_app_ge by lia.
  rewrite drop_drop, Hn. do 3 f_equal. lia.
Qed.

Lemma cstr_put dst d t : cstr dst = Some d -> no_nul t ->
  cstr (put dst (length d) (t ++ [x00])) = Some (d ++ t).
Proof.
  intros Hd Ht. apply cstr_Some in Hd as [Hn [r ->]]. unfold put.
  rewrite take_app_length, <- app_assoc, app_assoc. simpl. apply cstr_app.
  by apply no_nul_app.
Qed.

(** Copying and terminating: the string cut to [k] characters, then NUL. *)
Lemma copy_store k dst src i j s :
  cstr_at src i = Some s -> (j + k < length dst)%nat ->
  let m := Nat.min k (length s) in
  exists dst1, copy_loop k dst src i j = Some (dst1, i + m, j + m)%nat /\
    length dst1 = length dst /\
    store dst1 (j + m) x00 = Some (put dst j (take m s ++ [x00])) /\
    (k <= length s \/ k = 0 -> dst1 = put dst j (take m s)).
Proof.
  intros Hs Hd m. rewrite (copy_loop_spec _ _ _ _ _ s) by (done || lia). fold m.
  eexists. split; [done|].
  set (t := if (length s <? k)%nat then [x00] else []).
  assert (length t <= 1)%nat by (unfold t; destruct (_ <? _)%nat; simpl; lia).
  assert (length (take m s) = m) as Hm by (rewrite length_take; lia).
  assert (m <= k)%nat by lia.
  assert (length (put dst j (take m s ++ t)) = length dst) as Hl.
  { apply length_put. rewrite length_app. unfold t.
    destruct (Nat.ltb_spec (length s) k); simpl; lia. }
  split; [done|]. split.
  - rewrite store_put by lia. f_equal. unfold t.
    replace (j + m)%nat with (j + length (take m s))%nat by lia.
    destruct (Nat.ltb_spec (length s) k).
    + apply put_over; simpl; lia.
    + rewrite app_nil_r. apply put_put. simpl. lia.
  - intros Hk. unfold t. rewrite (proj2 (Nat.ltb_ge _ _)) by lia. by rewrite app_nil_r.
Qed.

Lemma strlen_cstr_at b i s : cstr_at b i = Some s -> strlen b i = Some (length s).
Proof. unfold strlen. by intros ->. Qed.

(** The three-way end of the copying functions: the rest of the source is
    measured and added. *)
Lemma strl_tail (dst src : bytes) i j s :
  cstr_at src i = Some s ->
  (c ← src !! i; if decide (c = x00) then Some (dst, j)
     else n ← strlen src i; Some (dst, j + n)%nat) = Some (dst, j + length s)%nat.
Proof.
  intros H. pose proof (cstr_at_head _ _ _ H) as Hc. rewrite Hc. simpl.
  pose proof (cstr_at_nul _ _ _ _ H Hc). case_decide as Hd.
  - destruct s; [|naive_solver]. by rewrite Nat.add_0_r.
  - by rewrite (strlen_cstr_at _ _ _ H).
Qed.

Lemma take_min_length {A} k (s : list A) : take (Nat.min k (length s)) s = take k s.
Proof. by rewrite <- take_take, firstn_all. Qed.

Lemma sm_strlcpy_run dst src s (size : Z) :
  cstr src = Some s -> (0 < size <= Z.of_nat (length dst))%Z ->
  sm_strlcpy dst src size =
    Some (put dst 0 (take (Z.to_nat (size - 1)) s ++ [x00]), length s).
Proof.
  intros Hs Hsz. unfold sm_strlcpy. rewrite (proj2 (Z.leb_gt _ _)) by lia.
  change (cstr_at src 0 = Some s) in Hs.
  destruct (copy_store (Z.to_nat (size - 1)) dst src 0 0 s) as (d & -> & Hl & Hst & _); [done|lia|].
  simpl in Hst |- *. rewrite Hst. simpl.
  rewrite (strl_tail _ src _ _ _ (cstr_drop _ _ _ Hs (Nat.le_min_r _ _))).
  rewrite length_drop, take_min_length. do 2 f_equal. lia.
Qed.

Lemma sm_strlcat_run dst src d s (size : Z) :
  cstr dst = Some d -> cstr src = Some s -> (size <= Z.of_nat (length dst))%Z ->
  sm_strlcat dst src size =
    Some (if (Z.of_nat (length d) <? size)%Z
          then put dst (length d) (take (Z.to_nat (size - 1) - length d) s ++ [x00]) else dst,
          length d + length s)%nat.
Proof.
  intros Hd Hs Hsz. unfold sm_strlcat.
  change (cstr_at src 0 = Some s) in Hs. change (cstr_at dst 0 = Some d) in Hd.
  rewrite (strlen_cstr_at _ _ _ Hd). simpl.
  destruct (Z.ltb_spec size (Z.of_nat (length d) + 1)).
  { rewrite (strlen_cstr_at _ _ _ Hs). rewrite (proj2 (Z.ltb_ge _ _)) by lia. done. }
  rewrite (proj2 (Z.ltb_lt _ _)) by lia.
  set (k := Z.to_nat (size - (Z.of_nat (length d) + 1))).
  replace (Z.to_nat (size - 1) - length d)%nat with k by lia.
  destruct (copy_store k dst src 0 (length d) s) as (d1 & -> & Hl & Hst & _); [done|lia|].
  simpl. rewrite Hst. simpl.
  rewrite (strl_tail _ src _ _ _ (cstr_drop _ _ _ Hs (Nat.le_min_r _ _))).
  rewrite length_drop, take_min_length. do 2 f_equal. lia.
Qed.

(** A partial copy, then the rest of the strings from where it stopped. *)
Lemma copy_then k dst src i j s :
  cstr_at src i = Some s -> (j + k < length dst)%nat -> (length s <= k)%nat ->
  exists dst1, copy_loop k dst src i j = Some (dst1, i + length s, j + length s)%nat /\
    length dst1 = length dst /\
    forall t, (0 < length t <= length dst - (j + length s))%nat ->
      put dst1 (j + length s) t = put dst j (s ++ t).
Proof.
  intros Hs Hd Hk. rewrite (copy_loop_spec _ _ _ _ _ s) by (done || lia).
  rewrite Nat.min_r by lia. rewrite take_ge by lia.
  set (z := if (length s <? k)%nat then [x00] else []).
  assert (length z <= 1)%nat by (unfold z; destruct (_ <? _)%nat; simpl; lia).
  eexists. split; [done|]. split.
  - apply length_put. rewrite length_app. lia.
  - intros t Ht. apply put_over; lia.
Qed.

Lemma sm_strlcat2_run dst src1 src2 d s1 s2 (len : Z) :
  cstr dst = Some d -> cstr src1 = Some s1 -> cstr src2 = Some s2 ->
  (len <= Z.of_nat (length dst))%Z ->
  sm_strlcat2 dst src1 src2 len =
    Some (if (Z.of_nat (length d) <? len)%Z
          then put dst (length d) (take (Z.to_nat (len - 1) - length d) (s1 ++ s2) ++ [x00]) else dst,
          length d + length s1 + length s2)%nat.
Proof.
  intros Hd Hs1 Hs2 Hsz. unfold sm_strlcat2.
  change (cstr_at src1 0 = Some s1) in Hs1. change (cstr_at dst 0 = Some d) in Hd.
  change (cstr_at src2 0 = Some s2) in Hs2.
  rewrite (strlen_cstr_at _ _ _ Hd). simpl.
  destruct (Z.ltb_spec len (Z.of_nat (length d) + 1)).
  { rewrite (strlen_cstr_at _ _ _ Hs1), (strlen_cstr_at _ _ _ Hs2).
    rewrite (proj2 (Z.ltb_ge _ _)) by lia. done. }
  rewrite (proj2 (Z.ltb_lt _ _)) by lia.
  set (k := Z.to_nat (len - (Z.of_nat (length d) + 1))).
  replace (Z.to_nat (len - 1) - length d)%nat with k by lia.
  destruct (decide (length s1 <= k)%nat) as [Hk|Hk].
  - destruct (copy_then k dst src1 0 (length d) s1) as (d1 & -> & Hl & Hput); [done|lia|done|].
    simpl. pose proof (cstr_drop src1 s1 (length s1) Hs1 (Nat.le_refl _)) as Hz.
    rewrite drop_ge in Hz by lia. rewrite (cstr_at_head _ _ _ Hz). simpl.
    set (k2 := Z.to_nat (len - (Z.of_nat (length d) + 1) - Z.of_nat (length s1))).
    destruct (copy_store k2 d1 src2 0 (length d + length s1) s2) as (d2 & -> & Hl2 & Hst & _); [done|lia|].
    simpl. rewrite Hst. simpl.
    rewrite (strl_tail _ src2 _ _ _ (cstr_drop _ _ _ Hs2 (Nat.le_min_r _ _))).
    rewrite length_drop, take_min_length, Hput.
    + rewrite take_app_ge by lia. rewrite app_assoc.
      replace (k - length s1)%nat with k2 by lia. do 2 f_equal. lia.
    + rewrite length_app, length_take. simpl. lia.
  - destruct (copy_store k dst src1 0 (length d) s1) as (d1 & -> & Hl & Hst & _); [done|lia|].
    simpl. pose proof (cstr_drop src1 s1 _ Hs1 (Nat.le_min_r k (length s1))) as Hz.
    pose proof (cstr_at_head _ _ _ Hz) as Hc. rewrite Hc. simpl.
    rewrite decide_False.
    + rewrite Hst. simpl. rewrite (strlen_cstr_at _ _ _ Hz), (strlen_cstr_at _ _ _ Hs2). simpl.
      rewrite length_drop, take_min_length, take_app_le by lia. do 2 f_equal. lia.
    + intros Hx. apply (cstr_at_nul _ _ _ _ Hz Hc) in Hx.
      apply (f_equal length) in Hx. rewrite length_drop in Hx. simpl in Hx. lia.
Qed.

(** [sm_strlcat2] leaves exactly the buffer that appending the two strings
    one after the other with [sm_strlcat] leaves, and returns the length of
    the string it tried to create; both stay inside [dst]. *)
Theorem sm_strlcat2_equiv (dst src1 src2 d s1 s2 : bytes) (len : Z)
  (Hd : cstr dst = Some d) (Hs1 : cstr src1 = Some s1) (Hs2 : cstr src2 = Some s2)
  (Hlen : (len <= Z.of_nat (length dst))%Z) :
  exists b r1 r2,
    sm_strlcat2 dst src1 src2 len = Some (b, length d + length s1 + length s2)%nat /\
    sm_strlcat dst src1 len = Some r1 /\ sm_strlcat r1.1 src2 len = Some r2 /\ r2.1 = b.
Proof.
  rewrite (sm_strlcat2_run _ _ _ d s1 s2), (sm_strlcat_run _ _ d s1) by done.
  destruct (Z.ltb_spec (Z.of_nat (length d)) len) as [Hlt|Hge].
  - do 2 eexists. simpl. set (k := (Z.to_nat (len - 1) - length d)%nat).
    assert (length (put dst (length d) (take k s1 ++ [x00])) = length dst) as Hl.
    { apply length_put. rewrite length_app, length_take. simpl. lia. }
    rewrite (sm_strlcat_run _ _ (d ++ take k s1) s2).
    + eexists. split; [done|]. split; [done|]. split; [done|]. simpl.
      rewrite length_app, length_take.
      rewrite (proj2 (Z.ltb_lt _ _)) by lia.
      replace (length d + k `min` length s1)%nat with (length d + length (take k s1))%nat
        by (rewrite length_take; lia).
      rewrite put_over.
      * f_equal. rewrite app_assoc. f_equal. rewrite take_app. do 2 f_equal. rewrite length_take. lia.
      * rewrite length_app. simpl. lia.
      * rewrite length_app, !length_take. simpl. lia.
    + apply cstr_put; [done|]. apply cstr_no_nul in Hs1. auto with cmem.
    + done.
    + simpl. fold k. by rewrite Hl.
  - exists dst, (dst, length d + length s1)%nat, (dst, length d + length s2)%nat. simpl.
    rewrite (sm_strlcat_run _ _ d s2) by done. by rewrite (proj2 (Z.ltb_ge _ _)) by lia.
Qed.

Lemma sm_strlcat2_equiv_witness :
  exists b r1 r2,
    sm_strlcat2 (lit "ab" ++ [x00; x00; x00]) (lit "c" ++ [x00]) (lit "de" ++ [x00]) 5 = Some (b, 5) /\
    sm_strlcat (lit "ab" ++ [x00; x00; x00]) (lit "c" ++ [x00]) 5 = Some r1 /\
    sm_strlcat r1.1 (lit "de" ++ [x00]) 5 = Some r2 /\ r2.1 = b.
Proof.
  apply (sm_strlcat2_equiv _ _ _ (lit "ab") (lit "c") (lit "de") 5);
    first [reflexivity | vm_compute; discriminate].
Defined.

(** *** sm_strlcpyn *)

Lemma strlens_spec strs ss :
  Forall2 (fun b s => cstr b = Some s) strs ss -> strlens strs = Some (length (concat ss)).
Proof.
  induction 1 as [|b s strs ss Hb _ IH]; simpl; [done|].
  change (cstr_at b 0 = Some s) in Hb.
  rewrite (strlen_cstr_at _ _ _ Hb), IH. simpl. by rewrite length_app.
Qed.

Lemma strlcpyn_loop_run strs ss : forall dst (len : Z) j,
  Forall2 (fun b s => cstr b = Some s) strs ss ->
  (Z.of_nat j <= len < Z.of_nat (length dst))%Z ->
  strlcpyn_loop dst len strs j =
    Some (put dst j (take (Z.to_nat len - j) (concat ss) ++ [x00]), j + length (concat ss))%nat.
Proof.
  revert ss. induction strs as [|str r IH]; intros ss dst len j HF Hj;
    apply Forall2_cons_inv_l in HF as (s & ss' & Hs & HF & ->) || apply Forall2_nil_inv_l in HF as ->; simpl.
  { rewrite take_nil, store_put by lia. simpl. by rewrite Nat.add_0_r. }
  change (cstr_at str 0 = Some s) in Hs.
  replace (Z.to_nat (len - Z.of_nat j)) with (Z.to_nat len - j)%nat by lia.
  set (k := (Z.to_nat len - j)%nat). rewrite length_app.
  destruct (decide (length s <= k)%nat) as [Hk|Hk].
  - destruct (copy_then k dst str 0 j s) as (d1 & -> & Hl & Hput); [done|lia|done|].
    simpl. pose proof (cstr_drop str s (length s) Hs (Nat.le_refl _)) as Hz.
    rewrite drop_ge in Hz by lia. rewrite (cstr_at_head _ _ _ Hz). simpl.
    rewrite (IH ss') by (done || lia). rewrite Hput by (rewrite length_app, length_take; simpl; lia).
    rewrite take_app_ge by lia. rewrite app_assoc.
    replace (Z.to_nat len - (j + length s))%nat with (k - length s)%nat by lia.
    do 2 f_equal. lia.
  - destruct (copy_store k dst str 0 j s) as (d1 & -> & Hl & Hst & _); [done|lia|].
    simpl. pose proof (cstr_drop str s _ Hs (Nat.le_min_r k (length s))) as Hz.
    pose proof (cstr_at_head _ _ _ Hz) as Hc. rewrite Hc. simpl. rewrite decide_False.
    + rewrite Hst. simpl. rewrite (strlen_cstr_at _ _ _ Hz), (strlens_spec _ _ HF). simpl.
      rewrite length_drop, take_min_length, take_app_le by lia. do 2 f_equal. lia.
    + intros Hx. apply (cstr_at_nul _ _ _ _ Hz Hc) in Hx.
      apply (f_equal length) in Hx. rewrite length_drop in Hx. simpl in Hx. lia.
Qed.

Lemma sm_strlcpyn_run dst (len : Z) strs ss :
  Forall2 (fun b s => cstr b = Some s) strs ss ->
  (0 < len <= Z.of_nat (length dst))%Z ->
  sm_strlcpyn dst len strs =
    Some (put dst 0 (take (Z.to_nat (len - 1)) (concat ss) ++ [x00]), length (concat ss)).
Proof.
  intros HF Hl. unfold sm_strlcpyn. rewrite (proj2 (Z.leb_gt _ _)) by lia.
  rewrite (strlcpyn_loop_run _ ss) by (done || lia). by rewrite Nat.sub_0_r.
Qed.

(** [sm_strlcpyn] is truncating concatenation: whatever [dst] held, it is
    left holding the concatenation of the arguments cut to [len - 1]
    characters, NUL-terminated inside its first [len] bytes with nothing
    changed beyond them, and the value returned is the length of the whole
    concatenation, so [>= len] says that it was cut. *)
Theorem sm_strlcpyn_truncates (dst : bytes) (len : Z) (strs ss : list bytes)
  (Hstrs : Forall2 (fun b s => cstr b = Some s) strs ss)
  (Hlen : (0 < len <= Z.of_nat (length dst))%Z) :
  exists b, sm_strlcpyn dst len strs = Some (b, length (concat ss)) /\
    cstr b = Some (take (Z.to_nat (len - 1)) (concat ss)) /\
    length b = length dst /\ drop (Z.to_nat len) b = drop (Z.to_nat len) dst.
Proof.
  eexists. split; [by apply sm_strlcpyn_run|].
  assert (no_nul (concat ss)) as Hn.
  { clear Hlen. induction Hstrs; [constructor|]. simpl. apply no_nul_app. eauto with cmem. }
  set (t := take (Z.to_nat (len - 1)) (concat ss)).
  assert (length t <= Z.to_nat (len - 1))%nat by (subst t; rewrite length_take; lia).
  split; [|split].
  - unfold put. simpl. rewrite <- app_assoc. apply cstr_app. by apply no_nul_take.
  - apply length_put. rewrite length_app. simpl. lia.
  - unfold put. simpl. rewrite drop_app_ge by (rewrite length_app; simpl; lia).
    rewrite drop_drop. f_equal. rewrite length_app. simpl. lia.
Qed.

Lemma sm_strlcpyn_truncates_witness :
  exists b, sm_strlcpyn (lit "zzzzzz") 4 [lit "ab" ++ [x00]; lit "cde" ++ [x00]] = Some (b, 5) /\
    cstr b = Some (lit "abc") /\ length b = 6 /\ drop 4 b = lit "zz".
Proof.
  apply (sm_strlcpyn_truncates (lit "zzzzzz") 4 [lit "ab" ++ [x00]; lit "cde" ++ [x00]]
           [lit "ab"; lit "cde"]).
  - repeat constructor.
  - vm_compute. split; [reflexivity|discriminate].
Defined.
