(* ===== verification/Errstring.v ===== *)
(** * Texts of error numbers: errstring.c

    [sm_errstring] gives the text that the library logs for an error number.
    strerror is a parameter.  The build has no LDAP; whether it has NAMED_BIND
    is a parameter. *)

From stdpp Require Import base option numbers sets list strings.
From Stdlib Require Import ZArith Lia Strings.Byte.
From S2P Require Import Prelude.
Import CStr.
Local Open Scope Z_scope.

(** ** The numbers: include/sm/errstring.h *)

Definition E_PSEUDOBASE : Z := 256.
Definition E_DNSBASE : Z := E_PSEUDOBASE + 20.
Definition E_SMDBBASE : Z := E_PSEUDOBASE + 40.

Definition E_SM_OPENTIMEOUT : Z := E_PSEUDOBASE + 0.
Definition E_SM_NOSLINK : Z := E_PSEUDOBASE + 1.
Definition E_SM_NOHLINK : Z := E_PSEUDOBASE + 2.
Definition E_SM_REGONLY : Z := E_PSEUDOBASE + 3.
Definition E_SM_ISEXEC : Z := E_PSEUDOBASE + 4.
Definition E_SM_WWDIR : Z := E_PSEUDOBASE + 5.
Definition E_SM_GWDIR : Z := E_PSEUDOBASE + 6.
Definition E_SM_FILECHANGE : Z := E_PSEUDOBASE + 7.
Definition E_SM_WWFILE : Z := E_PSEUDOBASE + 8.
Definition E_SM_GWFILE : Z := E_PSEUDOBASE + 9.
Definition E_SM_GRFILE : Z := E_PSEUDOBASE + 10.
Definition E_SM_WRFILE : Z := E_PSEUDOBASE + 11.

Definition SMDBE_MALLOC : Z := E_SMDBBASE + 1.
Definition SMDBE_GDBM_IS_BAD : Z := E_SMDBBASE + 2.
Definition SMDBE_UNSUPPORTED : Z := E_SMDBBASE + 3.
Definition SMDBE_DUPLICATE : Z := E_SMDBBASE + 4.
Definition SMDBE_BAD_OPEN : Z := E_SMDBBASE + 5.
Definition SMDBE_NOT_FOUND : Z := E_SMDBBASE + 6.
Definition SMDBE_UNKNOWN_DB_TYPE : Z := E_SMDBBASE + 7.
Definition SMDBE_UNSUPPORTED_DB_TYPE : Z := E_SMDBBASE + 8.
Definition SMDBE_INCOMPLETE : Z := E_SMDBBASE + 9.
Definition SMDBE_KEY_EMPTY : Z := E_SMDBBASE + 10.
Definition SMDBE_KEY_EXIST : Z := E_SMDBBASE + 11.
Definition SMDBE_LOCK_DEADLOCK : Z := E_SMDBBASE + 12.
Definition SMDBE_LOCK_NOT_GRANTED : Z := E_SMDBBASE + 13.
Definition SMDBE_LOCK_NOT_HELD : Z := E_SMDBBASE + 14.
Definition SMDBE_RUN_RECOVERY : Z := E_SMDBBASE + 15.
Definition SMDBE_IO_ERROR : Z := E_SMDBBASE + 16.
Definition SMDBE_READ_ONLY : Z := E_SMDBBASE + 17.
Definition SMDBE_DB_NAME_TOO_LONG : Z := E_SMDBBASE + 18.
Definition SMDBE_INVALID_PARAMETER : Z := E_SMDBBASE + 19.
Definition SMDBE_ONLY_SUPPORTS_ONE_CURSOR : Z := E_SMDBBASE + 20.
Definition SMDBE_NOT_A_VALID_CURSOR : Z := E_SMDBBASE + 21.
Definition SMDBE_LAST_ENTRY : Z := E_SMDBBASE + 22.
Definition SMDBE_OLD_VERSION : Z := E_SMDBBASE + 23.
Definition SMDBE_VERSION_MISMATCH : Z := E_SMDBBASE + 24.

(** errno.h and netdb.h *)
Definition EPERM : Z := 1.
Definition HOST_NOT_FOUND : Z := 1.
Definition TRY_AGAIN : Z := 2.
Definition NO_RECOVERY : Z := 3.
Definition NO_DATA : Z := 4.

(** ** The cases of the switch *)

Definition sm_cases : list (Z * bytes) :=
  [(EPERM, lit "Operation not permitted");
   (E_SM_OPENTIMEOUT, lit "Timeout on file open");
   (E_SM_NOSLINK, lit "Symbolic links not allowed");
   (E_SM_NOHLINK, lit "Hard links not allowed");
   (E_SM_REGONLY, lit "Regular files only");
   (E_SM_ISEXEC, lit "Executable files not allowed");
   (E_SM_WWDIR, lit "World writable directory");
   (E_SM_GWDIR, lit "Group writable directory");
   (E_SM_FILECHANGE, lit "File changed after open");
   (E_SM_WWFILE, lit "World writable file");
   (E_SM_GWFILE, lit "Group writable file");
   (E_SM_GRFILE, lit "Group readable file");
   (E_SM_WRFILE, lit "World readable file")].

Definition dns_cases : list (Z * bytes) :=
  [(HOST_NOT_FOUND + E_DNSBASE, lit "Name server: host not found");
   (TRY_AGAIN + E_DNSBASE, lit "Name server: host name lookup failure");
   (NO_RECOVERY + E_DNSBASE, lit "Name server: non-recoverable error");
   (NO_DATA + E_DNSBASE, lit "Name server: no data known")].

Definition smdb_cases : list (Z * bytes) :=
  [(SMDBE_MALLOC, lit "Memory allocation failed");
   (SMDBE_GDBM_IS_BAD, lit "GDBM is not supported");
   (SMDBE_UNSUPPORTED, lit "Unsupported action");
   (SMDBE_DUPLICATE, lit "Key already exists");
   (SMDBE_BAD_OPEN, lit "Database open failed");
   (SMDBE_NOT_FOUND, lit "Key not found");
   (SMDBE_UNKNOWN_DB_TYPE, lit "Unknown database type");
   (SMDBE_UNSUPPORTED_DB_TYPE, lit "Support for database type not compiled into this program");
   (SMDBE_INCOMPLETE, lit "DB sync did not finish");
   (SMDBE_KEY_EMPTY, lit "Key is empty");
   (SMDBE_KEY_EXIST, lit "Key already exists");
   (SMDBE_LOCK_DEADLOCK, lit "Locker killed to resolve deadlock");
   (SMDBE_LOCK_NOT_GRANTED, lit "Lock unavailable");
   (SMDBE_LOCK_NOT_HELD, lit "Lock not held by locker");
   (SMDBE_RUN_RECOVERY, lit "Database panic, run recovery");
   (SMDBE_IO_ERROR, lit "I/O error");
   (SMDBE_READ_ONLY, lit "Database opened read-only");
   (SMDBE_DB_NAME_TOO_LONG, lit "Name too long");
   (SMDBE_INVALID_PARAMETER, lit "Invalid parameter");
   (SMDBE_ONLY_SUPPORTS_ONE_CURSOR, lit "Only one cursor allowed");
   (SMDBE_NOT_A_VALID_CURSOR, lit "Invalid cursor");
   (SMDBE_OLD_VERSION, lit "Berkeley DB file is an old version, recreate it");
   (SMDBE_VERSION_MISMATCH, lit "Berkeley DB version mismatch between include file and library")].

Definition cases (named_bind : bool) : list (Z * bytes) :=
  sm_cases ++ (if named_bind then dns_cases else []) ++ smdb_cases.

(** The text of the case of a number. *)
Fixpoint switch (errnum : Z) (l : list (Z * bytes)) : option bytes :=
  match l with
  | [] => None
  | (n, s) :: r => if errnum =? n then Some s else switch errnum r
  end.

(** [sm_snprintf(buf, sizeof buf, ...)] with [char buf[30]]. *)
Definition errbuf (s : bytes) : bytes := take 29 s.

Definition sm_errstring (named_bind : bool) (strerror : Z -> option bytes) (errnum : Z) : bytes :=
  match switch errnum (cases named_bind) with
  | Some s => s
  | None =>
      match strerror errnum with
      | Some s => s
      | None => errbuf (lit "Error " ++ fmt_d errnum)
      end
  end.

(** ** Properties *)

Lemma switch_case l n s : NoDup l.*1 -> (n, s) ∈ l -> switch n l = Some s.
Proof.
  induction l as [|[m t] l IH]; cbn; [set_solver|]. intros [Hm Hl]%NoDup_cons [[= -> ->]|H]%elem_of_cons.
  - by rewrite Z.eqb_refl.
  - destruct (Z.eqb_spec n m) as [->|]; [|auto]. destruct Hm. apply list_elem_of_fmap. by exists (m, s).
Qed.

Lemma switch_none l n : n ∉ l.*1 -> switch n l = None.
Proof.
  induction l as [|[m t] l IH]; cbn; [done|]. intros H. destruct (Z.eqb_spec n m); [set_solver|]. set_solver.
Qed.

(** No two cases have the same number, with the DNS cases and without. *)
Lemma cases_nodup named_bind : NoDup (cases named_bind).*1.
Proof. apply (bool_decide_unpack _). destruct named_bind; vm_compute; exact I. Qed.

Lemma length_udec fuel : forall n (k : nat), (1 <= k)%nat -> 0 <= n < 10 ^ Z.of_nat k -> (length (udec fuel n) <= k)%nat.
Proof.
  induction fuel as [|fuel IH]; intros n k Hk Hn; cbn [udec]; [cbn; lia|].
  rewrite length_app. cbn. destruct (Z.ltb_spec n 10) as [|Hge]; [cbn; lia|].
  destruct k as [|[|k]]; [lia|cbn in Hn; lia|].
  assert (length (udec fuel (n / 10)) <= S k)%nat; [|lia]. apply IH; [lia|].
  replace (Z.of_nat (S (S k))) with (Z.of_nat (S k) + 1) in Hn by lia.
  rewrite Z.pow_add_r, Z.pow_1_r in Hn by lia. split; [apply Z.div_pos; lia|].
  apply Z.div_lt_upper_bound; lia.
Qed.

Lemma length_fmt_d n : - 2 ^ 31 <= n < 2 ^ 31 -> (length (fmt_d n) <= 11)%nat.
Proof.
  intros H. unfold fmt_d. destruct (Z.ltb_spec n 0).
  - cbn [length]. pose proof (length_udec 20 (- n) 10 ltac:(lia)) as L.
    change (10 ^ Z.of_nat 10) with 10000000000 in L. lia.
  - pose proof (length_udec 20 n 10 ltac:(lia)) as L. change (10 ^ Z.of_nat 10) with 10000000000 in L. lia.
Qed.

(** Every number of the switch has the text of its one case, whatever strerror
    says, and every other int has the text of strerror or, where it has none,
    the number itself, which always fits into the buffer. *)
Theorem errstring_text named_bind strerror errnum :
  - 2 ^ 31 <= errnum < 2 ^ 31 ->
  (forall s, (errnum, s) ∈ cases named_bind -> sm_errstring named_bind strerror errnum = s) /\
  (errnum ∉ (cases named_bind).*1 ->
   sm_errstring named_bind strerror errnum = default (lit "Error " ++ fmt_d errnum) (strerror errnum)).
Proof.
  intros Hn. unfold sm_errstring. split.
  - intros s Hs. by rewrite (switch_case _ _ _ (cases_nodup _) Hs).
  - intros H. rewrite switch_none by done. destruct (strerror errnum); [done|]. cbn [default from_option].
    apply take_ge. rewrite length_app. pose proof (length_fmt_d errnum Hn). cbn. lia.
Qed.

Lemma errstring_text_witness :
  sm_errstring false (fun _ => None) (-2147483648) = lit "Error -2147483648".
Proof.
  refine (proj2 (errstring_text false (fun _ => None) (-2147483648) ltac:(lia)) _).
  apply (bool_decide_unpack _). vm_compute. exact I.
Defined.
