(* ===== verification/Tailq.v ===== *)
(** * Tail queues: include/sm/tailq.h

    The contexts of the worker pool and those of the thread monitor are kept in
    intrusive queues, built from pointers by the macros of tailq.h: an element
    holds a pointer to the next element and the address of the pointer that
    points to it.  This file models the macros on a memory of such links, with
    an access to an element that is not allocated as [None], and shows that
    they implement operations on lists.  Worker.v and Monitor.v state their
    programs on lists or on these queues; [queue_simulates] of WorkerQueue.v
    joins the two for the worker pool. *)

From stdpp Require Import base option gmap list.
From S2P Require Import Prelude.

(** ** Memory *)

(** The address of a pointer to an element: of [tqh_first] of the head or of
    [tqe_next] of an element, or NULL. *)
Inductive slot := Null | Head | NextOf (e : nat).

#[global] Instance slot_eq_dec : EqDecision slot.
Proof. solve_decision. Defined.

(** SM_TAILQ_ENTRY *)
Record entry := mk_entry { tqe_next : option nat; tqe_prev : slot }.

(** SM_TAILQ_HEAD, with the link fields of all allocated elements. *)
Record tailq := mk_tailq {
  tqh_first : option nat;
  tqh_last : slot;
  links : gmap nat entry
}.

Definition set_first v q := mk_tailq v (tqh_last q) (links q).
Definition set_last v q := mk_tailq (tqh_first q) v (links q).
Definition set_links v q := mk_tailq (tqh_first q) (tqh_last q) v.

(** [*a] and [*a = v] for a slot [a]. *)
Definition load_at (a : slot) (q : tailq) : option (option nat) :=
  match a with Null => None | Head => Some (tqh_first q) | NextOf e => tqe_next <$> links q !! e end.

Definition store_at (a : slot) (v : option nat) (q : tailq) : option tailq :=
  match a with
  | Null => None
  | Head => Some (set_first v q)
  | NextOf e => x ← links q !! e; Some (set_links (<[e := mk_entry v (tqe_prev x)]> (links q)) q)
  end.

(** [elm->field.tqe_prev], read and written. *)
Definition prev (e : nat) (q : tailq) : option slot := tqe_prev <$> links q !! e.

Definition set_prev (e : nat) (a : slot) (q : tailq) : option tailq :=
  x ← links q !! e; Some (set_links (<[e := mk_entry (tqe_next x) a]> (links q)) q).

(** The two members of a head and of an entry lie alike in memory, so that a
    slot read as a head has this [tqh_last]: the casts of SM_TAILQ_LAST and
    SM_TAILQ_PREV. *)
Definition as_head_last (a : slot) (q : tailq) : option slot :=
  match a with Null => None | Head => Some (tqh_last q) | NextOf e => prev e q end.

(** ** The macros *)

Definition SM_TAILQ_FIRST (q : tailq) : option nat := tqh_first q.
Definition SM_TAILQ_NEXT (e : nat) (q : tailq) : option (option nat) := load_at (NextOf e) q.
Definition SM_TAILQ_EMPTY (q : tailq) : bool := bool_decide (SM_TAILQ_FIRST q = None).

Definition SM_TAILQ_LAST (q : tailq) : option (option nat) :=
  a ← as_head_last (tqh_last q) q; load_at a q.

Definition SM_TAILQ_PREV (e : nat) (q : tailq) : option (option nat) :=
  b ← prev e q; a ← as_head_last b q; load_at a q.

(** SM_TAILQ_FOREACH and its reverse: the elements [var] goes through, in
    [fuel] rounds at most. *)
Fixpoint foreach (next : nat → option (option nat)) (fuel : nat) (var : option nat) : option (list nat) :=
  match fuel, var with
  | _, None => Some []
  | 0, Some _ => None
  | S n, Some e => v ← next e; r ← foreach next n v; Some (e :: r)
  end.

Definition SM_TAILQ_FOREACH (fuel : nat) (q : tailq) : option (list nat) :=
  foreach (fun e => SM_TAILQ_NEXT e q) fuel (SM_TAILQ_FIRST q).

Definition SM_TAILQ_FOREACH_REVERSE (fuel : nat) (q : tailq) : option (list nat) :=
  v ← SM_TAILQ_LAST q; foreach (fun e => SM_TAILQ_PREV e q) fuel v.

Definition SM_TAILQ_INIT (q : tailq) : tailq := set_last Head (set_first None q).

Definition SM_TAILQ_INSERT_HEAD (e : nat) (q : tailq) : option tailq :=
  q ← store_at (NextOf e) (tqh_first q) q;
  q ← match tqh_first q with
      | Some f => set_prev f (NextOf e) q
      | None => Some (set_last (NextOf e) q)
      end;
  set_prev e Head (set_first (Some e) q).

Definition SM_TAILQ_INSERT_TAIL (e : nat) (q : tailq) : option tailq :=
  q ← store_at (NextOf e) None q;
  q ← set_prev e (tqh_last q) q;
  q ← store_at (tqh_last q) (Some e) q;
  Some (set_last (NextOf e) q).

Definition SM_TAILQ_INSERT_AFTER (d e : nat) (q : tailq) : option tailq :=
  n ← load_at (NextOf d) q;
  q ← store_at (NextOf e) n q;
  q ← match n with
      | Some f => set_prev f (NextOf e) q
      | None => Some (set_last (NextOf e) q)
      end;
  q ← store_at (NextOf d) (Some e) q;
  set_prev e (NextOf d) q.

Definition SM_TAILQ_INSERT_BEFORE (d e : nat) (q : tailq) : option tailq :=
  a ← prev d q;
  q ← set_prev e a q;
  q ← store_at (NextOf e) (Some d) q;
  q ← store_at a (Some e) q;
  set_prev d (NextOf e) q.

Definition SM_TAILQ_REMOVE (e : nat) (q : tailq) : option tailq :=
  n ← load_at (NextOf e) q;
  a ← prev e q;
  q ← match n with
      | Some f => set_prev f a q
      | None => Some (set_last a q)
      end;
  store_at a n q.

Definition SM_TAILQ_REPLACE (d e : nat) (q : tailq) : option tailq :=
  n ← load_at (NextOf d) q;
  q ← store_at (NextOf e) n q;
  q ← match n with
      | Some f => set_prev f (NextOf e) q
      | None => Some (set_last (NextOf e) q)
      end;
  a ← prev d q;
  q ← set_prev e a q;
  store_at a (Some e) q.

(** ** Lists of elements *)

(** The slot after the elements [l] that start at the slot [a]. *)
Fixpoint tail_of (a : slot) (l : list nat) : slot :=
  match l with [] => a | e :: r => tail_of (NextOf e) r end.

(** From [a] on the slots hold the elements of [l], each of which knows its
    slot. *)
Fixpoint chain (q : tailq) (a : slot) (l : list nat) : Prop :=
  match l with
  | [] => True
  | e :: r => load_at a q = Some (Some e) ∧ prev e q = Some a ∧ chain q (NextOf e) r
  end.

(** [q] is the queue of the elements [l]. *)
Record repr (q : tailq) (l : list nat) : Prop := mk_repr {
  r_chain : chain q Head l;
  r_end : load_at (tail_of Head l) q = Some None;
  r_last : tqh_last q = tail_of Head l;
  r_nodup : NoDup l
}.

(** The links of the elements outside [l] are the same in both. *)
Definition untouched (l : list nat) (q q' : tailq) : Prop := ∀ d, d ∉ l → links q' !! d = links q !! d.

Definition allocated (e : nat) (q : tailq) : Prop := is_Some (links q !! e).

Definition placed (a : slot) (q : tailq) : Prop :=
  match a with Null => False | Head => True | NextOf e => allocated e q end.

(** *** Reads after writes *)

Lemma load_placed a v q : load_at a q = Some v → placed a q.
Proof. destruct a as [| |e]; cbn; [done..|]. unfold allocated. destruct (links q !! e); naive_solver. Qed.

Lemma prev_allocated e a q : prev e q = Some a → allocated e q.
Proof. unfold prev, allocated. destruct (links q !! e); naive_solver. Qed.

(** What a write does: [f] and [g] are the reads after it. *)
Record written (q q' : tailq) (f : slot → option (option nat)) (g : nat → option slot)
    (last : slot) (t : list nat) : Prop := mk_written {
  w_load : ∀ x, load_at x q' = f x;
  w_prev : ∀ d, prev d q' = g d;
  w_last : tqh_last q' = last;
  w_alloc : ∀ d, allocated d q' ↔ allocated d q;
  w_rest : untouched t q q'
}.

Lemma store_ok a v q :
  placed a q →
  ∃ q', store_at a v q = Some q' ∧
    written q q' (fun x => if decide (x = a) then Some v else load_at x q) (fun d => prev d q) (tqh_last q)
      (match a with NextOf e => [e] | _ => [] end).
Proof.
  intros Hp. destruct a as [| |e]; cbn; [done| |].
  - eexists. split; [done|]. split; try done. by intros [| |d].
  - destruct Hp as [[n b] He]. rewrite He. cbn. eexists. split; [done|].
    split; cbn; unfold prev, allocated, untouched, load_at; cbn.
    + intros [| |d]; [done..|]. destruct (decide (NextOf d = NextOf e)) as [[= ->]|Hd].
      * rewrite lookup_insert_eq. done.
      * rewrite lookup_insert_ne by congruence. done.
    + intros d. destruct (decide (d = e)) as [->|Hd].
      * rewrite lookup_insert_eq, He. done.
      * rewrite lookup_insert_ne by done. done.
    + done.
    + intros d. rewrite lookup_insert_is_Some'. naive_solver.
    + intros d Hd. rewrite lookup_insert_ne by set_solver. done.
Qed.

Lemma set_prev_ok e a q :
  allocated e q →
  ∃ q', set_prev e a q = Some q' ∧
    written q q' (fun x => load_at x q) (fun d => if decide (d = e) then Some a else prev d q) (tqh_last q) [e].
Proof.
  intros [[n b] He]. unfold set_prev. rewrite He. cbn. eexists. split; [done|].
  split; cbn; unfold prev, allocated, untouched, load_at; cbn.
  - intros [| |d]; [done..|]. destruct (decide (d = e)) as [->|Hd].
    + rewrite lookup_insert_eq, He. done.
    + rewrite lookup_insert_ne by done. done.
  - intros d. destruct (decide (d = e)) as [->|Hd].
    + rewrite lookup_insert_eq. done.
    + rewrite lookup_insert_ne by done. done.
  - done.
  - intros d. rewrite lookup_insert_is_Some'. naive_solver.
  - intros d Hd. rewrite lookup_insert_ne by set_solver. done.
Qed.

Lemma set_last_written a q :
  written q (set_last a q) (fun x => load_at x q) (fun d => prev d q) a [].
Proof. split; done. Qed.

Lemma set_first_written v q :
  written q (set_first v q) (fun x => if decide (x = Head) then Some v else load_at x q)
    (fun d => prev d q) (tqh_last q) [].
Proof. split; try done. by intros [| |d]. Qed.

(** *** Chains *)

Lemma tail_of_app a l r : tail_of a (l ++ r) = tail_of (tail_of a l) r.
Proof. revert a. induction l as [|e l IH]; intros a; cbn; done. Qed.

Lemma tail_of_snoc a l e : tail_of a (l ++ [e]) = NextOf e.
Proof. rewrite tail_of_app. done. Qed.

Lemma tail_of_cases a l : (l = [] ∧ tail_of a l = a) ∨ ∃ k e, l = k ++ [e] ∧ tail_of a l = NextOf e.
Proof.
  destruct l as [|e k _] using rev_ind; [left; done|right].
  exists k, e. rewrite tail_of_snoc. done.
Qed.

Lemma chain_app q a l r : chain q a (l ++ r) ↔ chain q a l ∧ chain q (tail_of a l) r.
Proof. revert a. induction l as [|e l IH]; intros a; cbn; [tauto|]. rewrite IH. tauto. Qed.

(** A chain is the same where its reads are; what its last slot holds is not
    part of it. *)
Lemma chain_frame q q' a l :
  NoDup l → a ∉ (NextOf <$> l) →
  (∀ d, d ∈ l → prev d q' = prev d q) →
  (∀ x, x ∈ a :: (NextOf <$> l) → x ≠ tail_of a l → load_at x q' = load_at x q) →
  chain q a l → chain q' a l.
Proof.
  revert a. induction l as [|e l IH]; intros a Hn Ha Hp Hl; cbn; [done|].
  apply NoDup_cons in Hn as [He Hn]. intros (H1 & H2 & H3). split; [|split].
  - rewrite Hl; [done|set_solver|]. cbn. intros E.
    destruct (tail_of_cases (NextOf e) l) as [[-> Ht]|(k & d & -> & Ht)]; rewrite Ht in E; set_solver.
  - rewrite Hp by set_solver. done.
  - apply IH; try done; [|set_solver|set_solver].
    rewrite list_elem_of_fmap. intros (d & [= ->] & Hd). done.
Qed.

(** A chain can be hung up at another slot. *)
Lemma chain_relink q q' a b l :
  NoDup l → chain q a l → load_at b q' = Some (head l) →
  (∀ f, head l = Some f → prev f q' = Some b) →
  (∀ d, d ∈ l → head l ≠ Some d → prev d q' = prev d q) →
  (∀ d, d ∈ l → load_at (NextOf d) q' = load_at (NextOf d) q) →
  chain q' b l.
Proof.
  destruct l as [|e l]; [done|]. cbn. intros [He Hn]%NoDup_cons (H1 & H2 & H3) Hb Hf Hp Hl.
  split; [done|]. split; [auto|]. apply (chain_frame q); try done.
  - rewrite list_elem_of_fmap. intros (d & [= ->] & Hd). done.
  - intros d Hd. apply Hp; set_solver.
  - intros x Hx _. assert (∃ d, x = NextOf d ∧ d ∈ e :: l) as (d & -> & Hd); [|by apply Hl].
    apply elem_of_cons in Hx as [->|Hx]; [set_solver|].
    apply list_elem_of_fmap in Hx as (d & -> & Hd). set_solver.
Qed.

(** The queue [l] and then [k], which hung at [a] in [q]. *)
Lemma repr_relink q q' a l k :
  NoDup (l ++ k) → chain q' Head l → chain q a k →
  (k ≠ [] → load_at (tail_of a k) q = Some None ∧ tqh_last q = tail_of a k) →
  load_at (tail_of Head l) q' = Some (head k) →
  (∀ f, head k = Some f → prev f q' = Some (tail_of Head l)) →
  (∀ d, d ∈ k → head k ≠ Some d → prev d q' = prev d q) →
  (∀ d, d ∈ k → load_at (NextOf d) q' = load_at (NextOf d) q) →
  tqh_last q' = (if decide (k = []) then tail_of Head l else tqh_last q) →
  repr q' (l ++ k).
Proof.
  intros Hn Hc Hk Hend Hb Hf Hp Hl Hlast.
  assert (Hk' : chain q' (tail_of Head l) k).
  { apply (chain_relink q _ a); try done. apply NoDup_app in Hn. tauto. }
  split.
  - apply chain_app. done.
  - rewrite tail_of_app. destruct (tail_of_cases (tail_of Head l) k) as [[-> ->]|(m & e & -> & ->)]; [done|].
    rewrite Hl by set_solver. destruct Hend as [He _]; [by destruct m|]. rewrite tail_of_snoc in He. done.
  - rewrite Hlast, tail_of_app. case_decide as Hd; [by subst|].
    destruct Hend as [_ ->]; [done|]. destruct (tail_of_cases a k) as [[-> _]|(m & e & -> & ->)]; [done|].
    rewrite tail_of_snoc. done.
  - done.
Qed.

Lemma tail_of_NextOf e l : tail_of Head l = NextOf e → e ∈ l.
Proof. destruct (tail_of_cases Head l) as [[-> ->]|(m & d & -> & ->)]; set_solver. Qed.

Lemma tail_of_ne e l : e ∉ l → tail_of Head l ≠ NextOf e.
Proof. intros He Heq. apply He, tail_of_NextOf, Heq. Qed.

(** A write at the end of [l] is to one of its elements or to the head. *)
Lemma tail_writes l : match tail_of Head l with NextOf d => [d] | _ => [] end ⊆ l.
Proof. destruct (tail_of Head l) eqn:E; [set_solver..|]. apply tail_of_NextOf in E. set_solver. Qed.

Lemma tail_of_placed q l : repr q l → ∀ k r, l = k ++ r → load_at (tail_of Head k) q = Some (head r).
Proof.
  intros [Hc He _ _] k r ->. destruct r as [|e r]; [rewrite app_nil_r in He; done|].
  apply chain_app in Hc as [_ Hc]. apply Hc.
Qed.

Lemma nodup_between (l k : list nat) e : NoDup (l ++ k) → e ∉ l ++ k → NoDup (l ++ e :: k).
Proof. intros Hn He. rewrite <- Permutation_middle. apply NoDup_cons. done. Qed.

(** [e] linked in between [l] and [k]. *)
Lemma link_in q q' a l k e :
  NoDup (l ++ e :: k) → chain q Head l → chain q a k →
  (k ≠ [] → load_at (tail_of a k) q = Some None ∧ tqh_last q = tail_of a k) →
  (∀ x, load_at x q' = if decide (x = tail_of Head l) then Some (Some e)
                    else if decide (x = NextOf e) then Some (head k) else load_at x q) →
  (∀ d, prev d q' = if decide (d = e) then Some (tail_of Head l)
                    else if decide (head k = Some d) then Some (NextOf e) else prev d q) →
  tqh_last q' = (if decide (k = []) then NextOf e else tqh_last q) →
  repr q' (l ++ e :: k).
Proof.
  intros Hn Hl Hk Hend Hload Hprev Hlast. pose proof Hn as (Hnl & Hd & [He Hnk]%NoDup_cons)%NoDup_app.
  assert (Hne : NextOf e ≠ tail_of Head l) by (apply not_eq_sym, tail_of_ne; set_solver).
  replace (l ++ e :: k) with ((l ++ [e]) ++ k) in * by (rewrite <- app_assoc; done).
  apply (repr_relink q q' a); try done.
  - apply chain_app. split.
    + apply (chain_frame q); try done; [set_solver| |].
      * intros d Hin. rewrite Hprev, !decide_False; [done| |set_solver].
        intros Hh%head_Some_elem_of. set_solver.
      * intros x Hx Hne'. rewrite Hload, !decide_False; [done| |done].
        intros ->. apply elem_of_cons in Hx as [|Hx]; [done|]. set_solver.
    + cbn. rewrite Hload, Hprev, !decide_True; done.
  - rewrite tail_of_snoc, Hload, decide_False, decide_True; done.
  - intros f Hf. rewrite tail_of_snoc, Hprev. apply head_Some_elem_of in Hf as Hin.
    rewrite decide_False by set_solver. rewrite decide_True; done.
  - intros d Hin Hh. rewrite Hprev, !decide_False; [done|done|set_solver].
  - intros d Hin. rewrite Hload, !decide_False; [done|set_solver|].
    apply not_eq_sym, tail_of_ne. set_solver.
  - rewrite tail_of_snoc. done.
Qed.

(** What is between [l] and [k] linked out. *)
Lemma link_out q q' a l k :
  NoDup (l ++ k) → chain q Head l → chain q a k →
  (k ≠ [] → load_at (tail_of a k) q = Some None ∧ tqh_last q = tail_of a k) →
  (∀ x, load_at x q' = if decide (x = tail_of Head l) then Some (head k) else load_at x q) →
  (∀ d, prev d q' = if decide (head k = Some d) then Some (tail_of Head l) else prev d q) →
  tqh_last q' = (if decide (k = []) then tail_of Head l else tqh_last q) →
  repr q' (l ++ k).
Proof.
  intros Hn Hl Hk Hend Hload Hprev Hlast. pose proof Hn as (Hnl & Hd & Hnk)%NoDup_app.
  apply (repr_relink q q' a); try done.
  - apply (chain_frame q); try done; [set_solver| |].
    + intros d Hin. rewrite Hprev, decide_False; [done|]. intros Hh%head_Some_elem_of. set_solver.
    + intros x Hx Hne. rewrite Hload, decide_False; done.
  - rewrite Hload, decide_True; done.
  - intros f Hf. rewrite Hprev, decide_True; done.
  - intros d Hin Hh. rewrite Hprev, decide_False; done.
  - intros d Hin. rewrite Hload, decide_False; [done|].
    apply not_eq_sym, tail_of_ne. set_solver.
Qed.

(** *** The operations *)

Lemma written_placed q q' f g b t a : written q q' f g b t → placed a q → placed a q'.
Proof. intros W. destruct a as [| |e]; [done..|]. apply (w_alloc _ _ _ _ _ _ W). Qed.

Lemma untouched_trans t t' q q1 q2 : untouched t q q1 → untouched t' q1 q2 → untouched (t ++ t') q q2.
Proof. intros H1 H2 d Hd. rewrite H2, H1; set_solver. Qed.

Lemma untouched_sub t t' q q' : untouched t q q' → t ⊆ t' → untouched t' q q'.
Proof. intros H Hs d Hd. apply H. set_solver. Qed.

(** An operation succeeds, makes [l] of the queue, and writes to the links of
    the elements [t] only. *)
Definition becomes (q : tailq) (o : option tailq) (t l : list nat) : Prop :=
  ∃ q', o = Some q' ∧ repr q' l ∧ (∀ d, allocated d q' ↔ allocated d q) ∧ untouched t q q'.

(** One more write of an operation. *)
Ltac access :=
  first
    [ done | assumption
    | match goal with
      | W : written _ ?q _ _ _ _ |- allocated _ ?q => apply (w_alloc _ _ _ _ _ _ W); access
      | W : written _ ?q _ _ _ _ |- placed _ ?q => apply (written_placed _ _ _ _ _ _ _ W); access
      end ].

Ltac write :=
  match goal with
  | |- context [store_at ?a ?v ?q] =>
      let q' := fresh "q" in let E := fresh "E" in let W := fresh "W" in
      destruct (store_ok a v q) as (q' & E & W); [access | rewrite E; cbn [mbind option_bind]; clear E]
  | |- context [set_prev ?e ?a ?q] =>
      let q' := fresh "q" in let E := fresh "E" in let W := fresh "W" in
      destruct (set_prev_ok e a q) as (q' & E & W); [access | rewrite E; cbn [mbind option_bind]; clear E]
  end.

(** The reads of the last queue, by those of the first. *)
Ltac reads :=
  repeat match goal with
  | W : written _ ?q _ _ _ _ |- context [load_at _ ?q] => rewrite (w_load _ _ _ _ _ _ W)
  | W : written _ ?q _ _ _ _ |- context [prev _ ?q] => rewrite (w_prev _ _ _ _ _ _ W)
  | W : written _ ?q _ _ _ _ |- context [tqh_last ?q] => rewrite (w_last _ _ _ _ _ _ W)
  end.

Ltac cases := try intros ?; reads; repeat case_decide; simplify_eq/=; try congruence.

(** What an operation leaves alone. *)
Ltac leaves :=
  match goal with
  | |- ∀ d, _ ↔ _ =>
      let d := fresh "d" in intros d;
      repeat match goal with
        W : written _ ?q _ _ _ _ |- context [allocated _ ?q] => rewrite (w_alloc _ _ _ _ _ _ W) end; done
  | |- untouched _ _ _ =>
      eapply untouched_sub;
        [ repeat match goal with
          | W : written ?q ?q' _ _ _ ?t |- untouched _ ?p ?q' =>
              first [ constr_eq p q; exact (w_rest _ _ _ _ _ _ W)
                    | eapply untouched_trans; [|exact (w_rest _ _ _ _ _ _ W)] ] end
        | ]
  end.

Lemma insert_tail_becomes q l e :
  repr q l → allocated e q → e ∉ l → becomes q (SM_TAILQ_INSERT_TAIL e q) (e :: l) (l ++ [e]).
Proof.
  intros [Hc He Hl Hn] Ha Hin. unfold becomes, SM_TAILQ_INSERT_TAIL.
  pose proof (load_placed _ _ _ He) as Hp.
  write. write.
  assert (Hq : tqh_last q1 = tail_of Head l) by (reads; done). rewrite Hq.
  write.
  pose proof (set_last_written (NextOf e) q2) as W2.
  eexists. split; [done|]. split_and!; [|leaves|].
  - apply (link_in q _ Head); try done; [apply nodup_between; rewrite app_nil_r; done|..].
    all: cases.
  - leaves. pose proof (tail_writes l). set_solver.
Qed.

(** In a head that is all zero there is no slot for an element. *)
Lemma insert_tail_null q e : tqh_last q = Null → SM_TAILQ_INSERT_TAIL e q = None.
Proof.
  intros H. unfold SM_TAILQ_INSERT_TAIL. destruct (links q !! e) as [x|] eqn:E; cbn; rewrite E; [|done].
  cbn. unfold set_prev. cbn. rewrite lookup_insert_eq. cbn. rewrite H. done.
Qed.

Lemma insert_head_becomes q l e :
  repr q l → allocated e q → e ∉ l → becomes q (SM_TAILQ_INSERT_HEAD e q) (e :: l) (e :: l).
Proof.
  intros Hr Ha Hin. unfold becomes, SM_TAILQ_INSERT_HEAD. pose proof Hr as [Hc He Hl Hn].
  pose proof (tail_of_placed _ _ Hr [] l eq_refl) as Hf. cbn in Hf. injection Hf as Hf.
  write. assert (Hq : tqh_first q0 = head l).
  { pose proof (w_load _ _ _ _ _ _ W Head) as Hh. cbv beta in Hh. rewrite decide_False in Hh by done. cbn in Hh. congruence. }
  rewrite Hq. destruct l as [|f l]; cbn [head mbind option_bind].
  - pose proof (set_last_written (NextOf e) q0) as W0.
    pose proof (set_first_written (Some e) (set_last (NextOf e) q0)) as W1. write.
    eexists. split; [done|]. split_and!; [|leaves|leaves; set_solver].
    apply (link_in q q1 Head [] [] e); try done; [apply NoDup_singleton|..]; cases.
  - pose proof (prev_allocated f Head q (proj1 (proj2 Hc))) as Hpf. write.
    pose proof (set_first_written (Some e) q1) as W1. write.
    eexists. split; [done|]. split_and!; [|leaves|leaves; set_solver].
    apply (link_in q q2 Head [] (f :: l) e); try done; [apply NoDup_cons; done|..]; cases.
Qed.

(** Where an element of a queue is. *)
Lemma repr_split q l d k :
  repr q (l ++ d :: k) →
  chain q Head l ∧ load_at (tail_of Head l) q = Some (Some d) ∧ prev d q = Some (tail_of Head l) ∧
  load_at (NextOf d) q = Some (head k) ∧ chain q (NextOf d) k ∧
  (k ≠ [] → load_at (tail_of (NextOf d) k) q = Some None ∧ tqh_last q = tail_of (NextOf d) k) ∧
  allocated d q ∧ placed (tail_of Head l) q.
Proof.
  intros Hr. pose proof Hr as [[Hc (H1 & H2 & H3)]%chain_app He Hl Hn].
  pose proof (tail_of_placed _ _ Hr (l ++ [d]) k) as Hh. rewrite tail_of_snoc in Hh.
  rewrite tail_of_app in He, Hl. split_and!; try done.
  - apply Hh. rewrite <- app_assoc. done.
  - apply (prev_allocated _ _ _ H2).
  - apply (load_placed _ _ _ H1).
Qed.

Lemma remove_becomes q l e k :
  repr q (l ++ e :: k) → becomes q (SM_TAILQ_REMOVE e q) (l ++ e :: k) (l ++ k).
Proof.
  intros Hr. pose proof (repr_split _ _ _ _ Hr) as (Hc & Hd & Hp & Hn & Hk & Hend & Ha & Hpl).
  pose proof (r_nodup _ _ Hr) as (Hnl & Hdis & [He Hnk]%NoDup_cons)%NoDup_app.
  assert (Hno : NoDup (l ++ k)) by (apply NoDup_app; set_solver).
  unfold becomes, SM_TAILQ_REMOVE. rewrite Hn, Hp. cbn [mbind option_bind].
  pose proof (tail_writes l) as Ht.
  destruct k as [|f k]; cbn [head mbind option_bind].
  - pose proof (set_last_written (tail_of Head l) q) as W. write.
    eexists. split; [done|]. split_and!; [|leaves|leaves; set_solver].
    apply (link_out q _ (NextOf e)); try done; cases.
  - pose proof (prev_allocated f (NextOf e) q (proj1 (proj2 Hk))) as Hf. write. write.
    eexists. split; [done|]. split_and!; [|leaves|leaves; set_solver].
    apply (link_out q _ (NextOf e)); try done; cases.
Qed.

Lemma insert_after_becomes q l d k e :
  repr q (l ++ d :: k) → allocated e q → e ∉ l ++ d :: k →
  becomes q (SM_TAILQ_INSERT_AFTER d e q) (e :: l ++ d :: k) (l ++ d :: e :: k).
Proof.
  intros Hr Hae Hin. pose proof (repr_split _ _ _ _ Hr) as (Hc & Hd & Hp & Hn & Hk & Hend & Ha & Hpl).
  pose proof (r_nodup _ _ Hr) as Hno.
  assert (Hl : chain q Head (l ++ [d])) by (apply chain_app; done).
  assert (Ht : tail_of Head (l ++ [d]) = NextOf d) by apply tail_of_snoc.
  assert (Hno' : NoDup ((l ++ [d]) ++ e :: k)).
  { apply nodup_between; rewrite <- app_assoc; done. }
  replace (l ++ d :: e :: k) with ((l ++ [d]) ++ e :: k) by (rewrite <- app_assoc; done).
  unfold becomes, SM_TAILQ_INSERT_AFTER. rewrite Hn. cbn [mbind option_bind]. write.
  assert (Hde : d ≠ e) by set_solver.
  destruct k as [|f k]; cbn [head mbind option_bind].
  - pose proof (set_last_written (NextOf e) q0) as W0. write. write.
    eexists. split; [done|]. split_and!; [|leaves|leaves; set_solver].
    apply (link_in q _ (NextOf d)); try done; rewrite ?Ht; cases.
  - pose proof (prev_allocated f (NextOf d) q (proj1 (proj2 Hk))) as Hf. write. write. write.
    eexists. split; [done|]. split_and!; [|leaves|leaves; set_solver].
    apply (link_in q _ (NextOf d)); try done; rewrite ?Ht; cases.
Qed.

Lemma insert_before_becomes q l d k e :
  repr q (l ++ d :: k) → allocated e q → e ∉ l ++ d :: k →
  becomes q (SM_TAILQ_INSERT_BEFORE d e q) (e :: l ++ d :: k) (l ++ e :: d :: k).
Proof.
  intros Hr Hae Hin. pose proof (repr_split _ _ _ _ Hr) as (Hc & Hd & Hp & Hn & Hk & _ & Ha & Hpl).
  pose proof Hr as [_ Hend Hlast Hno]. rewrite tail_of_app in Hend, Hlast.
  pose proof (tail_writes l) as Ht.
  assert (Hne : tail_of Head l ≠ NextOf e) by (apply tail_of_ne; set_solver).
  assert (Hde : d ≠ e) by set_solver.
  unfold becomes, SM_TAILQ_INSERT_BEFORE. rewrite Hp. cbn [mbind option_bind].
  write. write. write. write.
  eexists. split; [done|]. split_and!; [|leaves|leaves; set_solver].
  apply (link_in q _ (tail_of Head l)); try done; [by apply nodup_between|..]; cases.
Qed.

Lemma replace_becomes q l d k e :
  repr q (l ++ d :: k) → allocated e q → e ∉ l ++ d :: k →
  becomes q (SM_TAILQ_REPLACE d e q) (e :: l ++ d :: k) (l ++ e :: k).
Proof.
  intros Hr Hae Hin. pose proof (repr_split _ _ _ _ Hr) as (Hc & Hd & Hp & Hn & Hk & Hend & Ha & Hpl).
  pose proof (r_nodup _ _ Hr) as (Hnl & Hdis & [He Hnk]%NoDup_cons)%NoDup_app.
  assert (Hno : NoDup (l ++ e :: k)) by (apply nodup_between; [apply NoDup_app|]; set_solver).
  pose proof (tail_writes l) as Ht.
  assert (Hne : tail_of Head l ≠ NextOf e) by (apply tail_of_ne; set_solver).
  unfold becomes, SM_TAILQ_REPLACE. rewrite Hn. cbn [mbind option_bind]. write.
  destruct k as [|f k]; cbn [head mbind option_bind].
  - pose proof (set_last_written (NextOf e) q0) as W0.
    assert (Hp' : prev d (set_last (NextOf e) q0) = Some (tail_of Head l)) by (reads; done).
    rewrite Hp'. cbn [mbind option_bind]. write. write.
    eexists. split; [done|]. split_and!; [|leaves|leaves; set_solver].
    apply (link_in q _ (NextOf d)); try done; cases.
  - pose proof (prev_allocated f (NextOf d) q (proj1 (proj2 Hk))) as Hf. write.
    assert (Hp' : prev d q1 = Some (tail_of Head l)) by (reads; rewrite decide_False by set_solver; done).
    rewrite Hp'. cbn [mbind option_bind]. write. write.
    eexists. split; [done|]. split_and!; [|leaves|leaves; set_solver].
    apply (link_in q _ (NextOf d)); try done; cases.
Qed.

(** The links of other elements do not matter. *)
Lemma repr_ext q q' l :
  repr q l → tqh_first q' = tqh_first q → tqh_last q' = tqh_last q →
  (∀ d, d ∈ l → links q' !! d = links q !! d) → repr q' l.
Proof.
  intros [Hc He Hl Hn] Hf Hlast Hlinks.
  assert (Hld : ∀ x, x ∈ Head :: (NextOf <$> l) → load_at x q' = load_at x q).
  { intros [| |d] Hx; cbn; [done|congruence|]. rewrite Hlinks; [done|]. set_solver. }
  split; [| |congruence|done].
  - apply (chain_frame q); try done; [set_solver| |].
    + intros d Hd. unfold prev. rewrite Hlinks; done.
    + intros x Hx _. auto.
  - rewrite Hld; [done|]. destruct (tail_of_cases Head l) as [[-> ->]|(k & d & -> & ->)]; set_solver.
Qed.

(** *** Reading a queue *)

Lemma init_repr q : repr (SM_TAILQ_INIT q) [].
Proof. split; [done..|]. apply NoDup_nil_2. Qed.

Lemma first_repr q l : repr q l → SM_TAILQ_FIRST q = head l.
Proof. intros Hr. pose proof (tail_of_placed _ _ Hr [] l eq_refl) as Hf. injection Hf as Hf. done. Qed.

Lemma empty_repr q l : repr q l → SM_TAILQ_EMPTY q = bool_decide (l = []).
Proof.
  intros Hr. unfold SM_TAILQ_EMPTY. rewrite (first_repr _ _ Hr). apply bool_decide_ext. destruct l; done.
Qed.

Lemma next_repr q k d r : repr q (k ++ d :: r) → SM_TAILQ_NEXT d q = Some (head r).
Proof. intros Hr. apply (repr_split _ _ _ _ Hr). Qed.

Lemma last_repr q l : repr q l → SM_TAILQ_LAST q = Some (last l).
Proof.
  intros Hr. unfold SM_TAILQ_LAST. rewrite (r_last _ _ Hr).
  destruct l as [|e k _] using rev_ind.
  - cbn. rewrite (r_last _ _ Hr). cbn. apply (r_end _ _ Hr).
  - apply repr_split in Hr as (_ & Hd & Hp & _). rewrite tail_of_snoc. cbn.
    rewrite Hp. cbn. rewrite Hd, last_snoc. done.
Qed.

Lemma prev_repr q k d r : repr q (k ++ d :: r) → SM_TAILQ_PREV d q = Some (last k).
Proof.
  intros Hr. unfold SM_TAILQ_PREV. pose proof (repr_split _ _ _ _ Hr) as (_ & _ & Hp & _). rewrite Hp. cbn.
  destruct k as [|e k _] using rev_ind.
  - cbn. rewrite (r_last _ _ Hr). apply (r_end _ _ Hr).
  - rewrite tail_of_snoc. cbn. rewrite <- app_assoc in Hr. cbn in Hr.
    apply repr_split in Hr as (_ & Hd & Hp' & _). rewrite Hp'. cbn. rewrite Hd, last_snoc. done.
Qed.

Lemma foreach_forward q k r :
  repr q (k ++ r) → foreach (fun e => SM_TAILQ_NEXT e q) (length r) (head r) = Some r.
Proof.
  revert k. induction r as [|d r IH]; intros k Hr; [done|]. cbn [foreach length head].
  rewrite (next_repr _ _ _ _ Hr). cbn [mbind option_bind]. rewrite (IH (k ++ [d])); [done|]. rewrite <- app_assoc. done.
Qed.

Lemma foreach_backward q k r :
  repr q (k ++ r) → foreach (fun e => SM_TAILQ_PREV e q) (length k) (last k) = Some (reverse k).
Proof.
  revert r. induction k as [|d k IH] using rev_ind; intros r Hr; [done|].
  rewrite last_snoc, length_app, Nat.add_1_r, reverse_snoc. cbn [foreach].
  rewrite <- app_assoc in Hr. rewrite (prev_repr _ _ _ _ Hr). cbn [mbind option_bind]. rewrite (IH ([d] ++ r)); done.
Qed.

(** *** The refinement *)

(** C27: The macros of tailq.h implement lists: on a queue of the elements [l] no
    macro follows a pointer to memory that is not allocated, the reads and the
    two loops give what the list has, each insertion, removal and replacement
    gives the queue of the list changed alike, and of the elements only those
    of the queue and the new one are written to. *)
Theorem tailq_refines_list q l :
  repr q l →
  (SM_TAILQ_FIRST q = head l ∧ SM_TAILQ_LAST q = Some (last l) ∧ SM_TAILQ_EMPTY q = bool_decide (l = []) ∧
   SM_TAILQ_FOREACH (length l) q = Some l ∧ SM_TAILQ_FOREACH_REVERSE (length l) q = Some (reverse l)) ∧
  (∀ e, allocated e q → e ∉ l →
     becomes q (SM_TAILQ_INSERT_HEAD e q) (e :: l) (e :: l) ∧
     becomes q (SM_TAILQ_INSERT_TAIL e q) (e :: l) (l ++ [e])) ∧
  (∀ k d r, l = k ++ d :: r →
     SM_TAILQ_NEXT d q = Some (head r) ∧ SM_TAILQ_PREV d q = Some (last k) ∧
     becomes q (SM_TAILQ_REMOVE d q) l (k ++ r) ∧
     ∀ e, allocated e q → e ∉ l →
       becomes q (SM_TAILQ_INSERT_AFTER d e q) (e :: l) (k ++ d :: e :: r) ∧
       becomes q (SM_TAILQ_INSERT_BEFORE d e q) (e :: l) (k ++ e :: d :: r) ∧
       becomes q (SM_TAILQ_REPLACE d e q) (e :: l) (k ++ e :: r)).
Proof.
  intros Hr. split; [|split].
  - unfold SM_TAILQ_FOREACH, SM_TAILQ_FOREACH_REVERSE. rewrite (last_repr _ _ Hr), (first_repr _ _ Hr).
    cbn [mbind option_bind]. split_and!; try done.
    + apply empty_repr, Hr.
    + apply (foreach_forward q [] l Hr).
    + apply (foreach_backward q l []). rewrite app_nil_r. done.
  - auto using insert_head_becomes, insert_tail_becomes.
  - intros k d r ->. split_and!; [eapply next_repr, Hr|eapply prev_repr, Hr|apply remove_becomes, Hr|].
    auto using insert_after_becomes, insert_before_becomes, replace_becomes.
Qed.

(** Three elements in memory: 1 is taken in, then 2, then 3 before 2, and 1 is
    removed. *)
Definition demo_queue : tailq :=
  default (mk_tailq None Head ∅)
    (let x := mk_entry None Head in
     let q := SM_TAILQ_INIT (mk_tailq None Head {[1 := x; 2 := x; 3 := x]}) in
     q ← SM_TAILQ_INSERT_TAIL 1 q; q ← SM_TAILQ_INSERT_TAIL 2 q;
     q ← SM_TAILQ_INSERT_BEFORE 2 3 q; SM_TAILQ_REMOVE 1 q).

Lemma demo_repr : repr demo_queue [3; 2].
Proof. split; [repeat split|reflexivity|reflexivity|apply (bool_decide_unpack _); vm_compute; exact I]. Qed.

Lemma tailq_refines_list_witness :
  repr demo_queue [3; 2] ∧ SM_TAILQ_FOREACH_REVERSE 2 demo_queue = Some [2; 3] ∧
  becomes demo_queue (SM_TAILQ_INSERT_AFTER 3 1 demo_queue) [1; 3; 2] [3; 1; 2].
Proof.
  pose proof (tailq_refines_list demo_queue [3; 2] demo_repr) as (H1 & _ & H3).
  split; [exact demo_repr|]. split; [apply H1|].
  destruct (H3 [] 3 [2] eq_refl) as (_ & _ & _ & H). refine (proj1 (H 1 _ _)).
  - unfold allocated. apply (bool_decide_unpack _). vm_compute. exact I.
  - set_solver.
Defined.
