(* ===== verification/Stm.v ===== *)
(** * The protocol state machine: libmilter/engine.c

    The states, the table of allowed transitions, the commands of the MTA and
    the functions on them: [trans_ok], [fix_stm] and [get_nr_bit].  The static
    array [next_states] is an argument of the functions that read or change
    it.  The theorems characterise [trans_ok] (a chain of states that may be
    skipped), show how the sessions of one process share the table, and give
    the order of SMTP stages that the table enforces. *)

From stdpp Require Import base list numbers sets.
From Stdlib Require Import Strings.Byte ZArith Lia.
From S2P Require Import Prelude Mfdef.
Local Open Scope Z_scope.

(** ** States *)

Definition ST_NONE : Z := -1.
Definition ST_INIT : Z := 0.
Definition ST_OPTS : Z := 1.
Definition ST_CONN : Z := 2.
Definition ST_HELO : Z := 3.
Definition ST_MAIL : Z := 4.
Definition ST_RCPT : Z := 5.
Definition ST_DATA : Z := 6.
Definition ST_HDRS : Z := 7.
Definition ST_EOHS : Z := 8.
Definition ST_BODY : Z := 9.
Definition ST_ENDM : Z := 10.
Definition ST_QUIT : Z := 11.
Definition ST_ABRT : Z := 12.
Definition ST_UNKN : Z := 13.
Definition ST_Q_NC : Z := 14.
Definition ST_LAST : Z := ST_Q_NC.
Definition ST_SKIP : Z := 16.

(** In a mail transaction? *)
Definition ST_IN_MAIL (st : Z) : bool := (ST_MAIL <=? st) && (st <? ST_ENDM).

(** ** Transitions *)

Definition MI_MASK (x : Z) : Z := Z.shiftl 1 x.

Local Infix ".|" := Z.lor (at level 50, left associativity).

Definition NX_INIT : Z := MI_MASK ST_OPTS.
Definition NX_OPTS : Z := MI_MASK ST_CONN .| MI_MASK ST_UNKN.
Definition NX_CONN : Z := MI_MASK ST_HELO .| MI_MASK ST_MAIL .| MI_MASK ST_UNKN.
Definition NX_HELO : Z := MI_MASK ST_HELO .| MI_MASK ST_MAIL .| MI_MASK ST_UNKN.
Definition NX_MAIL : Z := MI_MASK ST_RCPT .| MI_MASK ST_ABRT .| MI_MASK ST_UNKN.
Definition NX_RCPT : Z :=
  MI_MASK ST_HDRS .| MI_MASK ST_EOHS .| MI_MASK ST_DATA .|
  MI_MASK ST_BODY .| MI_MASK ST_ENDM .|
  MI_MASK ST_RCPT .| MI_MASK ST_ABRT .| MI_MASK ST_UNKN.
Definition NX_DATA : Z := MI_MASK ST_EOHS .| MI_MASK ST_HDRS .| MI_MASK ST_ABRT.
Definition NX_HDRS : Z := MI_MASK ST_EOHS .| MI_MASK ST_HDRS .| MI_MASK ST_ABRT.
Definition NX_EOHS : Z := MI_MASK ST_BODY .| MI_MASK ST_ENDM .| MI_MASK ST_ABRT.
Definition NX_BODY : Z := MI_MASK ST_ENDM .| MI_MASK ST_BODY .| MI_MASK ST_ABRT.
Definition NX_ENDM : Z :=
  MI_MASK ST_QUIT .| MI_MASK ST_MAIL .| MI_MASK ST_UNKN .| MI_MASK ST_Q_NC.
Definition NX_QUIT : Z := 0.
Definition NX_ABRT : Z := 0.
Definition NX_UNKN : Z :=
  MI_MASK ST_HELO .| MI_MASK ST_MAIL .|
  MI_MASK ST_RCPT .| MI_MASK ST_ABRT .|
  MI_MASK ST_DATA .|
  MI_MASK ST_BODY .| MI_MASK ST_UNKN .|
  MI_MASK ST_ABRT .| MI_MASK ST_QUIT .| MI_MASK ST_Q_NC.
Definition NX_Q_NC : Z := MI_MASK ST_CONN .| MI_MASK ST_UNKN.
Definition NX_SKIP : Z := MI_MASK ST_SKIP.

(** The initial contents of the array. *)
Definition next_states : list Z :=
  [NX_INIT; NX_OPTS; NX_CONN; NX_HELO; NX_MAIL; NX_RCPT; NX_DATA; NX_HDRS;
   NX_EOHS; NX_BODY; NX_ENDM; NX_QUIT; NX_ABRT; NX_UNKN; NX_Q_NC].

(** The loop of [trans_ok]; [tbl] is the table from the state [s] on. *)
Fixpoint trans_loop (new : Z) (tbl : list Z) : bool :=
  match tbl with
  | [] => false
  | m :: rest =>
      if negb (Z.land (MI_MASK new) m =? 0) then true
      else
        match rest with
        | [] => false
        | n :: _ => if bitset NX_SKIP n then trans_loop new rest else false
        end
  end.

Definition trans_ok (tbl : list Z) (old new : Z) : bool :=
  if (old <? 0) || (Z.of_nat (length tbl) <=? old) then false
  else trans_loop new (drop (Z.to_nat old) tbl).

(** [next_states\[st\] |= NX_SKIP] *)
Definition set_skip (st : Z) (tbl : list Z) : list Z :=
  alter (fun m => m .| NX_SKIP) (Z.to_nat st) tbl.

(** The flags of [ctx_pflags] that make a state one to skip, in the order of
    the tests. *)
Definition fix_stm (fl : Z) (tbl : list Z) : list Z :=
  let tbl := if bitset SMFIP_NOCONNECT fl then set_skip ST_CONN tbl else tbl in
  let tbl := if bitset SMFIP_NOHELO fl then set_skip ST_HELO tbl else tbl in
  let tbl := if bitset SMFIP_NOMAIL fl then set_skip ST_MAIL tbl else tbl in
  let tbl := if bitset SMFIP_NORCPT fl then set_skip ST_RCPT tbl else tbl in
  let tbl := if bitset SMFIP_NOHDRS fl then set_skip ST_HDRS tbl else tbl in
  let tbl := if bitset SMFIP_NOEOH fl then set_skip ST_EOHS tbl else tbl in
  let tbl := if bitset SMFIP_NOBODY fl then set_skip ST_BODY tbl else tbl in
  let tbl := if bitset SMFIP_NODATA fl then set_skip ST_DATA tbl else tbl in
  let tbl := if bitset SMFIP_NOUNKNOWN fl then set_skip ST_UNKN tbl else tbl in
  tbl.

Definition get_nr_bit (state : Z) : Z :=
  if state =? ST_CONN then SMFIP_NR_CONN
  else if state =? ST_HELO then SMFIP_NR_HELO
  else if state =? ST_MAIL then SMFIP_NR_MAIL
  else if state =? ST_RCPT then SMFIP_NR_RCPT
  else if state =? ST_DATA then SMFIP_NR_DATA
  else if state =? ST_UNKN then SMFIP_NR_UNKN
  else if state =? ST_HDRS then SMFIP_NR_HDR
  else if state =? ST_EOHS then SMFIP_NR_EOH
  else if state =? ST_BODY then SMFIP_NR_BODY
  else 0.

(** ** Commands *)

Definition CM_ARG0 : Z := 0.
Definition CM_ARG1 : Z := 1.
Definition CM_ARG2 : Z := 2.
Definition CM_ARGO : Z := 5.
Definition CM_ARGV : Z := 8.

Definition CT_CONT : Z := 0x0000.
Definition CT_IGNO : Z := 0x0001.
Definition CT_KEEP : Z := 0x0004.
Definition CT_END : Z := 0x0008.

(** The functions the table points to. *)
Inductive st_fct :=
  | st_abortfct_ | st_macros_ | st_bodychunk_ | st_connectinfo_ | st_bodyend_
  | st_helo_ | st_header_ | st_sender_ | st_optionneg_ | st_eoh_ | st_quit_
  | st_data_ | st_rcpt_ | st_unknown_.

#[global] Instance st_fct_eq_dec : EqDecision st_fct.
Proof. solve_decision. Defined.

Record cmdfct := mk_cmdfct {
  cm_cmd : byte;
  cm_argt : Z;
  cm_next : Z;
  cm_todo : Z;
  cm_macros : Z;
  cm_fct : st_fct
}.

Definition cmds : list cmdfct :=
  [ mk_cmdfct SMFIC_ABORT   CM_ARG0 ST_ABRT CT_CONT CI_NONE st_abortfct_;
    mk_cmdfct SMFIC_MACRO   CM_ARGV ST_NONE CT_KEEP CI_NONE st_macros_;
    mk_cmdfct SMFIC_BODY    CM_ARG1 ST_BODY CT_CONT CI_NONE st_bodychunk_;
    mk_cmdfct SMFIC_CONNECT CM_ARG2 ST_CONN CT_CONT CI_CONN st_connectinfo_;
    mk_cmdfct SMFIC_BODYEOB CM_ARG1 ST_ENDM CT_CONT CI_EOM st_bodyend_;
    mk_cmdfct SMFIC_HELO    CM_ARG1 ST_HELO CT_CONT CI_HELO st_helo_;
    mk_cmdfct SMFIC_HEADER  CM_ARG2 ST_HDRS CT_CONT CI_NONE st_header_;
    mk_cmdfct SMFIC_MAIL    CM_ARGV ST_MAIL CT_CONT CI_MAIL st_sender_;
    mk_cmdfct SMFIC_OPTNEG  CM_ARGO ST_OPTS CT_CONT CI_NONE st_optionneg_;
    mk_cmdfct SMFIC_EOH     CM_ARG0 ST_EOHS CT_CONT CI_EOH st_eoh_;
    mk_cmdfct SMFIC_QUIT    CM_ARG0 ST_QUIT CT_END CI_NONE st_quit_;
    mk_cmdfct SMFIC_DATA    CM_ARG0 ST_DATA CT_CONT CI_DATA st_data_;
    mk_cmdfct SMFIC_RCPT    CM_ARGV ST_RCPT CT_IGNO CI_RCPT st_rcpt_;
    mk_cmdfct SMFIC_UNKNOWN CM_ARG1 ST_UNKN CT_IGNO CI_NONE st_unknown_;
    mk_cmdfct SMFIC_QUIT_NC CM_ARG0 ST_Q_NC CT_CONT CI_NONE st_quit_ ].

(** The loop of [mi_engine] that looks the command up. *)
Fixpoint find_cmd (cmd : byte) (l : list cmdfct) : option cmdfct :=
  match l with
  | [] => None
  | c :: r => if decide (cmd = cm_cmd c) then Some c else find_cmd cmd r
  end.

(** ** The state part of one round of [mi_engine]

    [enter] is the check of a command's state: the state entered, and whether
    the direct transition was refused (the round then calls [xxfi_abort] when
    in a transaction); [None] when the command is ignored, with [ST_HELO] the
    state left behind. *)
Definition enter (tbl : list Z) (cur new : Z) : option Z * bool :=
  if new =? ST_NONE then (Some cur, false)
  else if trans_ok tbl cur new then (Some new, false)
  else if trans_ok tbl ST_HELO new then (Some new, true)
  else (None, true).

(** The state after a command with [cm_todo] [todo] whose function returned
    [r]; [None] leaves the loop with a failure. *)
Definition leave (todo cur r : Z) : option Z :=
  if r =? SMFIS_ACCEPT then Some ST_HELO
  else if (r =? SMFIS_REJECT) || (r =? SMFIS_DISCARD) || (r =? SMFIS_TEMPFAIL) then
    Some (if bitset CT_IGNO todo then cur else ST_HELO)
  else if r =? _SMFIS_ABORT then None
  else Some cur.

(** ** Properties of [trans_ok] *)

Lemma trans_loop_spec new tbl :
  trans_loop new tbl = true <->
  exists k m, tbl !! k = Some m /\ Z.land (MI_MASK new) m <> 0 /\
    forall j n, (0 < j <= k)%nat -> tbl !! j = Some n -> bitset NX_SKIP n = true.
Proof.
  induction tbl as [|m rest IH]; simpl; [split; [done|by intros ([|?] & ? & ? & _)]|].
  destruct (Z.eqb_spec (Z.land (MI_MASK new) m) 0) as [Hm|Hm]; simpl.
  2:{ split; [|done]. intros _. exists 0%nat, m. split_and!; [done..|]. intros; lia. }
  destruct rest as [|n rest].
  { split; [done|]. intros ([|k] & m' & Hk & Hb & _); by simplify_eq/=. }
  destruct (bitset NX_SKIP n) eqn:Hn.
  - rewrite IH. split.
    + intros (k & m' & Hk & Hb & Hs). exists (S k), m'. split_and!; [done..|].
      intros [|[|j]] n' Hj Hl; [lia|by simplify_eq/=|]. apply (Hs (S j)); [lia|done].
    + intros ([|k] & m' & Hk & Hb & Hs); [by simplify_eq/=|].
      exists k, m'. split_and!; [done..|]. intros j n' Hj Hl. apply (Hs (S j)); [lia|done].
  - split; [done|]. intros ([|k] & m' & Hk & Hb & Hs); [by simplify_eq/=|].
    rewrite <- Hn. apply (Hs 1%nat); [lia|done].
Qed.

Lemma trans_ok_iff (tbl : list Z) (old new : Z) :
  trans_ok tbl old new = true <->
  exists k m, 0 <= old <= k /\ tbl !! Z.to_nat k = Some m /\ Z.land (MI_MASK new) m <> 0 /\
    forall j n, old < j <= k -> tbl !! Z.to_nat j = Some n -> bitset NX_SKIP n = true.
Proof.
  unfold trans_ok. destruct (Z.ltb_spec old 0), (Z.leb_spec (Z.of_nat (length tbl)) old); simpl.
  1-2: split; [done|intros (k & m & ? & _); lia].
  { split; [done|]. intros (k & m & ? & Hk & _).
    apply lookup_lt_Some in Hk. lia. }
  rewrite trans_loop_spec. setoid_rewrite lookup_drop. split.
  - intros (k & m & Hk & Hb & Hs). exists (old + Z.of_nat k), m.
    split; [lia|]. split; [by replace (Z.to_nat _) with (Z.to_nat old + k)%nat by lia|].
    split; [done|]. intros j n Hj Hl. apply (Hs (Z.to_nat j - Z.to_nat old)%nat); [lia|].
    by replace (_ + _)%nat with (Z.to_nat j) by lia.
  - intros (k & m & ? & Hk & Hb & Hs). exists (Z.to_nat k - Z.to_nat old)%nat, m.
    split; [by replace (_ + _)%nat with (Z.to_nat k) by lia|]. split; [done|].
    intros j n Hj Hl. apply (Hs (old + Z.of_nat j)); [lia|].
    by replace (Z.to_nat _) with (Z.to_nat old + j)%nat by lia.
Qed.

(** [trans_ok] accepts the transition from [old] to [new] exactly when
    [new] is a successor of some state [k] at or after [old] in the table and
    every state passed over on the way, from the one after [old] up to [k]
    itself, carries the skip bit. *)
Theorem trans_ok_spec (tbl : list Z) (old new : Z) :
  trans_ok tbl old new = true <->
  exists k m, 0 <= old <= k /\ tbl !! Z.to_nat k = Some m /\ Z.land (MI_MASK new) m <> 0 /\
    forall j n, old < j <= k -> tbl !! Z.to_nat j = Some n -> bitset NX_SKIP n = true.
Proof. apply trans_ok_iff. Qed.

(** ** The shared table *)

Lemma bitset_lor b f g : bitset b (Z.lor f g) = bitset b f || bitset b g.
Proof.
  unfold bitset. rewrite Z.land_lor_distr_l, <- negb_andb. f_equal.
  apply eq_true_iff_eq. rewrite andb_true_iff, !Z.eqb_eq. apply Z.lor_eq_0_iff.
Qed.

(** The flag that lets a state be skipped. *)
Definition skip_flag (i : nat) : Z :=
  nth i [0; 0; SMFIP_NOCONNECT; SMFIP_NOHELO; SMFIP_NOMAIL; SMFIP_NORCPT; SMFIP_NODATA;
         SMFIP_NOHDRS; SMFIP_NOEOH; SMFIP_NOBODY; 0; 0; 0; SMFIP_NOUNKNOWN] 0.

Definition skip_if (c : bool) (m : Z) : Z := if c then m .| NX_SKIP else m.

Lemma set_skip_lookup (c : bool) st tbl i :
  (if c then set_skip st tbl else tbl) !! i =
  skip_if (c && bool_decide (i = Z.to_nat st)) <$> tbl !! i.
Proof.
  unfold skip_if. destruct c; simpl.
  - unfold set_skip. case_bool_decide as Hi.
    + subst. by rewrite list_lookup_alter_eq.
    + rewrite list_lookup_alter_ne by done. by destruct (tbl !! i).
  - by destruct (tbl !! i).
Qed.

Lemma bitset_0 fl : bitset 0 fl = false.
Proof. unfold bitset. by rewrite Z.land_0_r. Qed.

Lemma fix_stm_lookup fl tbl i :
  fix_stm fl tbl !! i = skip_if (bitset (skip_flag i) fl) <$> tbl !! i.
Proof.
  unfold fix_stm. cbv zeta. rewrite !set_skip_lookup, <- !option_fmap_compose.
  destruct (tbl !! i) as [m|]; [|done]. simpl. f_equal.
  do 15 (destruct i as [|i]; [unfold skip_if; simpl; rewrite ?bitset_0, ?andb_true_r, ?andb_false_r; done|]).
  unfold skip_if. rewrite !bool_decide_eq_false_2 by (vm_compute; lia).
  rewrite !andb_false_r. unfold skip_flag. rewrite nth_overflow by (simpl; lia).
  by rewrite bitset_0.
Qed.

Lemma skip_if_twice b c m : skip_if b (skip_if c m) = skip_if (b || c) m.
Proof.
  destruct b, c; unfold skip_if; simpl; try done.
  by rewrite <- Z.lor_assoc, Z.lor_diag.
Qed.

(** The table all sessions share depends only on the union of the protocol
    flags the sessions asked for, not on how many sessions there were or in
    which order they negotiated. *)
Theorem fix_stm_union (fl1 fl2 : Z) (tbl : list Z) :
  fix_stm fl1 (fix_stm fl2 tbl) = fix_stm (Z.lor fl1 fl2) tbl /\
  fix_stm fl1 (fix_stm fl2 tbl) = fix_stm fl2 (fix_stm fl1 tbl).
Proof.
  assert (forall f g, fix_stm f (fix_stm g tbl) = fix_stm (Z.lor f g) tbl) as H.
  { intros f g. apply list_eq. intros i. rewrite !fix_stm_lookup, <- option_fmap_compose.
    destruct (tbl !! i); [|done]. simpl. by rewrite skip_if_twice, bitset_lor. }
  split; [apply H|]. rewrite !H. by rewrite Z.lor_comm.
Qed.

Lemma skip_if_bits c m b : bitset b m = true -> bitset b (skip_if c m) = true.
Proof. destruct c; simpl; [|done]. intros H. by rewrite bitset_lor, H. Qed.

(** The table's rows after [fix_stm] in terms of the rows before. *)
Lemma fix_stm_row fl tbl i m : tbl !! i = Some m ->
  fix_stm fl tbl !! i = Some (skip_if (bitset (skip_flag i) fl) m).
Proof. intros H. by rewrite fix_stm_lookup, H. Qed.

Lemma bitset_land b m : Z.land b m <> 0 <-> bitset b m = true.
Proof. unfold bitset. rewrite Z.land_comm. by destruct (Z.eqb_spec (Z.land m b) 0). Qed.

(** A session's protocol flags only ever add transitions to the shared
    table, for every session of the process: what was accepted before stays
    accepted, and no row loses a bit. *)
Theorem fix_stm_monotone (fl : Z) (tbl : list Z) (old new : Z)
  (Hok : trans_ok tbl old new = true) : trans_ok (fix_stm fl tbl) old new = true.
Proof.
  apply trans_ok_iff in Hok as (k & m & Hk & Hm & Hb & Hs).
  apply trans_ok_iff. exists k. eexists. split; [done|]. split; [by apply fix_stm_row|].
  split; [apply bitset_land, skip_if_bits; by apply bitset_land|].
  intros j n Hj Hl. rewrite fix_stm_lookup in Hl.
  destruct (tbl !! Z.to_nat j) as [n'|] eqn:En; [|done]. simplify_eq/=.
  apply skip_if_bits. by apply (Hs j).
Qed.

Lemma fix_stm_monotone_witness :
  trans_ok (fix_stm SMFIP_NOHELO next_states) ST_CONN ST_MAIL = true.
Proof. apply (fix_stm_monotone SMFIP_NOHELO next_states ST_CONN ST_MAIL). reflexivity. Defined.

(** ** The order of SMTP stages

    The states a session can be in, with the commands entered so far (the
    states of those that have one, oldest first): the state part of the loop
    of [mi_engine] for every sequence of commands and results. *)
Inductive stm_run (tbl : list Z) : list Z -> Z -> Prop :=
  | run_init : stm_run tbl [] ST_INIT
  | run_cmd t cur c s refused r cur' :
      stm_run tbl t cur -> c ∈ cmds -> cm_next c <> ST_NONE ->
      enter tbl cur (cm_next c) = (Some s, refused) ->
      leave (cm_todo c) s r = Some cur' ->
      stm_run tbl (t ++ [s]) cur'
  | run_macro t cur r cur' :
      stm_run tbl t cur -> leave CT_KEEP cur r = Some cur' -> stm_run tbl t cur'
  | run_ignored t cur c :
      stm_run tbl t cur -> c ∈ cmds -> (enter tbl cur (cm_next c)).1 = None ->
      stm_run tbl t ST_HELO.

Definition in_message (s : Z) : Prop := ST_RCPT <= s <= ST_BODY.

Definition states : list Z := seqZ 0 15.

Lemma in_states s : 0 <= s < 15 -> s ∈ states.
Proof. intros. apply elem_of_seqZ. lia. Qed.

(** Entering a stage of a message needs the stage before it. *)
Definition enter_check (cur new : Z) : bool :=
  match enter next_states cur new with
  | (Some s, _) =>
      (s =? new) && (0 <=? s) && (s <? 15) &&
      (negb ((ST_RCPT <=? new) && (new <=? ST_ENDM)) ||
       ((cur =? ST_MAIL) && (new =? ST_RCPT)) ||
       ((ST_RCPT <=? cur) && (cur <=? ST_BODY)) || (cur =? ST_UNKN))
  | (None, _) => true
  end.

Lemma enter_checked : forallb (fun c =>
  (cm_next c =? ST_NONE) || forallb (fun s => enter_check s (cm_next c)) states) cmds = true.
Proof. vm_compute. reflexivity. Qed.

Lemma enter_default c cur s b :
  c ∈ cmds -> cm_next c <> ST_NONE -> 0 <= cur < 15 ->
  enter next_states cur (cm_next c) = (Some s, b) ->
  s = cm_next c /\ 0 <= s < 15 /\
  (ST_RCPT <= s <= ST_ENDM ->
   (cur = ST_MAIL /\ s = ST_RCPT) \/ in_message cur \/ cur = ST_UNKN).
Proof.
  intros Hc Hn Hcur He. pose proof enter_checked as H.
  rewrite forallb_forall in H. apply list_elem_of_In, H in Hc. clear H.
  destruct (Z.eqb_spec (cm_next c) ST_NONE) as [|_]; [done|]. rewrite orb_false_l in Hc.
  rewrite forallb_forall in Hc. specialize (Hc cur (proj1 (list_elem_of_In _ _) (in_states _ Hcur))).
  unfold enter_check in Hc. rewrite He in Hc. unfold in_message. lia.
Qed.

Lemma leave_cases todo cur r cur' : leave todo cur r = Some cur' -> cur' = cur \/ cur' = ST_HELO.
Proof. unfold leave. repeat case_match; naive_solver. Qed.

(** What the trace holds in each state, as long as no unknown command came. *)
Definition stage (t : list Z) (cur : Z) : Prop :=
  0 <= cur < 15 /\
  (cur = ST_UNKN -> ST_UNKN ∈ t) /\
  (cur = ST_MAIL -> exists t0, t = t0 ++ [ST_MAIL]) /\
  (in_message cur ->
     ST_UNKN ∈ t \/ exists t0 mid, t = t0 ++ ST_MAIL :: ST_RCPT :: mid /\ Forall in_message mid).

Lemma stage_helo t : stage t ST_HELO.
Proof. unfold stage, in_message, ST_HELO, ST_UNKN, ST_MAIL, ST_RCPT. repeat split; lia. Qed.

Lemma stage_leave t todo s r cur' : stage t s -> leave todo s r = Some cur' -> stage t cur'.
Proof. intros H Hl. apply leave_cases in Hl as [->| ->]; [done|apply stage_helo]. Qed.

Lemma stage_enter t cur c s b :
  stage t cur -> c ∈ cmds -> cm_next c <> ST_NONE ->
  enter next_states cur (cm_next c) = (Some s, b) -> stage (t ++ [s]) s.
Proof.
  intros (Hcur & Hu & Hm & Hi) Hc Hn He.
  destruct (enter_default c cur s b Hc Hn Hcur He) as (-> & Hs & Hpred).
  split; [done|]. split; [intros ->; set_solver|]. split; [intros ->; eauto|].
  intros Hin. unfold in_message in *.
  assert (ST_RCPT <= cm_next c <= ST_ENDM) as Hr by (unfold ST_ENDM, ST_BODY in *; lia).
  destruct (Hpred Hr) as [[Hcm Hr']|[Hcm|Hcm]].
  - right. destruct (Hm Hcm) as [t0 ->]. exists t0, []. rewrite Hr', <- app_assoc. done.
  - destruct (Hi Hcm) as [?|(t0 & mid & -> & HF)]; [left; rewrite elem_of_app; auto|right].
    exists t0, (mid ++ [cm_next c]). rewrite <- app_assoc. split; [done|].
    apply Forall_app. split; [done|]. by constructor.
  - left. specialize (Hu Hcm). set_solver.
Qed.

Lemma stage_run t cur : stm_run next_states t cur -> stage t cur.
Proof.
  induction 1 as [|t cur c s b r cur' _ IH Hc Hn He Hl|t cur r cur' _ IH Hl|t cur c _ IH Hc He].
  - unfold stage, in_message, ST_INIT, ST_UNKN, ST_MAIL, ST_RCPT. repeat split; lia.
  - eapply stage_leave; [by eapply stage_enter|done].
  - by eapply stage_leave.
  - apply stage_helo.
Qed.

(** With the library's own table, whatever the MTA sends and the callbacks
    answer, end of message is entered only in a session whose commands so far
    end in MAIL, then RCPT, then only stages of that message - unless an
    unknown SMTP command was entered before. *)
Theorem eom_needs_mail_rcpt (t : list Z) (cur : Z) (c : cmdfct) (refused : bool)
  (Hrun : stm_run next_states t cur) (Hc : c ∈ cmds)
  (Heom : enter next_states cur (cm_next c) = (Some ST_ENDM, refused))
  (Hn : cm_next c <> ST_NONE) (Hu : ST_UNKN ∉ t) :
  refused = false /\
  exists t0 mid, t = t0 ++ ST_MAIL :: ST_RCPT :: mid /\ Forall in_message mid.
Proof.
  apply stage_run in Hrun as (Hcur & HU & Hm & Hi).
  destruct (enter_default c cur ST_ENDM refused Hc Hn Hcur Heom) as (Hs & _ & Hpred).
  destruct Hpred as [[_ ?]|[Hin|HUN]]; [done|done| |by destruct (Hu (HU HUN))].
  split; [|destruct (Hi Hin); naive_solver].
  rewrite <- Hs in Heom. unfold enter in Heom.
  destruct (Z.eqb_spec ST_ENDM ST_NONE); [done|].
  destruct (trans_ok next_states cur ST_ENDM); by simplify_eq/=.
Qed.

Ltac in_cmds := apply list_elem_of_In; vm_compute; tauto.

Lemma eom_needs_mail_rcpt_witness :
  let t := [ST_OPTS; ST_CONN; ST_MAIL; ST_RCPT] in
  false = false /\ exists t0 mid, t = t0 ++ ST_MAIL :: ST_RCPT :: mid /\ Forall in_message mid.
Proof.
  apply (eom_needs_mail_rcpt [ST_OPTS; ST_CONN; ST_MAIL; ST_RCPT] ST_RCPT
           (mk_cmdfct SMFIC_BODYEOB CM_ARG1 ST_ENDM CT_CONT CI_EOM st_bodyend_) false).
  - eapply (run_cmd _ [ST_OPTS; ST_CONN; ST_MAIL] ST_MAIL
              (mk_cmdfct SMFIC_RCPT CM_ARGV ST_RCPT CT_IGNO CI_RCPT st_rcpt_) _ false SMFIS_CONTINUE);
      [|in_cmds|done|reflexivity|reflexivity].
    eapply (run_cmd _ [ST_OPTS; ST_CONN] ST_CONN
              (mk_cmdfct SMFIC_MAIL CM_ARGV ST_MAIL CT_CONT CI_MAIL st_sender_) _ false SMFIS_CONTINUE);
      [|in_cmds|done|reflexivity|reflexivity].
    eapply (run_cmd _ [ST_OPTS] ST_OPTS
              (mk_cmdfct SMFIC_CONNECT CM_ARG2 ST_CONN CT_CONT CI_CONN st_connectinfo_) _ false SMFIS_CONTINUE);
      [|in_cmds|done|reflexivity|reflexivity].
    eapply (run_cmd _ [] ST_INIT
              (mk_cmdfct SMFIC_OPTNEG CM_ARGO ST_OPTS CT_CONT CI_NONE st_optionneg_) _ false _SMFIS_OPTIONS);
      [|in_cmds|done|reflexivity|reflexivity].
    constructor.
  - in_cmds.
  - reflexivity.
  - done.
  - apply (bool_decide_unpack _). vm_compute. exact I.
Defined.

(** The exception is real.  After an unknown SMTP command the table allows
    a body and then end of message, with no sender and no recipient in the
    session. *)
Theorem unknown_bypasses_mail :
  stm_run next_states [ST_OPTS; ST_CONN; ST_UNKN; ST_BODY; ST_ENDM] ST_ENDM.
Proof.
  eapply (run_cmd _ [ST_OPTS; ST_CONN; ST_UNKN; ST_BODY] ST_BODY
            (mk_cmdfct SMFIC_BODYEOB CM_ARG1 ST_ENDM CT_CONT CI_EOM st_bodyend_) _ false SMFIS_CONTINUE);
    [|in_cmds|done|reflexivity|reflexivity].
  eapply (run_cmd _ [ST_OPTS; ST_CONN; ST_UNKN] ST_UNKN
            (mk_cmdfct SMFIC_BODY CM_ARG1 ST_BODY CT_CONT CI_NONE st_bodychunk_) _ false SMFIS_CONTINUE);
    [|in_cmds|done|reflexivity|reflexivity].
  eapply (run_cmd _ [ST_OPTS; ST_CONN] ST_CONN
            (mk_cmdfct SMFIC_UNKNOWN CM_ARG1 ST_UNKN CT_IGNO CI_NONE st_unknown_) _ false SMFIS_CONTINUE);
    [|in_cmds|done|reflexivity|reflexivity].
  eapply (run_cmd _ [ST_OPTS] ST_OPTS
            (mk_cmdfct SMFIC_CONNECT CM_ARG2 ST_CONN CT_CONT CI_CONN st_connectinfo_) _ false SMFIS_CONTINUE);
    [|in_cmds|done|reflexivity|reflexivity].
  eapply (run_cmd _ [] ST_INIT
            (mk_cmdfct SMFIC_OPTNEG CM_ARGO ST_OPTS CT_CONT CI_NONE st_optionneg_) _ false _SMFIS_OPTIONS);
    [|in_cmds|done|reflexivity|reflexivity].
  constructor.
Qed.
