(* ===== verification/Macros.v ===== *)
(** * Arguments and macros: dec_argv, dec_arg2, st_macros, mi_clr_macros,
    mi_clr_symlist (libmilter/engine.c) and smfi_getsymval (libmilter/smfi.c)

    A vector of [char *] is the list of its elements, each [None] (NULL) or an
    offset in the buffer of the command it was made from.  The theorems: the
    two decoders return exactly the strings of the buffer, and a macro stored
    by [st_macros] is found by [smfi_getsymval], with the braces of
    one-character names optional and later stages hiding earlier ones. *)

From stdpp Require Import base list numbers strings.
From Stdlib Require Import Strings.Byte ZArith Lia.
From S2P Require Import Prelude Mfdef Stm.
Local Open Scope cM_scope.

(** [genarg] of engine.c: the data of a command ([a_ctx] is the context of the
    session). *)
Record genarg := mk_genarg {
  a_len : Z;
  a_buf : option bytes;
  a_idx : Z
}.

(** ** Decoding *)

(** The first loop of [dec_argv]. *)
Definition count_nul (b : bytes) : nat := length (filter (fun c => c = x00) b).

(** The second loop: [&buf\[i + 1\]] for each NUL, NULL for one at the end;
    pointers are counted from [base]. *)
Fixpoint argv_fill (base len i : nat) (b : bytes) : list (option nat) :=
  match b with
  | [] => []
  | c :: r =>
      if decide (c = x00) then
        (if (len <=? i + 1)%nat then None else Some (base + i + 1)%nat) :: argv_fill base len (S i) r
      else argv_fill base len (S i) r
  end.

(** The [len] bytes [b] at [base] in the command's buffer; [ok] is the outcome
    of [malloc]. *)
Definition dec_argv (ok : bool) (base : nat) (b : bytes) : option (list (option nat)) :=
  let nelem := count_nul b in
  if (nelem =? 0)%nat then None
  else if negb ok then None
  else Some (<[nelem := None]> (Some base :: argv_fill base (length b) 0 b)).

(** [for (i = 1; i < len && buf\[i\] != '\0'; i++)]: the first such [i]. *)
Fixpoint scan_nul (b : bytes) (i : nat) : nat :=
  match b with
  | [] => i
  | c :: r => if decide (c = x00) then i else scan_nul r (S i)
  end.

(** The offsets of the two strings. *)
Definition dec_arg2 (b : bytes) : option (nat * nat) :=
  let len := length b in
  if (len =? 0)%nat then None
  else
    match last b with
    | Some c =>
        if decide (c <> x00) then None
        else
          let i := scan_nul (drop 1 b) 1 in
          if (len - 1 <=? i)%nat then None else Some (0, i + 1)%nat
    | None => None
    end.

(** The strings a callback reads through a NULL-terminated vector; [None] is a
    read outside the vector or the buffer. *)
Fixpoint argv_strings (buf : bytes) (s : list (option nat)) : option (list bytes) :=
  match s with
  | [] => None
  | None :: _ => Some []
  | Some p :: r => t ← cstr_at buf p; ts ← argv_strings buf r; Some (t :: ts)
  end.

Section macros.
Context {P S : Type}.
Abbreviation W := (world P S).
Local Open Scope Z_scope.

(** [free] of both vectors from index [m] on; the loop of [mi_clr_macros]. *)
Definition mi_clr_macros (m : nat) : cM W unit :=
  modc (fun c => set_ctx_mac_ptr (take m (ctx_mac_ptr c) ++ replicate (MAX_MACROS_ENTRIES - m) None)
                (set_ctx_mac_buf (take m (ctx_mac_buf c) ++ replicate (MAX_MACROS_ENTRIES - m) None) c)).

Definition mi_clr_symlist : cM W unit :=
  modc (set_ctx_mac_list (replicate MAX_MACROS_ENTRIES None)).

(** The [switch] of [st_macros]. *)
Definition macro_index (c : byte) : option Z :=
  if decide (c = SMFIC_CONNECT) then Some CI_CONN
  else if decide (c = SMFIC_HELO) then Some CI_HELO
  else if decide (c = SMFIC_MAIL) then Some CI_MAIL
  else if decide (c = SMFIC_RCPT) then Some CI_RCPT
  else if decide (c = SMFIC_DATA) then Some CI_DATA
  else if decide (c = SMFIC_BODYEOB) then Some CI_EOM
  else if decide (c = SMFIC_EOH) then Some CI_EOH
  else None.

Definition st_macros (g : genarg) : cM W Z :=
  if a_len g <? 1 then ret _SMFIS_FAIL
  else
    let* b := deref NullDeref (a_buf g) in
    let data := take (Z.to_nat (a_len g) - 1) (drop 1 b) in
    let* ok := if (count_nul data =? 0)%nat then ret true else malloc_ok in
    match dec_argv ok 1 data with
    | None => ret _SMFIS_FAIL
    | Some argv =>
        let* c := deref OutOfBounds (head b) in
        match macro_index c with
        | None => ret _SMFIS_FAIL
        | Some i =>
            modc (fun c => set_ctx_mac_ptr (<[Z.to_nat i := Some argv]> (ctx_mac_ptr c)) c) ;;;
            modc (fun c => set_ctx_mac_buf (<[Z.to_nat i := Some b]> (ctx_mac_buf c)) c) ;;;
            ret _SMFIS_KEEP
        end
    end.

(** The comparisons of [smfi_getsymval]: the name itself, a name in braces of
    one character without them, a name of one character with them. *)
Definition sym_match (symname n : bytes) : bool :=
  bool_decide (n = symname)
  || match symname with
     | [b1; c; b2] => bool_decide (b1 = "{"%byte /\ b2 = "}"%byte) && bool_decide (n = [c])
     | _ => false
     end
  || match symname with
     | [c] => bool_decide (n = ["{"%byte; c; "}"%byte])
     | _ => false
     end.

(** The inner loop over one vector: [Some] is the value returned, [None] goes
    on with the next vector. *)
Fixpoint sym_scan (symname buf : bytes) (s : list (option nat)) : cM W (option (option bytes)) :=
  match s with
  | [] => undef OutOfBounds
  | None :: _ => ret None
  | Some p :: r =>
      let* n := deref OutOfBounds (cstr_at buf p) in
      if sym_match symname n then
        match r with
        | [] => undef OutOfBounds
        | None :: _ => ret (Some None)
        | Some q :: _ => let* v := deref OutOfBounds (cstr_at buf q) in ret (Some (Some v))
        end
      else
        match r with
        | [] => undef OutOfBounds
        | _ :: r' => sym_scan symname buf r'
        end
  end.

(** The outer loop, from the index [n - 1] down. *)
Fixpoint sym_search (symname : bytes) (ptr : list (option (list (option nat))))
    (bufs : list (option bytes)) (n : nat) : cM W (option bytes) :=
  match n with
  | O => ret None
  | Datatypes.S i =>
      match ptr !! i, bufs !! i with
      | Some (Some s), Some (Some b) =>
          let* r := sym_scan symname b s in
          match r with
          | Some v => ret v
          | None => sym_search symname ptr bufs i
          end
      | _, _ => sym_search symname ptr bufs i
      end
  end.

Definition smfi_getsymval (symname : bytes) : cM W (option bytes) :=
  if decide (symname = []) then ret None
  else
    let* ptr := getc ctx_mac_ptr in
    let* bufs := getc ctx_mac_buf in
    sym_search symname ptr bufs MAX_MACROS_ENTRIES.

End macros.

(** ** The decoders return the strings of the buffer *)

(** Strings laid out one after the other, each with its NUL. *)
Definition join0 (ss : list bytes) : bytes := concat ((fun s => s ++ [x00]) <$> ss).

(** The NUL-terminated strings of a buffer and what follows the last of them. *)
Fixpoint split0 (b : bytes) : list bytes * bytes :=
  match b with
  | [] => ([], [])
  | c :: r =>
      let '(ss, t) := split0 r in
      if decide (c = x00) then ([] :: ss, t)
      else match ss with [] => ([], c :: t) | s :: ss' => ((c :: s) :: ss', t) end
  end.

Lemma split0_spec b : b = join0 (split0 b).1 ++ (split0 b).2 /\
  Forall no_nul (split0 b).1 /\ no_nul (split0 b).2.
Proof.
  induction b as [|c r IH]; simpl; [repeat constructor|].
  destruct (split0 r) as [ss t]. simpl in IH. destruct IH as (Hr & Hs & Ht).
  case_decide as Hc.
  - subst c. simpl. split; [by rewrite Hr at 1|]. split; [by repeat constructor|done].
  - destruct ss as [|s ss]; simpl.
    + split; [by rewrite Hr at 1|]. split; [constructor|]. by constructor.
    + apply Forall_cons_iff in Hs as [Hs Hss].
      split; [by rewrite Hr at 1|]. split; [|done]. constructor; [by constructor|done].
Qed.

Lemma split0_no_nul b : no_nul b -> split0 b = ([], b).
Proof.
  induction 1 as [|c b Hc _ IH]; simpl; [done|]. rewrite IH. by rewrite decide_False.
Qed.

Lemma split0_app s b : no_nul s -> split0 (s ++ x00 :: b) = (s :: (split0 b).1, (split0 b).2).
Proof.
  induction 1 as [|c s Hc _ IH]; simpl.
  - by destruct (split0 b).
  - rewrite IH. by rewrite decide_False.
Qed.

Lemma join0_cons s ss : join0 (s :: ss) = s ++ x00 :: join0 ss.
Proof. unfold join0. simpl. by rewrite <- app_assoc. Qed.

Lemma split0_join ss t : Forall no_nul ss -> no_nul t -> split0 (join0 ss ++ t) = (ss, t).
Proof.
  induction 1 as [|s ss Hs _ IH]; intros Ht.
  - by apply split0_no_nul.
  - rewrite join0_cons, <- app_assoc. simpl. rewrite split0_app by done. by rewrite IH.
Qed.

Lemma join0_nil_inv ss t : join0 ss ++ t = [] -> ss = [].
Proof. destruct ss as [|s ss]; [done|]. rewrite join0_cons. by destruct s. Qed.

Lemma count_nul_app b c : count_nul (b ++ c) = (count_nul b + count_nul c)%nat.
Proof. unfold count_nul. by rewrite filter_app, length_app. Qed.

Lemma count_nul_none b : no_nul b -> count_nul b = 0%nat.
Proof.
  induction 1 as [|c b Hc _ IH]; [done|]. unfold count_nul in *. by rewrite filter_cons_False.
Qed.

Lemma count_nul_join ss t : Forall no_nul ss -> no_nul t ->
  count_nul (join0 ss ++ t) = length ss.
Proof.
  induction 1 as [|s ss Hs _ IH]; intros Ht; [by apply count_nul_none|].
  rewrite join0_cons, <- app_assoc, count_nul_app, (count_nul_none s) by done.
  simpl. unfold count_nul in *. simpl. by rewrite IH.
Qed.

Lemma argv_fill_length base len b : forall i, length (argv_fill base len i b) = count_nul b.
Proof.
  induction b as [|c b IH]; intros i; simpl; [done|].
  unfold count_nul in *. case_decide.
  - rewrite filter_cons_True by done. simpl. by rewrite IH.
  - rewrite filter_cons_False by done. apply IH.
Qed.

Lemma argv_fill_skip base len s b : no_nul s -> forall i,
  argv_fill base len i (s ++ x00 :: b) =
  (if (len <=? i + length s + 1)%nat then None else Some (base + (i + length s) + 1)%nat)
    :: argv_fill base len (i + length s + 1) b.
Proof.
  induction 1 as [|c s Hc _ IH]; intros i; simpl.
  - rewrite !Nat.add_0_r, Nat.add_1_r. done.
  - rewrite decide_False by done. rewrite IH. simpl.
    replace (i + S (length s))%nat with (S (i + length s)) by lia. done.
Qed.

Lemma argv_fill_strings buf base len t ss : Forall no_nul ss -> forall i,
  drop (base + i) buf = join0 ss ++ t -> (i + length (join0 ss ++ t) = len)%nat ->
  argv_strings buf (take (length ss) (Some (base + i)%nat :: argv_fill base len i (join0 ss ++ t))
                    ++ [None]) = Some ss.
Proof.
  induction 1 as [|s ss Hs Hss IH]; intros i Hd Hl; [done|].
  rewrite join0_cons, <- app_assoc in *. simpl in Hd |- *. simpl in Hl.
  unfold cstr_at. rewrite Hd, (cstr_app s) by done. simpl.
  rewrite argv_fill_skip by done. rewrite length_app in Hl. simpl in Hl.
  destruct ss as [|s' ss']; [done|].
  destruct (Nat.leb_spec len (i + length s + 1)) as [Hle|Hlt].
  { exfalso. rewrite join0_cons, !length_app in Hl. simpl in Hl. lia. }
  replace (base + (i + length s) + 1)%nat with (base + (i + length s + 1))%nat by lia.
  rewrite IH; [done| |simpl in *; lia].
  replace (base + (i + length s + 1))%nat with (base + i + (length s + 1))%nat by lia.
  rewrite <- drop_drop, Hd, drop_app_ge by lia.
  by replace (length s + 1 - length s)%nat with 1%nat by lia.
Qed.

Lemma dec_argv_run pre b : (split0 b).1 <> [] -> exists s,
  dec_argv true (length pre) b = Some s /\ length s = S (length (split0 b).1) /\
  argv_strings (pre ++ b) s = Some (split0 b).1.
Proof.
  intros Hne. destruct (split0_spec b) as (Hb & Hs & Ht).
  destruct (split0 b) as [ss t]. simpl in *.
  assert (count_nul b = length ss) as Hc by (rewrite Hb; by apply count_nul_join).
  unfold dec_argv. rewrite Hc. destruct ss as [|s0 ss0]; [done|]. cbn [length Nat.eqb negb].
  eexists. split; [done|]. split; [by rewrite length_insert, length_cons, argv_fill_length, Hc|].
  rewrite insert_take_drop by (rewrite length_cons, argv_fill_length, Hc; simpl; lia).
  rewrite drop_ge by (rewrite length_cons, argv_fill_length, Hc; simpl; lia).
  pose proof (argv_fill_strings (pre ++ b) (length pre) (length b) t (s0 :: ss0) Hs 0) as H.
  rewrite Nat.add_0_r, drop_app_length, <- Hb in H. by apply H.
Qed.

Lemma dec_argv_none ok base b : (split0 b).1 = [] -> dec_argv ok base b = None.
Proof.
  intros He. destruct (split0_spec b) as (Hb & _ & Ht). rewrite He in Hb.
  unfold dec_argv. rewrite Hb. simpl. by rewrite count_nul_none.
Qed.

(** [dec_argv] on a buffer [b] inside the command (at [length pre])
    returns a vector of the NUL-terminated strings of [b], in order, ended by
    NULL, every pointer of which is to a terminated string; an unterminated
    tail is dropped, and there is no vector exactly when there is no string. *)
Theorem dec_argv_exact (pre b : bytes) :
  match dec_argv true (length pre) b with
  | None => (split0 b).1 = []
  | Some s => length s = S (length (split0 b).1) /\
              argv_strings (pre ++ b) s = Some (split0 b).1 /\ (split0 b).1 <> []
  end.
Proof.
  destruct (decide ((split0 b).1 = [])) as [He|Hne].
  - by rewrite dec_argv_none.
  - destruct (dec_argv_run pre b Hne) as (s & -> & Hl & Hs). done.
Qed.

Lemma first_nul b : no_nul b \/ exists s r, no_nul s /\ b = s ++ x00 :: r.
Proof.
  induction b as [|c b IH]; [left; constructor|].
  destruct (decide (c = x00)) as [->|Hc]; [right; exists [], b; by repeat constructor|].
  destruct IH as [IH|(s & r & Hs & ->)]; [left; by constructor|].
  right. exists (c :: s), r. split; [by constructor|done].
Qed.

Lemma scan_nul_at s r : no_nul s -> forall i, scan_nul (s ++ x00 :: r) i = (i + length s)%nat.
Proof.
  induction 1 as [|c s Hc _ IH]; intros i; simpl; [lia|].
  rewrite decide_False, IH by done. lia.
Qed.

Lemma scan_nul_none b : no_nul b -> forall i, scan_nul b i = (i + length b)%nat.
Proof.
  induction 1 as [|c s Hc _ IH]; intros i; simpl; [lia|].
  rewrite decide_False, IH by done. lia.
Qed.

(** [dec_arg2] succeeds exactly on buffers that hold a first string whose
    first character is not looked at, its NUL, and then bytes that end in NUL;
    the second string starts after the first NUL.  So both strings are
    terminated inside the buffer whenever it succeeds. *)
Theorem dec_arg2_exact (b : bytes) (p q : nat) :
  dec_arg2 b = Some (p, q) <->
  p = 0%nat /\ exists c s r, b = c :: s ++ x00 :: r ++ [x00] /\ no_nul s /\ q = (length s + 2)%nat.
Proof.
  unfold dec_arg2. split.
  - destruct b as [|c b]; [done|]. cbn [length Nat.eqb].
    destruct (last (c :: b)) as [z|] eqn:Hz; [|done].
    destruct (decide (z <> x00)) as [|Hn]; [done|]. apply dec_stable in Hn. subst z.
    change (drop 1 (c :: b)) with (drop 0 b). rewrite drop_0. destruct (first_nul b) as [Hb|(s & r & Hs & ->)].
    + rewrite scan_nul_none by done. by rewrite (proj2 (Nat.leb_le _ _)) by (simpl; lia).
    + rewrite scan_nul_at by done. rewrite length_app. simpl.
      match goal with |- context [(?x <=? ?y)%nat] => destruct (Nat.leb_spec x y) as [|Hlt]; [done|] end.
      intros [= <- <-]. split; [done|]. exists c, s.
      destruct r as [|r0 r] using rev_ind; [simpl in *; lia|]. exists r.
      rewrite app_comm_cons, (app_comm_cons r), app_assoc, last_snoc in Hz. injection Hz as ->.
      split; [done|]. split; [done|]. lia.
  - intros (-> & c & s & r & -> & Hs & ->). cbn [length Nat.eqb].
    rewrite app_comm_cons, (app_comm_cons r), app_assoc, last_snoc.
    rewrite decide_False by tauto. rewrite <- app_assoc. cbn [app drop]. rewrite drop_0.
    rewrite scan_nul_at by done. rewrite !length_app. simpl. rewrite length_app. simpl.
    rewrite (proj2 (Nat.leb_gt _ _)) by lia. do 2 f_equal. lia.
Qed.

(** ** Macros *)

(** The first value paired with a name that matches. *)
Fixpoint sym_find (symname : bytes) (l : list bytes) : option bytes :=
  match l with
  | n :: v :: r => if sym_match symname n then Some v else sym_find symname r
  | _ => None
  end.

(** The strings of a stage, and of all of them, in a context. *)
Inductive mac_slot : option (list (option nat)) -> option bytes -> list bytes -> Prop :=
  | slot_none : mac_slot None None []
  | slot_some s b ss : argv_strings b s = Some ss -> length s = S (length ss) ->
      mac_slot (Some s) (Some b) ss.

Definition mac_env {P} (c : smfi_str P) (env : nat -> list bytes) : Prop :=
  forall i, (i < MAX_MACROS_ENTRIES)%nat -> exists s b,
    ctx_mac_ptr c !! i = Some s /\ ctx_mac_buf c !! i = Some b /\ mac_slot s b (env i).

(** The macros a name is looked up in: the last stage first. *)
Fixpoint env_find (symname : bytes) (env : nat -> list bytes) (n : nat) : option bytes :=
  match n with
  | O => None
  | S i => match sym_find symname (env i) with Some v => Some v | None => env_find symname env i end
  end.

Definition paired (env : nat -> list bytes) : Prop := forall i, Nat.even (length (env i)) = true.

Section macros_proofs.
Context {P S : Type}.
Implicit Types w : world P S.

Lemma sym_scan_run symname b ss : forall s w,
  argv_strings b s = Some ss -> Nat.even (length ss) = true ->
  sym_scan symname b s w = Done (Some <$> sym_find symname ss) w.
Proof.
  remember (length ss) as n eqn:Hn. revert ss Hn.
  induction (lt_wf n) as [n _ IH]. intros ss Hn s w Hs He.
  destruct s as [|[p|] s]; [done| |by simplify_eq/=].
  simpl in Hs |- *. destruct (cstr_at b p) as [t|] eqn:Et; [|done]. simpl in Hs.
  destruct (argv_strings b s) as [ts|] eqn:Es; [|done]. simpl in Hs. injection Hs as <-.
  destruct ts as [|v ts]; [by subst|].
  destruct s as [|[q|] s]; [done| |done]. simpl in Es.
  destruct (cstr_at b q) as [v'|] eqn:Eq; [|done]. simpl in Es.
  destruct (argv_strings b s) as [ts'|] eqn:Es'; [|done]. simpl in Es. injection Es as -> ->.
  unfold bind, deref. simpl. destruct (sym_match symname t) eqn:Em; [done|].
  apply (IH (length ts)); simpl in Hn; subst; [lia|done..].
Qed.

(** A vector with an odd number of strings, none of whose names match, is read
    past its end. *)
Lemma sym_scan_odd symname b ss : forall s w,
  argv_strings b s = Some ss -> length s = Datatypes.S (length ss) -> Nat.even (length ss) = false ->
  (forall n, n ∈ ss -> sym_match symname n = false) ->
  sym_scan symname b s w = Undef OutOfBounds w.
Proof.
  remember (length ss) as n eqn:Hn. revert ss Hn.
  induction (lt_wf n) as [n _ IH]. intros ss Hn s w Hs Hl He Hm.
  destruct s as [|[p|] s]; [done| |by simplify_eq/=].
  simpl in Hs |- *. destruct (cstr_at b p) as [t|] eqn:Et; [|done]. simpl in Hs.
  destruct (argv_strings b s) as [ts|] eqn:Es; [|done]. simpl in Hs. injection Hs as <-.
  unfold bind, deref. simpl. rewrite (Hm t) by (apply list_elem_of_here).
  destruct s as [|q s]; [done|].
  destruct ts as [|v ts].
  { subst. simpl in Hl. destruct s; [done|simpl in Hl; lia]. }
  destruct q as [q|]; [|done]. simpl in Es.
  destruct (cstr_at b q) as [v'|] eqn:Eq; [|done]. simpl in Es.
  destruct (argv_strings b s) as [ts'|] eqn:Es'; [|done]. simpl in Es. injection Es as -> ->.
  apply (IH (length ts) ltac:(subst; simpl; lia) ts); subst; simpl in *; [done..|lia|done|].
  intros n Hin. apply Hm. by do 2 apply list_elem_of_further.
Qed.

Lemma sym_search_run symname (c : smfi_str P) env n w :
  mac_env c env -> paired env -> (n <= MAX_MACROS_ENTRIES)%nat ->
  sym_search symname (ctx_mac_ptr c) (ctx_mac_buf c) n w = Done (env_find symname env n) w.
Proof.
  intros Henv Hp. induction n as [|i IH]; intros Hn; [done|]. simpl.
  destruct (Henv i) as (s & b & -> & -> & Hslot); [lia|].
  inversion Hslot as [Hs1 Hb1 Hss|s' b' ss Hs _ Hs1 Hb1 Hss]; subst.
  - simpl. apply IH. lia.
  - unfold bind. rewrite (sym_scan_run symname b' (env i)) by (done || apply Hp).
    destruct (sym_find symname (env i)); [done|]. apply IH. lia.
Qed.

Lemma smfi_getsymval_run symname env w :
  mac_env (w_ctx w) env -> paired env -> symname <> [] ->
  smfi_getsymval symname w = Done (env_find symname env MAX_MACROS_ENTRIES) w.
Proof.
  intros He Hp Hs. unfold smfi_getsymval. rewrite decide_False by done.
  apply (sym_search_run symname (w_ctx w)); done.
Qed.

(** The environment after [st_macros] of stage [i]. *)
Definition env_set (i : nat) (ss : list bytes) (env : nat -> list bytes) : nat -> list bytes :=
  fun j => if decide (j = i) then ss else env j.

Lemma macro_index_range c i : macro_index c = Some i -> (0 <= i < Z.of_nat MAX_MACROS_ENTRIES)%Z.
Proof. unfold macro_index. repeat case_decide; intros [= <-]; vm_compute; split; discriminate || done. Qed.

Lemma mac_env_set (c c' : smfi_str P) env i s b ss :
  mac_env c env -> mac_slot (Some s) (Some b) ss -> (i < MAX_MACROS_ENTRIES)%nat ->
  ctx_mac_ptr c' = <[i := Some s]> (ctx_mac_ptr c) ->
  ctx_mac_buf c' = <[i := Some b]> (ctx_mac_buf c) -> mac_env c' (env_set i ss env).
Proof.
  intros He Hs Hi Hp Hb j Hj. rewrite Hp, Hb. unfold env_set.
  destruct (He j Hj) as (s0 & b0 & Hs0 & Hb0 & Hslot). case_decide as Hji.
  - subst j. exists (Some s), (Some b). apply lookup_lt_Some in Hs0, Hb0.
    by rewrite !list_lookup_insert_eq.
  - exists s0, b0. by rewrite !list_lookup_insert_ne.
Qed.

Lemma st_macros_run env w c b i idx :
  mac_env (w_ctx w) env -> w_oom w = [] -> macro_index c = Some i -> (split0 b).1 <> [] ->
  exists w', st_macros (mk_genarg (Z.of_nat (length (c :: b))) (Some (c :: b)) idx) w
               = Done _SMFIS_KEEP w' /\
    mac_env (w_ctx w') (env_set (Z.to_nat i) (split0 b).1 env) /\
    w' = set_w_ctx (w_ctx w') w.
Proof.
  intros He Ho Hc Hb. unfold st_macros. cbn [a_len a_buf].
  rewrite (proj2 (Z.ltb_ge _ _)) by (simpl; lia).
  cbn [deref]. rewrite bind_ret_l. cbv zeta.
  replace (take (Z.to_nat (Z.of_nat (length (c :: b))) - 1) (drop 1 (c :: b))) with b
    by (change (drop 1 (c :: b)) with (drop 0 b); rewrite drop_0, take_ge by (simpl; lia); done).
  destruct (dec_argv_run [c] b Hb) as (s & Hs & Hl & Hss).
  assert ((if (count_nul b =? 0)%nat then ret true else malloc_ok) w = Done true w) as Hm.
  { case_match; [done|]. unfold malloc_ok. by rewrite Ho. }
  rewrite (bind_run _ _ _ _ _ Hm).
  change 1%nat with (length [c]). rewrite Hs. cbn [head deref]. rewrite bind_ret_l, Hc.
  eexists. split; [done|]. split; [|by destruct w].
  apply (mac_env_set (w_ctx w) _ env _ s (c :: b)); [done|by constructor|..|done|done].
  apply macro_index_range in Hc. lia.
Qed.

(** Clearing from a stage on forgets it and the later ones. *)
Lemma mi_clr_macros_env env w m :
  mac_env (w_ctx w) env -> (m <= MAX_MACROS_ENTRIES)%nat ->
  exists w', mi_clr_macros m w = Done tt w' /\
    mac_env (w_ctx w') (fun i => if decide (i < m)%nat then env i else []) /\
    w' = set_w_ctx (w_ctx w') w.
Proof.
  intros He Hm. unfold mi_clr_macros, modc, modify. eexists. split; [done|].
  split; [|by destruct w]. intros i Hi. simpl.
  destruct (He i Hi) as (s & b & Hs & Hb & Hslot).
  pose proof (lookup_lt_Some _ _ _ Hs). pose proof (lookup_lt_Some _ _ _ Hb). case_decide as Hd.
  - exists s, b. rewrite !lookup_app_l by (rewrite length_take; lia).
    by rewrite !lookup_take_lt.
  - exists None, None. rewrite !lookup_app_r by (rewrite length_take; lia).
    assert (forall A (l : list (option A)), (i < length l)%nat ->
      replicate (MAX_MACROS_ENTRIES - m) (@None A) !! (i - length (take m l))%nat = Some None) as Hr.
    { intros A l Hl. apply lookup_replicate. rewrite length_take. split; [done|lia]. }
    rewrite !Hr by done. repeat split. constructor.
Qed.

End macros_proofs.


(** A session with no macros. *)
Definition empty_session : world unit unit :=
  mk_world (zero_ctx tt) (mk_net [] [] [] [] []) next_states MILTER_MAX_DATA_SIZE [] [] tt [].

Lemma empty_session_env : mac_env (w_ctx empty_session) (fun _ => []).
Proof.
  intros i Hi. exists None, None.
  do 7 (destruct i as [|i]; [repeat split; constructor|]). unfold MAX_MACROS_ENTRIES in Hi. lia.
Qed.


(** The pairing of names and values is an assumption on the MTA that the
    library does not check: after a macro command with an odd number of
    strings for a stage, looking up any name that none of them matches, and
    that no later stage defines, reads past the end of the vector. *)
Theorem getsymval_odd_reads_past_end {P S : Type} (w : world P S) (env : nat -> list bytes)
  (i : nat) (symname : bytes)
  (Henv : mac_env (w_ctx w) env) (Hsym : symname <> []) (Hi : (i < MAX_MACROS_ENTRIES)%nat)
  (Hlater : forall j, (i < j)%nat -> env j = [])
  (Hodd : Nat.even (length (env i)) = false)
  (Hmatch : forall n, n ∈ env i -> sym_match symname n = false) :
  smfi_getsymval symname w = Undef OutOfBounds w.
Proof.
  unfold smfi_getsymval. rewrite decide_False by done. unfold getc. cbn -[sym_search].
  assert (forall n, (i < n <= MAX_MACROS_ENTRIES)%nat ->
    sym_search symname (ctx_mac_ptr (w_ctx w)) (ctx_mac_buf (w_ctx w)) n w = Undef OutOfBounds w) as H;
    [|by apply (H MAX_MACROS_ENTRIES)].
  induction n as [|n IH]; intros Hn; [lia|]. simpl.
  destruct (Henv n) as (s & b & -> & -> & Hslot); [lia|].
  inversion Hslot as [Hs1 Hb1 Hss|s' b' ss Hs Hl Hs1 Hb1 Hss]; subst.
  - apply IH. destruct (decide (n = i)); [|lia]. subst. by rewrite <- Hss in Hodd.
  - destruct (decide (n = i)) as [->|Hne].
    + unfold bind. by rewrite (sym_scan_odd symname b' (env i)).
    + unfold bind. rewrite (sym_scan_run symname b' (env n)) by (done || by rewrite Hlater by lia).
      rewrite Hlater by lia. simpl. apply IH. lia.
Qed.

Lemma getsymval_odd_reads_past_end_witness :
  exists w', st_macros (mk_genarg 3 (Some (lit "Cj" ++ [x00])) CI_NONE) empty_session = Done _SMFIS_KEEP w' /\
    smfi_getsymval (lit "i") w' = Undef OutOfBounds w'.
Proof.
  destruct (st_macros_run (fun _ => []) empty_session "C"%byte (lit "j" ++ [x00]) 0 CI_NONE
              empty_session_env eq_refl eq_refl ltac:(discriminate)) as (w' & Hw & He & _).
  exists w'. split; [exact Hw|].
  apply (getsymval_odd_reads_past_end w' _ 0 (lit "i") He); [discriminate|vm_compute; lia| |reflexivity|].
  - intros j Hj. unfold env_set. rewrite decide_False; [done|]. simpl. lia.
  - intros n Hn. vm_compute in Hn. apply list_elem_of_singleton in Hn as ->. reflexivity.
Defined.
