(* ===== verification/Smfi.v ===== *)
(** * The filter's requests to the MTA: libmilter/smfi.c and mi_sendok
    (libmilter/engine.c)

    A [char *] argument is [None] (NULL) or the characters of the string it
    points to.  The theorems: nothing is sent outside end of message or
    without the action flag negotiated for it; what is sent is one frame with
    the documented layout, and a replacement body arrives in order in chunks
    of at most MILTER_CHUNK_SIZE; a reply set by [smfi_setreply] or
    [smfi_setmlreply] is well formed and never cut. *)

From stdpp Require Import base list numbers strings.
From Stdlib Require Import Strings.Byte ZArith Lia.
From S2P Require Import Prelude Mfdef Comm Strl Stm.
Local Open Scope cM_scope.
Local Open Scope Z_scope.

Definition MAXREPLYLEN : Z := 980.
Definition MAXREPLIES : Z := 32.

(** A string with its terminator, as it lies in memory. *)
Definition c_str (s : bytes) : bytes := s ++ [x00].

(** [isascii(c) && isdigit(c)] *)
Definition isdigit (c : byte) : bool := (48 <=? uchar c) && (uchar c <=? 57).

(** [s\[i\]] for an [i] up to the terminator. *)
Definition char_at (s : bytes) (i : nat) : byte := nth i (c_str s) x00.

(** [while (h < 3 && isascii(s\[l + h\]) && isdigit(s\[l + h\])) ++h] *)
Fixpoint digits (n : nat) (s : bytes) : nat :=
  match n, s with
  | Datatypes.S n', c :: r => if isdigit c then Datatypes.S (digits n' r) else 0%nat
  | _, _ => 0%nat
  end.

Definition myisenhsc (s : option bytes) (delim : byte) : nat :=
  match s with
  | None => 0%nat
  | Some s =>
      if negb ((bool_decide (char_at s 0 = "2"%byte) || bool_decide (char_at s 0 = "4"%byte)
                || bool_decide (char_at s 0 = "5"%byte))
               && bool_decide (char_at s 1 = "."%byte)) then 0%nat
      else
        let l := 2%nat in
        let h := digits 3 (drop l s) in
        if (h =? 0)%nat || negb (bool_decide (char_at s (l + h) = "."%byte)) then 0%nat
        else
          let l := (l + (h + 1))%nat in
          let h := digits 3 (drop l s) in
          if (h =? 0)%nat || negb (bool_decide (char_at s (l + h) = delim)) then 0%nat
          else (l + h)%nat
  end.

(** [strpbrk(s, "\r\n") != NULL] *)
Definition has_crlf (s : bytes) : bool := existsb (fun c => bool_decide (c = x0d \/ c = x0a)) s.

(** The check of [rcode] in [smfi_setreply] and [smfi_setmlreply]. *)
Definition rcode_ok (rcode : bytes) : bool :=
  (length rcode =? 3)%nat
  && (bool_decide (char_at rcode 0 = "4"%byte) || bool_decide (char_at rcode 0 = "5"%byte))
  && isdigit (char_at rcode 1) && isdigit (char_at rcode 2).

Section smfi.
Context {P S : Type}.
Abbreviation W := (world P S).

Definition mi_sendok (flag : Z) : cM W bool :=
  let* c := getc id in
  if negb (flag =? 0) && negb (bitset flag (ctx_aflags c)) then ret false
  else ret (ctx_state c =? ST_ENDM).

Definition nonempty (s : option bytes) : bool :=
  match s with Some (_ :: _) => true | _ => false end.

Definition smfi_header (cmd : byte) (hdridx : Z) (headerf headerv : option bytes) : cM W Z :=
  if negb (nonempty headerf) || negb (bool_decide (is_Some headerv)) then ret MI_FAILURE
  else
    let f := default [] headerf in
    let v := default [] headerv in
    let l1 := (length f + 1)%nat in
    let l2 := (length v + 1)%nat in
    let len := (l1 + l2 + if (0 <=? hdridx)%Z then MILTER_LEN_BYTES else 0)%nat in
    let* ok := malloc_ok in
    if negb ok then ret MI_FAILURE
    else
      let buf := (if 0 <=? hdridx then be32 hdridx else []) ++ c_str f ++ c_str v in
      mi_wr_cmd cmd (Some buf) (Z.of_nat len).

Definition smfi_addheader (headerf headerv : option bytes) : cM W Z :=
  let* ok := mi_sendok SMFIF_ADDHDRS in
  if negb ok then ret MI_FAILURE
  else smfi_header SMFIR_ADDHEADER (-1) headerf headerv.

Definition smfi_insheader (hdridx : Z) (headerf headerv : option bytes) : cM W Z :=
  let* ok := mi_sendok SMFIF_ADDHDRS in
  if negb ok || (hdridx <? 0) then ret MI_FAILURE
  else smfi_header SMFIR_INSHEADER hdridx headerf headerv.

Definition smfi_chgheader (headerf : option bytes) (hdridx : Z) (headerv : option bytes) : cM W Z :=
  let* ok := mi_sendok SMFIF_CHGHDRS in
  if negb ok || (hdridx <? 0) then ret MI_FAILURE
  else
    let headerv := match headerv with None => Some [] | Some v => Some v end in
    smfi_header SMFIR_CHGHEADER hdridx headerf headerv.

Definition send2 (cmd : byte) (arg0 arg1 : option bytes) : cM W Z :=
  if negb (nonempty arg0) then ret MI_FAILURE
  else
    let a0 := default [] arg0 in
    let l0 := (length a0 + 1)%nat in
    let len := match arg1 with None => l0 | Some a1 => (l0 + (length a1 + 1))%nat end in
    if match arg1 with None => false | Some a1 => (len <=? length a1 + 1)%nat end
    then undef AssertFailed
    else
      let* ok := malloc_ok in
      if negb ok then ret MI_FAILURE
      else
        let buf := c_str a0 ++ match arg1 with None => [] | Some a1 => c_str a1 end in
        if match arg1 with
           | None => false
           | Some a1 => (len <=? l0)%nat || (len <? l0 + (length a1 + 1))%nat
           end
        then undef AssertFailed
        else mi_wr_cmd cmd (Some buf) (Z.of_nat len).

Definition smfi_chgfrom (from args : option bytes) : cM W Z :=
  if negb (nonempty from) then ret MI_FAILURE
  else
    let* ok := mi_sendok SMFIF_CHGFROM in
    if negb ok then ret MI_FAILURE else send2 SMFIR_CHGFROM from args.

Definition smfi_setsymlist (where_ : Z) (macros : option bytes) : cM W Z :=
  if negb (nonempty macros) then ret MI_FAILURE
  else if (where_ <? SMFIM_FIRST) || (SMFIM_LAST <? where_) then ret MI_FAILURE
  else if (where_ <? 0) || (Z.of_nat MAX_MACROS_ENTRIES <=? where_) then ret MI_FAILURE
  else
    let* l := getc ctx_mac_list in
    match l !! Z.to_nat where_ with
    | Some (Some _) => ret MI_FAILURE
    | _ =>
        let* ok := malloc_ok in
        if negb ok then ret MI_FAILURE
        else
          modc (fun c => set_ctx_mac_list
                  (<[Z.to_nat where_ := Some (c_str (default [] macros))]> (ctx_mac_list c)) c) ;;;
          ret MI_SUCCESS
    end.

Definition smfi_addrcpt_par (rcpt args : option bytes) : cM W Z :=
  if negb (nonempty rcpt) then ret MI_FAILURE
  else
    let* ok := mi_sendok SMFIF_ADDRCPT_PAR in
    if negb ok then ret MI_FAILURE else send2 SMFIR_ADDRCPT_PAR rcpt args.

Definition smfi_addrcpt (rcpt : option bytes) : cM W Z :=
  if negb (nonempty rcpt) then ret MI_FAILURE
  else
    let* ok := mi_sendok SMFIF_ADDRCPT in
    if negb ok then ret MI_FAILURE
    else
      let r := default [] rcpt in
      mi_wr_cmd SMFIR_ADDRCPT (Some (c_str r)) (Z.of_nat (length r + 1)).

Definition smfi_delrcpt (rcpt : option bytes) : cM W Z :=
  if negb (nonempty rcpt) then ret MI_FAILURE
  else
    let* ok := mi_sendok SMFIF_DELRCPT in
    if negb ok then ret MI_FAILURE
    else
      let r := default [] rcpt in
      mi_wr_cmd SMFIR_DELRCPT (Some (c_str r)) (Z.of_nat (length r + 1)).

(** The loop of [smfi_replacebody]; a round sends at most a chunk. *)
Fixpoint replace_loop (fuel : nat) (bodyp : option bytes) (bodylen : Z) : cM W Z :=
  match fuel with
  | O => fun w => Blocked w
  | Datatypes.S fuel' =>
      let len := if MILTER_CHUNK_SIZE <=? bodylen then MILTER_CHUNK_SIZE else bodylen in
      let* r := mi_wr_cmd SMFIR_REPLBODY bodyp len in
      if negb (r =? MI_SUCCESS) then ret r
      else
        let bodyp := drop (Z.to_nat len) <$> bodyp in
        let bodylen := bodylen - len in
        if 0 <? bodylen then replace_loop fuel' bodyp bodylen else ret MI_SUCCESS
  end.

(** Rounds the loop can take: one per full chunk and one more. *)
Definition replace_rounds (bodylen : Z) : nat :=
  Datatypes.S (Z.to_nat (bodylen / MILTER_CHUNK_SIZE)).

Definition smfi_replacebody (bodyp : option bytes) (bodylen : Z) : cM W Z :=
  if (bodylen <? 0) || (negb (bool_decide (is_Some bodyp)) && (0 <? bodylen)) then ret MI_FAILURE
  else
    let* ok := mi_sendok SMFIF_CHGBODY in
    if negb ok then ret MI_FAILURE
    else replace_loop (replace_rounds bodylen) bodyp bodylen.

Definition smfi_quarantine (reason : option bytes) : cM W Z :=
  if negb (nonempty reason) then ret MI_FAILURE
  else
    let* ok := mi_sendok SMFIF_QUARANTINE in
    if negb ok then ret MI_FAILURE
    else
      let r := default [] reason in
      let* ok := malloc_ok in
      if negb ok then ret MI_FAILURE
      else mi_wr_cmd SMFIR_QUARANTINE (Some (c_str r)) (Z.of_nat (length r + 1)).

(** Memory from [malloc(len)]: what it holds is overwritten before it is read. *)
Definition fresh (len : Z) : bytes := replicate (Z.to_nat len) x00.

(** A call of a string function on a buffer; an access outside is a fault. *)
Definition strl (r : option (bytes * nat)) : cM W bytes :=
  let* x := deref OutOfBounds r in ret x.1.

Definition smfi_setreply (rcode xcode message : option bytes) : cM W Z :=
  match rcode with
  | None => ret MI_FAILURE
  | Some rcode =>
      let len := Z.of_nat (length rcode) + 2 in
      if negb (rcode_ok rcode) then ret MI_FAILURE
      else if bool_decide (is_Some xcode) && (myisenhsc xcode x00 =? 0)%nat then ret MI_FAILURE
      else
        let len := match xcode with None => len | Some x => len + (Z.of_nat (length x) + 1) end in
        if match message with None => false | Some m => has_crlf m end then ret MI_FAILURE
        else if match message with None => false | Some m => MAXREPLYLEN <? Z.of_nat (length m) end
        then ret MI_FAILURE
        else
          let len := match message with None => len | Some m => len + (Z.of_nat (length m) + 1) end in
          let* ok := malloc_ok in
          if negb ok then ret MI_FAILURE
          else
            let* buf := strl (sm_strlcpy (fresh len) (c_str rcode) len) in
            let* buf := strl (sm_strlcat buf (c_str (lit " ")) len) in
            let* buf := match xcode with
                        | None => ret buf
                        | Some x => strl (sm_strlcat buf (c_str x) len)
                        end in
            let* buf := match message with
                        | None => ret buf
                        | Some m =>
                            let* buf := match xcode with
                                        | Some _ => strl (sm_strlcat buf (c_str (lit " ")) len)
                                        | None => ret buf
                                        end in
                            strl (sm_strlcat buf (c_str m) len)
                        end in
            modc (set_ctx_reply (Some buf)) ;;;
            ret MI_SUCCESS
  end.

(** The first loop of [smfi_setmlreply] over the texts: the length needed and
    the number of texts, or [None] when it breaks off. *)
Fixpoint ml_measure (txts : list bytes) (rlen len args : Z) : option (Z * Z) :=
  match txts with
  | [] => Some (len, args)
  | t :: r =>
      if MAXREPLYLEN <? Z.of_nat (length t) then None
      else if MAXREPLIES <? args + 1 then None
      else if has_crlf t then None
      else ml_measure r rlen (len + (Z.of_nat (length t) + 2 + rlen)) (args + 1)
  end.

(** The second loop: the texts after the first. *)
Fixpoint ml_append (txts : list bytes) (buf repl : bytes) (len args : Z) : cM W bytes :=
  match txts with
  | [] => ret buf
  | t :: r =>
      let args := args - 1 in
      let repl := if args <=? 1 then <[3%nat := " "%byte]> repl else repl in
      let* buf := strl (sm_strlcat2 buf (c_str [x0d; x0a]) repl len) in
      let* buf := strl (sm_strlcat buf (c_str t) len) in
      ml_append r buf repl len args
  end.

(** The texts are the variable arguments up to the NULL. *)
Definition smfi_setmlreply (rcode xcode : option bytes) (txts : list bytes) : cM W Z :=
  match rcode with
  | None => ret MI_FAILURE
  | Some rcode =>
      let len := Z.of_nat (length rcode) + 1 in
      if negb (rcode_ok rcode) then ret MI_FAILURE
      else if bool_decide (is_Some xcode) && (myisenhsc xcode x00 =? 0)%nat then ret MI_FAILURE
      else
        let xc := match xcode with
                  | Some x => x
                  | None => if bool_decide (char_at rcode 0 = "4"%byte) then lit "4.0.0" else lit "5.0.0"
                  end in
        let len := len + (Z.of_nat (length xc) + 1) in
        let rlen := len in
        match ml_measure txts rlen len 0 with
        | None => ret MI_FAILURE
        | Some (len, args) =>
            let len := len + 1 in
            let* ok := malloc_ok in
            if negb ok then ret MI_FAILURE
            else
              let sep := if args =? 1 then lit " " else lit "-" in
              let* buf := strl (sm_strlcpyn (fresh len) len [c_str rcode; c_str sep; c_str xc]) in
              let* repl := strl (sm_strlcpyn (fresh 16) 16
                                   [c_str rcode; c_str sep; c_str xc; c_str (lit " ")]) in
              let* buf := match txts with
                          | [] => ret buf
                          | t :: r =>
                              let* buf := strl (sm_strlcat2 buf (c_str (lit " ")) (c_str t) len) in
                              ml_append r buf repl len args
                          end in
              modc (set_ctx_reply (Some buf)) ;;;
              ret MI_SUCCESS
        end
  end.

Definition smfi_setpriv (privatedata : P) : cM W Z :=
  modc (set_ctx_privdata privatedata) ;;; ret MI_SUCCESS.

Definition smfi_getpriv : cM W P := getc ctx_privdata.

Definition smfi_progress : cM W Z := mi_wr_cmd SMFIR_PROGRESS None 0.

End smfi.

(** [SM_LM_VRS_MAJOR], [SM_LM_VRS_MINOR] and [SM_LM_VRS_PLVL] of [SMFI_VERSION]. *)
Definition smfi_version : Z * Z * Z :=
  (Z.shiftr (Z.land SMFI_VERSION 0x7f000000) 24, Z.shiftr (Z.land SMFI_VERSION 0x007fff00) 8,
   Z.land SMFI_VERSION 0x0000007f).

(** ** Requests *)

(** The calls that ask the MTA for a change of the message. *)
Inductive request :=
  | RAddheader (f v : option bytes)
  | RInsheader (i : Z) (f v : option bytes)
  | RChgheader (f : option bytes) (i : Z) (v : option bytes)
  | RChgfrom (from args : option bytes)
  | RAddrcpt (rcpt : option bytes)
  | RAddrcpt_par (rcpt args : option bytes)
  | RDelrcpt (rcpt : option bytes)
  | RReplacebody (bodyp : option bytes) (bodylen : Z)
  | RQuarantine (reason : option bytes).

Definition run_request {P S} (r : request) : cM (world P S) Z :=
  match r with
  | RAddheader f v => smfi_addheader f v
  | RInsheader i f v => smfi_insheader i f v
  | RChgheader f i v => smfi_chgheader f i v
  | RChgfrom from args => smfi_chgfrom from args
  | RAddrcpt rcpt => smfi_addrcpt rcpt
  | RAddrcpt_par rcpt args => smfi_addrcpt_par rcpt args
  | RDelrcpt rcpt => smfi_delrcpt rcpt
  | RReplacebody b l => smfi_replacebody b l
  | RQuarantine reason => smfi_quarantine reason
  end.

Definition request_flag (r : request) : Z :=
  match r with
  | RAddheader _ _ | RInsheader _ _ _ => SMFIF_ADDHDRS
  | RChgheader _ _ _ => SMFIF_CHGHDRS
  | RChgfrom _ _ => SMFIF_CHGFROM
  | RAddrcpt _ => SMFIF_ADDRCPT
  | RAddrcpt_par _ _ => SMFIF_ADDRCPT_PAR
  | RDelrcpt _ => SMFIF_DELRCPT
  | RReplacebody _ _ => SMFIF_CHGBODY
  | RQuarantine _ => SMFIF_QUARANTINE
  end.

(** What the action reply carries, for arguments it accepts. *)
Definition request_payload (r : request) : option (byte * bytes) :=
  match r with
  | RAddheader (Some (c :: f)) (Some v) => Some (SMFIR_ADDHEADER, c_str (c :: f) ++ c_str v)
  | RInsheader i (Some (c :: f)) (Some v) =>
      if i <? 0 then None else Some (SMFIR_INSHEADER, be32 i ++ c_str (c :: f) ++ c_str v)
  | RChgheader (Some (c :: f)) i v =>
      if i <? 0 then None else Some (SMFIR_CHGHEADER, be32 i ++ c_str (c :: f) ++ c_str (default [] v))
  | RChgfrom (Some (c :: a)) args =>
      Some (SMFIR_CHGFROM, c_str (c :: a) ++ match args with None => [] | Some x => c_str x end)
  | RAddrcpt_par (Some (c :: a)) args =>
      Some (SMFIR_ADDRCPT_PAR, c_str (c :: a) ++ match args with None => [] | Some x => c_str x end)
  | RAddrcpt (Some (c :: a)) => Some (SMFIR_ADDRCPT, c_str (c :: a))
  | RDelrcpt (Some (c :: a)) => Some (SMFIR_DELRCPT, c_str (c :: a))
  | RQuarantine (Some (c :: a)) => Some (SMFIR_QUARANTINE, c_str (c :: a))
  | _ => None
  end.

Section requests.
Context {P S : Type}.
Implicit Types w : world P S.

Definition sendok (flag : Z) w : bool :=
  (bitset flag (ctx_aflags (w_ctx w))) && (ctx_state (w_ctx w) =? ST_ENDM).

Lemma mi_sendok_run flag w : flag <> 0 -> mi_sendok flag w = Done (sendok flag w) w.
Proof.
  intros Hf. unfold mi_sendok, getc, gets, bind, sendok, id. rewrite (proj2 (Z.eqb_neq _ _)) by done.
  simpl. by destruct (bitset _ _).
Qed.

(** A request the session may not make is refused. *)
Lemma request_refused r w : sendok (request_flag r) w = false -> run_request r w = Done MI_FAILURE w.
Proof.
  intros H. assert (mi_sendok (request_flag r) w = Done false w) as Hs
    by (rewrite mi_sendok_run, H by (by destruct r); done).
  destruct r; unfold run_request, smfi_addheader, smfi_insheader, smfi_chgheader, smfi_chgfrom,
    smfi_addrcpt, smfi_addrcpt_par, smfi_delrcpt, smfi_replacebody, smfi_quarantine;
    repeat match goal with |- context [if negb (nonempty ?x) then _ else _] => destruct (nonempty x); simpl end;
    try done; simpl request_flag in Hs; try by rewrite (bind_run _ _ _ _ _ Hs).
  destruct (_ || _); [done|]. by rewrite (bind_run _ _ _ _ _ Hs).
Qed.

Lemma malloc_always w : w_oom w = [] -> malloc_ok w = Done true w.
Proof. unfold malloc_ok. by intros ->. Qed.

Lemma length_c_str s : length (c_str s) = (length s + 1)%nat.
Proof. unfold c_str. by rewrite length_app. Qed.

(** A frame whose length argument is the length of the buffer. *)
Lemma wr_cmd_frame cmd b (len : nat) w :
  len = length b -> Z.of_nat (length b) + 1 < 2 ^ 32 ->
  ends (wrote (frame cmd b) w) (wrote_part (frame cmd b) w) (mi_wr_cmd cmd (Some b) (Z.of_nat len) w).
Proof. intros -> H. by apply (mi_wr_cmd_stream cmd (Some b)). Qed.

Lemma header_frame cmd i f v w :
  f <> [] -> w_oom w = [] ->
  let b := (if 0 <=? i then be32 i else []) ++ c_str f ++ c_str v in
  Z.of_nat (length b) + 1 < 2 ^ 32 ->
  ends (wrote (frame cmd b) w) (wrote_part (frame cmd b) w) (smfi_header cmd i (Some f) (Some v) w).
Proof.
  intros Hf Ho b Hb. unfold smfi_header. destruct f as [|c f]; [done|]. simpl.
  rewrite (bind_run _ _ _ _ _ (malloc_always _ Ho)). cbv beta iota.
  apply wr_cmd_frame; [|done]. unfold b. destruct (0 <=? i); unfold c_str, MILTER_LEN_BYTES; rewrite ?length_app; simpl; rewrite ?length_app; simpl; lia.
Qed.

Lemma send2_frame cmd a0 arg1 w :
  a0 <> [] -> w_oom w = [] ->
  let b := c_str a0 ++ match arg1 with None => [] | Some x => c_str x end in
  Z.of_nat (length b) + 1 < 2 ^ 32 ->
  ends (wrote (frame cmd b) w) (wrote_part (frame cmd b) w) (send2 cmd (Some a0) arg1 w).
Proof.
  intros Ha Ho b Hb. unfold send2. destruct a0 as [|c a0]; [done|]. cbv zeta.
  cbn [nonempty negb default]. destruct arg1 as [a1|].
  - rewrite (proj2 (Nat.leb_gt _ _)) by (simpl; lia).
    rewrite (bind_run _ _ _ _ _ (malloc_always _ Ho)). cbn [negb].
    rewrite (proj2 (Nat.leb_gt _ _)), (proj2 (Nat.ltb_ge _ _)) by (simpl; lia). cbn [orb].
    apply wr_cmd_frame; [|done]. unfold b. by rewrite length_app, !length_c_str.
  - rewrite (bind_run _ _ _ _ _ (malloc_always _ Ho)). cbn [negb].
    apply wr_cmd_frame; [|done]. unfold b. by rewrite app_nil_r, length_c_str.
Qed.

End requests.

(** No request of a filter reaches the MTA unless the session is at end of
    message and the action was negotiated: otherwise each of the nine request
    functions fails and changes nothing, nor does it write to the socket. *)
Theorem request_gated {P S} (r : request) (w : world P S)
  (Hno : ctx_state (w_ctx w) <> ST_ENDM \/ bitset (request_flag r) (ctx_aflags (w_ctx w)) = false) :
  run_request r w = Done MI_FAILURE w.
Proof.
  apply request_refused. unfold sendok. destruct Hno as [Hs|Hf].
  - rewrite (proj2 (Z.eqb_neq _ _)) by done. apply andb_false_r.
  - by rewrite Hf.
Qed.

Lemma request_gated_witness :
  let w := sample_world [] [PReady true false] [] [WAccept 9] in
  run_request (RAddheader (Some (lit "X")) (Some (lit "y"))) w = Done MI_FAILURE w.
Proof. apply request_gated. left. discriminate. Defined.


(** A session at end of message with all actions negotiated. *)
Definition eom_world polls writes : world unit unit :=
  set_w_ctx (set_ctx_state ST_ENDM (set_ctx_aflags SMFI_CURR_ACTS (zero_ctx tt)))
    (sample_world [] polls [] writes).


Section replacebody.
Context {P S : Type}.
Implicit Types w : world P S.

Lemma mi_wr_cmd_take cmd b len w : 0 <= len <= Z.of_nat (length b) ->
  mi_wr_cmd cmd (Some b) len w = mi_wr_cmd cmd (Some (take (Z.to_nat len) b)) len w.
Proof.
  intros Hl. unfold mi_wr_cmd. rewrite !(bind_run (gets w_maxdatasize) _ w _ w eq_refl).
  rewrite !bool_decide_eq_true_2 by eauto. destruct (_ || _); [done|].
  rewrite length_take, !(proj2 (Z.ltb_ge _ _)) by lia. rewrite !bind_ret_l.
  by rewrite take_take, Nat.min_id.
Qed.

Lemma wrote_app f1 f2 w w1 w2 r :
  wrote f1 w MI_SUCCESS w1 -> wrote f2 w1 r w2 -> wrote (f1 ++ f2) w r w2.
Proof.
  intros (Hw1 & Hr1 & s1 & _ & Ht1 & [?|[_ ->]]) (Hw2 & Hr2 & s2 & Hp2 & Ht2 & Hc2); [done|].
  split; [rewrite Hw2, Hw1; by destruct w|]. split; [congruence|].
  exists (f1 ++ s2). split; [by apply prefix_app|]. split; [by rewrite Ht2, Ht1, app_assoc|].
  destruct Hc2 as [?|[? ->]]; auto.
Qed.

Lemma wrote_part_app f1 f2 w w1 w2 :
  wrote f1 w MI_SUCCESS w1 -> wrote_part f2 w1 w2 -> wrote_part (f1 ++ f2) w w2.
Proof.
  intros (Hw1 & Hr1 & s1 & _ & Ht1 & [?|[_ ->]]) (Hw2 & s2 & Hp2 & Ht2); [done|].
  split; [rewrite Hw2, Hw1; by destruct w|].
  exists (f1 ++ s2). split; [by apply prefix_app|]. by rewrite Ht2, Ht1, app_assoc.
Qed.

Lemma wrote_fail_app f1 f2 w w1 r :
  wrote f1 w r w1 -> r <> MI_SUCCESS -> wrote (f1 ++ f2) w r w1.
Proof.
  intros (Hw & Hr & s & Hp & Ht & [->|[-> _]]) Hne; [|done].
  split; [done|]. split; [done|]. exists s. split; [by apply prefix_app_r|]. auto.
Qed.

Lemma wrote_part_weaken f1 f2 w w1 : wrote_part f1 w w1 -> wrote_part (f1 ++ f2) w w1.
Proof. intros (Hw & s & Hp & Ht). split; [done|]. exists s. split; [by apply prefix_app_r|done]. Qed.

(** The chunks of a body: full ones, then the rest. *)
Definition chunked (b : bytes) (cs : list bytes) : Prop :=
  concat cs = b /\ Forall (fun c => Z.of_nat (length c) <= MILTER_CHUNK_SIZE) cs /\
  Forall (fun c => Z.of_nat (length c) = MILTER_CHUNK_SIZE) (take (length cs - 1) cs).

Lemma chunked_one b : Z.of_nat (length b) <= MILTER_CHUNK_SIZE -> chunked b [b].
Proof. intros Hb. unfold chunked. simpl. rewrite app_nil_r. by repeat constructor. Qed.

Lemma chunked_cons b1 b2 cs :
  Z.of_nat (length b1) = MILTER_CHUNK_SIZE -> chunked b2 cs -> cs <> [] -> chunked (b1 ++ b2) (b1 :: cs).
Proof.
  intros Hb (Hc & Hle & Hfull) Hne. destruct cs as [|c cs]; [done|].
  split; [by rewrite <- Hc|]. split; [constructor; [lia|done]|].
  simpl in *. rewrite Nat.sub_0_r in *. by constructor.
Qed.

(** One round of the loop. *)
Lemma replace_round fuel b bodylen len f2 w :
  len = (if MILTER_CHUNK_SIZE <=? bodylen then MILTER_CHUNK_SIZE else bodylen) ->
  0 <= len <= Z.of_nat (length b) ->
  (forall w', ends (wrote f2 w') (wrote_part f2 w')
     ((if 0 <? bodylen - len then replace_loop fuel (Some (drop (Z.to_nat len) b)) (bodylen - len)
       else ret MI_SUCCESS) w')) ->
  let f := frame SMFIR_REPLBODY (take (Z.to_nat len) b) ++ f2 in
  ends (wrote f w) (wrote_part f w) (replace_loop (Datatypes.S fuel) (Some b) bodylen w).
Proof.
  intros Hlen Hl Hrest f. simpl. rewrite <- Hlen.
  assert (length (take (Z.to_nat len) b) = Z.to_nat len) as Hlt by (rewrite length_take; lia).
  assert (len <= MILTER_CHUNK_SIZE) as Hc by (subst len; case_match; lia).
  pose proof (wr_cmd_frame SMFIR_REPLBODY (take (Z.to_nat len) b) (Z.to_nat len) w
                ltac:(lia) ltac:(unfold MILTER_CHUNK_SIZE in *; lia)) as Hw.
  rewrite Z2Nat.id in Hw by lia. rewrite <- mi_wr_cmd_take in Hw by lia.
  unfold bind. destruct (mi_wr_cmd _ _ _ _) as [r w1|w1|c w1|g w1]; simpl in Hw |- *;
    try by apply wrote_part_weaken.
  destruct (Z.eqb_spec r MI_SUCCESS) as [->|Hr]; simpl; [|by apply wrote_fail_app].
  eapply ends_mono; [apply Hrest|..].
  - intros r w2 H2. by eapply wrote_app.
  - intros w2 H2. by eapply wrote_part_app.
Qed.

Lemma wrote_nothing w : wrote [] w MI_SUCCESS w.
Proof. split; [by destruct w|]. split; [done|]. exists []. rewrite app_nil_r. auto. Qed.

Lemma replace_loop_run fuel : forall b bodylen,
  0 <= bodylen <= Z.of_nat (length b) -> bodylen < Z.of_nat fuel * MILTER_CHUNK_SIZE ->
  exists cs, cs <> [] /\ chunked (take (Z.to_nat bodylen) b) cs /\
    forall w, let f := concat (frame SMFIR_REPLBODY <$> cs) in
     ends (wrote f w) (wrote_part f w) (replace_loop fuel (Some b) bodylen w).
Proof.
  induction fuel as [|fuel IH]; intros b bodylen Hb Hf; [lia|].
  remember (if MILTER_CHUNK_SIZE <=? bodylen then MILTER_CHUNK_SIZE else bodylen) as len eqn:Hlen.
  destruct (Z.leb_spec MILTER_CHUNK_SIZE bodylen) as [Hge|Hlt].
  - destruct (decide (bodylen = MILTER_CHUNK_SIZE)) as [He|Hne].
    + exists [take (Z.to_nat bodylen) b]. split; [done|]. split.
      { apply chunked_one. rewrite length_take. lia. }
      intros w. replace (Z.to_nat bodylen) with (Z.to_nat len) by lia.
      apply (replace_round fuel b bodylen len []); [rewrite (proj2 (Z.leb_le _ _)) by lia; done|lia|].
      intros w'. rewrite (proj2 (Z.ltb_ge _ _)) by lia. apply wrote_nothing.
    + destruct (IH (drop (Z.to_nat len) b) (bodylen - len)) as (cs & Hn & Hcs & Hr);
        [rewrite length_drop; lia|lia|].
      exists (take (Z.to_nat len) b :: cs). split; [done|]. split.
      { replace (take (Z.to_nat bodylen) b)
          with (take (Z.to_nat len) b ++ take (Z.to_nat (bodylen - len)) (drop (Z.to_nat len) b)).
        - apply chunked_cons; [rewrite length_take; lia|done|done].
        - rewrite take_drop_commute. rewrite <- (take_drop (Z.to_nat len) (take (Z.to_nat bodylen) b)).
          rewrite take_take. f_equal; f_equal; [lia|]. f_equal. lia. }
      intros w. apply (replace_round fuel b bodylen len); [rewrite (proj2 (Z.leb_le _ _)) by lia; done|lia|].
      intros w'. rewrite (proj2 (Z.ltb_lt _ _)) by lia. apply Hr.
  - exists [take (Z.to_nat bodylen) b]. split; [done|]. split.
    { apply chunked_one. rewrite length_take. lia. }
    intros w. subst len. apply (replace_round fuel b bodylen bodylen []); [rewrite (proj2 (Z.leb_gt _ _)) by lia; done|lia|].
    intros w'. rewrite (proj2 (Z.ltb_ge _ _)) by lia. apply wrote_nothing.
Qed.

(** More fuel than the rounds of the body changes nothing. *)
Lemma replace_loop_fuel fuel : forall k b bodylen w,
  0 <= bodylen < Z.of_nat fuel * MILTER_CHUNK_SIZE ->
  replace_loop (fuel + k) b bodylen w = replace_loop fuel b bodylen w.
Proof.
  induction fuel as [|fuel IH]; intros k b bodylen w Hf; [lia|]. simpl.
  unfold bind. destruct (mi_wr_cmd _ _ _ _); try done. destruct (negb _); [done|].
  match goal with |- (if 0 <? ?x then _ else _) _ = _ => destruct (Z.ltb_spec 0 x) as [Hlt|]; [|done] end.
  apply IH. revert Hlt. unfold MILTER_CHUNK_SIZE in *. destruct (Z.leb_spec 65535 bodylen); lia.
Qed.

Lemma replace_rounds_enough bodylen : 0 <= bodylen ->
  bodylen < Z.of_nat (replace_rounds bodylen) * MILTER_CHUNK_SIZE.
Proof.
  intros Hb. unfold replace_rounds, MILTER_CHUNK_SIZE.
  pose proof (Z.div_mod bodylen 65535). pose proof (Z.mod_pos_bound bodylen 65535).
  pose proof (Z.div_pos bodylen 65535). lia.
Qed.

End replacebody.

(** C35: [smfi_replacebody] sends the body whole and in order, as one frame per
    chunk: every chunk but the last is MILTER_CHUNK_SIZE bytes, an empty body
    is one empty chunk, and on a socket failure what was sent is a prefix of
    those frames.  The loop needs no more rounds than the model allows it. *)
Theorem replacebody_chunks {P S} (b : bytes) (bodylen : Z) (w : world P S)
  (Hlen : 0 <= bodylen <= Z.of_nat (length b)) (Hok : sendok SMFIF_CHGBODY w = true) :
  exists cs, cs <> [] /\ chunked (take (Z.to_nat bodylen) b) cs /\
    (let f := concat (frame SMFIR_REPLBODY <$> cs) in
     ends (wrote f w) (wrote_part f w) (smfi_replacebody (Some b) bodylen w)) /\
    forall k, replace_loop (replace_rounds bodylen + k) (Some b) bodylen w =
              smfi_replacebody (Some b) bodylen w.
Proof.
  destruct (@replace_loop_run P S (replace_rounds bodylen) b bodylen) as (cs & Hn & Hcs & Hr);
    [done|apply replace_rounds_enough; lia|].
  exists cs. split; [done|]. split; [done|]. unfold smfi_replacebody.
  rewrite (proj2 (Z.ltb_ge _ _)), bool_decide_eq_true_2 by (done || lia). cbn [negb andb orb].
  rewrite (bind_run _ _ w true w) by (rewrite mi_sendok_run, Hok; done). cbn [negb].
  split; [apply Hr|]. intros k. apply replace_loop_fuel.
  split; [lia|]. apply replace_rounds_enough. lia.
Qed.

Lemma replacebody_chunks_witness :
  let w := eom_world [PReady true false] [WAccept 100] in
  exists cs, cs <> [] /\ chunked (lit "body") cs /\
    (let f := concat (frame SMFIR_REPLBODY <$> cs) in
     ends (wrote f w) (wrote_part f w) (smfi_replacebody (Some (lit "body")) 4 w)) /\
    forall k, replace_loop (replace_rounds 4 + k) (Some (lit "body")) 4 w =
              smfi_replacebody (Some (lit "body")) 4 w.
Proof. apply (replacebody_chunks (lit "body") 4); [vm_compute; split; discriminate|reflexivity]. Defined.

(** ** Replies *)

(** A buffer of [len] bytes that holds the string [s]. *)
Definition holds (buf : bytes) (len : Z) (s : bytes) : Prop :=
  cstr buf = Some s /\ Z.of_nat (length buf) = len.

Section replies.
Context {P S : Type}.
Implicit Types w : world P S.

Lemma cstr_c_str s : no_nul s -> cstr (c_str s) = Some s.
Proof. apply cstr_app. Qed.

Lemma length_fresh len : 0 <= len -> Z.of_nat (length (fresh len)) = len.
Proof. intros H. unfold fresh. rewrite length_replicate. lia. Qed.

Lemma put_holds dst d t len : cstr dst = Some d -> Z.of_nat (length dst) = len -> no_nul t ->
  Z.of_nat (length d) + Z.of_nat (length t) < len ->
  holds (put dst (length d) (t ++ [x00])) len (d ++ t).
Proof.
  intros Hd Hl Ht Hlt. split; [by apply cstr_put|].
  rewrite length_put; [done|]. rewrite length_app. simpl. lia.
Qed.

Lemma strl_cat buf s t len w : holds buf len s -> no_nul t ->
  Z.of_nat (length s) + Z.of_nat (length t) < len ->
  exists buf', strl (sm_strlcat buf (c_str t) len) w = Done buf' w /\ holds buf' len (s ++ t).
Proof.
  intros [Hb Hl] Ht Hlt. unfold strl. rewrite (sm_strlcat_run buf _ s t) by (done || by apply cstr_c_str || lia).
  rewrite (proj2 (Z.ltb_lt _ _)) by lia. eexists. split; [done|]. simpl.
  rewrite take_ge by lia. by apply put_holds.
Qed.

Lemma strl_cat2 buf s t1 src2 t2 len w : holds buf len s -> no_nul t1 -> cstr src2 = Some t2 ->
  Z.of_nat (length s) + Z.of_nat (length t1) + Z.of_nat (length t2) < len ->
  exists buf', strl (sm_strlcat2 buf (c_str t1) src2 len) w = Done buf' w /\ holds buf' len (s ++ t1 ++ t2).
Proof.
  intros [Hb Hl] Ht1 Ht2 Hlt. unfold strl.
  rewrite (sm_strlcat2_run buf _ _ s t1 t2) by (done || by apply cstr_c_str || lia).
  rewrite (proj2 (Z.ltb_lt _ _)) by lia. eexists. split; [done|]. simpl.
  rewrite take_ge by (rewrite length_app; lia). apply put_holds; [done..| |rewrite length_app; lia].
  apply no_nul_app. split; [done|]. by apply cstr_no_nul in Ht2.
Qed.

Lemma put_holds0 dst t len : Z.of_nat (length dst) = len -> no_nul t ->
  Z.of_nat (length t) < len -> holds (put dst 0 (t ++ [x00])) len t.
Proof.
  intros Hl Ht Hlt. split.
  - unfold put. simpl. rewrite <- app_assoc. by apply cstr_app.
  - rewrite length_put; [done|]. rewrite length_app. simpl. lia.
Qed.

Lemma strl_cpy t len w : no_nul t -> Z.of_nat (length t) < len ->
  exists buf', strl (sm_strlcpy (fresh len) (c_str t) len) w = Done buf' w /\ holds buf' len t.
Proof.
  intros Ht Hlt. pose proof (length_fresh len). unfold strl.
  rewrite (sm_strlcpy_run _ _ t) by (by apply cstr_c_str || lia).
  eexists. split; [done|]. simpl. rewrite take_ge by lia. apply put_holds0; [lia|done..].
Qed.

Lemma strl_cpyn ts len w : Forall no_nul ts -> Z.of_nat (length (concat ts)) < len ->
  exists buf', strl (sm_strlcpyn (fresh len) len (c_str <$> ts)) w = Done buf' w /\
    holds buf' len (concat ts).
Proof.
  intros Ht Hlt. pose proof (length_fresh len). unfold strl.
  assert (no_nul (concat ts)) as Hn by (clear -Ht; induction Ht; simpl; [constructor|by apply no_nul_app]).
  rewrite (sm_strlcpyn_run _ _ _ ts); [|clear -Ht; induction Ht; constructor; [by apply cstr_c_str|done]|lia].
  eexists. split; [done|]. simpl. rewrite take_ge by lia. apply put_holds0; [lia|done..].
Qed.

End replies.

(** Append the next string to the buffer of the goal. *)
Ltac strl_next :=
  lazymatch goal with
  | Hb : holds ?b ?len ?s |- context [bind (strl (sm_strlcat ?b (c_str ?t) ?len)) _ ?w] =>
      let b' := fresh "b" in let H := fresh "H" in let Hb' := fresh "Hb" in
      destruct (strl_cat b s t len w Hb) as (b' & H & Hb');
        [first [assumption | by repeat constructor] | rewrite ?length_app; simpl; lia
        | rewrite (bind_run _ _ _ _ _ H); clear H Hb; rename Hb' into Hb]
  end.

Lemma rcode_ok_length rcode : rcode_ok rcode = true -> length rcode = 3%nat.
Proof. unfold rcode_ok. destruct (Nat.eqb_spec (length rcode) 3); [done|]. discriminate. Qed.

(** The checks of [smfi_setreply] on a code and texts that are C strings. *)
Definition reply_valid (rcode : bytes) (xcode : option bytes) (txts : list bytes) : bool :=
  rcode_ok rcode
  && match xcode with None => true | Some _ => negb (myisenhsc xcode x00 =? 0)%nat end
  && forallb (fun t => negb (has_crlf t) && (Z.of_nat (length t) <=? MAXREPLYLEN)) txts.

Definition setreply_text (rcode : bytes) (xcode message : option bytes) : bytes :=
  rcode ++ lit " " ++ default [] xcode ++
  match message with
  | None => []
  | Some m => match xcode with Some _ => lit " " | None => [] end ++ m
  end.

Definition onul (s : option bytes) : Prop := match s with None => True | Some s => no_nul s end.

(** [smfi_setreply] stores a reply exactly when the code is three digits
    starting with 4 or 5, the extended code is well formed and the text is one
    line of at most 980 characters; the reply stored is then code, space,
    extended code, space and text, uncut and terminated.  Otherwise nothing
    changes. *)
Theorem setreply_exact {P S} (rcode : bytes) (xcode message : option bytes) (w : world P S)
  (Hr : no_nul rcode) (Hx : onul xcode) (Hm : onul message) (Hmem : w_oom w = []) :
  if reply_valid rcode xcode (match message with None => [] | Some m => [m] end) then
    exists buf, smfi_setreply (Some rcode) xcode message w =
        Done MI_SUCCESS (set_w_ctx (set_ctx_reply (Some buf) (w_ctx w)) w) /\
      cstr buf = Some (setreply_text rcode xcode message)
  else smfi_setreply (Some rcode) xcode message w = Done MI_FAILURE w.
Proof.
  unfold reply_valid, smfi_setreply. cbv zeta.
  destruct (rcode_ok rcode) eqn:Er; [|done]. simpl.
  assert (length rcode = 3)%nat as Hl by (by apply rcode_ok_length).
  replace (bool_decide (is_Some xcode) && (myisenhsc xcode x00 =? 0)%nat)
    with (negb match xcode with None => true | Some _ => negb (myisenhsc xcode x00 =? 0)%nat end)
    by (destruct xcode; simpl; [by rewrite negb_involutive|done]).
  destruct (match xcode with None => true | Some _ => _ end); [|done]. simpl.
  destruct xcode as [x|], message as [m|]; cbn [forallb default];
    try (destruct (has_crlf m); [done|]; destruct (Z.leb_spec (Z.of_nat (length m)) MAXREPLYLEN);
         [rewrite (proj2 (Z.ltb_ge _ _)) by lia|by rewrite (proj2 (Z.ltb_lt _ _)) by lia]);
    cbn [negb andb]; rewrite (bind_run _ _ _ _ _ (malloc_always _ Hmem)); cbn [negb].
  all: match goal with |- context [sm_strlcpy (fresh ?len) _ _] =>
         destruct (strl_cpy rcode len w Hr) as (b & Hcpy & Hb);
           [simpl; lia|rewrite (bind_run _ _ _ _ _ Hcpy); clear Hcpy] end.
  all: rewrite ?bind_assoc; repeat (strl_next || rewrite bind_ret_l || rewrite bind_assoc).
  all: eexists; split; [done|]; destruct Hb as [-> _]; unfold setreply_text; simpl; rewrite ?app_nil_r, <- ?app_assoc; done.
Qed.

Lemma setreply_exact_witness :
  exists buf, smfi_setreply (Some (lit "550")) (Some (lit "5.7.1")) (Some (lit "no")) (eom_world [] []) =
      Done MI_SUCCESS (set_w_ctx (set_ctx_reply (Some buf) (w_ctx (eom_world [] []))) (eom_world [] [])) /\
    cstr buf = Some (lit "550 5.7.1 no").
Proof.
  apply (setreply_exact (lit "550") (Some (lit "5.7.1")) (Some (lit "no")) (eom_world [] []));
    [apply (bool_decide_unpack _); vm_compute; exact I..|reflexivity].
Defined.

(** *** Enhanced status codes *)

(** class "." subject "." detail *)
Definition enhsc (s : bytes) : Prop :=
  exists c d1 d2, s = c :: "."%byte :: d1 ++ "."%byte :: d2 /\
    (c = "2"%byte \/ c = "4"%byte \/ c = "5"%byte) /\
    (1 <= length d1 <= 3)%nat /\ (1 <= length d2 <= 3)%nat /\
    Forall (fun x => isdigit x = true) (d1 ++ d2).

Lemma digits_le n : forall s, (digits n s <= n /\ digits n s <= length s)%nat /\
  Forall (fun x => isdigit x = true) (take (digits n s) s).
Proof.
  induction n as [|n IH]; intros [|c s]; simpl; [repeat split; (lia || constructor)..|].
  destruct (isdigit c) eqn:Ec; simpl; [|repeat split; (lia || constructor)].
  destruct (IH s) as [? ?]. split; [lia|]. by constructor.
Qed.

Lemma digits_app n d c r : Forall (fun x => isdigit x = true) d -> (length d <= n)%nat ->
  isdigit c = false -> digits n (d ++ c :: r) = length d.
Proof.
  intros Hd. revert n. induction Hd as [|x d Hx _ IH]; intros n Hn Hc; simpl.
  - destruct n; simpl; [done|by rewrite Hc].
  - destruct n as [|n]; simpl in *; [lia|]. rewrite Hx, IH by (done || lia). done.
Qed.

Lemma digits_end n d : Forall (fun x => isdigit x = true) d -> (length d <= n)%nat ->
  digits n d = length d.
Proof.
  intros Hd. revert n. induction Hd as [|x d Hx _ IH]; intros n Hn; simpl; [by destruct n|].
  destruct n as [|n]; simpl in *; [lia|]. rewrite Hx, IH by lia. done.
Qed.

Lemma char_at_app s t i : (i <= length t)%nat -> char_at (s ++ t) (length s + i) = char_at t i.
Proof.
  intros Hi. unfold char_at, c_str. rewrite <- app_assoc, app_nth2 by lia. f_equal. lia.
Qed.

Lemma char_at_split s i c : (i <= length s)%nat -> char_at s i = c -> c <> x00 ->
  s = take i s ++ c :: drop (Datatypes.S i) s.
Proof.
  intros Hi Hc Hn. unfold char_at, c_str in Hc.
  destruct (decide (i = length s)) as [->|Hne].
  - rewrite app_nth2, Nat.sub_diag in Hc by lia. by subst.
  - rewrite app_nth1 in Hc by lia. symmetry. apply take_drop_middle.
    destruct (lookup_lt_is_Some_2 s i ltac:(lia)) as [x Hx]. rewrite Hx.
    apply nth_lookup_Some with (d := x00) in Hx. congruence.
Qed.

Lemma char_at_nul s i : no_nul s -> (i <= length s)%nat -> char_at s i = x00 -> i = length s.
Proof.
  intros Hs Hi Hc. destruct (decide (i = length s)) as [|Hne]; [done|exfalso].
  destruct (lookup_lt_is_Some_2 s i ltac:(lia)) as [x Hx].
  unfold char_at, c_str in Hc. rewrite app_nth1 in Hc by lia.
  pose proof (nth_lookup_Some _ _ x00 _ Hx). eapply Forall_lookup_1 in Hs; [|done]. simpl in Hs. congruence.
Qed.

Lemma enhsc_form s : no_nul s -> myisenhsc (Some s) x00 <> 0%nat ->
  enhsc s /\ myisenhsc (Some s) x00 = length s.
Proof.
  intros Hs. unfold myisenhsc.
  match goal with |- context [negb ?b] => destruct b eqn:Eb; [|by intros []] end. cbv zeta. simpl negb.
  apply andb_true_iff in Eb as [Ec Ed]. apply bool_decide_eq_true in Ed.
  set (h := digits 3 (drop 2 s)). set (l := (2 + (h + 1))%nat). set (h2 := digits 3 (drop l s)).
  destruct (Nat.eqb_spec h 0); [by intros []|]. cbn [orb].
  destruct (decide (char_at s (2 + h) = "."%byte)) as [Hdot|Hdot];
    [rewrite (bool_decide_eq_true_2 _ Hdot)|rewrite (bool_decide_eq_false_2 _ Hdot); by intros []].
  cbn [negb]. destruct (Nat.eqb_spec h2 0); [by intros []|]. cbn [orb].
  destruct (decide (char_at s (l + h2) = x00)) as [Hend|Hend];
    [rewrite (bool_decide_eq_true_2 _ Hend)|rewrite (bool_decide_eq_false_2 _ Hend); by intros []].
  cbn [negb].
  intros _. destruct s as [|c [|c1 r]]; [by destruct Ec|by destruct Ed|].
  unfold char_at, c_str in Ed. simpl in Ed. subst c1.
  destruct (digits_le 3 r) as [[H3 Hlr] Hdig]. assert (h = digits 3 r) as Eh by done.
  pose proof (char_at_app [c; "."%byte] r h ltac:(lia)) as Hch.
  change ([c; "."%byte] ++ r) with (c :: "."%byte :: r) in Hch. simpl in Hch, Hdot. rewrite Hch in Hdot.
  pose proof (char_at_split r h _ ltac:(lia) Hdot ltac:(done)) as Hr.
  assert (drop l (c :: "."%byte :: r) = drop (Datatypes.S h) r) as Hdl
    by (unfold l; simpl; by rewrite Nat.add_1_r).
  unfold h2 in *. rewrite Hdl in *. set (d2 := drop (Datatypes.S h) r) in *.
  destruct (digits_le 3 d2) as [[H3' Hl2] Hdig2].
  assert (length (take h r) = h) as Hth by (rewrite length_take; lia).
  assert (c :: "."%byte :: r = (c :: "."%byte :: take h r ++ ["."%byte]) ++ d2) as Hsplit
    by (rewrite Hr at 1; simpl; by rewrite <- app_assoc).
  rewrite Hsplit in Hend.
  replace (l + digits 3 d2)%nat
    with (length (c :: "."%byte :: take h r ++ ["."%byte]) + digits 3 d2)%nat in Hend
    by (simpl; rewrite length_app; simpl; unfold l; lia).
  rewrite char_at_app in Hend by lia.
  apply char_at_nul in Hend; [|rewrite Hsplit in Hs; by apply no_nul_app in Hs as [_ ?]|lia].
  rewrite take_ge in Hdig2 by lia. split.
  - exists c, (take h r), d2. split; [by rewrite Hr at 1|]. split.
    { unfold char_at, c_str in Ec. simpl in Ec.
      apply orb_true_iff in Ec as [Ec|Ec]; [apply orb_true_iff in Ec as [Ec|Ec]|];
        apply bool_decide_eq_true in Ec; auto. }
    split; [lia|]. split; [lia|]. apply Forall_app. by rewrite Eh.
  - rewrite Hend, Hsplit, length_app. simpl. rewrite length_app. simpl. unfold l. lia.
Qed.

Lemma enhsc_accepted s : enhsc s -> myisenhsc (Some s) x00 = length s.
Proof.
  intros (c & d1 & d2 & -> & Hc & H1 & H2 & Hd). apply Forall_app in Hd as [Hd1 Hd2].
  unfold myisenhsc. set (s := c :: "."%byte :: d1 ++ "."%byte :: d2).
  assert (digits 3 (drop 2 s) = length d1) as E1 by (apply digits_app; [done|lia|done]).
  assert (s = (c :: "."%byte :: d1) ++ "."%byte :: d2) as Es1 by done.
  assert (s = (c :: "."%byte :: d1 ++ ["."%byte]) ++ d2) as Es2
    by (rewrite Es1; simpl; by rewrite <- app_assoc).
  assert (drop (2 + (length d1 + 1)) s = d2) as E2.
  { rewrite Es2, drop_app_ge by (simpl; rewrite length_app; simpl; lia).
    simpl. rewrite length_app. simpl. by replace (_ - _)%nat with 0%nat by lia. }
  match goal with |- context [negb ?b] => replace b with true end.
  2:{ unfold char_at, c_str. simpl. destruct Hc as [->|[->| ->]]; done. }
  cbv zeta. cbn [negb]. rewrite E1, E2, (digits_end 3 d2) by (done || lia).
  rewrite !(proj2 (Nat.eqb_neq _ _)) by lia. cbn [orb].
  rewrite (bool_decide_eq_true_2 (char_at s (2 + length d1) = "."%byte)).
  2:{ rewrite Es1. etrans; [|apply (char_at_app (c :: "."%byte :: d1) ("."%byte :: d2) 0); simpl; lia].
      f_equal. simpl. lia. }
  rewrite (bool_decide_eq_true_2 (char_at s (2 + (length d1 + 1) + length d2) = x00)).
  2:{ rewrite Es2.
      etrans; [|etrans; [apply (char_at_app (c :: "."%byte :: d1 ++ ["."%byte]) d2 (length d2)); lia|]].
      { f_equal. simpl. rewrite length_app. simpl. lia. }
      unfold char_at, c_str. rewrite app_nth2, Nat.sub_diag by lia. done. }
  cbn [negb]. rewrite Es2, length_app. simpl. rewrite length_app. simpl. lia.
Qed.

(** The extended code is accepted exactly when it has the form of RFC 2034,
    class 2, 4 or 5 and two numbers of one to three digits, and then all of it
    is the code. *)
Theorem enhsc_exact (s : bytes) (Hs : no_nul s) :
  (myisenhsc (Some s) x00 <> 0%nat <-> enhsc s) /\
  (enhsc s -> myisenhsc (Some s) x00 = length s).
Proof.
  split; [|apply enhsc_accepted]. split; [by intros H; apply enhsc_form|].
  intros H. rewrite (enhsc_accepted _ H). destruct H as (c & d1 & d2 & -> & _). simpl. lia.
Qed.

Lemma enhsc_exact_witness :
  (myisenhsc (Some (lit "5.7.100")) x00 <> 0%nat <-> enhsc (lit "5.7.100")) /\
  (enhsc (lit "5.7.100") -> myisenhsc (Some (lit "5.7.100")) x00 = 7%nat).
Proof. apply (enhsc_exact (lit "5.7.100")). apply (bool_decide_unpack _). vm_compute. exact I. Defined.

(** *** Multi-line replies *)

Definition crlf : bytes := [x0d; x0a].

(** What a line of the reply starts with. *)
Definition ml_pre (rcode sep xc : bytes) : bytes := rcode ++ sep ++ xc ++ lit " ".

(** The lines of the texts: all but the last are marked with a dash. *)
Fixpoint ml_lines (rcode xc : bytes) (txts : list bytes) : list bytes :=
  match txts with
  | [] => []
  | [t] => [ml_pre rcode (lit " ") xc ++ t]
  | t :: r => (ml_pre rcode (lit "-") xc ++ t) :: ml_lines rcode xc r
  end.

(** The extended code of the reply: the one given or that of the class. *)
Definition ml_xcode (rcode : bytes) (xcode : option bytes) : bytes :=
  match xcode with
  | Some x => x
  | None => if bool_decide (char_at rcode 0 = "4"%byte) then lit "4.0.0" else lit "5.0.0"
  end.

Definition ml_text (rcode : bytes) (xcode : option bytes) (txts : list bytes) : bytes :=
  let xc := ml_xcode rcode xcode in
  match ml_lines rcode xc txts with
  | [] => rcode ++ lit "-" ++ xc
  | l :: r => l ++ concat ((fun x => crlf ++ x) <$> r)
  end.

Definition txt_ok (t : bytes) : bool := negb (has_crlf t) && (Z.of_nat (length t) <=? MAXREPLYLEN).

(** Characters the measuring loop adds for the texts. *)
Fixpoint ml_size (rlen : Z) (txts : list bytes) : Z :=
  match txts with [] => 0 | t :: r => Z.of_nat (length t) + 2 + rlen + ml_size rlen r end.

Lemma ml_measure_run rlen txts : forall len args, 0 <= args <= MAXREPLIES ->
  ml_measure txts rlen len args =
  if forallb txt_ok txts && (args + Z.of_nat (length txts) <=? MAXREPLIES)
  then Some (len + ml_size rlen txts, args + Z.of_nat (length txts)) else None.
Proof.
  induction txts as [|t r IH]; intros len args Ha.
  { simpl. rewrite !Z.add_0_r, (proj2 (Z.leb_le _ _)) by lia. done. }
  simpl. unfold txt_ok at 1.
  destruct (Z.leb_spec (Z.of_nat (length t)) MAXREPLYLEN).
  2:{ rewrite andb_false_r, (proj2 (Z.ltb_lt _ _)) by lia. done. }
  rewrite (proj2 (Z.ltb_ge _ _)) by lia. destruct (Z.ltb_spec MAXREPLIES (args + 1)).
  { rewrite (proj2 (Z.leb_gt _ _)) by lia. by rewrite andb_false_r. }
  destruct (has_crlf t); [done|]. rewrite IH by lia. simpl.
  replace (args + 1 + Z.of_nat (length r)) with (args + Z.of_nat (Datatypes.S (length r))) by lia.
  destruct (_ && _); [|done]. do 2 f_equal. lia.
Qed.

Section mlreply.
Context {P S : Type}.
Implicit Types w : world P S.

(** Setting the fourth character of the prefix to a space. *)
Lemma repl_space repl rcode xc : length rcode = 3%nat ->
  cstr repl = Some (ml_pre rcode (lit "-") xc) ->
  cstr (<[3%nat := " "%byte]> repl) = Some (ml_pre rcode (lit " ") xc).
Proof.
  intros Hr Hc. apply cstr_Some in Hc as [Hn [r ->]].
  destruct rcode as [|a [|b [|c [|d rcode]]]]; try done. unfold ml_pre in *. simpl in *.
  apply no_nul_cons in Hn as [Ha Hn]. apply no_nul_cons in Hn as [Hb Hn].
  apply no_nul_cons in Hn as [Hc Hn]. apply no_nul_cons in Hn as [_ Hn].
  apply (cstr_app (a :: b :: c :: " "%byte :: xc ++ lit " ")). by repeat constructor.
Qed.

Lemma ml_append_run rcode xc : length rcode = 3%nat -> forall txts buf s repl len args w,
  holds buf len s -> Forall no_nul txts ->
  cstr repl = Some (ml_pre rcode (lit "-") xc) -> args = Z.of_nat (length txts) + 1 ->
  Z.of_nat (length s) + ml_size (Z.of_nat (length xc) + 5) txts < len ->
  exists buf', ml_append txts buf repl len args w = Done buf' w /\
    holds buf' len (s ++ concat ((fun x => crlf ++ x) <$> ml_lines rcode xc txts)).
Proof.
  intros Hr txts. induction txts as [|t r IH]; intros buf s repl len args w Hb Ht Hrepl -> Hlen.
  { exists buf. simpl. by rewrite app_nil_r. }
  apply Forall_cons_iff in Ht as [Ht Htr]. cbn [ml_append]. cbv zeta. simpl in Hlen.
  assert (0 <= ml_size (Z.of_nat (length xc) + 5) r) by (clear; induction r; simpl; lia).
  set (sep := match r with [] => lit " " | _ => lit "-" end).
  set (repl' := if _ <=? 1 then _ else _).
  assert (cstr repl' = Some (ml_pre rcode sep xc)) as Hrepl'.
  { unfold repl', sep. destruct r as [|t' r']; simpl length.
    - rewrite (proj2 (Z.leb_le _ _)) by lia. by apply repl_space.
    - by rewrite (proj2 (Z.leb_gt _ _)) by lia. }
  assert (length (ml_pre rcode sep xc) = length xc + 5)%nat as Hpl.
  { unfold ml_pre, sep. destruct r; rewrite !length_app, Hr; simpl; lia. }
  destruct (strl_cat2 buf s crlf repl' (ml_pre rcode sep xc) len w Hb) as (b1 & H1 & Hb1);
    [by repeat constructor|done|rewrite Hpl; simpl; lia|].
  rewrite (bind_run _ _ _ _ _ H1).
  destruct (strl_cat b1 _ t len w Hb1 Ht) as (b2 & H2 & Hb2);
    [rewrite !length_app, Hpl; simpl; lia|].
  rewrite (bind_run _ _ _ _ _ H2).
  destruct r as [|t' r'].
  - exists b2. split; [done|]. simpl. rewrite app_nil_r. rewrite <- !app_assoc in Hb2. by apply Hb2.
  - assert (repl' = repl) as -> by (unfold repl'; simpl length; by rewrite (proj2 (Z.leb_gt _ _)) by lia).
    destruct (IH b2 _ repl len (Z.of_nat (length (t :: t' :: r')) + 1 - 1) w Hb2 Htr Hrepl)
      as (b3 & H3 & Hb3); [simpl; lia|rewrite !length_app, Hpl; simpl; simpl in Hlen; lia|].
    exists b3. split; [done|]. change (ml_lines rcode xc (t :: t' :: r'))
      with ((ml_pre rcode (lit "-") xc ++ t) :: ml_lines rcode xc (t' :: r')).
    cbn [fmap list_fmap concat]. rewrite <- !app_assoc in Hb3 |- *. exact Hb3.
Qed.

End mlreply.

Lemma ml_xcode_ok rcode xcode : onul xcode ->
  match xcode with None => true | Some _ => negb (myisenhsc xcode x00 =? 0)%nat end = true ->
  no_nul (ml_xcode rcode xcode) /\ (length (ml_xcode rcode xcode) <= 9)%nat.
Proof.
  intros Hx Hok. unfold ml_xcode, onul in *. destruct xcode as [x|].
  - split; [done|]. destruct (Nat.eqb_spec (myisenhsc (Some x) x00) 0) as [|Hne]; [done|].
    apply enhsc_form in Hne as [(c & d1 & d2 & -> & _ & ? & ? & _) _]; [|done].
    simpl. rewrite length_app. simpl. lia.
  - case_bool_decide; (split; [apply (bool_decide_unpack _); vm_compute; exact I|simpl; lia]).
Qed.

(** C36: [smfi_setmlreply] stores a reply exactly when the codes are valid and
    there are at most 32 texts, each one line of at most 980 characters.  The
    reply is then one line per text, each with both codes, all but the last
    marked as continued, separated by CRLF, and fits the buffer.  With no text
    at all it is the codes alone, marked as continued. *)
Theorem setmlreply_exact {P S} (rcode : bytes) (xcode : option bytes) (txts : list bytes) (w : world P S)
  (Hr : no_nul rcode) (Hx : onul xcode) (Ht : Forall no_nul txts) (Hmem : w_oom w = []) :
  if reply_valid rcode xcode txts && (Z.of_nat (length txts) <=? MAXREPLIES) then
    exists buf, smfi_setmlreply (Some rcode) xcode txts w =
        Done MI_SUCCESS (set_w_ctx (set_ctx_reply (Some buf) (w_ctx w)) w) /\
      cstr buf = Some (ml_text rcode xcode txts)
  else smfi_setmlreply (Some rcode) xcode txts w = Done MI_FAILURE w.
Proof.
  unfold reply_valid, smfi_setmlreply. cbv zeta. fold (ml_xcode rcode xcode).
  destruct (rcode_ok rcode) eqn:Er; [|done]. simpl.
  assert (length rcode = 3)%nat as Hl by (by apply rcode_ok_length).
  replace (bool_decide (is_Some xcode) && (myisenhsc xcode x00 =? 0)%nat)
    with (negb match xcode with None => true | Some _ => negb (myisenhsc xcode x00 =? 0)%nat end)
    by (destruct xcode; simpl; [by rewrite negb_involutive|done]).
  pose proof (ml_xcode_ok rcode xcode Hx) as Hxc.
  destruct (match xcode with None => true | Some _ => _ end); [|done]. simpl.
  destruct (Hxc eq_refl) as [Hxn Hxl]. clear Hxc. unfold ml_text.
  set (xc := ml_xcode rcode xcode) in *. rewrite ml_measure_run by (unfold MAXREPLIES; lia).
  rewrite Z.add_0_l. change (forallb (fun t => negb (has_crlf t) && (Z.of_nat (length t) <=? MAXREPLYLEN)) txts)
    with (forallb txt_ok txts).
  destruct (forallb txt_ok txts && _); [|done].
  rewrite (bind_run _ _ _ _ _ (malloc_always _ Hmem)). cbn [negb].
  set (rlen := Z.of_nat (length rcode) + 1 + (Z.of_nat (length xc) + 1)).
  set (len := rlen + ml_size rlen txts + 1).
  assert (rlen = Z.of_nat (length xc) + 5) as Hrlen by lia.
  assert (0 <= ml_size rlen txts) as Hsz by (clear - Hrlen; induction txts; simpl; lia).
  set (sep := if Z.of_nat (length txts) =? 1 then lit " " else lit "-").
  assert (no_nul sep /\ length sep = 1%nat) as [Hsn Hsl]
    by (unfold sep; case_match; (split; [by repeat constructor|done])).
  destruct (strl_cpyn [rcode; sep; xc] len w) as (b1 & H1 & Hb1);
    [by repeat constructor|simpl; rewrite !length_app; simpl; lia|].
  rewrite (bind_run _ _ _ _ _ H1). clear H1.
  destruct (strl_cpyn [rcode; sep; xc; lit " "] 16 w) as (repl & H2 & Hb2);
    [by repeat constructor|simpl; rewrite !length_app; simpl; lia|].
  rewrite (bind_run _ _ _ _ _ H2). clear H2. simpl concat in Hb1. rewrite app_nil_r in Hb1.
  destruct txts as [|t r].
  { eexists. split; [done|]. by destruct Hb1 as [-> _]. }
  apply Forall_cons_iff in Ht as [Ht Htr]. rewrite bind_assoc. simpl in Hsz.
  assert (0 <= ml_size rlen r) by (clear - Hrlen; induction r; simpl; lia).
  destruct (strl_cat2 b1 _ (lit " ") (c_str t) t len w Hb1) as (b3 & H3 & Hb3);
    [by repeat constructor|by apply cstr_c_str|rewrite !length_app; simpl; unfold len; simpl; lia|].
  rewrite (bind_run _ _ _ _ _ H3). clear H3. rewrite <- !app_assoc in Hb3.
  destruct r as [|t' r'].
  { eexists. split; [done|]. destruct Hb3 as [-> _]. unfold sep, ml_pre. cbn [ml_lines fmap list_fmap concat].
    rewrite app_nil_r. unfold ml_pre. by rewrite <- !app_assoc. }
  destruct (ml_append_run rcode xc Hl (t' :: r') b3 _ repl len (Z.of_nat (length (t :: t' :: r'))) w Hb3 Htr)
    as (b4 & H4 & Hb4).
  { destruct Hb2 as [-> _]. unfold ml_pre, sep. cbn [concat]. rewrite (proj2 (Z.eqb_neq _ _)) by (simpl; lia). done. }
  { simpl. lia. }
  { rewrite !length_app, <- Hrlen. unfold len. simpl. simpl in *. lia. }
  rewrite (bind_run _ _ _ _ _ H4). eexists. split; [done|]. destruct Hb4 as [-> _].
  f_equal. unfold sep. rewrite (proj2 (Z.eqb_neq _ _)) by (simpl; lia). change (ml_lines rcode xc (t :: t' :: r'))
      with ((ml_pre rcode (lit "-") xc ++ t) :: ml_lines rcode xc (t' :: r')).
  unfold ml_pre. rewrite <- !app_assoc. done.
Qed.

Lemma setmlreply_exact_witness :
  exists buf, smfi_setmlreply (Some (lit "451")) None [lit "a"; lit "b"] (eom_world [] []) =
      Done MI_SUCCESS (set_w_ctx (set_ctx_reply (Some buf) (w_ctx (eom_world [] []))) (eom_world [] [])) /\
    cstr buf = Some (lit "451-4.0.0 a" ++ [x0d; x0a] ++ lit "451 4.0.0 b").
Proof.
  apply (setmlreply_exact (lit "451") None [lit "a"; lit "b"] (eom_world [] []));
    first [reflexivity | exact I | apply (bool_decide_unpack _); vm_compute; exact I].
Defined.
