(* ===== verification/Inet.v ===== *)
(** * IPv4 addresses as text: the C library's inet_aton and inet_ntop

    libmilter reads the client's address with [inet_aton] (st_connectinfo,
    libmilter/engine.c) and pmilter prints it with [inet_ntop]
    (pmilter_ipaddrdup, pmilter_utils.c).  These are library functions; they
    are defined here as the C library documents them. *)

From stdpp Require Import base list numbers strings.
From Stdlib Require Import Strings.Byte ZArith Lia.
From S2P Require Import Prelude.
Local Open Scope Z_scope.

(** The value of a digit in a base. *)
Definition digit_val (base : Z) (c : byte) : option Z :=
  let u := uchar c in
  let v := if (48 <=? u) && (u <=? 57) then u - 48
           else if (97 <=? u) && (u <=? 122) then u - 87
           else if (65 <=? u) && (u <=? 90) then u - 55
           else 99 in
  if v <? base then Some v else None.

Fixpoint read_digits (base : Z) (s : bytes) (acc : Z) : Z * bytes :=
  match s with
  | [] => (acc, [])
  | c :: r =>
      match digit_val base c with
      | Some d => read_digits base r (acc * base + d)
      | None => (acc, s)
      end
  end.

(** [strtoul(s, &end, 0)] on a string that starts with a digit: the value
    before conversion to [unsigned long] and what is left. *)
Definition strtoul0 (s : bytes) : Z * bytes :=
  match s with
  | "0"%byte :: x :: h :: r =>
      if (bool_decide (x = "x"%byte) || bool_decide (x = "X"%byte))
         && bool_decide (is_Some (digit_val 16 h))
      then read_digits 16 (h :: r) 0
      else read_digits 8 s 0
  | "0"%byte :: _ => read_digits 8 s 0
  | _ => read_digits 10 s 0
  end.

(** [isspace] in the C locale. *)
Definition isspace (c : byte) : bool := (uchar c =? 32) || ((9 <=? uchar c) && (uchar c <=? 13)).

Definition inet_max : list Z := [0xffffffff; 0xffffff; 0xffff; 0xff].

(** The parts read so far, at most [n] more. *)
Fixpoint inet_parts (n : nat) (parts : bytes) (s : bytes) : option bytes :=
  match n, s with
  | S n', c :: _ =>
      if negb (bool_decide (is_Some (digit_val 10 c))) then None
      else
        let '(val, rest) := strtoul0 s in
        if 0xffffffff <? val then None
        else
          match rest with
          | "."%byte :: r =>
              if (2 <? length parts)%nat || (0xff <? val) then None
              else inet_parts n' (parts ++ [byte_of val]) r
          | _ =>
              if match rest with [] => true | c' :: _ => isspace c' end then
                if nth (length parts) inet_max 0 <? val then None
                else Some (parts ++ drop (length parts) (be32 val))
              else None
          end
  | _, _ => None
  end.

(** The address in network byte order. *)
Definition inet_aton (s : bytes) : option bytes := inet_parts 4 [] s.

(** [%u] of a byte. *)
Definition dec_byte (b : byte) : bytes :=
  let n := uchar b in
  (if 100 <=? n then [byte_of (48 + n / 100)] else []) ++
  (if 10 <=? n then [byte_of (48 + n / 10 mod 10)] else []) ++
  [byte_of (48 + n mod 10)].

(** [inet_ntop(AF_INET, ...)]: four numbers separated by dots. *)
Definition inet_ntop (addr : bytes) : bytes :=
  match addr with
  | [a; b; c; d] =>
      dec_byte a ++ "."%byte :: dec_byte b ++ "."%byte :: dec_byte c ++ "."%byte :: dec_byte d
  | _ => []
  end.

(** ** Printing and reading back *)

Lemma strtoul0_dot b r : strtoul0 (dec_byte b ++ "."%byte :: r) = (uchar b, "."%byte :: r).
Proof. destruct b; destruct r as [|? [|? ?]]; reflexivity. Qed.

Lemma strtoul0_end b : strtoul0 (dec_byte b) = (uchar b, []).
Proof. destruct b; reflexivity. Qed.

Lemma dec_byte_head b r : exists c t, dec_byte b ++ r = c :: t /\
  bool_decide (is_Some (digit_val 10 c)) = true.
Proof. destruct b; (eexists _, _; split; [reflexivity|reflexivity]). Qed.

Lemma inet_parts_dot n parts b r : (length parts <= 2)%nat ->
  inet_parts (S n) parts (dec_byte b ++ "."%byte :: r) = inet_parts n (parts ++ [b]) r.
Proof.
  intros Hl. destruct (dec_byte_head b ("."%byte :: r)) as (c & t & E & Hc).
  pose proof (strtoul0_dot b r) as Hs. rewrite E in *. cbn [inet_parts]. rewrite Hc, Hs. cbn [negb].
  pose proof (uchar_range b).
  rewrite !(proj2 (Z.ltb_ge _ _)) by lia. rewrite (proj2 (Nat.ltb_ge _ _)) by lia. cbn [orb].
  by rewrite byte_of_uchar.
Qed.

Lemma inet_parts_last n b1 b2 b3 b :
  inet_parts (S n) [b1; b2; b3] (dec_byte b) = Some [b1; b2; b3; b].
Proof.
  destruct (dec_byte_head b []) as (c & t & E & Hc). rewrite app_nil_r in E.
  pose proof (strtoul0_end b) as Hs. rewrite E in *. cbn [inet_parts]. rewrite Hc, Hs. cbn [negb].
  pose proof (uchar_range b). simpl length. cbn [nth inet_max].
  rewrite !(proj2 (Z.ltb_ge _ _)) by (unfold inet_max; simpl; lia).
  unfold be32. simpl. by rewrite byte_of_uchar.
Qed.

Lemma inet_roundtrip a b c d : inet_aton (inet_ntop [a; b; c; d]) = Some [a; b; c; d].
Proof.
  unfold inet_aton, inet_ntop. rewrite !inet_parts_dot by (simpl; lia). apply inet_parts_last.
Qed.
