(* ===== verification/Engine.v ===== *)
(** * The session engine: libmilter/engine.c

    One function per handler of the command table, [sendreply] with
    [milter_addsymlist], [mi_rd_socket_ready] and [mi_engine].  [smfi] is the
    filter's descriptor; calling one of its callbacks is recorded in the ghost
    trace.  Debug output and log messages are left out, as is [free] of the
    command buffers. *)

From stdpp Require Import base list numbers strings.
From Stdlib Require Import Strings.Byte ZArith Lia.
From S2P Require Import Prelude Mfdef Comm Strl Stm Macros Inet.
Local Open Scope cM_scope.
Local Open Scope Z_scope.

Definition SMFI_PROT_VERSION_MIN : Z := 2.
Definition MI_RD_MAX_ERR : nat := 16.

(** [sizeof sockaddr.sunix.sun_path] *)
Definition SUN_PATH_SIZE : Z := 108.

(** [unsigned long] of an [int]: sign extension. *)
Definition ul_of_int (v : Z) : Z := u64 v.
(** [int] of an [unsigned long]: the low 32 bits. *)
Definition int_of_ul (v : Z) : Z := s32 v.
(** [~SMFI_INTERNAL] as an [unsigned long]. *)
Definition NOT_INTERNAL : Z := u64 (Z.lnot SMFI_INTERNAL).

Definition fake_pflags : Z :=
  Z.lor SMFIP_NR_CONN (Z.lor SMFIP_NR_HELO (Z.lor SMFIP_NR_MAIL (Z.lor SMFIP_NR_RCPT
    (Z.lor SMFIP_NR_DATA (Z.lor SMFIP_NR_UNKN (Z.lor SMFIP_NR_HDR (Z.lor SMFIP_NR_EOH
      SMFIP_NR_BODY))))))).

(** The loop of [mi_rd_socket_ready]. *)
Fixpoint sock_ready (polls : list poll_ret) (nerr : nat) : cM net bool := fun s =>
  match polls with
  | [] => Blocked (set_n_poll [] s)
  | PErr EINTR :: ps =>
      if (Datatypes.S nerr <? MI_RD_MAX_ERR)%nat then sock_ready ps (Datatypes.S nerr) (set_n_poll ps s)
      else Done false (set_n_poll ps s)
  | PErr _ :: ps => Done true (set_n_poll ps s)
  | PTimeout :: ps => Done false (set_n_poll ps s)
  | PReady rd exc :: ps => Done (rd || exc) (set_n_poll ps s)
  end.

(** The loop of [st_optionneg] that turns off what the library fakes: [b] goes
    through the bits from [idx] on, [n] of them. *)
Fixpoint unfake (n : nat) (idx : Z) (mta_pflags pflags2mta : Z) : Z :=
  match n with
  | O => pflags2mta
  | Datatypes.S n' =>
      let b := ul_of_int (s32 (Z.shiftl 1 idx)) in
      let p := if negb (Z.land mta_pflags b =? b) && (Z.land fake_pflags b =? b)
               then Z.land pflags2mta (u64 (Z.lnot b)) else pflags2mta in
      unfake n' (idx + 1) mta_pflags p
  end.

(** [(set & i) != i] for an [unsigned long] set and an [int] i *)
Definition lacks (set i : Z) : bool := negb (Z.land set (ul_of_int i) =? ul_of_int i).

(** The first loop of [milter_addsymlist]: the length of the lists. *)
Fixpoint symlist_len (l : list (option bytes)) : option Z :=
  match l with
  | [] => Some 0
  | None :: r => symlist_len r
  | Some b :: r =>
      n ← strlen b 0; m ← symlist_len r; Some (Z.of_nat n + 1 + Z.of_nat MILTER_LEN_BYTES + m)
  end.

(** The second loop: index, list and terminator, from index [i] on. *)
Fixpoint symlist_put (i : Z) (l : list (option bytes)) : option bytes :=
  match l with
  | [] => Some []
  | None :: r => symlist_put (i + 1) r
  | Some b :: r => s ← cstr b; t ← symlist_put (i + 1) r; Some (be32 i ++ s ++ x00 :: t)
  end.

(** What a round of the loop of [mi_engine] leads to. *)
Inductive round_res :=
  | Break (ret curstate : Z) (call_abort : bool)
  | Next (curstate : Z) (cm_todo : Z).

Section engine.
Context {P S : Type}.
Abbreviation W := (world P S).
Context (smfi : smfiDesc W).

(** A callback, recorded in the trace. *)
Definition call {A} (cb : callback) (m : cM W A) : cM W A :=
  modify (fun w => set_w_trace (w_trace w ++ [cb]) w) ;;; m.

(** A callback that may be NULL; its result is not used. *)
Definition call_opt {A} (cb : callback) (m : option (cM W A)) : cM W unit :=
  match m with
  | None => ret tt
  | Some m => call cb m ;;; ret tt
  end.

Definition mi_rd_socket_ready : cM W bool := liftn (fun s => sock_ready (n_poll s) 0 s).

(** ** Replies *)

(** [buf]: the three option words.  Returns the buffer to send ([None] when
    [malloc] fails) and its length. *)
Definition milter_addsymlist (buf : bytes) : cM W (option bytes * Z) :=
  let* l := getc ctx_mac_list in
  let* len := deref OutOfBounds (symlist_len l) in
  if 0 <? len then
    let len := len + Z.of_nat MILTER_OPTLEN in
    let* ok := malloc_ok in
    if negb ok then ret (None, len)
    else
      let* lists := deref OutOfBounds (symlist_put 0 l) in
      if negb (Z.of_nat (length (buf ++ lists)) =? len) then undef AssertFailed
      else ret (Some (buf ++ lists), len)
  else ret (Some buf, Z.of_nat MILTER_OPTLEN).

(** The forced change of a reply the filter promised not to give. *)
Definition force_noreply (r : Z) : Z :=
  if (r =? SMFIS_CONTINUE) || (r =? SMFIS_TEMPFAIL) || (r =? SMFIS_REJECT) || (r =? SMFIS_DISCARD)
     || (r =? SMFIS_ACCEPT) || (r =? SMFIS_SKIP) || (r =? _SMFIS_OPTIONS)
  then SMFIS_NOREPLY else r.

(** The case of [SMFIS_TEMPFAIL] and [SMFIS_REJECT]. *)
Definition send_error (r : Z) : cM W Z :=
  let* reply := getc ctx_reply in
  let plain := mi_wr_cmd (if r =? SMFIS_REJECT then SMFIR_REJECT else SMFIR_TEMPFAIL) None 0 in
  match reply with
  | None => plain
  | Some b =>
      let* c := deref OutOfBounds (head b) in
      if ((r =? SMFIS_TEMPFAIL) && bool_decide (c = "4"%byte))
         || ((r =? SMFIS_REJECT) && bool_decide (c = "5"%byte)) then
        let* n := deref OutOfBounds (strlen b 0) in
        let* ret_ := mi_wr_cmd SMFIR_REPLYCODE (Some b) (Z.of_nat n + 1) in
        modc (set_ctx_reply None) ;;;
        ret ret_
      else plain
  end.

(** The case of [_SMFIS_OPTIONS]. *)
Definition send_options : cM W Z :=
  let* c := getc id in
  let buf := be32 (ctx_prot_vers2mta c) ++ be32 (ctx_aflags c) ++ be32 (ctx_pflags2mta c) in
  let* x := milter_addsymlist buf in
  match x with
  | (Some buffer, len) => mi_wr_cmd SMFIC_OPTNEG (Some buffer) len
  | (None, _) => ret MI_FAILURE
  end.

Definition sendreply (r : Z) : cM W Z :=
  let* c := getc id in
  let bit := get_nr_bit (ctx_state c) in
  let nr := negb (bit =? 0) && negb (Z.land (ctx_pflags c) bit =? 0) in
  let r := if nr && negb (r =? SMFIS_NOREPLY) then force_noreply r else r in
  if r =? SMFIS_CONTINUE then mi_wr_cmd SMFIR_CONTINUE None 0
  else if (r =? SMFIS_TEMPFAIL) || (r =? SMFIS_REJECT) then send_error r
  else if r =? SMFIS_DISCARD then mi_wr_cmd SMFIR_DISCARD None 0
  else if r =? SMFIS_ACCEPT then mi_wr_cmd SMFIR_ACCEPT None 0
  else if r =? SMFIS_SKIP then mi_wr_cmd SMFIR_SKIP None 0
  else if r =? _SMFIS_OPTIONS then send_options
  else if r =? SMFIS_NOREPLY then
    if nr && (Z.land (ctx_mta_pflags c) bit =? 0) then mi_wr_cmd SMFIR_CONTINUE None 0
    else ret MI_SUCCESS
  else ret MI_SUCCESS.

(** ** Handlers *)

(** [mi_clr_macros(ctx, g->a_idx + 1)] *)
Definition clr_later (g : genarg) : cM W unit := mi_clr_macros (Z.to_nat (a_idx g + 1)).

(** st_optionneg up to the flags the MTA offers: the version and the two words
    of flags of the MTA, or [None] for an abort. *)
Definition opt_offer (g : genarg) : cM W (option unit) :=
  clr_later g ;;;
  modc (set_ctx_prot_vers SMFI_PROT_VERSION) ;;;
  if a_len g <? Z.of_nat MILTER_OPTLEN then ret None
  else
    let* b := deref NullDeref (a_buf g) in
    let* i := deref OutOfBounds (de32 b 0) in
    let v := s32 i in
    if v <? SMFI_PROT_VERSION_MIN then ret None
    else
      modc (set_ctx_mta_prot_vers v) ;;;
      let* c := getc id in
      modc (set_ctx_prot_vers2mta (if ctx_prot_vers c <? ctx_mta_prot_vers c then ctx_prot_vers c
                                   else ctx_mta_prot_vers c)) ;;;
      let* i := deref OutOfBounds (de32 b MILTER_LEN_BYTES) in
      let v := s32 i in
      let v := if v =? 0 then SMFI_V1_ACTS else v in
      modc (set_ctx_mta_aflags (ul_of_int v)) ;;;
      let* i := deref OutOfBounds (de32 b (MILTER_LEN_BYTES * 2)) in
      let v := s32 i in
      let v := if v =? 0 then SMFI_V1_PROT else v in
      modc (set_ctx_mta_pflags (ul_of_int (Z.land v (Z.lnot SMFI_INTERNAL)))) ;;;
      modc (set_ctx_aflags (xxfi_flags smfi)) ;;;
      ret (Some tt).

(** st_optionneg: the filter's choice; [None] for an abort. *)
Definition opt_choose : cM W (option unit) :=
  match (if 4 <? xxfi_version smfi then xxfi_negotiate smfi else None) with
  | Some fi_negotiate =>
      let* c := getc id in
      let m_aflags := ctx_mta_aflags c in
      let m_pflags := if negb (Z.land SMFIP_SKIP (ctx_mta_pflags c) =? 0)
                      then Z.lor (ctx_pflags c) SMFIP_SKIP else ctx_pflags c in
      let* x := call CbNegotiate
                  (fi_negotiate (ctx_mta_aflags c) (Z.lor (ctx_mta_pflags c) fake_pflags) 0 0
                     m_aflags m_pflags) in
      let '(r, m_aflags, m_pflags) := x in
      let* go :=
        (if r =? SMFIS_ALL_OPTS then
           modc (fun c => set_ctx_aflags (ctx_mta_aflags c) c) ;;;
           modc (fun c => set_ctx_pflags2mta
                            (if negb (Z.land SMFIP_SKIP (ctx_mta_pflags c) =? 0)
                             then Z.lor (ctx_pflags c) SMFIP_SKIP else ctx_pflags c) c) ;;;
           ret true
         else if negb (r =? SMFIS_CONTINUE) then ret false
         else
           modc (set_ctx_aflags m_aflags) ;;;
           modc (set_ctx_pflags m_pflags) ;;;
           modc (set_ctx_pflags2mta m_pflags) ;;;
           ret true) in
      if negb go then ret None
      else
        modc (fun c => if lacks (ctx_mta_pflags c) (int_of_ul (ctx_pflags2mta c))
                       then set_ctx_pflags2mta (unfake 32 0 (ctx_mta_pflags c) (ctx_pflags2mta c)) c
                       else c) ;;;
        ret (Some tt)
  | None =>
      modc (fun c => set_ctx_pflags2mta (ctx_pflags c) c) ;;;
      ret (Some tt)
  end.

(** [if (bitset(f, pflags2mta) && !bitset(f, mta_pflags)) pflags2mta &= ~f] *)
Definition drop_flag (f : Z) (c : smfi_str P) : smfi_str P :=
  if bitset f (ctx_pflags2mta c) && negb (bitset f (ctx_mta_pflags c))
  then set_ctx_pflags2mta (Z.land (ctx_pflags2mta c) (u64 (Z.lnot f))) c else c.

(** st_optionneg: can the MTA do what the filter wants? *)
Definition opt_check : cM W Z :=
  let* c := getc id in
  if lacks (ctx_mta_aflags c) (int_of_ul (ctx_aflags c)) then ret _SMFIS_ABORT
  else
    modc (fun c => if lacks (ctx_mta_pflags c) (int_of_ul (ctx_pflags2mta c))
                   then drop_flag SMFIP_NOUNKNOWN (drop_flag SMFIP_NODATA c) else c) ;;;
    let* c := getc id in
    if lacks (ctx_mta_pflags c) (int_of_ul (ctx_pflags2mta c)) then ret _SMFIS_ABORT
    else
      modify (fun w => set_w_next_states (fix_stm (ctx_pflags (w_ctx w)) (w_next_states w)) w) ;;;
      modc (fun c => set_ctx_pflags2mta (Z.land (ctx_pflags2mta c) NOT_INTERNAL) c) ;;;
      ret _SMFIS_OPTIONS.

Definition st_optionneg (g : genarg) : cM W Z :=
  let* o := opt_offer g in
  match o with
  | None => ret _SMFIS_ABORT
  | Some _ =>
      let* o := opt_choose in
      match o with
      | None => ret _SMFIS_ABORT
      | Some _ => opt_check
      end
  end.

(** [while (s\[i\] != '\0' && i <= l) ++i]: the index of the first NUL. *)
Fixpoint conn_scan (s : bytes) (i : nat) : option nat :=
  match s with
  | [] => None
  | c :: r => if decide (c = x00) then Some i else conn_scan r (Datatypes.S i)
  end.

(** The address of a known family, after the host string: [None] for an abort. *)
Definition conn_addr (family : byte) (s : bytes) (i l : nat) : cM W (option sockaddr) :=
  if (l <=? i + 2)%nat then ret None
  else
    let* p1 := deref OutOfBounds (s !! i) in
    let* p0 := deref OutOfBounds (s !! (i + 1)%nat) in
    let port := uchar p1 * 256 + uchar p0 in
    let i := (i + 2)%nat in
    let* e := deref OutOfBounds (s !! (l - 1)%nat) in
    if decide (e <> x00) then ret None
    else if decide (family = SMFIA_INET) then
      let* t := deref OutOfBounds (cstr_at s i) in
      ret (a ← inet_aton t; Some (SA_INET a port))
    else if decide (family = SMFIA_UNIX) then
      let* r := deref OutOfBounds (sm_strlcpy (replicate (Z.to_nat SUN_PATH_SIZE) x00) (drop i s) SUN_PATH_SIZE) in
      if SUN_PATH_SIZE <=? Z.of_nat r.2 then ret None
      else
        let* path := deref OutOfBounds (cstr r.1) in
        ret (Some (SA_UNIX path))
    else ret None.

Definition st_connectinfo (g : genarg) : cM W Z :=
  clr_later g ;;;
  match xxfi_connect smfi with
  | None => ret SMFIS_CONTINUE
  | Some fi_connect =>
      let* s := deref NullDeref (a_buf g) in
      let l := Z.to_nat (a_len g) in
      let* i := deref OutOfBounds (conn_scan s 0) in
      if (l <=? i + 1)%nat then ret _SMFIS_ABORT
      else
        let* host := deref OutOfBounds (cstr s) in
        let* family := deref OutOfBounds (s !! (i + 1)%nat) in
        if decide (family = SMFIA_UNKNOWN) then call CbConnect (fi_connect host None)
        else
          let* a := conn_addr family s (i + 2)%nat l in
          match a with
          | None => ret _SMFIS_ABORT
          | Some sa => call CbConnect (fi_connect host (Some sa))
          end
  end.

Definition st_eoh (g : genarg) : cM W Z :=
  match xxfi_eoh smfi with
  | Some fi_eoh => call CbEoh fi_eoh
  | None => ret SMFIS_CONTINUE
  end.

Definition st_data (g : genarg) : cM W Z :=
  match (if 3 <? xxfi_version smfi then xxfi_data smfi else None) with
  | Some fi_data => call CbData fi_data
  | None => ret SMFIS_CONTINUE
  end.

Definition st_helo (g : genarg) : cM W Z :=
  clr_later g ;;;
  match xxfi_helo smfi with
  | Some fi_helo =>
      if a_len g =? 0 then ret MI_FAILURE
      else
        let* b := deref NullDeref (a_buf g) in
        let* e := deref OutOfBounds (b !! Z.to_nat (a_len g - 1)) in
        if decide (e <> x00) then ret MI_FAILURE
        else
          let* s := deref OutOfBounds (cstr b) in
          call CbHelo (fi_helo s)
  | None => ret SMFIS_CONTINUE
  end.

Definition st_header (g : genarg) : cM W Z :=
  match xxfi_header smfi with
  | None => ret SMFIS_CONTINUE
  | Some fi_header =>
      if a_len g =? 0 then ret _SMFIS_ABORT
      else
        let* b := deref NullDeref (a_buf g) in
        match dec_arg2 b with
        | Some (hf, hv) =>
            let* f := deref OutOfBounds (cstr_at b hf) in
            let* v := deref OutOfBounds (cstr_at b hv) in
            call CbHeader (fi_header f v)
        | None => ret _SMFIS_ABORT
        end
  end.

(** The macro [ARGV_FCT]. *)
Definition argv_fct (cb : callback) (fi : option (list bytes -> cM W Z)) (g : genarg) : cM W Z :=
  clr_later g ;;;
  match fi with
  | None => ret SMFIS_CONTINUE
  | Some f =>
      let b := default [] (a_buf g) in
      let* ok := if (count_nul b =? 0)%nat then ret true else malloc_ok in
      match dec_argv ok 0 b with
      | None => ret _SMFIS_ABORT
      | Some argv =>
          let* args := deref OutOfBounds (argv_strings b argv) in
          call cb (f args)
      end
  end.

Definition st_sender (g : genarg) : cM W Z := argv_fct CbEnvfrom (xxfi_envfrom smfi) g.

Definition st_rcpt (g : genarg) : cM W Z := argv_fct CbEnvrcpt (xxfi_envrcpt smfi) g.

Definition st_unknown (g : genarg) : cM W Z :=
  match (if 2 <? xxfi_version smfi then xxfi_unknown smfi else None) with
  | Some fi_unknown => call CbUnknown (fi_unknown (a_buf g))
  | None => ret SMFIS_CONTINUE
  end.

Definition st_quit (g : genarg) : cM W Z :=
  call_opt CbClose (xxfi_close smfi) ;;;
  mi_clr_macros 0 ;;;
  ret _SMFIS_NOREPLY.

Definition st_bodychunk (g : genarg) : cM W Z :=
  match xxfi_body smfi with
  | Some fi_body => call CbBody (fi_body (a_buf g) (a_len g))
  | None => ret SMFIS_CONTINUE
  end.

(** The end of [st_bodyend]. *)
Definition body_eom (r : Z) : cM W Z :=
  match (if r =? SMFIS_CONTINUE then xxfi_eom smfi else None) with
  | Some fi_eom => call CbEom fi_eom
  | None => ret r
  end.

Definition st_bodyend (g : genarg) : cM W Z :=
  match (if 0 <? a_len g then xxfi_body smfi else None) with
  | Some fi_body =>
      let* r := call CbBody (fi_body (a_buf g) (a_len g)) in
      if r =? SMFIS_CONTINUE then body_eom r
      else
        let* s := sendreply r in
        if negb (s =? MI_SUCCESS) then ret _SMFIS_ABORT else body_eom r
  | None => body_eom SMFIS_CONTINUE
  end.

Definition st_abortfct (g : genarg) : cM W Z :=
  call_opt CbAbort (xxfi_abort smfi) ;;;
  ret _SMFIS_NOREPLY.

(** [( *f)(&arg)] *)
Definition run_fct (f : st_fct) (g : genarg) : cM W Z :=
  match f with
  | st_abortfct_ => st_abortfct g
  | st_macros_ => st_macros g
  | st_bodychunk_ => st_bodychunk g
  | st_connectinfo_ => st_connectinfo g
  | st_bodyend_ => st_bodyend g
  | st_helo_ => st_helo g
  | st_header_ => st_header g
  | st_sender_ => st_sender g
  | st_optionneg_ => st_optionneg g
  | st_eoh_ => st_eoh g
  | st_quit_ => st_quit g
  | st_data_ => st_data g
  | st_rcpt_ => st_rcpt g
  | st_unknown_ => st_unknown g
  end.

(** ** mi_engine *)

(** The second half of a round: the command's function in its state, the
    reply, and the state after it. *)
Definition run_cmd_ (c : cmdfct) (curstate : Z) (g : genarg) : cM W round_res :=
  (if negb (cm_next c =? ST_NONE) then modc (set_ctx_state curstate) else ret tt) ;;;
  let call_abort := ST_IN_MAIL curstate in
  let* r := run_fct (cm_fct c) g in
  let* s := sendreply r in
  if negb (s =? MI_SUCCESS) then ret (Break MI_FAILURE curstate call_abort)
  else
    match leave (cm_todo c) curstate r with
    | None => ret (Break MI_FAILURE curstate call_abort)
    | Some st => ret (Next st (cm_todo c))
    end.

(** [if (fi_abort != NULL && call_abort) ( *fi_abort)(ctx)] *)
Definition abort_if (call_abort : bool) : cM W unit :=
  if call_abort then call_opt CbAbort (xxfi_abort smfi) else ret tt.

(** A round once a command was found: the check of its state. *)
Definition enter_cmd (c : cmdfct) (curstate : Z) (buf : option bytes) (len : Z) : cM W round_res :=
  let new := cm_next c in
  let g := mk_genarg len buf (cm_macros c) in
  let* tbl := gets w_next_states in
  if negb (new =? ST_NONE) && negb (trans_ok tbl curstate new) then
    abort_if (ST_IN_MAIL curstate) ;;;
    let* tbl := gets w_next_states in
    if negb (trans_ok tbl ST_HELO new) then ret (Next ST_HELO (cm_todo c))
    else run_cmd_ c new g
  else run_cmd_ c (if new =? ST_NONE then curstate else new) g.

Definition engine_round (curstate : Z) : cM W round_res :=
  let call_abort := ST_IN_MAIL curstate in
  let* stop := mi_stop in
  if stop =? MILTER_ABRT then ret (Break MI_FAILURE curstate call_abort)
  else
    let* ready := mi_rd_socket_ready in
    if negb ready then ret (Break MI_CONTINUE curstate call_abort)
    else
      let* x := mi_rd_cmd in
      let '(buf, cmd, len) := x in
      if negb (bool_decide (is_Some buf)) && (schar cmd <? schar SMFIC_VALIDCMD)
      then ret (Break MI_FAILURE curstate call_abort)
      else
        match find_cmd cmd cmds with
        | None => ret (Break MI_FAILURE curstate call_abort)
        | Some c => enter_cmd c curstate buf len
        end.

(** The loop; each round takes at least one answer to [poll]. *)
Fixpoint engine_loop (fuel : nat) (curstate : Z) : cM W (Z * Z * bool) :=
  match fuel with
  | O => fun w => Blocked w
  | Datatypes.S fuel' =>
      let* x := engine_round curstate in
      match x with
      | Break ret_ st call_abort => ret (ret_, st, call_abort)
      | Next st todo =>
          if bitset CT_END todo then ret (MI_SUCCESS, st, false) else engine_loop fuel' st
      end
  end.

(** After the loop. *)
Definition engine_end (x : Z * Z * bool) : cM W Z :=
  let '(ret_, curstate, call_abort) := x in
  modc (set_ctx_state curstate) ;;;
  (if ret_ =? MI_FAILURE then abort_if call_abort else ret tt) ;;;
  let* st := getc ctx_state in
  (if negb (st =? ST_QUIT) && negb (ret_ =? MI_CONTINUE)
   then call_opt CbClose (xxfi_close smfi) else ret tt) ;;;
  ret ret_.

(** Before the loop. *)
Definition engine_start : cM W Z :=
  let* curstate := getc ctx_state in
  if curstate =? ST_INIT then
    mi_clr_macros 0 ;;;
    modify (fun w => set_w_next_states (fix_stm (ctx_pflags (w_ctx w)) (w_next_states w)) w) ;;;
    ret curstate
  else ret curstate.

Definition mi_engine : cM W Z :=
  let* curstate := engine_start in
  let* polls := getn n_poll in
  let* x := engine_loop (Datatypes.S (length polls)) curstate in
  engine_end x.

(** mi_clr_ctx, without the closing of the socket and the [free]s: [None] is
    the context given up. *)
Definition mi_clr_ctx : cM W unit :=
  modc (set_ctx_sd (-1)) ;;;
  modc (set_ctx_reply None) ;;;
  mi_clr_macros 0 ;;;
  mi_clr_symlist.

End engine.
