(* ===== verification/EngineProps.v ===== *)
(** * Properties of the session engine

    What the handlers and the loop of [mi_engine] do for any filter whose
    callbacks behave ([WellBehaved], the interface between the library and a
    filter): no undefined behaviour, the callbacks' order, the replies, the
    negotiation. *)

From stdpp Require Import base list numbers strings sets.
From Stdlib Require Import Strings.Byte ZArith Lia.
From S2P Require Import Prelude Mfdef Comm Strl Stm Macros Smfi Inet Engine.
Local Open Scope cM_scope.
Local Open Scope Z_scope.

(** ** What the socket functions leave alone *)

Section net.

#[local] Arguments iov_advance : simpl never.

Ltac polls_ih IH :=
  match goal with
  | |- context [match ?f ?s0 with _ => _ end] =>
      match f with
      | retry_writev _ ?v ?n => pose proof (IH v n s0)
      | rd_loop _ _ ?v => pose proof (IH v s0)
      end; destruct (f s0); simpl in *; lia || done
  end.

Lemma retry_writev_polls polls : forall iov written s,
  wp False (retry_writev polls iov written)
     (fun _ s' => (length (n_poll s') <= Nat.max (length (n_poll s)) (length polls))%nat) s.
Proof.
  unfold wp. induction polls as [|p l IH]; intros iov written s; simpl;
    (destruct (iov_skip iov) as [|v vs]; simpl; [lia|]); [done|].
  destruct p as [|[]|rd exc]; simpl; try lia; try by polls_ih IH.
  unfold sys_writev. simpl. destruct (n_writev s) as [|[e|k] ws]; simpl; [done| |].
  { destruct e; simpl; try lia; polls_ih IH. }
  destruct (iov_advance _ (v :: vs)) as [iov' []]; simpl; [lia|]. polls_ih IH.
Qed.

Lemma rd_loop_polls need polls : forall acc s,
  wp False (rd_loop need polls acc)
     (fun _ s' => (length (n_poll s') <= Nat.max (length (n_poll s)) (length polls))%nat) s.
Proof.
  unfold wp. induction polls as [|p l IH]; intros acc s; simpl; [done|].
  destruct p as [|[]|rd exc]; simpl; try lia; [by polls_ih IH|].
  destruct exc; simpl; [lia|]. unfold sys_read. simpl.
  destruct (n_read s) as [|[e|k] rs]; simpl; [done|lia|].
  destruct (_ =? 0)%nat; simpl; [lia|]. destruct (_ <? _)%nat; simpl; [lia|].
  destruct (_ <=? _)%nat; simpl; [lia|]. polls_ih IH.
Qed.

(** A check of the socket takes an answer to [poll]. *)
Lemma sock_ready_polls polls : forall nerr s, n_poll s = polls ->
  wp False (sock_ready polls nerr)
     (fun _ s' => (length (n_poll s') < length polls)%nat /\ n_tx s' = n_tx s) s.
Proof.
  unfold wp. induction polls as [|p ps IH]; intros nerr s Hs; simpl; [done|].
  destruct p as [|[]|rd exc]; simpl; try (split; [lia|done]).
  destruct (_ <? _)%nat; simpl; [|split; [lia|done]].
  pose proof (IH (S nerr) (set_n_poll ps s) eq_refl) as H.
  destruct (sock_ready _ _ _); simpl in *; [|done..]. destruct H. split; [lia|done].
Qed.

End net.

(** ** The interface of a filter *)

(** The number of answers to [poll] still to come. *)
Definition polls {P S} (w : world P S) : nat := length (n_poll (w_net w)).

(** What the worker pool reads of a context: the state of its task, the
    socket, and the times. *)
Definition pool_view {P} (c : smfi_str P) : Z * Z * Z * Z :=
  (ctx_wstate c, ctx_sd c, ctx_wait c, ctx_timeout c).

(** What the functions of the library a callback may use, and so a callback,
    leave as it was: the state and the protocol flags of the session, its
    macros, what the pool keeps of it, the static variables and the trace. *)
Record quiet {P S} (w w' : world P S) : Prop := mk_quiet {
  q_state : ctx_state (w_ctx w') = ctx_state (w_ctx w);
  q_pflags : ctx_pflags (w_ctx w') = ctx_pflags (w_ctx w);
  q_mta_pflags : ctx_mta_pflags (w_ctx w') = ctx_mta_pflags (w_ctx w);
  q_vers : ctx_prot_vers2mta (w_ctx w') = ctx_prot_vers2mta (w_ctx w);
  q_mac_ptr : ctx_mac_ptr (w_ctx w') = ctx_mac_ptr (w_ctx w);
  q_mac_buf : ctx_mac_buf (w_ctx w') = ctx_mac_buf (w_ctx w);
  q_pool : pool_view (w_ctx w') = pool_view (w_ctx w);
  q_table : w_next_states w' = w_next_states w;
  q_max : w_maxdatasize w' = w_maxdatasize w;
  q_trace : w_trace w' = w_trace w;
  q_polls : (polls w' <= polls w)%nat
}.

#[global] Instance quiet_preorder {P S} : PreOrder (@quiet P S).
Proof.
  split.
  - intros w. by split.
  - intros w1 w2 w3 [] []. split; congruence || lia.
Qed.

(** The strings the context holds are terminated. *)
Definition is_cstr (b : bytes) : Prop := is_Some (cstr b).
Definition ctx_good {P} (c : smfi_str P) : Prop :=
  match ctx_reply c with None => True | Some b => is_cstr b /\ b <> [] end /\
  Forall (fun o => match o with None => True | Some b => is_cstr b end) (ctx_mac_list c).

(** What a part of a session does: the callbacks [cbs] are made, the state,
    flags and tables stay. *)
Record calm {P S} (w : world P S) (cbs : list callback) (w' : world P S) : Prop := mk_calm {
  c_state : ctx_state (w_ctx w') = ctx_state (w_ctx w);
  c_pflags : ctx_pflags (w_ctx w') = ctx_pflags (w_ctx w);
  c_pool : pool_view (w_ctx w') = pool_view (w_ctx w);
  c_table : w_next_states w' = w_next_states w;
  c_max : w_maxdatasize w' = w_maxdatasize w;
  c_trace : w_trace w' = w_trace w ++ cbs;
  c_polls : (polls w' <= polls w)%nat;
  c_good : ctx_good (w_ctx w')
}.

(** A filter whose callbacks keep to the library's interface.  With [F] false
    they moreover have no undefined behaviour of their own. *)
Class WellBehaved (F : Prop) {P S} (smfi : smfiDesc (world P S)) : Prop := {
  wb_connect f h a w : xxfi_connect smfi = Some f -> ctx_good (w_ctx w) ->
    wp F (f h a) (fun _ w' => quiet w w' /\ ctx_good (w_ctx w')) w;
  wb_helo f h w : xxfi_helo smfi = Some f -> ctx_good (w_ctx w) ->
    wp F (f h) (fun _ w' => quiet w w' /\ ctx_good (w_ctx w')) w;
  wb_envfrom f h w : xxfi_envfrom smfi = Some f -> ctx_good (w_ctx w) ->
    wp F (f h) (fun _ w' => quiet w w' /\ ctx_good (w_ctx w')) w;
  wb_envrcpt f h w : xxfi_envrcpt smfi = Some f -> ctx_good (w_ctx w) ->
    wp F (f h) (fun _ w' => quiet w w' /\ ctx_good (w_ctx w')) w;
  wb_header f h a w : xxfi_header smfi = Some f -> ctx_good (w_ctx w) ->
    wp F (f h a) (fun _ w' => quiet w w' /\ ctx_good (w_ctx w')) w;
  wb_eoh f w : xxfi_eoh smfi = Some f -> ctx_good (w_ctx w) ->
    wp F f (fun _ w' => quiet w w' /\ ctx_good (w_ctx w')) w;
  wb_body f h a w : xxfi_body smfi = Some f -> ctx_good (w_ctx w) ->
    wp F (f h a) (fun _ w' => quiet w w' /\ ctx_good (w_ctx w')) w;
  wb_eom f w : xxfi_eom smfi = Some f -> ctx_good (w_ctx w) ->
    wp F f (fun _ w' => quiet w w' /\ ctx_good (w_ctx w')) w;
  wb_abort f w : xxfi_abort smfi = Some f -> ctx_good (w_ctx w) ->
    wp F f (fun _ w' => quiet w w' /\ ctx_good (w_ctx w')) w;
  wb_close f w : xxfi_close smfi = Some f -> ctx_good (w_ctx w) ->
    wp F f (fun _ w' => quiet w w' /\ ctx_good (w_ctx w')) w;
  wb_unknown f h w : xxfi_unknown smfi = Some f -> ctx_good (w_ctx w) ->
    wp F (f h) (fun _ w' => quiet w w' /\ ctx_good (w_ctx w')) w;
  wb_data f w : xxfi_data smfi = Some f -> ctx_good (w_ctx w) ->
    wp F f (fun _ w' => quiet w w' /\ ctx_good (w_ctx w')) w;
  wb_negotiate f a b c d e g w : xxfi_negotiate smfi = Some f -> ctx_good (w_ctx w) ->
    wp F (f a b c d e g) (fun _ w' => quiet w w' /\ ctx_good (w_ctx w')) w
}.

Section calm.
Context {P S : Type}.
Implicit Types w : world P S.

Lemma calm_refl w : ctx_good (w_ctx w) -> calm w [] w.
Proof. intros H. split; try done. by rewrite app_nil_r. Qed.

Lemma calm_trans w1 w2 w3 c1 c2 : calm w1 c1 w2 -> calm w2 c2 w3 -> calm w1 (c1 ++ c2) w3.
Proof.
  intros [] []. split; try congruence; [|lia].
  rewrite app_assoc. congruence.
Qed.

Lemma calm_step w1 w2 w3 c : calm w1 [] w2 -> calm w2 c w3 -> calm w1 c w3.
Proof. apply (calm_trans w1 w2 w3 [] c). Qed.

Lemma calm_then w1 w2 w3 c : calm w1 c w2 -> calm w2 [] w3 -> calm w1 c w3.
Proof. intros H1 H2. rewrite <- (app_nil_r c). by eapply calm_trans. Qed.

Lemma quiet_calm w w' : quiet w w' -> ctx_good (w_ctx w') -> calm w [] w'.
Proof. intros [] Hg. split; try done. by rewrite app_nil_r. Qed.

Lemma quiet_net w s : (length (n_poll s) <= polls w)%nat -> quiet w (set_w_net s w).
Proof. intros H. by split. Qed.

Lemma wp_liftn F {A} (m : cM net A) (Q : A -> world P S -> Prop) w :
  wp F m (fun a s => Q a (set_w_net s w)) (w_net w) -> wp F (liftn m) Q w.
Proof. unfold wp, liftn. by destruct (m (w_net w)). Qed.

Lemma wp_modc F f (Q : unit -> world P S -> Prop) w :
  Q tt (set_w_ctx (f (w_ctx w)) w) -> wp F (modc f) Q w.
Proof. done. Qed.

Lemma wp_getc F {A} (f : smfi_str P -> A) (Q : A -> world P S -> Prop) w :
  Q (f (w_ctx w)) w -> wp F (getc f) Q w.
Proof. done. Qed.

Lemma wp_malloc F (Q : bool -> world P S -> Prop) w :
  (forall b l, Q b (set_w_oom l w)) -> wp F malloc_ok Q w.
Proof.
  intros H. unfold wp, malloc_ok. destruct (w_oom w) as [|b l] eqn:E; [|apply H].
  specialize (H true []). rewrite <- E in H. by destruct w.
Qed.

Lemma calm_oom w l : ctx_good (w_ctx w) -> calm w [] (set_w_oom l w).
Proof. intros H. split; try done. simpl. by rewrite app_nil_r. Qed.

(** A write within the buffer. *)
Lemma mi_wr_cmd_quiet F cmd buf len w :
  match buf with None => True | Some b => F \/ len <= Z.of_nat (length b) end ->
  wp F (mi_wr_cmd cmd buf len)
     (fun r w' => quiet w w' /\ w_ctx w' = w_ctx w /\ (r = MI_SUCCESS \/ r = MI_FAILURE)) w.
Proof.
  intros Hb. unfold mi_wr_cmd. apply wp_bind. unfold wp at 1, gets.
  destruct (_ || _); [split; [done|auto]|].
  assert (forall v, wp F (bind (liftn (fun s => retry_writev (n_poll s) v 0 s))
     (fun l => if l =? MI_FAILURE then ret MI_FAILURE else ret MI_SUCCESS))
     (fun r w' => quiet w w' /\ w_ctx w' = w_ctx w /\ (r = MI_SUCCESS \/ r = MI_FAILURE)) w) as Hw.
  { intros v. apply wp_bind, wp_liftn.
    pose proof (retry_writev_polls (n_poll (w_net w)) v 0 (w_net w)) as H. unfold wp in H |- *.
    destruct (retry_writev _ _ _ _) as [l s|s|c s|f s]; try done.
    assert (quiet w (set_w_net s w)) by (apply quiet_net; unfold polls; lia).
    destruct (l =? MI_FAILURE); (split; [done|split; [done|auto]]). }
  destruct buf as [b|]; [|apply Hw].
  destruct (Z.ltb_spec (Z.of_nat (length b)) len) as [Hlt|]; [|apply Hw].
  destruct Hb as [HF|]; [|lia]. done.
Qed.

(** The data of a command: none, or what was announced. *)
Definition cmd_data (buf : option bytes) (len : Z) : Prop :=
  match buf with None => len = 0 | Some b => len = Z.of_nat (length b) /\ 0 < len end.

Lemma mi_rd_cmd_quiet F w :
  wp F mi_rd_cmd (fun x w' => quiet w w' /\ w_ctx w' = w_ctx w /\ cmd_data x.1.1 x.2) w.
Proof.
  unfold mi_rd_cmd. apply wp_bind, wp_liftn. unfold rd_header.
  pose proof (rd_loop_stream (MILTER_LEN_BYTES + 1) (n_poll (w_net w)) [] (w_net w) ltac:(simpl; lia)) as H1.
  pose proof (rd_loop_polls (MILTER_LEN_BYTES + 1) (n_poll (w_net w)) [] (w_net w)) as Hp.
  unfold wp at 1. unfold wp in Hp. destruct (rd_loop _ _ _ _) as [r s|s|c s|f s]; simpl in H1, Hp; try done.
  destruct H1 as [_ H1]. assert (quiet w (set_w_net s w)) as Hq by (apply quiet_net; unfold polls; lia).
  destruct r as [data|e]; [|by split].
  destruct H1 as (got & -> & Hl & _). cbn [app] in *.
  destruct (de32_Some got 0) as [n Hn]; [simpl in Hl; lia|].
  destruct (lookup_lt_is_Some_2 got MILTER_LEN_BYTES) as [c Hc]; [rewrite Hl; unfold MILTER_LEN_BYTES; lia|].
  unfold deref. rewrite Hc, Hn. unfold wp. rewrite !bind_ret_l.
  destruct (Z.leb_spec (s32 (u32 (n - 1))) 0); [by split|].
  unfold bind at 1, gets. simpl w_maxdatasize. destruct (_ <? _); [by split|].
  unfold bind, malloc_ok. simpl w_oom.
  assert (forall w1, quiet w w1 -> w_ctx w1 = w_ctx w ->
    wp F (let* b := liftn (rd_body (Z.to_nat (s32 (u32 (n - 1))))) in
          match b with inr e => ret (None, e, 0) | inl buf => ret (Some buf, c, s32 (u32 (n - 1))) end)
       (fun x w' => quiet w w' /\ w_ctx w' = w_ctx w /\ cmd_data x.1.1 x.2) w1) as Hbody.
  { clear s Hp Hq. intros w1 Hq1 Hc1. apply wp_bind, wp_liftn. unfold rd_body.
    pose proof (rd_loop_stream (Z.to_nat (s32 (u32 (n - 1)))) (n_poll (w_net w1)) [] (w_net w1) ltac:(simpl; lia)) as H2.
    pose proof (rd_loop_polls (Z.to_nat (s32 (u32 (n - 1)))) (n_poll (w_net w1)) [] (w_net w1)) as Hp2.
    unfold wp. unfold wp in Hp2. destruct (rd_loop _ _ _ _) as [r s|s|c' s|f s]; simpl in H2, Hp2; try done.
    assert (quiet w (set_w_net s w1)) as Hq2.
    { transitivity w1; [done|]. apply quiet_net. unfold polls. lia. }
    destruct r as [b|e]; [|by split]. destruct H2 as (_ & g & -> & Hlb & _).
    split; [done|]. split; [done|]. simpl in Hlb |- *. lia. }
  unfold wp, bind in Hbody. destruct (w_oom w) as [|[] l]; simpl negb; cbv iota.
  - apply (Hbody (set_w_net s w)); done.
  - split; [|done]. by split; destruct Hq.
  - apply (Hbody (set_w_oom l (set_w_net s w))); [|done]. by split; destruct Hq.
Qed.

End calm.

(** ** Replies and handlers *)

Section symlist.

Lemma symlist_ok l : Forall (fun o => match o with None => True | Some b => is_cstr b end) l ->
  forall i, exists n t, symlist_len l = Some n /\ symlist_put i l = Some t /\
    Z.of_nat (length t) = n /\ 0 <= n.
Proof.
  induction 1 as [|[b|] l Hb _ IH]; intros i; simpl.
  - exists 0, []. done.
  - destruct Hb as [s Hs]. destruct (IH (i + 1)) as (n & t & -> & -> & Hn & H0).
    unfold strlen, cstr_at. rewrite drop_0, Hs. simpl. eexists _, _. split; [done|]. split; [done|].
    simpl. rewrite length_app. simpl. unfold MILTER_LEN_BYTES. lia.
  - apply IH.
Qed.

End symlist.

Section handlers.
Context {P S : Type}.
Implicit Types w : world P S.
Context (F : Prop) (smfi : smfiDesc (world P S)) {Hwb : WellBehaved F smfi}.

Lemma wr_calm cmd buf len w : ctx_good (w_ctx w) ->
  match buf with None => True | Some b => F \/ len <= Z.of_nat (length b) end ->
  wp F (mi_wr_cmd cmd buf len) (fun _ w' => calm w [] w') w.
Proof.
  intros Hg Hb. eapply wp_mono; [by apply mi_wr_cmd_quiet|].
  intros r w' (Hq & Hc & _). apply quiet_calm; [done|]. by rewrite Hc.
Qed.

Lemma addsymlist_calm buf w : ctx_good (w_ctx w) -> length buf = MILTER_OPTLEN ->
  wp F (milter_addsymlist buf)
     (fun x w' => calm w [] w' /\
        match x.1 with None => True | Some b => x.2 = Z.of_nat (length b) end) w.
Proof.
  intros Hg Hl. unfold milter_addsymlist. apply wp_bind, wp_getc.
  destruct (symlist_ok _ (proj2 Hg) 0) as (n & t & Hn & Ht & Hlt & H0). rewrite Hn.
  apply wp_bind, wp_deref. destruct (0 <? n).
  2:{ split; [by apply calm_refl|]. simpl. by rewrite Hl. }
  apply wp_bind, wp_malloc. intros ok l. destruct ok; simpl; [|by split; [apply calm_oom|]].
  rewrite Ht. apply wp_bind, wp_deref. rewrite length_app, Hl.
  rewrite (proj2 (Z.eqb_eq _ _)) by lia. split; [by apply calm_oom|]. simpl.
  rewrite length_app, Hl. lia.
Qed.

Lemma sendreply_calm r w : ctx_good (w_ctx w) -> wp F (sendreply r) (fun _ w' => calm w [] w') w.
Proof.
  intros Hg. unfold sendreply. apply wp_bind, wp_getc. cbv zeta.
  set (r' := if _ && _ then _ else _).
  repeat match goal with |- wp _ (if ?b then _ else _) _ _ => destruct b end;
    try (apply wr_calm; done); try (by apply calm_refl).
  - unfold send_error. apply wp_bind, wp_getc. cbv zeta. pose proof (proj1 Hg) as Hr.
    destruct (ctx_reply (w_ctx w)) as [b|]; [|by apply wr_calm]. destruct Hr as [[s Hs] Hne].
    apply wp_bind, wp_deref. destruct b as [|c b]; [done|]. simpl.
    case_match; [|by apply wr_calm]. unfold strlen, cstr_at. rewrite drop_0, Hs.
    apply wp_bind, wp_deref. simpl. apply wp_bind. eapply wp_mono; [apply wr_calm; [done|]|].
    + right. apply cstr_Some in Hs as [_ [rest Hb]]. rewrite Hb, length_app. simpl. lia.
    + intros x w' Hw. apply wp_bind, wp_modc, wp_ret. eapply calm_then; [exact Hw|].
      split; try done; [simpl; by rewrite app_nil_r|]. destruct Hw as [_ _ _ _ _ _ _ [_ Hgood]]. by split.
  - unfold send_options. apply wp_bind, wp_getc. cbv zeta. apply wp_bind.
    eapply wp_mono; [apply addsymlist_calm; [done|by rewrite !length_app, !length_be32]|].
    intros [[b|] len] w' [Hc Hl]; [|done]. simpl in Hl. subst len.
    eapply wp_mono; [apply wr_calm; [by destruct Hc|right; lia]|].
    intros x w'' Hw. by eapply calm_step.
Qed.

(** A callback and its trace. *)
Lemma call_calm {A} cb (m : cM (world P S) A) w :
  ctx_good (w_ctx w) ->
  (forall w, ctx_good (w_ctx w) -> wp F m (fun _ w' => quiet w w' /\ ctx_good (w_ctx w')) w) ->
  wp F (call cb m) (fun _ w' => calm w [cb] w') w.
Proof.
  intros Hg Hm. unfold call. apply wp_bind. unfold wp at 1, modify. eapply wp_mono; [by apply Hm|].
  intros a w' [[] Hg']. by split.
Qed.

Lemma call_opt_calm {A} cb (m : option (cM (world P S) A)) w :
  ctx_good (w_ctx w) ->
  (forall f w, m = Some f -> ctx_good (w_ctx w) -> wp F f (fun _ w' => quiet w w' /\ ctx_good (w_ctx w')) w) ->
  wp F (call_opt cb m) (fun _ w' => calm w (if m is Some _ then [cb] else []) w') w.
Proof.
  intros Hg Hm. unfold call_opt. destruct m as [m|]; [|by apply calm_refl].
  apply wp_bind. eapply wp_mono; [apply call_calm; [done|intros; by apply Hm]|done].
Qed.

Lemma clr_calm m w : ctx_good (w_ctx w) -> wp F (mi_clr_macros m) (fun _ w' => calm w [] w') w.
Proof. intros H. apply wp_modc. split; try done. simpl. by rewrite app_nil_r. Qed.

(** The callbacks a handler can make for a result. *)
Definition shape (f : st_fct) (r : Z) (cbs : list callback) : Prop :=
  match f with
  | st_abortfct_ => cbs = [] \/ cbs = [CbAbort]
  | st_macros_ => cbs = []
  | st_bodychunk_ => cbs = [] \/ cbs = [CbBody]
  | st_connectinfo_ => cbs = [] \/ cbs = [CbConnect]
  | st_bodyend_ => cbs = [] \/ cbs = [CbBody] \/ cbs = [CbEom] \/ cbs = [CbBody; CbEom]
  | st_helo_ => cbs = [] \/ cbs = [CbHelo]
  | st_header_ => cbs = [] \/ cbs = [CbHeader]
  | st_sender_ => cbs = [CbEnvfrom] \/ (cbs = [] /\ (r = _SMFIS_ABORT \/ xxfi_envfrom smfi = None))
  | st_rcpt_ => cbs = [CbEnvrcpt] \/ (cbs = [] /\ (r = _SMFIS_ABORT \/ xxfi_envrcpt smfi = None))
  | st_optionneg_ => cbs = [] \/ cbs = [CbNegotiate]
  | st_eoh_ => cbs = [] \/ cbs = [CbEoh]
  | st_quit_ => cbs = (if xxfi_close smfi is Some _ then [CbClose] else []) /\ r = _SMFIS_NOREPLY
  | st_data_ => cbs = [] \/ cbs = [CbData]
  | st_unknown_ => cbs = [CbUnknown] \/ (cbs = [] /\ (xxfi_version smfi <= 2 \/ xxfi_unknown smfi = None))
  end.

Definition hpost (f : st_fct) w (r : Z) w' : Prop := exists cbs, shape f r cbs /\ calm w cbs w'.

Lemma hpost_step f w w1 r w' : calm w [] w1 -> hpost f w1 r w' -> hpost f w r w'.
Proof. intros Hc (cbs & Hs & Hc'). exists cbs. split; [done|]. by eapply calm_step. Qed.

(** The result of one callback, as a handler's. *)
Ltac cb_done wb := intros; eapply wb; eassumption.

Lemma hpost_call f cb (m : cM (world P S) Z) w :
  ctx_good (w_ctx w) -> (forall r, shape f r [cb]) ->
  (forall w, ctx_good (w_ctx w) -> wp F m (fun _ w' => quiet w w' /\ ctx_good (w_ctx w')) w) ->
  wp F (call cb m) (hpost f w) w.
Proof.
  intros Hg Hs Hm. eapply wp_mono; [by apply call_calm|].
  intros r w' Hc. exists [cb]. by split.
Qed.

Lemma hpost_ret f r w : ctx_good (w_ctx w) -> shape f r [] -> wp F (ret r) (hpost f w) w.
Proof. intros Hg Hs. exists []. split; [done|]. by apply calm_refl. Qed.

(** A handler that first clears the later macros. *)
Lemma hpost_clr f n (m : cM (world P S) Z) w : ctx_good (w_ctx w) ->
  (forall w, ctx_good (w_ctx w) -> wp F m (hpost f w) w) ->
  wp F (mi_clr_macros n ;;; m) (hpost f w) w.
Proof.
  intros Hg Hm. eapply wp_seq; [by apply clr_calm|]. intros u w1 H1.
  eapply wp_mono; [apply Hm; exact (c_good _ _ _ H1)|]. intros r w' H'. eapply hpost_step; [exact H1|exact H'].
Qed.

Lemma hpost_malloc f (c : bool) (k : bool -> cM (world P S) Z) w : ctx_good (w_ctx w) ->
  (forall b w, ctx_good (w_ctx w) -> wp F (k b) (hpost f w) w) ->
  wp F (bind (if c then ret true else malloc_ok) k) (hpost f w) w.
Proof.
  intros Hg Hk. destruct c; [apply wp_bind; by apply Hk|].
  apply wp_bind, wp_malloc. intros b l. eapply wp_mono; [by apply Hk|].
  intros r w' H. eapply hpost_step; [by apply calm_oom|done].
Qed.

Lemma dec_argv_strings ok b argv : dec_argv ok 0 b = Some argv -> is_Some (argv_strings b argv).
Proof.
  destruct ok.
  - intros H. destruct (decide ((split0 b).1 = [])) as [He|Hne].
    + by rewrite dec_argv_none in H.
    + destruct (dec_argv_run [] b Hne) as (s & Hs & _ & Ha). simpl in Hs, Ha.
      rewrite H in Hs. injection Hs as ->. by rewrite Ha.
  - unfold dec_argv. by destruct (_ =? _)%nat.
Qed.

Lemma argv_fct_post f cb fi g w : ctx_good (w_ctx w) ->
  (forall r, shape f r [cb]) -> shape f _SMFIS_ABORT [] -> (fi = None -> shape f SMFIS_CONTINUE []) ->
  (forall h args w, fi = Some h -> ctx_good (w_ctx w) ->
     wp F (h args) (fun _ w' => quiet w w' /\ ctx_good (w_ctx w')) w) ->
  wp F (argv_fct cb fi g) (hpost f w) w.
Proof.
  intros Hg H1 H2 H3 Hm. unfold argv_fct. apply hpost_clr; [done|]. clear w Hg. intros w Hg.
  destruct fi as [h|]; [|by apply hpost_ret; auto]. cbv zeta. apply hpost_malloc; [done|].
  clear w Hg. intros ok w Hg. destruct (dec_argv ok 0 _) as [argv|] eqn:Ed; [|by apply hpost_ret].
  apply dec_argv_strings in Ed as [args Ha]. apply wp_bind, wp_deref. rewrite Ha.
  apply hpost_call; [done..|]. intros. by apply (Hm h).
Qed.

Lemma st_macros_post g w : ctx_good (w_ctx w) -> cmd_data (a_buf g) (a_len g) ->
  wp F (st_macros g) (hpost st_macros_ w) w.
Proof.
  intros Hg Hd. unfold st_macros. destruct (Z.ltb_spec (a_len g) 1); [by apply hpost_ret|].
  destruct (a_buf g) as [b|] eqn:Eb; simpl in Hd; [|lia]. destruct Hd as [Hl H0].
  apply wp_bind, wp_deref. cbv zeta. apply hpost_malloc; [done|]. clear w Hg. intros ok w Hg.
  destruct (dec_argv _ _ _); [|by apply hpost_ret]. apply wp_bind, wp_deref.
  destruct b as [|c b]; [simpl in Hl; lia|]. cbn [head]. destruct (macro_index c); [|by apply hpost_ret].
  apply wp_bind, wp_modc, wp_bind, wp_modc, wp_ret. exists []. split; [done|].
  split; try done. simpl. by rewrite app_nil_r.
Qed.

Lemma last_nul_cstr b : last b = Some x00 -> is_Some (cstr b).
Proof.
  intros H. apply last_Some in H as [b' ->]. destruct (first_nul b') as [Hb|(s & r & Hs & ->)].
  - rewrite cstr_app by done. eauto.
  - rewrite <- app_assoc. simpl. rewrite cstr_app by done. eauto.
Qed.

Lemma st_helo_post g w : ctx_good (w_ctx w) -> cmd_data (a_buf g) (a_len g) ->
  wp F (st_helo smfi g) (hpost st_helo_ w) w.
Proof.
  intros Hg Hd. unfold st_helo, clr_later. apply hpost_clr; [done|]. clear w Hg. intros w Hg.
  destruct (xxfi_helo smfi) as [h|] eqn:Eh; [|apply hpost_ret; [done|by left]].
  destruct (Z.eqb_spec (a_len g) 0); [apply hpost_ret; [done|by left]|].
  destruct (a_buf g) as [b|] eqn:Eb; simpl in Hd; [|lia]. destruct Hd as [Hl H0].
  apply wp_bind, wp_deref, wp_bind, wp_deref.
  destruct (lookup_lt_is_Some_2 b (Z.to_nat (a_len g - 1)) ltac:(lia)) as [e He]. rewrite He.
  case_decide as Hnz; [apply hpost_ret; [done|by left]|]. subst e.
  destruct (last_nul_cstr b) as [s Hs].
  { rewrite last_lookup. rewrite <- He. f_equal. lia. }
  apply wp_bind, wp_deref. rewrite Hs. apply hpost_call; [done|by right|].
  cb_done wb_helo.
Qed.

Lemma dec_arg2_cstr b p q : dec_arg2 b = Some (p, q) -> is_Some (cstr_at b p) /\ is_Some (cstr_at b q).
Proof.
  unfold dec_arg2. destruct (_ =? 0)%nat; [done|]. destruct (last b) as [c|] eqn:Hl; [|done].
  case_decide as Hc; [done|]. subst c.
  destruct (Nat.leb_spec (length b - 1) (scan_nul (drop 1 b) 1)); [done|]. intros [= <- <-].
  unfold cstr_at. rewrite drop_0. split; [by apply last_nul_cstr|]. apply last_nul_cstr.
  set (i := scan_nul _ _) in *. rewrite last_lookup in Hl |- *. rewrite lookup_drop, length_drop, <- Hl.
  f_equal. lia.
Qed.

Lemma st_header_post g w : ctx_good (w_ctx w) -> cmd_data (a_buf g) (a_len g) ->
  wp F (st_header smfi g) (hpost st_header_ w) w.
Proof.
  intros Hg Hd. unfold st_header.
  destruct (xxfi_header smfi) as [h|] eqn:Eh; [|apply hpost_ret; [done|by left]].
  destruct (Z.eqb_spec (a_len g) 0); [apply hpost_ret; [done|by left]|].
  destruct (a_buf g) as [b|] eqn:Eb; simpl in Hd; [|lia].
  apply wp_bind, wp_deref. destruct (dec_arg2 b) as [[p q]|] eqn:E2; [|apply hpost_ret; [done|by left]].
  apply dec_arg2_cstr in E2 as [[f Hf] [v Hv]].
  apply wp_bind, wp_deref. rewrite Hf. apply wp_bind, wp_deref. rewrite Hv.
  apply hpost_call; [done|by right|]. cb_done wb_header.
Qed.

(** The data of a connect command that is read within its bounds. *)
Definition conn_data (buf : option bytes) : Prop :=
  match buf with None => False | Some b => x00 ∈ b end.

Lemma conn_scan_found s : x00 ∈ s -> forall i, exists k, conn_scan s i = Some (i + k)%nat /\ (k < length s)%nat.
Proof.
  induction s as [|c s IH]; intros Hin i; [by apply elem_of_nil in Hin|]. simpl.
  case_decide as Hc; [exists 0%nat; split; [by rewrite Nat.add_0_r|lia]|].
  apply elem_of_cons in Hin as [Hx|Hin]; [congruence|].
  destruct (IH Hin (Datatypes.S i)) as (k & -> & Hk). exists (Datatypes.S k). split; [f_equal; lia|lia].
Qed.

Lemma in_cstr s : x00 ∈ s -> is_Some (cstr s).
Proof.
  intros Hin. destruct (first_nul s) as [Hn|(t & r & Ht & ->)].
  - unfold no_nul in Hn. rewrite Forall_forall in Hn. by destruct (Hn x00 Hin).
  - rewrite cstr_app by done. eauto.
Qed.

Lemma drop_last_nul s i : s !! (length s - 1)%nat = Some x00 -> (i < length s)%nat ->
  is_Some (cstr (drop i s)).
Proof.
  intros Hl Hi. apply last_nul_cstr. rewrite last_lookup, lookup_drop, length_drop, <- Hl. f_equal. lia.
Qed.

Lemma conn_addr_calm family s i w : ctx_good (w_ctx w) ->
  wp F (conn_addr family s i (length s)) (fun _ w' => w' = w) w.
Proof.
  intros Hg. unfold conn_addr. destruct (Nat.leb_spec (length s) (i + 2)); [done|].
  destruct (lookup_lt_is_Some_2 s i ltac:(lia)) as [p1 ->].
  destruct (lookup_lt_is_Some_2 s (i + 1) ltac:(lia)) as [p0 ->].
  apply wp_bind, wp_deref, wp_bind, wp_deref, wp_bind, wp_deref.
  destruct (lookup_lt_is_Some_2 s (length s - 1) ltac:(lia)) as [e He]. rewrite He.
  case_decide as Hnz; [done|]. subst e.
  destruct (drop_last_nul s (i + 2) He ltac:(lia)) as [t Ht].
  repeat case_decide; [apply wp_bind, wp_deref; unfold cstr_at; by rewrite Ht| |done].
  apply wp_bind, wp_deref.
  rewrite (sm_strlcpy_run _ _ t) by (done || (rewrite length_replicate; vm_compute; split; discriminate || done)).
  cbn [snd]. destruct (_ <=? _); [done|]. apply wp_bind, wp_deref. cbn [fst].
  destruct (put_holds0 (replicate (Z.to_nat SUN_PATH_SIZE) x00)
              (take (Z.to_nat (SUN_PATH_SIZE - 1)) t) SUN_PATH_SIZE) as [-> _]; [|..|done].
  - by rewrite length_replicate.
  - apply no_nul_take. by apply cstr_no_nul in Ht.
  - rewrite length_take. unfold SUN_PATH_SIZE. lia.
Qed.

Lemma st_connectinfo_post g w : ctx_good (w_ctx w) -> cmd_data (a_buf g) (a_len g) ->
  F \/ xxfi_connect smfi = None \/ conn_data (a_buf g) ->
  wp F (st_connectinfo smfi g) (hpost st_connectinfo_ w) w.
Proof.
  intros Hg Hd Hc. unfold st_connectinfo, clr_later. apply hpost_clr; [done|]. clear w Hg. intros w Hg.
  destruct (xxfi_connect smfi) as [h|] eqn:Eh; [|apply hpost_ret; [done|by left]].
  assert (F \/ conn_data (a_buf g)) as Hc' by (destruct Hc as [?|[?|?]]; auto; done). clear Hc.
  apply wp_bind, wp_deref. destruct (a_buf g) as [s|] eqn:Eb; [|by destruct Hc'].
  simpl in Hd. destruct Hd as [Hl _]. cbv zeta. apply wp_bind, wp_deref.
  destruct (conn_scan s 0) as [i|] eqn:Es.
  2:{ destruct Hc' as [|Hin]; [done|]. destruct (conn_scan_found s Hin 0) as (k & Hk & _). congruence. }
  rewrite Hl, Nat2Z.id. destruct (Nat.leb_spec (length s) (i + 1)); [apply hpost_ret; [done|by left]|].
  apply wp_bind, wp_deref. destruct (cstr s) as [host|] eqn:Eh2.
  2:{ destruct Hc' as [|Hin]; [done|]. destruct (in_cstr s Hin) as [? ?]. congruence. }
  apply wp_bind, wp_deref. destruct (lookup_lt_is_Some_2 s (i + 1) ltac:(lia)) as [fam ->].
  case_decide.
  - apply hpost_call; [done|by right|]. cb_done wb_connect.
  - eapply wp_seq; [by apply conn_addr_calm|]. intros [sa|] w' ->; [|apply hpost_ret; [done|by left]].
    apply hpost_call; [done|by right|]. cb_done wb_connect.
Qed.

Lemma body_eom_post r w : ctx_good (w_ctx w) ->
  wp F (body_eom smfi r) (fun _ w' => exists cbs, (cbs = [] \/ cbs = [CbEom]) /\ calm w cbs w') w.
Proof.
  intros Hg. unfold body_eom.
  destruct (if r =? SMFIS_CONTINUE then xxfi_eom smfi else None) as [h|] eqn:E.
  - eapply wp_mono; [apply call_calm; [done|]|].
    + intros. eapply wb_eom; [|done]. by destruct (r =? SMFIS_CONTINUE).
    + intros a w' H. exists [CbEom]. auto.
  - exists []. split; [by left|]. by apply calm_refl.
Qed.

Lemma st_bodyend_post g w : ctx_good (w_ctx w) -> wp F (st_bodyend smfi g) (hpost st_bodyend_ w) w.
Proof.
  intros Hg. unfold st_bodyend.
  destruct (if 0 <? a_len g then xxfi_body smfi else None) as [h|] eqn:E.
  - apply wp_bind. eapply wp_mono; [apply call_calm; [done|]|].
    { intros. eapply wb_body; [|done]. by destruct (0 <? a_len g). }
    intros r w1 H1. pose proof (c_good _ _ _ H1) as Hg1.
    assert (forall w2, calm w1 [] w2 -> wp F (body_eom smfi r) (hpost st_bodyend_ w) w2) as Hend.
    { intros w2 H2. eapply wp_mono; [apply body_eom_post; exact (c_good _ _ _ H2)|].
      intros a w3 (cbs & Hcbs & H3). exists (CbBody :: cbs).
      split; [destruct Hcbs as [->| ->]; simpl; auto|].
      apply (calm_trans w w1 w3 [CbBody] cbs); [done|]. by eapply calm_step. }
    destruct (r =? SMFIS_CONTINUE); [apply Hend; by apply calm_refl|].
    eapply wp_seq; [by apply sendreply_calm|]. intros s w2 H2.
    destruct (negb _); [|by apply Hend].
    exists [CbBody]. split; [simpl; auto|]. eapply calm_then; [exact H1|exact H2].
  - eapply wp_mono; [by apply body_eom_post|]. intros a w' (cbs & Hcbs & H). exists cbs.
    split; [|done]. destruct Hcbs as [->| ->]; simpl; auto.
Qed.

Lemma run_fct_post f g w : f <> st_optionneg_ ->
  ctx_good (w_ctx w) -> cmd_data (a_buf g) (a_len g) ->
  (f = st_connectinfo_ -> F \/ xxfi_connect smfi = None \/ conn_data (a_buf g)) ->
  wp F (run_fct smfi f g) (hpost f w) w.
Proof.
  intros Hf Hg Hd Hc. destruct f; simpl; try done.
  - unfold st_abortfct. apply wp_bind. eapply wp_mono; [apply call_opt_calm; [done|cb_done wb_abort]|].
    intros u w' H. eexists. split; [|exact H]. simpl. destruct (xxfi_abort smfi); auto.
  - by apply st_macros_post.
  - unfold st_bodychunk. destruct (xxfi_body smfi) as [h|] eqn:Eh; [|apply hpost_ret; [done|by left]].
    apply hpost_call; [done|by right|]. cb_done wb_body.
  - apply st_connectinfo_post; auto.
  - by apply st_bodyend_post.
  - by apply st_helo_post.
  - by apply st_header_post.
  - apply argv_fct_post; [done|by left|simpl; auto|simpl; auto|]. cb_done wb_envfrom.
  - unfold st_eoh. destruct (xxfi_eoh smfi) as [h|] eqn:Eh; [|apply hpost_ret; [done|by left]].
    apply hpost_call; [done|by right|]. cb_done wb_eoh.
  - unfold st_quit. apply wp_bind. eapply wp_mono; [apply call_opt_calm; [done|cb_done wb_close]|].
    intros u w' H. eapply wp_seq; [apply clr_calm; exact (c_good _ _ _ H)|].
    intros u' w'' H'. eexists. split; [split; [done|done]|]. eapply calm_then; [exact H|exact H'].
  - unfold st_data. destruct (if 3 <? xxfi_version smfi then xxfi_data smfi else None) as [h|] eqn:Eh;
      [|apply hpost_ret; [done|by left]].
    apply hpost_call; [done|by right|]. intros. eapply wb_data; [|done]. by destruct (3 <? _).
  - apply argv_fct_post; [done|by left|simpl; auto|simpl; auto|]. cb_done wb_envrcpt.
  - unfold st_unknown.
    destruct (if 2 <? xxfi_version smfi then xxfi_unknown smfi else None) as [h|] eqn:Eh.
    + apply hpost_call; [done|by left|]. intros. eapply wb_unknown; [|done]. by destruct (2 <? _).
    + apply hpost_ret; [done|]. right. split; [done|].
      destruct (Z.ltb_spec 2 (xxfi_version smfi)); [by right|left; lia].
Qed.

(** *** Negotiation *)

Record mild w (cbs : list callback) w' : Prop := mk_mild {
  m_state : ctx_state (w_ctx w') = ctx_state (w_ctx w);
  m_pool : pool_view (w_ctx w') = pool_view (w_ctx w);
  m_max : w_maxdatasize w' = w_maxdatasize w;
  m_trace : w_trace w' = w_trace w ++ cbs;
  m_polls : (polls w' <= polls w)%nat;
  m_good : ctx_good (w_ctx w')
}.

Lemma calm_mild w cbs w' : calm w cbs w' -> mild w cbs w'.
Proof. intros []. by split. Qed.

(** What the negotiation can do to the flags and the shared table. *)
Definition tbl_step w w' : Prop :=
  w_next_states w' = w_next_states w \/
  w_next_states w' = fix_stm (ctx_pflags (w_ctx w')) (w_next_states w).

(** A filter that leaves the protocol steps as they are. *)
Definition keeps_steps : Prop := forall f a b c d e g w,
  xxfi_negotiate smfi = Some f -> wp True (f a b c d e g) (fun x _ => x.1.1 <> SMFIS_CONTINUE) w.

(** [w'] is [w] after the callbacks [cbs] with other fields of the context. *)
Definition opt_post (cbs : list callback) w w' : Prop :=
  mild w cbs w' /\ w_next_states w' = w_next_states w /\
  (keeps_steps -> ctx_pflags (w_ctx w') = ctx_pflags (w_ctx w)).

Lemma opt_post_refl w : ctx_good (w_ctx w) -> opt_post [] w w.
Proof. intros H. split; [|done]. by apply calm_mild, calm_refl. Qed.

(** A change of fields that none of this is about. *)
Definition aside (f : smfi_str P -> smfi_str P) : Prop := forall c,
  ctx_state (f c) = ctx_state c /\ ctx_reply (f c) = ctx_reply c /\
  ctx_mac_list (f c) = ctx_mac_list c /\ pool_view (f c) = pool_view c /\
  (keeps_steps -> ctx_pflags (f c) = ctx_pflags c).

Lemma opt_modc cbs w w1 f : opt_post cbs w w1 -> aside f ->
  wp F (modc f) (fun _ w' => opt_post cbs w w') w1.
Proof.
  intros ([H1 H2 H3 H4 H4p [H5 H6]] & Ht & Hp) Hf. apply wp_modc.
  destruct (Hf (w_ctx w1)) as (Es & Er & Em & Ev & Ep).
  split; [split; simpl; try done; try congruence|].
  - unfold ctx_good. by rewrite Er, Em.
  - split; [done|]. intros K. simpl. rewrite Ep by done. auto.
Qed.

Lemma opt_seq {A} cbs w w1 f (k : unit -> cM (world P S) A) Q : opt_post cbs w w1 -> aside f ->
  (forall w2, opt_post cbs w w2 -> wp F (k tt) Q w2) -> wp F (bind (modc f) k) Q w1.
Proof. intros H Hf Hk. eapply wp_seq; [by apply opt_modc|]. intros []. apply Hk. Qed.

(** The next assignment of a handler. *)
Ltac opt_step :=
  lazymatch goal with
  | H : opt_post ?cbs ?w ?w1 |- wp _ (bind (modc _) _) _ ?w1 =>
      let w2 := fresh "w" in
      apply (opt_seq cbs w w1 _ _ _ H); [intros c; repeat case_match; repeat split; done || (intros; exfalso; auto)|]; clear H; intros w2 H
  end.

Lemma opt_offer_post g w : ctx_good (w_ctx w) -> cmd_data (a_buf g) (a_len g) ->
  wp F (opt_offer smfi g) (fun _ w' => opt_post [] w w') w.
Proof.
  intros Hg Hd. unfold opt_offer, clr_later, mi_clr_macros.
  pose proof (opt_post_refl w Hg) as H. do 2 opt_step.
  destruct (Z.ltb_spec (a_len g) (Z.of_nat MILTER_OPTLEN)) as [|Hlen]; [done|].
  destruct (a_buf g) as [b|]; simpl in Hd; [|unfold MILTER_OPTLEN in Hlen; simpl in Hlen; lia].
  destruct Hd as [Hl _]. rewrite Hl in Hlen. unfold MILTER_OPTLEN, MILTER_LEN_BYTES in *. simpl in Hlen.
  destruct (de32_Some b 0 ltac:(lia)) as [v0 E0]. destruct (de32_Some b 4 ltac:(lia)) as [v1 E1].
  destruct (de32_Some b 8 ltac:(lia)) as [v2 E2].
  apply wp_bind, wp_deref, wp_bind, wp_deref. rewrite E0. destruct (_ <? _); [done|].
  opt_step. apply wp_bind, wp_getc. opt_step. apply wp_bind, wp_deref. rewrite E1. opt_step.
  apply wp_bind, wp_deref. simpl (4 * 2)%nat. rewrite E2. do 2 opt_step. exact H.
Qed.

Lemma opt_choose_post w : ctx_good (w_ctx w) ->
  wp F (opt_choose smfi) (fun _ w' => exists cbs, (cbs = [] \/ cbs = [CbNegotiate]) /\ opt_post cbs w w') w.
Proof.
  intros Hg. unfold opt_choose.
  destruct (if 4 <? xxfi_version smfi then xxfi_negotiate smfi else None) as [f|] eqn:Ef.
  2:{ pose proof (opt_post_refl w Hg) as H. opt_step. exists []. split; [by left|exact H]. }
  assert (xxfi_negotiate smfi = Some f) as Ef' by (by destruct (4 <? xxfi_version smfi)).
  apply wp_bind, wp_getc. cbv zeta. eapply wp_seq.
  { eapply wp_and_partial; [apply call_calm; [done|cb_done wb_negotiate]|].
    apply (wp_impl keeps_steps _ (fun x _ => x.1.1 <> SMFIS_CONTINUE)). intros K. unfold call. apply wp_bind. by apply K. }
  intros [[r af] pf] w1 [Hc Hk]. simpl in Hk.
  assert (opt_post [CbNegotiate] w w1) as H.
  { split; [by apply calm_mild|]. by destruct Hc. }
  apply wp_bind. destruct (r =? SMFIS_ALL_OPTS); [|destruct (Z.eqb_spec r SMFIS_CONTINUE) as [Hr|]].
  - do 2 opt_step. apply wp_ret. cbn [negb]. opt_step. exists [CbNegotiate]. split; [by right|exact H].
  - assert (keeps_steps -> False) as Kno by (intros K; by apply (Hk K)). cbn [negb]. opt_step.
    do 2 opt_step. apply wp_ret. cbn [negb]. opt_step. exists [CbNegotiate]. split; [by right|exact H].
  - apply wp_ret. exists [CbNegotiate]. split; [by right|exact H].
Qed.

Lemma opt_check_post w : ctx_good (w_ctx w) ->
  wp F opt_check (fun _ w' => mild w [] w' /\ tbl_step w w' /\ ctx_pflags (w_ctx w') = ctx_pflags (w_ctx w)) w.
Proof.
  intros Hg. unfold opt_check. apply wp_bind, wp_getc.
  assert (mild w [] w) as Hm by (by apply calm_mild, calm_refl).
  destruct (lacks _ _); [split; [done|split; [by left|done]]|].
  apply wp_bind, wp_modc, wp_bind, wp_getc.
  set (f := fun c : smfi_str P => if lacks (ctx_mta_pflags c) (int_of_ul (ctx_pflags2mta c))
              then drop_flag SMFIP_NOUNKNOWN (drop_flag SMFIP_NODATA c) else c).
  assert (forall c, ctx_state (f c) = ctx_state c /\ ctx_reply (f c) = ctx_reply c /\
            ctx_mac_list (f c) = ctx_mac_list c /\ pool_view (f c) = pool_view c /\
            ctx_pflags (f c) = ctx_pflags c) as Hf.
  { intros c. unfold f, drop_flag. by repeat case_match. }
  destruct (Hf (w_ctx w)) as (Es & Er & Em & Ev & Ep).
  assert (ctx_good (f (w_ctx w))) as Hgf by (unfold ctx_good; by rewrite Er, Em).
  destruct (lacks _ _).
  - split; [split; simpl; try done|].
    + by rewrite app_nil_r.
    + split; [by left|done].
  - apply wp_bind. unfold wp at 1, modify. apply wp_bind, wp_modc, wp_ret.
    split; [split; simpl; try done|].
    + by rewrite app_nil_r.
    + split; [right; simpl|]; by rewrite ?Ep.
Qed.

Lemma st_optionneg_post g w : ctx_good (w_ctx w) -> cmd_data (a_buf g) (a_len g) ->
  wp F (st_optionneg smfi g)
     (fun _ w' => exists cbs, (cbs = [] \/ cbs = [CbNegotiate]) /\ mild w cbs w' /\ tbl_step w w' /\
        (keeps_steps -> ctx_pflags (w_ctx w') = ctx_pflags (w_ctx w))) w.
Proof.
  intros Hg Hd. unfold st_optionneg. eapply wp_seq; [by apply opt_offer_post|].
  intros [[]|] w1 (M1 & T1 & K1); [|exists []; split; [by left|]; split; [done|]; split; [by left|done]].
  eapply wp_seq; [apply opt_choose_post; exact (m_good _ _ _ M1)|].
  intros o w2 (cbs & Hcbs & M2 & T2 & K2).
  assert (mild w cbs w2) as M12 by (destruct M1, M2; split; try congruence; [rewrite app_nil_r in *; congruence|lia]).
  destruct o as [[]|].
  - eapply wp_mono; [apply opt_check_post; exact (m_good _ _ _ M2)|].
    intros r w3 (M3 & T3 & K3). exists cbs. split; [done|]. split.
    { destruct M12, M3. split; try congruence; [rewrite app_nil_r in *; congruence|lia]. }
    split; [destruct T3 as [T3|T3]; [left|right]; congruence|]. intros K. rewrite K3, K2, K1; done.
  - exists cbs. split; [done|]. split; [done|]. split; [left; congruence|]. intros K. rewrite K2, K1; done.
Qed.

End handlers.
