(* ===== verification/EngineOrder.v ===== *)
(** * The order of callbacks

    Whatever bytes the MTA sends and however the kernel delivers them, the
    engine makes the callbacks of a filter in the order of an SMTP session:
    [xxfi_eom] only after [xxfi_envfrom] and [xxfi_envrcpt] of the same
    message, [xxfi_close] last.  The proof follows the loop of [mi_engine]
    with an invariant between its state variable and the trace. *)

From stdpp Require Import base list numbers strings sets.
From Stdlib Require Import Strings.Byte ZArith Lia.
From S2P Require Import Prelude Mfdef Comm Stm Macros Engine EngineProps.
Local Open Scope cM_scope.
Local Open Scope Z_scope.

(** ** Traces *)

(** Callbacks between the first recipient of a message and its end. *)
Definition msg_cb (c : callback) : Prop :=
  c = CbEnvrcpt \/ c = CbData \/ c = CbHeader \/ c = CbEoh \/ c = CbBody.

(** The callbacks so far end inside a message with a sender and a recipient,
    unless an unknown command was seen. *)
Definition in_mail (t : list callback) : Prop :=
  CbUnknown ∈ t \/
  exists t0 mid, t = t0 ++ CbEnvfrom :: CbEnvrcpt :: mid /\ Forall msg_cb mid.

(** Every end of message comes inside a message. *)
Definition eom_ok (t : list callback) : Prop :=
  forall a b, t = a ++ CbEom :: b -> in_mail a.

Lemma in_mail_app t c : in_mail t -> msg_cb c -> in_mail (t ++ [c]).
Proof.
  intros [Hu|(t0 & mid & -> & Hm)] Hc; [left; set_solver|right].
  exists t0, (mid ++ [c]). rewrite <- app_assoc. split; [done|]. apply Forall_app. split; [done|]. by constructor.
Qed.

Lemma eom_ok_nil : eom_ok [].
Proof. by intros [] b. Qed.

Lemma eom_ok_app t c : eom_ok t -> (c = CbEom -> in_mail t) -> eom_ok (t ++ [c]).
Proof.
  intros Ht Hc a b E. destruct b as [|d b _] using rev_ind.
  - apply app_inj_tail in E as [-> ->]. auto.
  - rewrite app_comm_cons, app_assoc in E. apply app_inj_tail in E as [-> _]. by eapply Ht.
Qed.

Lemma eom_ok_prefix t t' : eom_ok (t ++ t') -> eom_ok t.
Proof. intros H a b ->. apply (H a (b ++ t')). by rewrite <- app_assoc. Qed.

(** ** The invariant of the loop *)

(** The state variable and the trace. *)
Definition tstage (t : list callback) (cur : Z) : Prop :=
  0 <= cur < 15 /\
  (cur = ST_UNKN -> CbUnknown ∈ t) /\
  (cur = ST_MAIL -> exists t0, t = t0 ++ [CbEnvfrom]) /\
  (in_message cur -> in_mail t).

Lemma tstage_other t cur : 0 <= cur < 15 -> cur <> ST_UNKN -> cur <> ST_MAIL ->
  ~ in_message cur -> tstage t cur.
Proof. unfold tstage. tauto. Qed.

Ltac stage_num :=
  unfold in_message, ST_INIT, ST_OPTS, ST_CONN, ST_HELO, ST_MAIL, ST_RCPT, ST_DATA, ST_HDRS, ST_EOHS,
    ST_BODY, ST_ENDM, ST_QUIT, ST_ABRT, ST_UNKN, ST_Q_NC in *; lia.

Lemma tstage_helo t : tstage t ST_HELO.
Proof. apply tstage_other; stage_num. Qed.

(** What entering a state [s] of a command needs of the trace. *)
Definition may_enter (t : list callback) (s : Z) : Prop :=
  0 <= s < 15 /\
  (ST_RCPT <= s <= ST_ENDM -> (s = ST_RCPT /\ exists t0, t = t0 ++ [CbEnvfrom]) \/ in_mail t).

(** From [ST_HELO] no stage of a message can be entered. *)
Lemma from_helo c : c ∈ cmds -> trans_ok next_states ST_HELO (cm_next c) = true ->
  cm_next c <> ST_NONE -> ~ (ST_RCPT <= cm_next c <= ST_ENDM) /\ 0 <= cm_next c < 15.
Proof.
  intros Hc Ht Hn.
  assert (forallb (fun c => (cm_next c =? ST_NONE) || negb (trans_ok next_states ST_HELO (cm_next c)) ||
     (negb ((ST_RCPT <=? cm_next c) && (cm_next c <=? ST_ENDM)) && (0 <=? cm_next c) && (cm_next c <? 15))) cmds = true) as H
    by (vm_compute; reflexivity).
  rewrite forallb_forall in H. apply list_elem_of_In, H in Hc. rewrite Ht in Hc. lia.
Qed.

Lemma may_enter_direct t cur c : tstage t cur -> c ∈ cmds -> cm_next c <> ST_NONE ->
  trans_ok next_states cur (cm_next c) = true -> may_enter t (cm_next c).
Proof.
  intros (Hcur & Hu & Hm & Hi) Hc Hn Ht.
  destruct (enter_default c cur (cm_next c) false Hc Hn Hcur) as (_ & Hr & Hpred).
  { unfold enter. rewrite (proj2 (Z.eqb_neq _ _)) by done. by rewrite Ht. }
  split; [done|]. intros Hs. destruct (Hpred Hs) as [[Hcm Hsr]|[Hin|Hun]].
  - left. auto.
  - right. auto.
  - right. left. auto.
Qed.

Lemma may_enter_helo t c : c ∈ cmds -> cm_next c <> ST_NONE ->
  trans_ok next_states ST_HELO (cm_next c) = true -> may_enter t (cm_next c).
Proof. intros Hc Hn Ht. destruct (from_helo c Hc Ht Hn). split; [done|]. intros; done. Qed.

Section after.
Context {P S : Type} (smfi : smfiDesc (world P S)).

(** A filter with the callbacks of the envelope and for unknown commands. *)
Definition full_envelope : Prop :=
  xxfi_envfrom smfi <> None /\ xxfi_envrcpt smfi <> None /\
  xxfi_unknown smfi <> None /\ 2 < xxfi_version smfi.

(** The trace after a handler. *)
Lemma eom_ok_after c t r cbs : c ∈ cmds -> cm_next c <> ST_NONE ->
  may_enter t (cm_next c) -> shape smfi (cm_fct c) r cbs -> eom_ok t -> eom_ok (t ++ cbs).
Proof.
  intros Hc Hn [_ Hm] Hs Ht.
  assert (forall cb, cb <> CbEom -> eom_ok (t ++ [cb])) as Hone by (intros; apply eom_ok_app; [done|congruence]).
  unfold cmds in Hc. rewrite !elem_of_cons, elem_of_nil in Hc.
  repeat destruct Hc as [->|Hc]; try done; simpl in Hs, Hm;
    repeat match goal with H : _ \/ _ |- _ => destruct H | H : _ /\ _ |- _ => destruct H end;
    subst; rewrite ?app_nil_r; try done; try (by apply Hone).
  - (* end of message *)
    apply eom_ok_app; [done|]. intros _. destruct Hm as [[? _]|?]; [vm_compute; split; discriminate|done|done].
  - destruct Hm as [[? _]|Hm]; [vm_compute; split; discriminate|done|].
    change [CbBody; CbEom] with ([CbBody] ++ [CbEom]). rewrite app_assoc. apply eom_ok_app; [by apply Hone|].
    intros _. apply in_mail_app; [done|]. unfold msg_cb. tauto.
  - case_match; rewrite ?app_nil_r; [by apply Hone|done].
  - case_match; rewrite ?app_nil_r; [by apply Hone|done].
Qed.

Lemma tstage_after c t r cbs : full_envelope -> c ∈ cmds -> cm_next c <> ST_NONE ->
  may_enter t (cm_next c) -> shape smfi (cm_fct c) r cbs -> r <> _SMFIS_ABORT ->
  tstage (t ++ cbs) (cm_next c).
Proof.
  intros (Hef & Her & Heu & Hev) Hc Hn [Hrange Hm] Hs Hr.
  assert (forall c', msg_cb c' -> in_mail t -> in_mail (t ++ [c'])) as Happ by (intros; by apply in_mail_app).
  unfold cmds in Hc. rewrite !elem_of_cons, elem_of_nil in Hc.
  repeat destruct Hc as [->|Hc]; try done; simpl in Hs, Hm, Hrange, Hr |- *;
    try (apply tstage_other; stage_num);
    (split; [stage_num|split; [intros ?; try stage_num|split; [intros ?; try stage_num|intros Hin; try stage_num]]]).
  all: try (destruct Hm as [[? _]|Hm]; [vm_compute; split; discriminate|discriminate|];
            destruct Hs as [->| ->]; rewrite ?app_nil_r; [done|]; apply Happ; [unfold msg_cb; tauto|done]).
  - destruct Hs as [->|[-> [?|?]]]; [eauto|done|done].
  - destruct Hs as [->|[-> [?|?]]]; [|done|done].
    specialize (Hm ltac:(vm_compute; split; discriminate)).
    destruct Hm as [[_ [t0 ->]]|Hm]; [|apply Happ; [unfold msg_cb; tauto|done]].
    right. exists t0, []. rewrite <- app_assoc. done.
  - destruct Hs as [->|[-> [?|?]]]; [set_solver|lia|done].
Qed.

End after.

(** ** The loop *)

Lemma find_cmd_in cmd l c : find_cmd cmd l = Some c -> c ∈ l.
Proof.
  induction l as [|d l IH]; simpl; [done|]. case_decide; intros; simplify_eq; [apply list_elem_of_here|].
  apply list_elem_of_further. auto.
Qed.

Lemma cmd_optneg c : c ∈ cmds -> cm_fct c = st_optionneg_ -> cm_next c = ST_OPTS.
Proof.
  unfold cmds. rewrite !elem_of_cons, elem_of_nil. intros Hc Hf.
  repeat destruct Hc as [->|Hc]; done.
Qed.

Lemma cmd_macro c : c ∈ cmds -> cm_next c = ST_NONE -> cm_fct c = st_macros_ /\ cm_todo c = CT_KEEP.
Proof.
  unfold cmds. rewrite !elem_of_cons, elem_of_nil. intros Hc Hf.
  repeat destruct Hc as [->|Hc]; done.
Qed.

Lemma leave_abort todo s r : leave todo s r = None -> r = _SMFIS_ABORT.
Proof. unfold leave. by repeat case_match; intros; [..|apply Z.eqb_eq|]. Qed.

Lemma leave_abort_some todo s : leave todo s _SMFIS_ABORT = None.
Proof. done. Qed.

Lemma fix_stm_0 tbl : fix_stm 0 tbl = tbl.
Proof. done. Qed.

Section order.
Context {P S : Type} (smfi : smfiDesc (world P S)) {Hwb : WellBehaved True smfi}.
Context (Henv : full_envelope smfi) (Hsteps : keeps_steps smfi).
Implicit Types w : world P S.

(** The part of the invariant about the library's variables. *)
Definition base w : Prop :=
  ctx_good (w_ctx w) /\ w_next_states w = next_states /\ ctx_pflags (w_ctx w) = 0 /\ eom_ok (w_trace w).

Definition order_inv (cur : Z) w : Prop := base w /\ tstage (w_trace w) cur.

Lemma base_calm w cbs w' : calm w cbs w' -> base w -> eom_ok (w_trace w ++ cbs) -> base w'.
Proof.
  intros Hc (? & ? & ? & _) He. destruct Hc. split; [done|]. split; [congruence|]. split; [congruence|].
  by rewrite c_trace.
Qed.

Definition round_post (x : round_res) w' : Prop :=
  base w' /\
  match x with
  | Break ret_ st _ => ret_ = MI_CONTINUE -> tstage (w_trace w') st
  | Next st _ => tstage (w_trace w') st
  end.

Lemma set_state_base st w : base w -> base (set_w_ctx (set_ctx_state st (w_ctx w)) w).
Proof. done. Qed.

(** The reply and the state after it. *)
Definition finish (c : cmdfct) (s r : Z) : cM (world P S) round_res :=
  let* sr := sendreply r in
  if negb (sr =? MI_SUCCESS) then ret (Break MI_FAILURE s (ST_IN_MAIL s))
  else
    match leave (cm_todo c) s r with
    | None => ret (Break MI_FAILURE s (ST_IN_MAIL s))
    | Some st => ret (Next st (cm_todo c))
    end.

Lemma finish_order c s r w : base w -> (r <> _SMFIS_ABORT -> tstage (w_trace w) s) ->
  wp True (finish c s r) round_post w.
Proof.
  intros Hb Hs. unfold finish.
  eapply wp_seq; [apply (sendreply_calm True r w); by destruct Hb|]. intros sr w' Hc.
  assert (base w') as Hb' by (eapply base_calm; [exact Hc|exact Hb|rewrite app_nil_r; by destruct Hb as (_ & _ & _ & ?)]).
  assert (w_trace w' = w_trace w) as Et by (destruct Hc; by rewrite app_nil_r in *).
  destruct (negb _); [split; [done|discriminate]|].
  destruct (leave (cm_todo c) s r) as [st|] eqn:El; [|split; [done|discriminate]].
  split; [done|]. rewrite Et. destruct (leave_cases _ _ _ _ El) as [->| ->]; [|apply tstage_helo].
  apply Hs. intros ->. by rewrite leave_abort_some in El.
Qed.

(** A command and its reply, in its state. *)
Lemma run_cmd_order c s g w : c ∈ cmds -> base w -> cmd_data (a_buf g) (a_len g) ->
  (if decide (cm_next c = ST_NONE) then tstage (w_trace w) s
   else s = cm_next c /\ may_enter (w_trace w) s) ->
  wp True (run_cmd_ smfi c s g) round_post w.
Proof.
  intros Hc Hb Hd Hs.
  assert (forall w0, base w0 -> w_trace w0 = w_trace w ->
    wp True (bind (run_fct smfi (cm_fct c) g) (finish c s)) round_post w0) as H.
  { intros w0 Hb0 Et. rewrite <- Et in Hs. clear w Hb Et.
    pose proof Hb0 as (Hg & Htbl & Hpf & He).
    destruct (decide (cm_fct c = st_optionneg_)) as [Ho|Ho].
    - rewrite Ho. pose proof (cmd_optneg c Hc Ho) as Hn.
      rewrite decide_False in Hs by (by rewrite Hn). destruct Hs as [-> _]. rewrite Hn.
      eapply wp_seq; [by apply (st_optionneg_post True smfi)|].
      intros r w1 (cbs & Hcbs & Hm & Hts & Hk). destruct Hm as [M1 _ M2 M3 M4 M5].
      apply finish_order; [|intros _; apply tstage_other; stage_num].
      split; [done|]. specialize (Hk Hsteps).
      assert (ctx_pflags (w_ctx w1) = 0) as Hp1 by congruence. split; [|split; [done|]].
      + destruct Hts as [Ht|Ht]; [congruence|]. rewrite Ht, Hp1, Htbl. apply fix_stm_0.
      + rewrite M3. destruct Hcbs as [->| ->]; [by rewrite app_nil_r|by apply eom_ok_app].
    - eapply wp_seq; [by apply (run_fct_post True smfi); auto|].
      intros r w1 (cbs & Hsh & Hcalm). case_decide as Hn.
      + destruct (cmd_macro c Hc Hn) as [Hf _]. rewrite Hf in Hsh. simpl in Hsh. subst cbs.
        apply finish_order.
        * eapply base_calm; [exact Hcalm|done|by rewrite app_nil_r].
        * intros _. destruct Hcalm. rewrite c_trace, app_nil_r. exact Hs.
      + destruct Hs as [-> Hme]. apply finish_order.
        * eapply base_calm; [exact Hcalm|done|]. by eapply eom_ok_after.
        * intros Hr. destruct Hcalm. rewrite c_trace. by eapply tstage_after. }
  unfold run_cmd_. apply wp_bind. destruct (Z.eqb_spec (cm_next c) ST_NONE); simpl.
  - apply wp_ret. by apply H.
  - apply wp_modc. by apply H.
Qed.

Lemma abort_order b w : base w -> wp True (abort_if smfi b) (fun _ w' => base w') w.
Proof.
  intros Hb. unfold abort_if. destruct b; [|done].
  eapply wp_mono; [apply (call_opt_calm True); [by destruct Hb|intros; by eapply wb_abort]|].
  intros u w' Hc. eapply base_calm; [exact Hc|done|]. destruct Hb as (_ & _ & _ & He).
  case_match; [by apply eom_ok_app|by rewrite app_nil_r].
Qed.

Lemma enter_order c cur buf len w : c ∈ cmds -> order_inv cur w -> cmd_data buf len ->
  wp True (enter_cmd smfi c cur buf len) round_post w.
Proof.
  intros Hc [Hb Hst] Hd. unfold enter_cmd. apply wp_bind. unfold wp at 1, gets.
  destruct Hb as (Hg & Htbl & Hpf & He) eqn:E. rewrite Htbl. clear E.
  destruct (Z.eqb_spec (cm_next c) ST_NONE) as [Hn|Hn]; cbn [negb andb].
  { apply run_cmd_order; [done..|]. by rewrite decide_True. }
  destruct (trans_ok next_states cur (cm_next c)) eqn:Et; cbn [negb].
  { apply run_cmd_order; [done..|]. rewrite decide_False by done. split; [done|]. by eapply may_enter_direct. }
  eapply wp_seq; [by apply abort_order|]. intros u w1 Hb1. apply wp_bind. unfold wp at 1, gets.
  destruct Hb1 as (Hg1 & Htbl1 & Hpf1 & He1) eqn:E1. rewrite Htbl1. clear E1.
  destruct (trans_ok next_states ST_HELO (cm_next c)) eqn:Et1; cbn [negb].
  - apply run_cmd_order; [done..|]. rewrite decide_False by done. split; [done|]. by apply may_enter_helo.
  - split; [done|]. apply tstage_helo.
Qed.

Lemma quiet_base w w' : quiet w w' -> w_ctx w' = w_ctx w -> base w -> base w'.
Proof.
  intros [] Hc (? & ? & ? & ?). split; [by rewrite Hc|]. split; [congruence|]. split; [congruence|]. by rewrite q_trace.
Qed.

Lemma round_order cur w : order_inv cur w -> wp True (engine_round smfi cur) round_post w.
Proof.
  intros [Hb Hst]. unfold engine_round.
  eapply (wp_seq _ _ _ (fun _ w' => order_inv cur w')).
  { unfold wp, mi_stop. by destruct (w_stop w). }
  clear w Hb Hst. intros stop w [Hb Hst]. destruct (_ =? _); [by split|].
  eapply (wp_seq _ _ _ (fun _ w' => order_inv cur w')).
  { apply wp_liftn. pose proof (sock_ready_polls (n_poll (w_net w)) 0 (w_net w) eq_refl) as H.
    unfold wp in *. by destruct (sock_ready _ _ _). }
  clear w Hb Hst. intros rdy w [Hb Hst]. destruct (negb rdy); [by split|].
  eapply wp_seq; [apply mi_rd_cmd_quiet|]. intros [[buf cmd] len] w' (Hq & Hctx & Hd). simpl in Hd.
  assert (base w') as Hb' by (by eapply quiet_base).
  assert (w_trace w' = w_trace w) as Et by (by destruct Hq).
  destruct (_ && _); [split; [done|discriminate]|].
  destruct (find_cmd cmd cmds) as [c|] eqn:Ec; [|split; [done|discriminate]].
  apply enter_order; [by eapply find_cmd_in|split; [done|by rewrite Et]|done].
Qed.

Lemma loop_order fuel : forall cur w, order_inv cur w ->
  wp True (engine_loop smfi fuel cur)
     (fun x w' => base w' /\ (x.1.1 = MI_CONTINUE -> tstage (w_trace w') x.1.2)) w.
Proof.
  induction fuel as [|fuel IH]; intros cur w Hi; [done|]. simpl.
  eapply wp_seq; [by apply round_order|]. intros [r st ca|st todo] w' [Hb Hst]; [by split|].
  destruct (bitset _ _); [split; [done|discriminate]|]. by apply IH.
Qed.

Lemma end_order x w : base w -> (x.1.1 = MI_CONTINUE -> tstage (w_trace w) x.1.2) ->
  wp True (engine_end smfi x)
     (fun r w' => base w' /\ (r = MI_CONTINUE -> tstage (w_trace w') (ctx_state (w_ctx w')))) w.
Proof.
  destruct x as [[r st] ca]. simpl. intros Hb Hst. unfold engine_end. apply wp_bind, wp_modc.
  set (w0 := set_w_ctx _ w). assert (base w0) as Hb0 by done.
  destruct (decide (r = MI_CONTINUE)) as [->|Hr].
  - apply wp_bind, wp_ret, wp_bind, wp_getc. simpl. rewrite andb_false_r. apply wp_bind, wp_ret, wp_ret.
    split; [done|]. intros _. by apply Hst.
  - apply wp_bind. eapply (wp_mono _ _ (fun _ w' => base w')).
    { destruct (_ =? _); [by apply abort_order|done]. }
    intros u w1 Hb1. apply wp_bind, wp_getc, wp_bind. eapply (wp_mono _ _ (fun _ w' => base w')).
    { destruct (_ && _); [|done].
      eapply wp_mono; [apply (call_opt_calm True); [by destruct Hb1|intros; by eapply wb_close]|].
      intros u' w' Hc. eapply base_calm; [exact Hc|done|]. destruct Hb1 as (_ & _ & _ & He).
      case_match; [by apply eom_ok_app|by rewrite app_nil_r]. }
    intros u' w2 Hb2. apply wp_ret. by split.
Qed.

(** One call of [mi_engine] keeps the invariant of the session. *)
Definition session_inv w : Prop := order_inv (ctx_state (w_ctx w)) w.

Lemma mi_engine_order w : session_inv w ->
  wp True (mi_engine smfi) (fun r w' => base w' /\ (r = MI_CONTINUE -> session_inv w')) w.
Proof.
  intros [Hb Hst]. unfold mi_engine. eapply (wp_seq _ _ _ (fun st w' => order_inv st w')).
  - unfold engine_start. apply wp_bind, wp_getc. destruct (_ =? _).
    + apply wp_bind, wp_modc, wp_bind. unfold wp at 1, modify. apply wp_ret.
      destruct Hb as (Hg & Htbl & Hpf & He). split; [|done]. split; [done|]. simpl.
      split; [rewrite Htbl, Hpf; apply fix_stm_0|]. done.
    + by apply wp_ret.
  - intros st w1 Hi. apply wp_bind. unfold wp at 1, getn, gets.
    eapply wp_seq; [by apply loop_order|]. intros x w2 [Hb2 Hs2].
    eapply wp_mono; [by apply end_order|]. intros r w3 [Hb3 Hs3].
    split; [done|]. intros Hr. split; auto.
Qed.

End order.

(** ** What the pool reads *)

Section pool_view.
Context {P S : Type} (smfi : smfiDesc (world P S)) {Hwb : WellBehaved True smfi}.
Implicit Types w : world P S.

Lemma run_fct_mild f g w : ctx_good (w_ctx w) -> cmd_data (a_buf g) (a_len g) ->
  wp True (run_fct smfi f g) (fun r w' => exists cbs, mild w cbs w' /\
    (f = st_quit_ -> cbs = if xxfi_close smfi is Some _ then [CbClose] else [])) w.
Proof.
  intros Hg Hd. destruct (decide (f = st_optionneg_)) as [->|Ho].
  - eapply wp_mono; [by apply (st_optionneg_post True smfi)|]. intros r w' (cbs & _ & Hm & _). by exists cbs.
  - eapply wp_mono; [by apply (run_fct_post True smfi); auto|]. intros r w' (cbs & Hs & Hc).
    exists cbs. split; [by apply calm_mild|]. intros ->. simpl in Hs. by destruct Hs.
Qed.

(** The strings of the context are terminated and the pool's fields are [v]. *)
Definition held (v : Z * Z * Z * Z) w : Prop := ctx_good (w_ctx w) /\ pool_view (w_ctx w) = v.

Lemma held_mild v w cbs w' : mild w cbs w' -> held v w -> held v w'.
Proof. intros [] [_ <-]. by split. Qed.

Lemma call_opt_held {A} v cb (m : option (cM (world P S) A)) w : held v w ->
  (forall f w, m = Some f -> ctx_good (w_ctx w) -> wp True f (fun _ w' => quiet w w' /\ ctx_good (w_ctx w')) w) ->
  wp True (call_opt cb m) (fun _ w' => held v w') w.
Proof.
  intros Hh Hm. eapply wp_mono; [apply (call_opt_calm True); [apply Hh|exact Hm]|].
  intros u w' Hc. by eapply held_mild; [eapply calm_mild; exact Hc|].
Qed.

Lemma abort_held v b w : held v w -> wp True (abort_if smfi b) (fun _ w' => held v w') w.
Proof.
  intros Hh. unfold abort_if. destruct b; [|by apply wp_ret].
  apply call_opt_held; [done|]. intros. by eapply wb_abort.
Qed.

Lemma run_cmd_held v c s g w : held v w -> cmd_data (a_buf g) (a_len g) ->
  wp True (run_cmd_ smfi c s g) (fun _ w' => held v w') w.
Proof.
  intros Hh Hd.
  assert (forall w0, held v w0 -> wp True (bind (run_fct smfi (cm_fct c) g) (finish c s)) (fun _ w' => held v w') w0) as H.
  { clear w Hh. intros w Hh. eapply wp_seq; [by apply run_fct_mild; [apply Hh|]|]. intros r w1 (cbs & Hm & _).
    assert (held v w1) as H1 by (by eapply held_mild). unfold finish.
    eapply wp_seq; [apply (sendreply_calm True); apply H1|]. intros sr w2 H2.
    assert (held v w2) by (by eapply held_mild; [eapply calm_mild; exact H2|]).
    destruct (negb _); [by apply wp_ret|]. by destruct (leave _ _ _). }
  unfold run_cmd_. apply wp_bind. destruct (negb _); [apply wp_modc|apply wp_ret]; by apply H.
Qed.

Lemma round_held v cur w : held v w -> wp True (engine_round smfi cur) (fun _ w' => held v w') w.
Proof.
  intros Hh. unfold engine_round. eapply (wp_seq _ _ _ (fun _ w' => held v w')).
  { unfold wp, mi_stop. by destruct (w_stop w). }
  clear w Hh. intros stop w Hh. destruct (_ =? _); [done|].
  eapply (wp_seq _ _ _ (fun _ w' => held v w')).
  { apply wp_liftn. pose proof (sock_ready_polls (n_poll (w_net w)) 0 (w_net w) eq_refl) as H.
    unfold wp in *. by destruct (sock_ready _ _ _). }
  clear w Hh. intros rdy w Hh. destruct (negb rdy); [done|].
  eapply wp_seq; [apply mi_rd_cmd_quiet|]. intros [[buf cmd] len] w1 (_ & Hc & Hd). simpl in Hd.
  assert (held v w1) as H1 by (unfold held; by rewrite Hc). clear Hc.
  destruct (_ && _); [done|]. destruct (find_cmd cmd cmds) as [c|]; [|done].
  unfold enter_cmd. apply wp_bind. unfold wp at 1, gets.
  destruct (_ && _); [|by apply run_cmd_held].
  eapply wp_seq; [by apply abort_held|]. intros u w2 H2. apply wp_bind. unfold wp at 1, gets.
  destruct (negb _); [by apply wp_ret|by apply run_cmd_held].
Qed.

Lemma loop_held fuel : forall v cur w, held v w -> wp True (engine_loop smfi fuel cur) (fun _ w' => held v w') w.
Proof.
  induction fuel as [|fuel IH]; intros v cur w Hh; [done|]. simpl.
  eapply wp_seq; [by apply round_held|]. intros [r st ca|st todo] w' Hh'; [done|].
  destruct (bitset _ _); [done|]. by apply IH.
Qed.

(** [mi_engine] leaves the pool's fields alone and the strings terminated. *)
Lemma mi_engine_held w : ctx_good (w_ctx w) ->
  wp True (mi_engine smfi) (fun _ w' => ctx_good (w_ctx w') /\ pool_view (w_ctx w') = pool_view (w_ctx w)) w.
Proof.
  intros Hg. change (wp True (mi_engine smfi) (fun _ w' => held (pool_view (w_ctx w)) w') w).
  assert (held (pool_view (w_ctx w)) w) as Hh by done. generalize dependent (pool_view (w_ctx w)). intros v Hh.
  unfold mi_engine. eapply (wp_seq _ _ _ (fun _ w' => held v w')).
  { unfold engine_start. apply wp_bind, wp_getc. destruct (_ =? _); [|by apply wp_ret].
    apply wp_bind, wp_modc, wp_bind. unfold wp at 1, modify. by apply wp_ret. }
  intros st w1 H1. apply wp_bind. unfold wp at 1, getn, gets. eapply wp_seq; [by apply loop_held|].
  intros [[r st'] ca] w2 H2. unfold engine_end. apply wp_bind, wp_modc, wp_bind.
  eapply (wp_mono _ _ (fun _ w' => held v w')).
  { destruct (_ =? _); [by apply abort_held|by apply wp_ret]. }
  intros u w3 H3. apply wp_bind, wp_getc, wp_bind. eapply (wp_mono _ _ (fun _ w' => held v w')).
  { destruct (_ && _); [|by apply wp_ret]. apply call_opt_held; [done|]. intros. by eapply wb_close. }
  intros u' w4 H4. by apply wp_ret.
Qed.

End pool_view.

(** ** Closing *)

Section close.
Context {P S : Type} (smfi : smfiDesc (world P S)) {Hwb : WellBehaved True smfi}.
Context (close : cM (world P S) Z) (Hclose : xxfi_close smfi = Some close).
Implicit Types w : world P S.

Definition closed w : Prop := last (w_trace w) = Some CbClose.

(** A round never leaves the loop in [ST_QUIT] without [xxfi_close] just made;
    each uses up an answer to [poll]. *)
Definition close_post n (x : round_res) w' : Prop :=
  ctx_good (w_ctx w') /\
  match x with
  | Break r st ca => (st = ST_QUIT -> closed w' /\ r <> MI_CONTINUE) /\ ca = ST_IN_MAIL st
  | Next st todo => (polls w' < n)%nat /\ (st = ST_QUIT -> bitset CT_END todo = true /\ closed w')
  end.

Lemma cmd_quit c : c ∈ cmds -> cm_next c = ST_QUIT -> cm_fct c = st_quit_ /\ cm_todo c = CT_END.
Proof.
  unfold cmds. rewrite !elem_of_cons, elem_of_nil. intros Hc Hf.
  repeat destruct Hc as [->|Hc]; done.
Qed.

Lemma run_cmd_close c s g n w : c ∈ cmds -> ctx_good (w_ctx w) -> (polls w < n)%nat ->
  cmd_data (a_buf g) (a_len g) -> s <> ST_QUIT \/ s = cm_next c ->
  wp True (run_cmd_ smfi c s g) (close_post n) w.
Proof.
  intros Hc Hg Hp Hd Hs.
  assert (forall w0, ctx_good (w_ctx w0) -> (polls w0 < n)%nat ->
    wp True (bind (run_fct smfi (cm_fct c) g) (finish c s)) (close_post n) w0) as H.
  { clear w Hg Hp. intros w Hg Hp. eapply wp_seq; [by apply (run_fct_mild smfi)|].
    intros r w1 (cbs & Hm & Hq). rewrite Hclose in Hq. unfold finish.
    eapply wp_seq; [apply (sendreply_calm True); exact (m_good _ _ _ Hm)|]. intros sr w2 H2.
    assert (s = ST_QUIT -> closed w2 /\ cm_todo c = CT_END) as Hcl.
    { intros Es. destruct Hs as [Hs|Hs]; [done|]. destruct (cmd_quit c Hc) as [Hf Ht]; [congruence|].
      split; [|done]. unfold closed. destruct H2, Hm. rewrite c_trace, m_trace, (Hq Hf), app_nil_r. apply last_snoc. }
    assert (ctx_good (w_ctx w2) /\ (polls w2 < n)%nat) as [Hg2 Hp2] by (destruct H2, Hm; split; [done|lia]).
    assert (close_post n (Break MI_FAILURE s (ST_IN_MAIL s)) w2) as Hbr
      by (split; [done|split; [intros E; by split; [apply Hcl|]|done]]).
    destruct (negb _); [done|].
    destruct (leave (cm_todo c) s r) as [st|] eqn:El; [|done].
    split; [done|]. split; [done|]. intros ->.
    destruct (leave_cases _ _ _ _ El) as [Es|Es]; [|done]. destruct (Hcl (eq_sym Es)) as [? Ht]. by rewrite Ht. }
  unfold run_cmd_. apply wp_bind. destruct (Z.eqb_spec (cm_next c) ST_NONE); simpl.
  - apply wp_ret. by apply H.
  - apply wp_modc. by apply H.
Qed.

Lemma round_close cur w : ctx_good (w_ctx w) -> cur <> ST_QUIT ->
  wp True (engine_round smfi cur) (close_post (polls w)) w.
Proof.
  intros Hg Hcur. unfold engine_round.
  assert (forall w', ctx_good (w_ctx w') -> forall r,
    close_post (polls w) (Break r cur (ST_IN_MAIL cur)) w') as Hbreak
    by (intros w' Hg' r; split; [done|split; [by intros E|done]]).
  eapply (wp_seq _ _ _ (fun _ w' => ctx_good (w_ctx w') /\ polls w' = polls w)).
  { unfold wp, mi_stop. by destruct (w_stop w). }
  intros stop w1 [Hg1 Hp1]. destruct (_ =? _); [by apply Hbreak|].
  eapply (wp_seq _ _ _ (fun _ w' => ctx_good (w_ctx w') /\ (polls w' < polls w)%nat)).
  { apply wp_liftn. pose proof (sock_ready_polls (n_poll (w_net w1)) 0 (w_net w1) eq_refl) as H.
    unfold wp in *. destruct (sock_ready _ _ _); try done. split; [done|]. rewrite <- Hp1. apply H. }
  clear w1 Hg1 Hp1. intros rdy w1 [Hg1 Hp1]. destruct (negb rdy); [by apply Hbreak|].
  eapply wp_seq; [apply mi_rd_cmd_quiet|]. intros [[buf cmd] len] w2 (Hq & Hctx & Hd). simpl in Hd.
  assert (ctx_good (w_ctx w2) /\ (polls w2 < polls w)%nat) as [Hg2 Hp2]
    by (rewrite Hctx; destruct Hq; split; [done|lia]).
  destruct (_ && _); [by apply Hbreak|].
  destruct (find_cmd cmd cmds) as [c|] eqn:Ec; [|by apply Hbreak]. apply find_cmd_in in Ec.
  unfold enter_cmd. apply wp_bind. unfold wp at 1, gets.
  destruct (Z.eqb_spec (cm_next c) ST_NONE) as [Hn|Hn]; cbn [negb andb].
  { apply run_cmd_close; [done..|by left]. }
  destruct (trans_ok _ cur (cm_next c)); cbn [negb]; [apply run_cmd_close; [done..|by right]|].
  eapply (wp_seq _ _ _ (fun _ w' => ctx_good (w_ctx w') /\ (polls w' < polls w)%nat)).
  { unfold abort_if. destruct (ST_IN_MAIL cur); [|by apply wp_ret].
    eapply wp_mono; [apply (call_opt_calm True); [done|intros; by eapply wb_abort]|].
    intros u w3 []. split; [done|lia]. }
  intros u w3 [Hg3 Hp3]. apply wp_bind. unfold wp at 1, gets.
  destruct (trans_ok _ ST_HELO (cm_next c)); cbn [negb]; [apply run_cmd_close; [done..|by right]|].
  split; [done|]. by split.
Qed.

(** The loop: closed when it ends in [ST_QUIT], and with fuel to spare. *)
Lemma loop_close fuel : forall cur w, ctx_good (w_ctx w) -> cur <> ST_QUIT ->
  wp True (engine_loop smfi fuel cur)
     (fun x w' => ctx_good (w_ctx w') /\ (x.1.2 = ST_QUIT -> closed w' /\ x.1.1 <> MI_CONTINUE /\ x.2 = false)) w.
Proof.
  induction fuel as [|fuel IH]; intros cur w Hg Hcur; [done|]. simpl.
  eapply wp_seq; [by apply round_close|]. intros [r st ca|st todo] w' (Hg' & H).
  - split; [done|]. simpl. intros ->. destruct H as [H ->]. by destruct (H eq_refl).
  - destruct H as [_ H]. destruct (bitset _ _) eqn:Eb; [split; [done|]; simpl; intros ->; destruct H as [_ ?]; auto|].
    apply IH; [done|]. intros ->. by destruct H.
Qed.

Lemma loop_fuel fuel : forall k cur w, ctx_good (w_ctx w) -> cur <> ST_QUIT -> (polls w < fuel)%nat ->
  engine_loop smfi (fuel + k) cur w = engine_loop smfi fuel cur w.
Proof.
  induction fuel as [|fuel IH]; intros k cur w Hg Hcur Hp; [lia|]. simpl.
  pose proof (round_close cur w Hg Hcur) as H. unfold wp in H. unfold bind.
  destruct (engine_round smfi cur w) as [[r st ca|st todo] w'|w'|c w'|f w']; try done.
  destruct H as (Hg' & Hp' & Hq). destruct (bitset _ _) eqn:Eb; [done|].
  apply IH; [done| |lia]. intros ->. by destruct Hq.
Qed.

Lemma engine_start_good w : ctx_good (w_ctx w) ->
  wp True engine_start (fun st w' => ctx_good (w_ctx w') /\ st = ctx_state (w_ctx w) /\ polls w' = polls w) w.
Proof.
  intros Hg. unfold engine_start. apply wp_bind, wp_getc. destruct (_ =? _); [|by apply wp_ret].
  apply wp_bind, wp_modc, wp_bind. unfold wp at 1, modify. by apply wp_ret.
Qed.

Lemma mi_engine_close w : ctx_good (w_ctx w) -> ctx_state (w_ctx w) <> ST_QUIT ->
  wp True (mi_engine smfi)
    (fun r w' => if decide (r = MI_CONTINUE) then ctx_state (w_ctx w') <> ST_QUIT else closed w') w.
Proof.
  intros Hg Hst. unfold mi_engine. eapply wp_seq; [by apply engine_start_good|].
  intros st w1 (Hg1 & -> & _). apply wp_bind. unfold wp at 1, getn, gets.
  eapply wp_seq; [by apply loop_close|]. intros [[r st] ca] w2 (Hg2 & Hq). simpl in Hq.
  unfold engine_end. apply wp_bind, wp_modc, wp_bind. set (w3 := set_w_ctx _ w2).
  eapply (wp_mono _ _ (fun _ w' => ctx_good (w_ctx w') /\ ctx_state (w_ctx w') = st /\
                         (st = ST_QUIT -> closed w'))).
  { destruct (r =? MI_FAILURE); [|apply wp_ret; split; [done|split; [done|intros E; by apply Hq in E as [? _]]]].
    destruct (decide (st = ST_QUIT)) as [E|E].
    - destruct (Hq E) as (Hcl & _ & ->). by apply wp_ret.
    - unfold abort_if. destruct ca; [|by apply wp_ret].
      eapply wp_mono; [apply (call_opt_calm True); [done|intros; by eapply wb_abort]|]. intros u w4 []. done. }
  intros u w4 (Hg4 & Hs4 & Hq4). apply wp_bind, wp_getc, wp_bind. rewrite Hs4.
  destruct (Z.eqb_spec st ST_QUIT) as [E|E]; simpl.
  { apply wp_ret, wp_ret. destruct (Hq E) as (_ & Hr & _). rewrite decide_False by done. auto. }
  destruct (Z.eqb_spec r MI_CONTINUE) as [Er|Er]; simpl.
  { apply wp_ret, wp_ret. rewrite decide_True by done. congruence. }
  eapply wp_mono; [apply (call_opt_calm True); [done|intros; by eapply wb_close]|].
  intros u' w5 Hc. apply wp_ret. rewrite decide_False by done. unfold closed. destruct Hc.
  rewrite c_trace, Hclose. apply last_snoc.
Qed.

End close.

(** ** Theorems *)

(** A session: calls of [mi_engine] on one context, with the socket, the
    clock and the other threads acting in between. *)
Definition env_step {P S} (w w' : world P S) : Prop :=
  w_ctx w' = w_ctx w /\ w_next_states w' = w_next_states w /\ w_trace w' = w_trace w.

Inductive session {P S} (smfi : smfiDesc (world P S)) : world P S -> Prop :=
  | session_start w :
      ctx_state (w_ctx w) = ST_INIT -> ctx_good (w_ctx w) -> ctx_pflags (w_ctx w) = 0 ->
      w_next_states w = next_states -> w_trace w = [] -> session smfi w
  | session_resume w w' w'' :
      session smfi w -> mi_engine smfi w = Done MI_CONTINUE w' -> env_step w' w'' -> session smfi w''.

Lemma session_inv_holds {P S} (smfi : smfiDesc (world P S)) (w : world P S) :
  WellBehaved True smfi -> full_envelope smfi -> keeps_steps smfi ->
  session smfi w -> session_inv w.
Proof.
  intros Hwb Henv Hsteps. induction 1 as [w Hi Hg Hp Ht Htr|w w' w'' _ IH Hrun (Hc & Ht & Htr)].
  - split; [|rewrite Hi; apply tstage_other; stage_num].
    split; [done|]. split; [done|]. split; [done|]. rewrite Htr. apply eom_ok_nil.
  - pose proof (mi_engine_order smfi Henv Hsteps w IH) as H.
    eapply wp_Done in H; [|exact Hrun]. destruct (proj2 H eq_refl) as ((? & ? & ? & ?) & ?).
    unfold session_inv, order_inv, base. by rewrite Hc, Ht, Htr.
Qed.

(** C1: in every session of a filter with the envelope callbacks that takes
    all protocol steps, for all bytes the MTA can send, all fragmentations and
    failures of the socket and all callback results: each call of [xxfi_eom]
    follows a call of [xxfi_envfrom], directly followed by one of
    [xxfi_envrcpt], with only callbacks of that message in between - unless
    [xxfi_unknown] was called before. *)
Theorem eom_inside_message {P S} (smfi : smfiDesc (world P S)) (Hwb : WellBehaved True smfi)
  (Henv : full_envelope smfi) (Hsteps : keeps_steps smfi) (w w' : world P S) (r : Z)
  (Hs : session smfi w) (Hrun : mi_engine smfi w = Done r w') :
  forall before after, w_trace w' = before ++ CbEom :: after ->
    CbUnknown ∈ before \/
    exists t0 mid, before = t0 ++ CbEnvfrom :: CbEnvrcpt :: mid /\ Forall msg_cb mid.
Proof.
  pose proof (session_inv_holds smfi w Hwb Henv Hsteps Hs) as Hi.
  pose proof (mi_engine_order smfi Henv Hsteps w Hi) as H.
  eapply wp_Done in H; [|exact Hrun]. destruct H as [(_ & _ & _ & H) _]. exact H.
Qed.

(** C12: a session that ends - with success or failure, by the MTA, the socket
    or a stop request - ends with the call of [xxfi_close], and no callback is
    made after it. *)
Theorem close_is_last {P S} (smfi : smfiDesc (world P S)) (Hwb : WellBehaved True smfi)
  (close : cM (world P S) Z) (Hclose : xxfi_close smfi = Some close) (w w' : world P S) (r : Z)
  (Hg : ctx_good (w_ctx w)) (Hst : ctx_state (w_ctx w) <> ST_QUIT)
  (Hrun : mi_engine smfi w = Done r w') (Hr : r <> MI_CONTINUE) :
  last (w_trace w') = Some CbClose.
Proof.
  pose proof (mi_engine_close smfi close Hclose w Hg Hst) as H.
  eapply wp_Done in H; [|exact Hrun]. by rewrite decide_False in H.
Qed.


(** *** A filter that accepts everything *)

Definition continue_ : cM (world unit unit) Z := ret SMFIS_CONTINUE.

Definition demo_filter : smfiDesc (world unit unit) :=
  mk_smfiDesc (world unit unit) (lit "demo") SMFI_VERSION 0
    (Some (fun _ _ => continue_)) (Some (fun _ => continue_)) (Some (fun _ => continue_))
    (Some (fun _ => continue_)) (Some (fun _ _ => continue_)) (Some continue_)
    (Some (fun _ _ => continue_)) (Some continue_) (Some continue_) (Some continue_)
    (Some (fun _ => continue_)) (Some continue_)
    (Some (fun _ _ _ _ a p => ret (SMFIS_ALL_OPTS, a, p))).

#[global] Instance demo_filter_ok : WellBehaved False demo_filter.
Proof. by split; intros; simplify_eq/=; (split; [reflexivity|]). Qed.

#[global] Instance demo_filter_partial : WellBehaved True demo_filter.
Proof. by split; intros; simplify_eq/=; (split; [reflexivity|]). Qed.

Lemma demo_envelope : full_envelope demo_filter.
Proof. repeat split; discriminate || (vm_compute; reflexivity). Qed.

Lemma demo_steps : keeps_steps demo_filter.
Proof. intros f a b c d e g w [= <-]. by apply wp_ret. Qed.

(** A session of one message: negotiation, connection, sender, recipient, end
    of message, quit. *)
Definition demo_bytes : bytes :=
  frame SMFIC_OPTNEG (be32 6 ++ be32 0x1ff ++ be32 0x1fffff) ++
  frame SMFIC_CONNECT (lit "mx" ++ [x00] ++ lit "4" ++ [x00; x19] ++ lit "192.0.2.1" ++ [x00]) ++
  frame SMFIC_MAIL (lit "<a@b.c>" ++ [x00]) ++
  frame SMFIC_RCPT (lit "<d@e.f>" ++ [x00]) ++
  frame SMFIC_BODYEOB [] ++ frame SMFIC_QUIT [].

Definition demo_world : world unit unit :=
  mk_world (zero_ctx tt)
    (mk_net demo_bytes [] (replicate 40 (PReady true false)) (replicate 40 (RAvail 100)) (replicate 40 (WAccept 100)))
    next_states MILTER_MAX_DATA_SIZE [] [] tt [].

Lemma demo_session : session demo_filter demo_world.
Proof. apply session_start; try done. by repeat constructor. Qed.

(** The world a run ends in. *)
Definition final {W A} (o : outcome W A) : W :=
  match o with Done _ w => w | Blocked w => w | Exited _ w => w | Undef _ w => w end.

Lemma demo_run : mi_engine demo_filter demo_world =
  Done MI_SUCCESS (final (mi_engine demo_filter demo_world)).
Proof. vm_compute. reflexivity. Qed.

Lemma demo_trace : w_trace (final (mi_engine demo_filter demo_world)) =
  [CbNegotiate; CbConnect; CbEnvfrom; CbEnvrcpt; CbEom; CbClose].
Proof. vm_compute. reflexivity. Qed.

Lemma eom_inside_message_witness :
  CbUnknown ∈ [CbNegotiate; CbConnect; CbEnvfrom; CbEnvrcpt] \/
  exists t0 mid, [CbNegotiate; CbConnect; CbEnvfrom; CbEnvrcpt] = t0 ++ CbEnvfrom :: CbEnvrcpt :: mid /\
    Forall msg_cb mid.
Proof.
  apply (eom_inside_message demo_filter demo_filter_partial demo_envelope demo_steps demo_world
           (final (mi_engine demo_filter demo_world)) MI_SUCCESS demo_session demo_run
           [CbNegotiate; CbConnect; CbEnvfrom; CbEnvrcpt] [CbClose]).
  vm_compute. reflexivity.
Defined.

Lemma close_is_last_witness :
  last (w_trace (final (mi_engine demo_filter demo_world))) = Some CbClose.
Proof.
  apply (close_is_last demo_filter demo_filter_partial continue_ eq_refl demo_world _ MI_SUCCESS).
  - by repeat constructor.
  - discriminate.
  - exact demo_run.
  - discriminate.
Defined.

