(* ===== verification/EngineReply.v ===== *)
(** * Replies, negotiation and memory safety of the engine

    What [sendreply] puts on the socket for each result of a callback, what
    [st_optionneg] can agree to, how [st_connectinfo] decodes the client, and
    which handlers stay within the memory of a command, whatever it holds. *)

From stdpp Require Import base list numbers strings.
From Stdlib Require Import Strings.Byte ZArith Lia.
From S2P Require Import Prelude Mfdef Comm Strl Stm Macros Smfi Inet Engine EngineProps EngineOrder.
Local Open Scope cM_scope.
Local Open Scope Z_scope.

(** ** Replies *)

(** The flag of the protocol by which a filter says that it does not reply at
    a stage. *)
Definition nr_flags : list (Z * Z) :=
  [(ST_CONN, SMFIP_NR_CONN); (ST_HELO, SMFIP_NR_HELO); (ST_MAIL, SMFIP_NR_MAIL); (ST_RCPT, SMFIP_NR_RCPT);
   (ST_DATA, SMFIP_NR_DATA); (ST_UNKN, SMFIP_NR_UNKN); (ST_HDRS, SMFIP_NR_HDR); (ST_EOHS, SMFIP_NR_EOH);
   (ST_BODY, SMFIP_NR_BODY)].

(** A side with the flags [flags] does without a reply in the state [st]. *)
Definition silent (flags st : Z) : bool :=
  existsb (fun x => (x.1 =? st) && negb (Z.land flags x.2 =? 0)) nr_flags.

(** The filter promised not to reply in this state. *)
Definition promised {P} (c : smfi_str P) : bool := silent (ctx_pflags c) (ctx_state c).

(** The MTA can do without a reply in this state. *)
Definition mta_silent {P} (c : smfi_str P) : bool := silent (ctx_mta_pflags c) (ctx_state c).

Lemma silent_bit flags st : silent flags st = negb (get_nr_bit st =? 0) && negb (Z.land flags (get_nr_bit st) =? 0).
Proof.
  unfold silent, nr_flags, get_nr_bit. cbn [existsb fst snd].
  repeat match goal with
    | |- context [st =? ?x] =>
        rewrite ?(Z.eqb_sym x st); destruct (Z.eqb_spec st x) as [->|];
        [repeat match goal with
           | |- context [?a =? ?b] => first [change (a =? b) with false | change (a =? b) with true]
           end; cbn [andb orb negb]; by rewrite ?orb_false_r|]
    end.
  done.
Qed.

(** Results of callbacks. *)
Definition verdicts : list Z :=
  [SMFIS_CONTINUE; SMFIS_REJECT; SMFIS_DISCARD; SMFIS_ACCEPT; SMFIS_TEMPFAIL; SMFIS_NOREPLY; SMFIS_SKIP].

(** The reply for a result: the reply character, or the text set by the
    filter when its class fits. *)
Definition verdict_frame {P} (c : smfi_str P) (r : Z) : option bytes :=
  let plain b := Some (frame b []) in
  let text cls b :=
    match ctx_reply c with
    | Some (x :: t) => if decide (x = cls) then s ← cstr (x :: t); Some (frame SMFIR_REPLYCODE (c_str s)) else plain b
    | _ => plain b
    end in
  if r =? SMFIS_CONTINUE then plain SMFIR_CONTINUE
  else if r =? SMFIS_TEMPFAIL then text "4"%byte SMFIR_TEMPFAIL
  else if r =? SMFIS_REJECT then text "5"%byte SMFIR_REJECT
  else if r =? SMFIS_DISCARD then plain SMFIR_DISCARD
  else if r =? SMFIS_ACCEPT then plain SMFIR_ACCEPT
  else if r =? SMFIS_SKIP then plain SMFIR_SKIP
  else None.

Section replies.
Context {P S : Type}.
Implicit Types w : world P S.

(** A frame was sent, whole or in part, and at most the reply text is gone. *)
Definition sent (f : bytes) w : outcome (world P S) Z -> Prop :=
  ends (fun r w' => exists w1, wrote f w r w1 /\
          (w' = w1 \/ w' = set_w_ctx (set_ctx_reply None (w_ctx w1)) w1)) (wrote_part f w).

Lemma sent_plain b w : sent (frame b []) w (mi_wr_cmd b None 0 w).
Proof.
  pose proof (mi_wr_cmd_stream b None w ltac:(simpl; lia)) as H.
  eapply ends_mono; [exact H|..]; [|done]. intros r w' Hw. exists w'. auto.
Qed.

Lemma sendreply_forced r w : promised (w_ctx w) = true -> r ∈ verdicts ->
  sendreply r w = if mta_silent (w_ctx w) then Done MI_SUCCESS w else mi_wr_cmd SMFIR_CONTINUE None 0 w.
Proof.
  intros Hp Hr. unfold sendreply, getc, gets, bind, id. unfold promised in Hp. rewrite silent_bit in Hp. rewrite Hp.
  unfold mta_silent. rewrite silent_bit. apply andb_true_iff in Hp as [-> _]. cbn [andb].
  unfold verdicts in Hr. rewrite !elem_of_cons, elem_of_nil in Hr.
  repeat destruct Hr as [->|Hr]; try done; simpl;
    by destruct (Z.land (ctx_mta_pflags (w_ctx w)) (get_nr_bit (ctx_state (w_ctx w))) =? 0).
Qed.

Lemma send_error_sent r w cls b : ctx_good (w_ctx w) ->
  Z.of_nat (length (default [] (ctx_reply (w_ctx w)))) + 1 < 2 ^ 32 ->
  (r = SMFIS_TEMPFAIL /\ cls = "4"%byte /\ b = SMFIR_TEMPFAIL) \/
  (r = SMFIS_REJECT /\ cls = "5"%byte /\ b = SMFIR_REJECT) ->
  exists f, verdict_frame (w_ctx w) r = Some f /\ sent f w (send_error r w).
Proof.
  intros [Hr _] Hl Hcase. unfold send_error, getc, gets. unfold bind at 1. cbv zeta.
  destruct (ctx_reply (w_ctx w)) as [[|x t]|] eqn:Er.
  - by destruct Hr.
  - destruct Hr as [[s Hs] _].
    assert (verdict_frame (w_ctx w) r = if decide (x = cls) then Some (frame SMFIR_REPLYCODE (c_str s))
              else Some (frame b [])) as Hv.
    { unfold verdict_frame. rewrite Er. destruct Hcase as [(-> & -> & ->)|(-> & -> & ->)]; simpl;
        (case_decide; [|done]); simpl in Hs; by rewrite Hs. }
    rewrite Hv. cbn [head deref]. rewrite bind_ret_l.
    replace (((r =? SMFIS_TEMPFAIL) && bool_decide (x = "4"%byte)) || ((r =? SMFIS_REJECT) && bool_decide (x = "5"%byte)))
      with (bool_decide (x = cls)).
    2:{ destruct Hcase as [(-> & -> & ->)|(-> & -> & ->)]; simpl; [by rewrite orb_false_r|done]. }
    destruct (decide (x = cls)) as [Hx|Hx]; [rewrite bool_decide_eq_true_2 by done|rewrite bool_decide_eq_false_2 by done].
    + eexists. split; [done|]. unfold strlen, cstr_at. rewrite drop_0, Hs. cbn [fmap option_fmap option_map deref].
      rewrite bind_ret_l. apply cstr_Some in Hs as [_ [rest Hx2]]. rewrite Hx2 in *.
      assert (take (Z.to_nat (Z.of_nat (length s) + 1)) (s ++ x00 :: rest) = c_str s) as Htk.
      { unfold c_str. replace (Z.to_nat _) with (length s + 1)%nat by lia.
        rewrite take_app_add. done. }
      simpl default in Hl. rewrite length_app in Hl. simpl in Hl.
      pose proof (wr_cmd_frame SMFIR_REPLYCODE (c_str s) (length s + 1) w) as Hw.
      rewrite length_c_str in Hw. specialize (Hw eq_refl ltac:(lia)).
      replace (Z.of_nat (length s + 1)) with (Z.of_nat (length s) + 1) in Hw by lia.
      rewrite <- Htk, <- mi_wr_cmd_take in Hw by (rewrite length_app; simpl; lia). rewrite Htk in Hw.
      unfold sent, bind. destruct (mi_wr_cmd _ _ _ _) as [v w1|w1|c w1|g w1]; simpl in Hw |- *; try done.
      exists w1. auto.
    + eexists. split; [done|]. destruct Hcase as [(-> & -> & ->)|(-> & -> & ->)]; apply sent_plain.
  - exists (frame b []). split.
    + unfold verdict_frame. rewrite Er. by destruct Hcase as [(-> & -> & ->)|(-> & -> & ->)].
    + destruct Hcase as [(-> & -> & ->)|(-> & -> & ->)]; apply sent_plain.
Qed.

End replies.


(** C10: without such a promise each result of a callback is answered by
    exactly one reply: its character, or for a rejection or temporary failure
    the text the filter set, when its class (5xx or 4xx) fits, sent up to its
    terminator and then discarded; "no reply" by none. *)
Theorem verdict_reply {P S} (r : Z) (w : world P S)
  (Hg : ctx_good (w_ctx w)) (Hp : promised (w_ctx w) = false) (Hr : r ∈ verdicts)
  (Hl : Z.of_nat (length (default [] (ctx_reply (w_ctx w)))) + 1 < 2 ^ 32) :
  match verdict_frame (w_ctx w) r with
  | Some f => sent f w (sendreply r w)
  | None => r = SMFIS_NOREPLY /\ sendreply r w = Done MI_SUCCESS w
  end.
Proof.
  assert (forall cls b, (r = SMFIS_TEMPFAIL /\ cls = "4"%byte /\ b = SMFIR_TEMPFAIL) \/
     (r = SMFIS_REJECT /\ cls = "5"%byte /\ b = SMFIR_REJECT) ->
     match verdict_frame (w_ctx w) r with Some f => sent f w (send_error r w) | None => False end) as He.
  { intros cls b Hc. by destruct (send_error_sent r w cls b Hg Hl Hc) as (f & -> & ?). }
  unfold sendreply, getc, gets, bind, id. unfold promised in Hp. rewrite silent_bit in Hp. rewrite Hp. cbn [andb].
  unfold verdicts in Hr. rewrite !elem_of_cons, elem_of_nil in Hr.
  repeat destruct Hr as [->|Hr]; try done; try apply sent_plain.
  - specialize (He "5"%byte SMFIR_REJECT ltac:(auto)). simpl. by destruct (verdict_frame _ _).
  - specialize (He "4"%byte SMFIR_TEMPFAIL ltac:(auto)). simpl. by destruct (verdict_frame _ _).
Qed.

Definition nr_world (mta : Z) : world unit unit :=
  set_w_ctx (set_ctx_state ST_HELO (set_ctx_pflags SMFIP_NR_HELO (set_ctx_mta_pflags mta (zero_ctx tt))))
    (sample_world [] [PReady true false] [] [WAccept 9]).


Lemma verdict_reply_witness :
  sent (frame SMFIR_REJECT []) (eom_world [PReady true false] [WAccept 9])
    (sendreply SMFIS_REJECT (eom_world [PReady true false] [WAccept 9])).
Proof.
  apply (verdict_reply SMFIS_REJECT (eom_world [PReady true false] [WAccept 9])).
  - by repeat constructor.
  - reflexivity.
  - unfold verdicts. apply list_elem_of_In. simpl. tauto.
  - reflexivity.
Defined.

(** ** Negotiation *)

(** The 32-bit flags [a] are among the flags [b]. *)
Definition within (a b : Z) : Prop := Z.land (u32 a) (u32 b) = u32 a.

Lemma u32_land a b : u32 (Z.land a b) = Z.land (u32 a) (u32 b).
Proof.
  unfold u32. rewrite <- !Z.land_ones by lia. apply Z.bits_inj'. intros n Hn.
  rewrite !Z.land_spec. destruct (Z.testbit a n), (Z.testbit b n), (Z.testbit (Z.ones 32) n); done.
Qed.

Lemma u32_ul_int v : u32 (ul_of_int (int_of_ul v)) = u32 v.
Proof.
  unfold ul_of_int, int_of_ul, u64, s32, u32.
  change (2 ^ 64) with (2 ^ 32 * 2 ^ 32). rewrite Z.rem_mul_r by lia.
  rewrite (Z.mul_comm (2 ^ 32) (_ / _ mod _)), Z.mod_add, Z.mod_mod by lia.
  rewrite Zminus_mod_idemp_l. f_equal. lia.
Qed.

Lemma lacks_within set v : lacks set (int_of_ul v) = false -> within v set.
Proof.
  unfold lacks, within. intros H. apply negb_false_iff, Z.eqb_eq in H.
  rewrite <- (u32_ul_int v), <- u32_land, Z.land_comm. by rewrite H.
Qed.

Lemma within_land a b m : within a b -> within (Z.land a m) b.
Proof.
  unfold within. intros H. rewrite u32_land.
  rewrite <- Z.land_assoc, (Z.land_comm (u32 m)), Z.land_assoc. by rewrite H.
Qed.

Section negotiation.
Context {P S : Type}.
Implicit Types w : world P S.

(** What both sides agree to. *)
Definition agreed (c : smfi_str P) : Prop :=
  within (ctx_aflags c) (ctx_mta_aflags c) /\
  within (ctx_pflags2mta c) (ctx_mta_pflags c) /\
  Z.land (ctx_pflags2mta c) SMFI_INTERNAL = 0.

Lemma opt_check_agreed w : wp True opt_check (fun r w' =>
  r = _SMFIS_OPTIONS -> agreed (w_ctx w') /\
  ctx_prot_vers2mta (w_ctx w') = ctx_prot_vers2mta (w_ctx w) /\
  ctx_mta_aflags (w_ctx w') = ctx_mta_aflags (w_ctx w) /\
  ctx_mta_pflags (w_ctx w') = ctx_mta_pflags (w_ctx w)) w.
Proof.
  unfold opt_check. apply wp_bind, wp_getc. unfold id.
  destruct (lacks (ctx_mta_aflags (w_ctx w)) _) eqn:Ea; [done|].
  apply wp_bind, wp_modc, wp_bind, wp_getc. unfold id. cbn [w_ctx set_w_ctx].
  set (c1 := if lacks (ctx_mta_pflags (w_ctx w)) _ then _ else _).
  assert (ctx_aflags c1 = ctx_aflags (w_ctx w) /\ ctx_mta_aflags c1 = ctx_mta_aflags (w_ctx w) /\
          ctx_prot_vers2mta c1 = ctx_prot_vers2mta (w_ctx w) /\
          ctx_mta_pflags c1 = ctx_mta_pflags (w_ctx w)) as (E1 & E2 & E3 & E4)
    by (unfold c1, drop_flag; by repeat case_match).
  clearbody c1. destruct (lacks (ctx_mta_pflags c1) _) eqn:Ep; [done|].
  apply wp_bind. unfold wp at 1, modify. apply wp_bind, wp_modc, wp_ret. intros _.
  cbn [w_ctx set_w_ctx set_w_next_states]. split; [|done]. unfold agreed.
  cbn [ctx_aflags ctx_mta_aflags ctx_pflags2mta ctx_mta_pflags set_ctx_pflags2mta].
  split; [rewrite E1, E2; by apply lacks_within|].
  split; [apply within_land; by apply lacks_within|].
  rewrite <- Z.land_assoc. replace (Z.land NOT_INTERNAL SMFI_INTERNAL) with 0 by (vm_compute; reflexivity).
  apply Z.land_0_r.
Qed.

Lemma opt_offer_version smfi g w : wp True (opt_offer (P := P) (S := S) smfi g) (fun o w' =>
  o = Some tt -> SMFI_PROT_VERSION_MIN <= ctx_prot_vers2mta (w_ctx w') <= SMFI_PROT_VERSION) w.
Proof.
  unfold opt_offer. apply wp_bind, wp_modc, wp_bind, wp_modc.
  destruct (_ <? _); [done|]. apply wp_bind, wp_deref. destruct (a_buf g) as [b|]; [|done].
  apply wp_bind, wp_deref. destruct (de32 b 0) as [v|]; [|done].
  destruct (Z.ltb_spec (s32 v) SMFI_PROT_VERSION_MIN) as [|Hv]; [done|].
  apply wp_bind, wp_modc, wp_bind, wp_getc, wp_bind, wp_modc, wp_bind, wp_deref.
  destruct (de32 b MILTER_LEN_BYTES); [|done]. apply wp_bind, wp_modc, wp_bind, wp_deref.
  destruct (de32 b (MILTER_LEN_BYTES * 2)); [|done]. apply wp_bind, wp_modc, wp_bind, wp_modc, wp_ret. intros _.
  cbn -[Z.ltb SMFI_PROT_VERSION SMFI_PROT_VERSION_MIN s32].
  destruct (Z.ltb_spec SMFI_PROT_VERSION (s32 v)); [vm_compute; split; discriminate|lia].
Qed.

Lemma opt_choose_version smfi {Hwb : WellBehaved True smfi} w : ctx_good (w_ctx w) ->
  wp True (opt_choose (P := P) (S := S) smfi)
     (fun _ w' => ctx_prot_vers2mta (w_ctx w') = ctx_prot_vers2mta (w_ctx w)) w.
Proof.
  intros Hg. unfold opt_choose.
  destruct (if 4 <? xxfi_version smfi then xxfi_negotiate smfi else None) as [f|] eqn:Ef; [|done].
  assert (xxfi_negotiate smfi = Some f) as Ef' by (by destruct (4 <? xxfi_version smfi)).
  apply wp_bind, wp_getc. cbv zeta.
  eapply (wp_seq _ _ _ (fun _ w' => ctx_prot_vers2mta (w_ctx w') = ctx_prot_vers2mta (w_ctx w))).
  { unfold call. apply wp_bind. unfold wp at 1, modify.
    eapply wp_mono; [by eapply wb_negotiate|]. intros a w' [[] _]. done. }
  intros [[r af] pf] w1 H1.
  assert (forall w2 : world P S, ctx_prot_vers2mta (w_ctx w2) = ctx_prot_vers2mta (w_ctx w) ->
    wp True (modc (fun c => if lacks (ctx_mta_pflags c) (int_of_ul (ctx_pflags2mta c))
                       then set_ctx_pflags2mta (unfake 32 0 (ctx_mta_pflags c) (ctx_pflags2mta c)) c
                       else c) ;;; ret (Some tt))
       (fun _ w' => ctx_prot_vers2mta (w_ctx w') = ctx_prot_vers2mta (w_ctx w)) w2) as Hend.
  { intros w2 H2. apply wp_bind, wp_modc, wp_ret. cbn [w_ctx set_w_ctx].
    match goal with |- context [if ?b then _ else _] => destruct b end; exact H2. }
  destruct (r =? SMFIS_ALL_OPTS).
  { do 3 apply wp_bind. apply wp_modc, wp_bind, wp_modc, wp_ret, Hend. exact H1. }
  destruct (negb (r =? SMFIS_CONTINUE)); [exact H1|].
  do 2 apply wp_bind. apply wp_modc, wp_bind, wp_modc, wp_bind, wp_modc, wp_ret, Hend. exact H1.
Qed.

(** The three words of the answer. *)
Lemma send_options_wire w : ctx_good (w_ctx w) -> w_oom w = [] ->
  exists lists, let c := w_ctx w in
    let p := be32 (ctx_prot_vers2mta c) ++ be32 (ctx_aflags c) ++ be32 (ctx_pflags2mta c) ++ lists in
    Z.of_nat (length p) + 1 < 2 ^ 32 ->
    ends (wrote (frame SMFIC_OPTNEG p) w) (wrote_part (frame SMFIC_OPTNEG p) w) (send_options w).
Proof.
  intros Hg Ho. destruct (symlist_ok _ (proj2 Hg) 0) as (n & t & Hn & Ht & Hl & H0).
  set (c := w_ctx w) in *. set (b := be32 (ctx_prot_vers2mta c) ++ be32 (ctx_aflags c) ++ be32 (ctx_pflags2mta c)).
  assert (length b = 12%nat) as Hb by done.
  assert (exists lists, milter_addsymlist b w = Done (Some (b ++ lists), Z.of_nat (length (b ++ lists))) w) as (lists & Hadd).
  { unfold milter_addsymlist. rewrite (bind_run (getc ctx_mac_list) _ w (ctx_mac_list c) w eq_refl), Hn.
    cbn [deref]. rewrite bind_ret_l. destruct (Z.ltb_spec 0 n).
    - exists t. rewrite (bind_run _ _ _ _ _ (malloc_always _ Ho)). cbn [negb]. rewrite Ht. cbn [deref].
      rewrite bind_ret_l, length_app, Hb. change MILTER_OPTLEN with 12%nat.
      rewrite (proj2 (Z.eqb_eq _ _)) by lia. cbn [negb]. unfold ret. do 2 f_equal. lia.
    - exists []. by rewrite app_nil_r, Hb. }
  exists lists. intros c' p Hp. unfold send_options.
  rewrite (bind_run (getc id) _ w c w eq_refl). cbv zeta. fold b. rewrite (bind_run _ _ _ _ _ Hadd).
  assert (p = b ++ lists) as -> by (unfold p, b; by rewrite <- !app_assoc).
  by apply wr_cmd_frame.
Qed.

End negotiation.


Definition demo_offer : genarg :=
  mk_genarg 12 (Some (be32 6 ++ be32 0x1ff ++ be32 0x7ff)) CI_NONE.


(** ** Memory safety of the handlers *)

(** C11: with a filter whose callbacks have no undefined behaviour, no handler
    has any on any data a command can carry, and all keep the context's
    strings terminated; the one exception is the connect handler on data that
    is empty or has no NUL. *)
Theorem handlers_safe {P S} (smfi : smfiDesc (world P S)) (Hwb : WellBehaved False smfi)
  (f : st_fct) (g : genarg) (w : world P S)
  (Hg : ctx_good (w_ctx w)) (Hd : cmd_data (a_buf g) (a_len g))
  (Hc : f = st_connectinfo_ -> xxfi_connect smfi = None \/ conn_data (a_buf g)) :
  match run_fct smfi f g w with
  | Undef _ _ => False
  | Done r w' => ctx_good (w_ctx w')
  | _ => True
  end.
Proof.
  change (wp False (run_fct smfi f g) (fun _ w' => ctx_good (w_ctx w')) w).
  destruct (decide (f = st_optionneg_)) as [->|Ho].
  - eapply wp_mono; [by apply (st_optionneg_post False smfi)|]. by intros r w' (cbs & _ & [] & _).
  - eapply wp_mono; [by apply (run_fct_post False smfi); auto|]. by intros r w' (cbs & _ & []).
Qed.

Lemma handlers_safe_witness :
  match run_fct demo_filter st_header_ (mk_genarg 4 (Some (lit "A" ++ [x00] ++ lit "b" ++ [x00])) CI_NONE) demo_world with
  | Undef _ _ => False
  | Done r w' => ctx_good (w_ctx w')
  | _ => True
  end.
Proof.
  apply (handlers_safe demo_filter demo_filter_ok).
  - by repeat constructor.
  - split; reflexivity.
  - discriminate.
Defined.

Lemma conn_scan_none s : no_nul s -> forall i, conn_scan s i = None.
Proof.
  induction 1 as [|c s Hc _ IH]; intros i; simpl; [done|]. rewrite decide_False by done. apply IH.
Qed.

(** The exception is real: for every filter with a connect callback, a
    connect command without data dereferences NULL, and one whose data has no
    NUL is read past its end. *)
Theorem connect_unterminated {P S} (smfi : smfiDesc (world P S)) fi
  (Hfi : xxfi_connect smfi = Some fi) (b : bytes) (Hb : no_nul b) (Hne : b <> []) (w : world P S) :
  (exists w', st_connectinfo smfi (mk_genarg 0 None CI_CONN) w = Undef NullDeref w') /\
  (exists w', st_connectinfo smfi (mk_genarg (Z.of_nat (length b)) (Some b) CI_CONN) w = Undef OutOfBounds w').
Proof.
  unfold st_connectinfo. rewrite Hfi. unfold bind, clr_later, mi_clr_macros, modc, modify. simpl.
  split; [eauto|]. rewrite conn_scan_none by done. simpl. eauto.
Qed.

Lemma connect_unterminated_witness :
  (exists w', st_connectinfo demo_filter (mk_genarg 0 None CI_CONN) demo_world = Undef NullDeref w') /\
  (exists w', st_connectinfo demo_filter (mk_genarg 2 (Some (lit "mx")) CI_CONN) demo_world = Undef OutOfBounds w').
Proof.
  apply (connect_unterminated demo_filter _ eq_refl (lit "mx")).
  - apply (bool_decide_unpack _). vm_compute. exact I.
  - discriminate.
Defined.

(** ** Decoding of the client's address *)

Lemma conn_scan_at s r : no_nul s -> forall i, conn_scan (s ++ x00 :: r) i = Some (i + length s)%nat.
Proof.
  induction 1 as [|c s Hc _ IH]; intros i; simpl; [by rewrite Nat.add_0_r|].
  rewrite decide_False, IH by done. f_equal. lia.
Qed.

Lemma dec_byte_no_nul b : no_nul (dec_byte b).
Proof. destruct b; by repeat constructor. Qed.

Lemma inet_ntop_no_nul a b c d : no_nul (inet_ntop [a; b; c; d]).
Proof.
  unfold inet_ntop. repeat (apply no_nul_app; split; [apply dec_byte_no_nul|]; apply no_nul_cons; split; [done|]).
  apply dec_byte_no_nul.
Qed.

Lemma conn_addr_inet {P S} (w : world P S) pre hi lo a b c d :
  let addr := inet_ntop [a; b; c; d] in
  let s := pre ++ [hi; lo] ++ addr ++ [x00] in
  conn_addr SMFIA_INET s (length pre) (length s) w =
    Done (Some (SA_INET [a; b; c; d] (uchar hi * 256 + uchar lo))) w.
Proof.
  intros addr s. assert (0 < length addr)%nat as Ha by (subst addr; unfold inet_ntop; rewrite length_app; simpl; lia).
  assert (length s = length pre + 2 + length addr + 1)%nat as Hl
    by (subst s; rewrite !length_app; cbn [length]; lia).
  unfold conn_addr. rewrite (proj2 (Nat.leb_gt _ _)) by lia.
  assert (s !! length pre = Some hi) as -> by (subst s; by rewrite lookup_app_r, Nat.sub_diag by lia).
  assert (s !! (length pre + 1)%nat = Some lo) as ->.
  { subst s. rewrite lookup_app_r by lia. by replace (length pre + 1 - length pre)%nat with 1%nat by lia. }
  cbn [deref]. rewrite !bind_ret_l.
  assert (s !! (length s - 1)%nat = Some x00) as ->.
  { replace (length s - 1)%nat with (pred (length s)) by lia. rewrite <- last_lookup.
    subst s. rewrite !app_assoc. apply last_snoc. }
  cbn [deref]. rewrite !bind_ret_l. rewrite decide_False by tauto. rewrite decide_True by done.
  unfold cstr_at. replace (drop (length pre + 2) s) with (addr ++ [x00]).
  2:{ subst s. rewrite drop_app_ge by lia. by replace (length pre + 2 - length pre)%nat with 2%nat by lia. }
  rewrite cstr_app by apply inet_ntop_no_nul. cbn [deref]. rewrite bind_ret_l.
  unfold addr. by rewrite inet_roundtrip.
Qed.

(** The client round trip.  For every host name, IPv4 address and port, the
    connect command an MTA builds from them (name, family, port in network
    order, dotted address) makes the connect callback with exactly that name,
    address and port. *)
Theorem connect_roundtrip {P S} (smfi : smfiDesc (world P S)) fi (Hfi : xxfi_connect smfi = Some fi)
  (host : bytes) (Hhost : no_nul host) (a b c d hi lo : byte) (w : world P S) :
  let data := host ++ [x00; SMFIA_INET; hi; lo] ++ inet_ntop [a; b; c; d] ++ [x00] in
  st_connectinfo smfi (mk_genarg (Z.of_nat (length data)) (Some data) CI_CONN) w =
  (mi_clr_macros 1 ;;;
   call CbConnect (fi host (Some (SA_INET [a; b; c; d] (uchar hi * 256 + uchar lo))))) w.
Proof.
  intros data. unfold st_connectinfo. rewrite Hfi. unfold clr_later. cbn [a_idx a_buf a_len].
  change (Z.to_nat (CI_CONN + 1)) with 1%nat.
  set (w1 := set_w_ctx (set_ctx_mac_ptr (take 1 (ctx_mac_ptr (w_ctx w)) ++ replicate (MAX_MACROS_ENTRIES - 1) None)
    (set_ctx_mac_buf (take 1 (ctx_mac_buf (w_ctx w)) ++ replicate (MAX_MACROS_ENTRIES - 1) None) (w_ctx w))) w).
  rewrite !(bind_run (mi_clr_macros 1) _ w tt w1 eq_refl).
  cbn [deref]. rewrite bind_ret_l, Nat2Z.id.
  assert (length data = length host + 4 + length (inet_ntop [a; b; c; d]) + 1)%nat as Hl
    by (subst data; rewrite !length_app; cbn [length]; lia).
  assert (conn_scan data 0 = Some (length host)) as -> by (by apply conn_scan_at).
  cbn [deref]. rewrite bind_ret_l. rewrite (proj2 (Nat.leb_gt _ _)) by lia.
  assert (cstr data = Some host) as -> by (by apply cstr_app). cbn [deref]. rewrite bind_ret_l.
  assert (data !! (length host + 1)%nat = Some SMFIA_INET) as ->.
  { subst data. rewrite lookup_app_r by lia. by replace (length host + 1 - length host)%nat with 1%nat by lia. }
  cbn [deref]. rewrite bind_ret_l. rewrite decide_False by done.
  pose proof (conn_addr_inet w1 (host ++ [x00; SMFIA_INET]) hi lo a b c d) as H. cbv zeta in H.
  rewrite length_app in H. simpl (length [x00; SMFIA_INET]) in H.
  replace ((host ++ [x00; SMFIA_INET]) ++ [hi; lo] ++ inet_ntop [a; b; c; d] ++ [x00]) with data in H
    by (subst data; by rewrite <- app_assoc).
  by rewrite (bind_run _ _ _ _ _ H).
Qed.

Lemma connect_roundtrip_witness :
  let data := lit "mx" ++ [x00; SMFIA_INET; x00; x19] ++ inet_ntop [x7f; x00; x00; x01] ++ [x00] in
  st_connectinfo demo_filter (mk_genarg (Z.of_nat (length data)) (Some data) CI_CONN) demo_world =
  (mi_clr_macros 1 ;;; call CbConnect continue_) demo_world.
Proof.
  apply (connect_roundtrip demo_filter (fun _ _ => continue_) eq_refl (lit "mx")).
  apply (bool_decide_unpack _). vm_compute. exact I.
Defined.

(** ** Behaviours worth knowing *)

(** A filter that rejects in its body callback. *)
Definition reject_body : smfiDesc (world unit unit) :=
  mk_smfiDesc (world unit unit) (lit "demo") SMFI_VERSION 0 None None None None None None
    (Some (fun _ _ => ret SMFIS_REJECT)) (Some continue_) None None None None None.

Definition rx_world (rx : bytes) (st : Z) : world unit unit :=
  mk_world (set_ctx_state st (zero_ctx tt))
    (mk_net rx [] (replicate 20 (PReady true false)) (replicate 20 (RAvail 100)) (replicate 20 (WAccept 100)))
    next_states MILTER_MAX_DATA_SIZE [] [] tt [].

(** An end-of-body command that carries data and whose body callback does
    not continue is answered twice: once by [st_bodyend] and once more by the
    loop, which gets the same result. *)
Theorem bodyend_answers_twice :
  n_tx (w_net (final (engine_round reject_body ST_BODY (rx_world (frame SMFIC_BODYEOB (lit "text")) ST_BODY)))) =
  frame SMFIR_REJECT [] ++ frame SMFIR_REJECT [].
Proof. vm_compute. reflexivity. Qed.

(** An MTA can skip negotiation and connection: a HELO as the very first
    command is reached "from HELO" and makes the callback, so a filter cannot
    rely on its connect callback having been called before. *)
Theorem helo_without_connect :
  w_trace (final (mi_engine demo_filter (rx_world (frame SMFIC_HELO (lit "x" ++ [x00])) ST_INIT))) =
  [CbHelo; CbClose].
Proof. vm_compute. reflexivity. Qed.
