(* ===== verification/Utils.v ===== *)
(** * pmilter's helpers: pmilter_utils.c and pmilter_log.c

    The HTTP date of the log lines (with the C library's [gmtime_r]), the
    decimal writer it uses, log levels, and the text form of a client address.
    Buffers are modelled as in Strl: a write outside makes the result [None].
    The main result is that the date text, read back, gives the time again. *)

From stdpp Require Import base list numbers strings option.
From Stdlib Require Import Strings.Byte ZArith Lia.
From S2P Require Import Prelude Mfdef Strl Inet.
Local Open Scope Z_scope.

(** ** The C library's calendar: [gmtime_r] *)

Record tm := mk_tm {
  tm_sec : Z; tm_min : Z; tm_hour : Z; tm_mday : Z; tm_mon : Z; tm_year : Z; tm_wday : Z
}.

Definition leap (y : Z) : bool :=
  (y mod 4 =? 0) && (negb (y mod 100 =? 0) || (y mod 400 =? 0)).
Definition year_days (y : Z) : Z := if leap y then 366 else 365.
Definition month_days (y : Z) : list Z :=
  [31; if leap y then 29 else 28; 31; 30; 31; 30; 31; 31; 30; 31; 30; 31].

(** The year of the day [n] days after the start of year [y], and the day in it. *)
Fixpoint find_year (fuel : nat) (y n : Z) : Z * Z :=
  match fuel with
  | O => (y, n)
  | S f => if n <? year_days y then (y, n) else find_year f (y + 1) (n - year_days y)
  end.

(** The month of a day of the year, and the day in it, both from 0. *)
Fixpoint find_month (ml : list Z) (m n : Z) : Z * Z :=
  match ml with
  | [] => (m, n)
  | l :: r => if n <? l then (m, n) else find_month r (m + 1) (n - l)
  end.

(** The calendar repeats every 400 years, which have 146097 days.  [None] when
    the year does not fit an [int]. *)
Definition gmtime_r (t : Z) : option tm :=
  let days := t / 86400 in
  let s := t mod 86400 in
  let (y, yd) := find_year 400 (1970 + 400 * (days / 146097)) (days mod 146097) in
  let (m, d) := find_month (month_days y) 0 yd in
  if (y - 1900 <? - 2 ^ 31) || (2 ^ 31 <=? y - 1900) then None
  else Some (mk_tm (s mod 60) (s / 60 mod 60) (s / 3600) (d + 1) m (y - 1900) ((4 + days) mod 7)).

(** ** pmilter_utils.c *)

Definition MONTH : list bytes :=
  lit <$> ["Jan"; "Feb"; "Mar"; "Apr"; "May"; "Jun"; "Jul"; "Aug"; "Sep"; "Oct"; "Nov"; "Dec"].
Definition DAY_OF_WEEK : list bytes := lit <$> ["Sun"; "Mon"; "Tue"; "Wed"; "Thu"; "Fri"; "Sat"].

(** [memcpy(dst + j, s, length s)] *)
Definition memcpy (dst : bytes) (j : nat) (s : bytes) : option bytes :=
  if (j + length s <=? length dst)%nat then Some (put dst j s) else None.

(** The loop of [dig_memcpy], from the last of [k] digits to the first. *)
Fixpoint dig_loop (k : nat) (dst : bytes) (buf : nat) (n : Z) : option bytes :=
  match k with
  | O => Some dst
  | S k' =>
      dst ← store dst (buf + k') (byte_of (Z.rem n 10 + 48));
      dig_loop k' dst buf (Z.quot n 10)
  end.

Definition dig_memcpy (dst : bytes) (buf : nat) (n : Z) (len : nat) : option (bytes * nat) :=
  dst ← dig_loop len dst buf n; Some (dst, (buf + len)%nat).

(** [pmilter_http_date_str] on the [tm] that [gmtime_r] gave. *)
Definition date_put (t : tm) (date : bytes) : option bytes :=
  wd ← DAY_OF_WEEK !! Z.to_nat (tm_wday t);
  date ← memcpy date 0 wd;
  date ← store date 3 ","%byte;
  date ← store date 4 " "%byte;
  '(date, p) ← dig_memcpy date 5 (tm_mday t) 2;
  date ← store date p " "%byte;
  mon ← MONTH !! Z.to_nat (tm_mon t);
  date ← memcpy date (p + 1) mon;
  date ← store date (p + 4) " "%byte;
  '(date, p) ← dig_memcpy date (p + 5) (tm_year t + 1900) 4;
  date ← store date p " "%byte;
  '(date, p) ← dig_memcpy date (p + 1) (tm_hour t) 2;
  date ← store date p ":"%byte;
  '(date, p) ← dig_memcpy date (p + 1) (tm_min t) 2;
  date ← store date p ":"%byte;
  '(date, p) ← dig_memcpy date (p + 1) (tm_sec t) 2;
  date ← memcpy date p (lit " GMT");
  store date (p + 4) x00.

Definition pmilter_http_date_str (time : Z) (date : bytes) : option bytes :=
  match gmtime_r time with
  | None => Some date
  | Some t => date_put t date
  end.

(** The text form of a client address: [inr (Some s)] is the string that is
    copied, [inr None] the result NULL; a NULL [hostaddr] is dereferenced, the
    fault on the left.  [st_connectinfo] makes no AF_INET6 addresses in this
    build. *)
Definition pmilter_ipaddr (hostaddr : option sockaddr) : fault + option bytes :=
  match hostaddr with
  | None => inl NullDeref
  | Some (SA_INET addr _) => inr (Some (inet_ntop addr))
  | Some (SA_UNIX _) => inr None
  end.

(** ** pmilter_log.c *)

Definition PMILTER_LOG_EMERG : Z := 0.
Definition PMILTER_LOG_ERR : Z := 3.
Definition PMILTER_LOG_WARN : Z := 4.
Definition PMILTER_LOG_NOTICE : Z := 5.
Definition PMILTER_LOG_DEBUG : Z := 7.

Definition err_levels : list bytes :=
  lit <$> ["emerg"; "alert"; "crit"; "error"; "warn"; "notice"; "info"; "debug"].

(** The loop over [err_levels]: the last match counts. *)
Fixpoint level_loop (level_str : bytes) (l : list bytes) (i level : Z) : Z :=
  match l with
  | [] => level
  | e :: r => level_loop level_str r (i + 1) (if decide (level_str = e) then i else level)
  end.

Definition pmilter_get_log_level (level_str : bytes) : Z :=
  level_loop level_str err_levels 0 PMILTER_LOG_WARN.

(** The macro [pmilter_log_error]: is the message written? *)
Definition log_enabled (log_level level : Z) : bool := level <=? log_level.

(** ** The calendar *)

(** Days from the start of 1970 to the start of a year. *)
Definition leaps (y : Z) : Z := y / 4 - y / 100 + y / 400.
Definition days_to_year (y : Z) : Z := 365 * (y - 1970) + leaps (y - 1) - leaps 1969.

Lemma days_to_year_succ y : days_to_year (y + 1) = days_to_year y + year_days y.
Proof.
  unfold days_to_year, year_days, leap, leaps. replace (y + 1 - 1) with y by lia.
  pose proof (Z.div_mod y 4). pose proof (Z.div_mod y 100). pose proof (Z.div_mod y 400).
  pose proof (Z.mod_pos_bound y 4). pose proof (Z.mod_pos_bound y 100). pose proof (Z.mod_pos_bound y 400).
  pose proof (Z.div_mod (y - 1) 4). pose proof (Z.div_mod (y - 1) 100). pose proof (Z.div_mod (y - 1) 400).
  pose proof (Z.mod_pos_bound (y - 1) 4). pose proof (Z.mod_pos_bound (y - 1) 100).
  pose proof (Z.mod_pos_bound (y - 1) 400).
  destruct (Z.eqb_spec (y mod 4) 0), (Z.eqb_spec (y mod 100) 0), (Z.eqb_spec (y mod 400) 0); cbn [negb andb orb]; lia.
Qed.

Lemma days_to_year_cycle y k : days_to_year (y + 400 * k) = days_to_year y + 146097 * k.
Proof.
  unfold days_to_year, leaps.
  replace (y + 400 * k - 1) with (y - 1 + k * 400) by lia.
  rewrite Z.div_add by lia.
  replace (y - 1 + k * 400) with (y - 1 + (100 * k) * 4) at 1 by lia. rewrite Z.div_add by lia.
  replace (y - 1 + k * 400) with (y - 1 + (4 * k) * 100) by lia. rewrite Z.div_add by lia. lia.
Qed.

Lemma find_year_days fuel : forall y n, 0 <= n ->
  let '(y', d) := find_year fuel y n in
  0 <= d /\ days_to_year y' + d = days_to_year y + n /\ y <= y' <= y + Z.of_nat fuel /\
  (y' < y + Z.of_nat fuel -> d < year_days y').
Proof.
  induction fuel as [|f IH]; intros y n Hn; cbn [find_year]; [lia|].
  destruct (Z.ltb_spec n (year_days y)); [lia|].
  specialize (IH (y + 1) (n - year_days y) ltac:(lia)).
  destruct (find_year f (y + 1) (n - year_days y)) as [y' d].
  rewrite days_to_year_succ in IH. lia.
Qed.

(** Days of the months before one. *)
Fixpoint sumz (l : list Z) : Z := match l with [] => 0 | x :: r => x + sumz r end.

Lemma find_month_days ml : forall m n, 0 <= n < sumz ml -> Forall (fun l => 28 <= l <= 31) ml ->
  let '(m', d) := find_month ml m n in
  m <= m' < m + Z.of_nat (length ml) /\ 0 <= d < 31 /\
  sumz (take (Z.to_nat (m' - m)) ml) + d = n.
Proof.
  induction ml as [|l r IH]; intros m n Hn Hl; simpl in Hn; [lia|].
  apply Forall_cons_iff in Hl as [Hl Hr]. cbn [find_month]. destruct (Z.ltb_spec n l).
  - simpl length. replace (Z.to_nat (m - m)) with O by lia. simpl. lia.
  - specialize (IH (m + 1) (n - l) ltac:(lia) Hr).
    destruct (find_month r (m + 1) (n - l)) as [m' d]. simpl length.
    destruct IH as (? & ? & ?). split; [lia|]. split; [lia|].
    replace (Z.to_nat (m' - m)) with (S (Z.to_nat (m' - (m + 1)))) by lia. simpl. lia.
Qed.

Lemma month_days_sum y : sumz (month_days y) = year_days y.
Proof. unfold month_days, year_days. by destruct (leap y). Qed.

Lemma month_days_range y : Forall (fun l => 28 <= l <= 31) (month_days y).
Proof. unfold month_days. destruct (leap y); repeat constructor; lia. Qed.

(** The seconds since the epoch of a broken-down time, by the calendar's rule. *)
Definition timegm (y m d hh mm ss : Z) : Z :=
  86400 * (days_to_year y + sumz (take (Z.to_nat m) (month_days y)) + (d - 1)) + 3600 * hh + 60 * mm + ss.

Lemma gmtime_timegm t : 0 <= t < 253402300800 ->
  exists x, gmtime_r t = Some x /\
    timegm (tm_year x + 1900) (tm_mon x) (tm_mday x) (tm_hour x) (tm_min x) (tm_sec x) = t /\
    0 <= tm_sec x < 60 /\ 0 <= tm_min x < 60 /\ 0 <= tm_hour x < 24 /\
    1 <= tm_mday x <= 31 /\ 0 <= tm_mon x < 12 /\ 1970 <= tm_year x + 1900 < 10000 /\ 0 <= tm_wday x < 7.
Proof.
  intros Ht. unfold gmtime_r.
  pose proof (Z.mod_pos_bound (t / 86400) 146097 ltac:(lia)) as Hr.
  pose proof (find_year_days 400 (1970 + 400 * (t / 86400 / 146097)) (t / 86400 mod 146097) ltac:(lia)) as Hy.
  destruct (find_year 400 _ _) as [y yd]. destruct Hy as (Hd0 & Heq & Hyr & Hlt).
  rewrite days_to_year_cycle in Heq. change (days_to_year 1970) with 0 in Heq.
  pose proof (Z.div_mod (t / 86400) 146097 ltac:(lia)) as Hdm.
  pose proof (Z.div_mod t 86400 ltac:(lia)) as Hdt. pose proof (Z.mod_pos_bound t 86400 ltac:(lia)) as Hs.
  assert (days_to_year y + yd = t / 86400) as Hn by lia.
  assert (0 <= t / 86400 < 2932897) as Hdays by lia.
  assert (yd < year_days y) as Hyd.
  { apply Hlt. destruct (decide (y < 1970 + 400 * (t / 86400 / 146097) + Z.of_nat 400)) as [?|Hge]; [done|].
    assert (y = 1970 + 400 * (t / 86400 / 146097 + 1)) as -> by lia.
    rewrite days_to_year_cycle in Hn. change (days_to_year 1970) with 0 in Hn. lia. }
  assert (0 <= t / 86400 / 146097) by (apply Z.div_pos; lia).
  assert (y < 10000) as Hy4.
  { destruct (decide (y < 10000)) as [?|Hge]; [done|].
    assert (days_to_year 10000 <= days_to_year y) as Hmono.
    { unfold days_to_year, leaps.
      pose proof (Z.div_mod (y - 1) 4 ltac:(lia)). pose proof (Z.mod_pos_bound (y - 1) 4 ltac:(lia)).
      pose proof (Z.div_mod (y - 1) 100 ltac:(lia)). pose proof (Z.mod_pos_bound (y - 1) 100 ltac:(lia)).
      pose proof (Z.div_mod (y - 1) 400 ltac:(lia)). pose proof (Z.mod_pos_bound (y - 1) 400 ltac:(lia)).
      change ((10000 - 1) / 4 - (10000 - 1) / 100 + (10000 - 1) / 400) with 2424. lia. }
    change (days_to_year 10000) with 2932897 in Hmono. lia. }
  pose proof (find_month_days (month_days y) 0 yd) as Hm. rewrite month_days_sum in Hm.
  specialize (Hm ltac:(lia) (month_days_range y)). destruct (find_month _ _ _) as [m d].
  destruct Hm as (Hm12 & Hd31 & Hsum). simpl length in Hm12. rewrite Z.sub_0_r in Hsum.
  rewrite (proj2 (Z.ltb_ge _ _)) by lia. rewrite (proj2 (Z.leb_gt _ _)) by lia.
  eexists. split; [done|]. cbn [tm_year tm_mon tm_mday tm_hour tm_min tm_sec tm_wday].
  pose proof (Z.mod_pos_bound (4 + t / 86400) 7 ltac:(lia)).
  pose proof (Z.div_mod (t mod 86400) 60 ltac:(lia)). pose proof (Z.mod_pos_bound (t mod 86400) 60 ltac:(lia)).
  pose proof (Z.div_mod (t mod 86400 / 60) 60 ltac:(lia)).
  pose proof (Z.mod_pos_bound (t mod 86400 / 60) 60 ltac:(lia)).
  assert (t mod 86400 / 3600 = t mod 86400 / 60 / 60) as E by (rewrite Z.div_div by lia; done).
  rewrite E. split.
  - unfold timegm. replace (y - 1900 + 1900) with y by lia. lia.
  - repeat split; lia.
Qed.

(** ** Writing the date *)

Lemma put_before dst j s t : (j + length s <= length dst)%nat ->
  put (put dst (j + length s) t) j s = put dst j (s ++ t).
Proof.
  intros H. unfold put.
  assert (length (take (j + length s) dst) = (j + length s)%nat) as Hl by (rewrite length_take; lia).
  rewrite take_app_le by lia. rewrite take_take, Nat.min_l by lia.
  rewrite drop_app_length' by done. rewrite length_app, <- !app_assoc. by rewrite Nat.add_assoc.
Qed.

Lemma put_start dst j s t : length s = j -> (j + length t <= length dst)%nat ->
  put (put dst 0 s) j t = put dst 0 (s ++ t).
Proof. intros <- H. by rewrite <- (put_put dst 0 s t). Qed.

Lemma store_start dst j s c : length s = j -> (j < length dst)%nat ->
  store (put dst 0 s) j c = Some (put dst 0 (s ++ [c])).
Proof.
  intros Hs Hj. unfold store. rewrite length_put by lia. rewrite (proj2 (Nat.ltb_lt _ _)) by done.
  rewrite put_one by (rewrite length_put; lia). rewrite put_start; [done..|]. simpl. lia.
Qed.

Lemma memcpy_start dst j s t : length s = j -> (j + length t <= length dst)%nat ->
  memcpy (put dst 0 s) j t = Some (put dst 0 (s ++ t)).
Proof.
  intros Hs Hj. unfold memcpy. rewrite length_put by lia. rewrite (proj2 (Nat.leb_le _ _)) by done.
  by rewrite put_start.
Qed.

(** The last [k] decimal digits of [n]. *)
Fixpoint dec_digits (k : nat) (n : Z) : bytes :=
  match k with
  | O => []
  | S k' => dec_digits k' (Z.quot n 10) ++ [byte_of (Z.rem n 10 + 48)]
  end.

Lemma length_dec_digits k : forall n, length (dec_digits k n) = k.
Proof. induction k as [|k IH]; intros n; simpl; [done|]. rewrite length_app, IH. simpl. lia. Qed.

Lemma dig_loop_put k : forall dst buf n, (buf + k <= length dst)%nat ->
  dig_loop k dst buf n = Some (put dst buf (dec_digits k n)).
Proof.
  induction k as [|k IH]; intros dst buf n H; simpl; [by rewrite put_nil|].
  unfold store. rewrite (proj2 (Nat.ltb_lt _ _)) by lia. simpl.
  rewrite put_one by lia. rewrite IH by (rewrite length_put; simpl; lia). f_equal.
  rewrite <- (length_dec_digits k (n ÷ 10)) at 1. apply put_before. rewrite length_dec_digits. lia.
Qed.

Lemma dig_memcpy_start dst j s n k : length s = j -> (j + k <= length dst)%nat ->
  dig_memcpy (put dst 0 s) j n k = Some (put dst 0 (s ++ dec_digits k n), (j + k)%nat).
Proof.
  intros Hs Hj. unfold dig_memcpy. rewrite dig_loop_put by (rewrite length_put; lia). simpl.
  rewrite put_start; [done..|]. by rewrite length_dec_digits.
Qed.

(** The text of a date. *)
Definition date_text (x : tm) (wd mon : bytes) : bytes :=
  wd ++ lit ", " ++ dec_digits 2 (tm_mday x) ++ lit " " ++ mon ++ lit " " ++
  dec_digits 4 (tm_year x + 1900) ++ lit " " ++ dec_digits 2 (tm_hour x) ++ lit ":" ++
  dec_digits 2 (tm_min x) ++ lit ":" ++ dec_digits 2 (tm_sec x) ++ lit " GMT".

Ltac date_step :=
  first [rewrite store_start by (rewrite ?length_app, ?length_dec_digits; simpl; lia)
        |rewrite memcpy_start by (rewrite ?length_app, ?length_dec_digits; simpl; lia)
        |rewrite dig_memcpy_start by (rewrite ?length_app, ?length_dec_digits; simpl; lia)];
  cbn [mbind option_bind].

Lemma date_put_run x wd mon date :
  DAY_OF_WEEK !! Z.to_nat (tm_wday x) = Some wd -> MONTH !! Z.to_nat (tm_mon x) = Some mon ->
  length wd = 3%nat -> length mon = 3%nat -> (30 <= length date)%nat ->
  date_put x date = Some (put date 0 (date_text x wd mon ++ [x00])).
Proof.
  intros Hw Hm Lw Lm Hd. unfold date_put. rewrite Hw, Hm. cbn [mbind option_bind].
  rewrite <- (put_nil date 0) at 1. repeat date_step. unfold date_text. by rewrite <- !app_assoc.
Qed.

(** ** Reading it back *)

Definition read_dec (s : bytes) : Z := fold_left (fun acc c => 10 * acc + (uchar c - 48)) s 0.

(** The time a date text stands for. *)
Definition date_read (s : bytes) : option Z :=
  '(m, _) ← list_find (fun n => n = take 3 (drop 8 s)) MONTH;
  let num (off len : nat) := read_dec (take len (drop off s)) in
  Some (timegm (num 12%nat 4%nat) (Z.of_nat m) (num 5%nat 2%nat) (num 17%nat 2%nat) (num 20%nat 2%nat) (num 23%nat 2%nat)).

Lemma read_dec_snoc s c : read_dec (s ++ [c]) = 10 * read_dec s + (uchar c - 48).
Proof. unfold read_dec. by rewrite fold_left_app. Qed.

Lemma read_dec_digits k : forall n, 0 <= n < 10 ^ Z.of_nat k -> read_dec (dec_digits k n) = n.
Proof.
  induction k as [|k IH]; intros n Hn; [change (10 ^ Z.of_nat 0) with 1 in Hn; assert (n = 0) as -> by lia; done|].
  cbn [dec_digits]. rewrite read_dec_snoc, uchar_byte_of.
  rewrite Z.quot_div_nonneg, Z.rem_mod_nonneg by lia.
  pose proof (Z.mod_pos_bound n 10 ltac:(lia)). pose proof (Z.div_mod n 10 ltac:(lia)).
  rewrite (Z.mod_small (n mod 10 + 48)) by lia. rewrite IH; [lia|].
  replace (Z.of_nat (S k)) with (Z.of_nat k + 1) in Hn by lia. rewrite Z.pow_add_r in Hn by lia.
  split; [apply Z.div_pos; lia|]. apply Z.div_lt_upper_bound; lia.
Qed.

(** A field of a text that is split around it. *)
Lemma text_at (t : bytes) (off : nat) (pre s post : bytes) (len : nat) :
  t = pre ++ s ++ post -> length pre = off -> length s = len -> take len (drop off t) = s.
Proof. intros -> <- <-. by rewrite drop_app_length, take_app_length. Qed.

Lemma month_name m mon : MONTH !! m = Some mon ->
  length mon = 3%nat /\ list_find (fun n => n = mon) MONTH = Some (m, mon) /\ no_nul mon.
Proof.
  do 12 (destruct m as [|m]; [intros [= <-]; (split; [|split]); [vm_compute; done..|]; by apply (bool_decide_unpack _)|]). done.
Qed.

Lemma day_name d : 0 <= d < 7 -> exists wd, DAY_OF_WEEK !! Z.to_nat d = Some wd /\ length wd = 3%nat /\ no_nul wd.
Proof.
  intros Hd. assert (d = 0 \/ d = 1 \/ d = 2 \/ d = 3 \/ d = 4 \/ d = 5 \/ d = 6) as H by lia.
  destruct H as [->|[->|[->|[->|[->|[->| ->]]]]]]; eexists;
    (split; [reflexivity|split; [reflexivity|]]); by apply (bool_decide_unpack _).
Qed.

Ltac text_split :=
  match goal with
  | |- ?t = _ ++ _ ++ _ => subst t; rewrite <- ?app_assoc; reflexivity
  | |- length _ = _ => rewrite ?length_app, ?length_dec_digits; simpl; lia
  end.

Lemma date_text_read x wd mon :
  length wd = 3%nat -> MONTH !! Z.to_nat (tm_mon x) = Some mon ->
  0 <= tm_mon x -> 0 <= tm_mday x < 100 -> 0 <= tm_year x + 1900 < 10000 -> 0 <= tm_hour x < 100 ->
  0 <= tm_min x < 100 -> 0 <= tm_sec x < 100 ->
  date_read (date_text x wd mon) =
    Some (timegm (tm_year x + 1900) (tm_mon x) (tm_mday x) (tm_hour x) (tm_min x) (tm_sec x)).
Proof.
  intros Lw Hm H0 Hmd Hy Hh Hmi Hs. destruct (month_name _ _ Hm) as (Lm & Hf & _).
  unfold date_read, date_text. set (t := wd ++ _).
  rewrite (text_at t 8 (wd ++ lit ", " ++ dec_digits 2 (tm_mday x) ++ lit " ") mon _ 3) by text_split.
  rewrite Hf. cbn [mbind option_bind].
  rewrite (text_at t 12 (wd ++ lit ", " ++ dec_digits 2 (tm_mday x) ++ lit " " ++ mon ++ lit " ")
             (dec_digits 4 (tm_year x + 1900)) _ 4) by text_split.
  rewrite (text_at t 5 (wd ++ lit ", ") (dec_digits 2 (tm_mday x)) _ 2) by text_split.
  rewrite (text_at t 17 (wd ++ lit ", " ++ dec_digits 2 (tm_mday x) ++ lit " " ++ mon ++ lit " " ++
             dec_digits 4 (tm_year x + 1900) ++ lit " ") (dec_digits 2 (tm_hour x)) _ 2) by text_split.
  rewrite (text_at t 20 (wd ++ lit ", " ++ dec_digits 2 (tm_mday x) ++ lit " " ++ mon ++ lit " " ++
             dec_digits 4 (tm_year x + 1900) ++ lit " " ++ dec_digits 2 (tm_hour x) ++ lit ":")
             (dec_digits 2 (tm_min x)) _ 2) by text_split.
  rewrite (text_at t 23 (wd ++ lit ", " ++ dec_digits 2 (tm_mday x) ++ lit " " ++ mon ++ lit " " ++
             dec_digits 4 (tm_year x + 1900) ++ lit " " ++ dec_digits 2 (tm_hour x) ++ lit ":" ++
             dec_digits 2 (tm_min x) ++ lit ":") (dec_digits 2 (tm_sec x)) _ 2) by text_split.
  rewrite !read_dec_digits by (simpl; lia). by rewrite Z2Nat.id.
Qed.

Lemma length_date_text x wd mon : length wd = 3%nat -> length mon = 3%nat ->
  length (date_text x wd mon) = 29%nat.
Proof. intros Hw Hm. unfold date_text. by rewrite !length_app, !length_dec_digits, Hw, Hm. Qed.

Lemma dec_digits_no_nul k : forall n, 0 <= n -> no_nul (dec_digits k n).
Proof.
  induction k as [|k IH]; intros n H; simpl; [constructor|].
  apply no_nul_app. split; [apply IH, Z.quot_pos; lia|]. apply no_nul_cons. split; [|constructor].
  intros E. apply (f_equal uchar) in E. rewrite uchar_byte_of in E. change (uchar x00) with 0 in E.
  pose proof (Z.rem_bound_pos n 10). rewrite Z.mod_small in E; lia.
Qed.

Lemma date_text_no_nul x wd mon : no_nul wd -> no_nul mon -> 0 <= tm_mday x -> 0 <= tm_year x + 1900 ->
  0 <= tm_hour x -> 0 <= tm_min x -> 0 <= tm_sec x -> no_nul (date_text x wd mon).
Proof.
  intros Hw Hm Hd Hy Hh Hi Hs. unfold date_text. rewrite !no_nul_app.
  repeat split; try done; try (by apply dec_digits_no_nul); by apply (bool_decide_unpack _).
Qed.

(** For every time up to the year 9999, [pmilter_http_date_str] writes 29
    characters and the NUL, and nothing past them, into any buffer that has
    room for 30, and the date text read by the rules of the calendar is that
    time. *)
Theorem http_date_roundtrip (time : Z) (date : bytes)
  (Ht : 0 <= time < 253402300800) (Hd : (30 <= length date)%nat) :
  exists s, pmilter_http_date_str time date = Some (s ++ x00 :: drop 30 date) /\
    length s = 29%nat /\ no_nul s /\ date_read s = Some time.
Proof.
  destruct (gmtime_timegm time Ht) as (x & Hx & Htm & ? & ? & ? & ? & ? & ? & Hwd).
  destruct (day_name _ Hwd) as (wd & Ew & Lw & Nw).
  destruct (lookup_lt_is_Some_2 MONTH (Z.to_nat (tm_mon x))) as [mon Em]; [simpl; lia|].
  destruct (month_name _ _ Em) as (Lm & _ & Nm).
  exists (date_text x wd mon). pose proof (length_date_text x wd mon Lw Lm) as Hl.
  split; [|split; [done|split]].
  - unfold pmilter_http_date_str. rewrite Hx, (date_put_run x wd mon) by done.
    unfold put. rewrite length_app, Hl, <- app_assoc. done.
  - apply date_text_no_nul; done || lia.
  - rewrite date_text_read by (done || lia). by rewrite Htm.
Qed.

Lemma http_date_roundtrip_witness :
  exists s, pmilter_http_date_str 1419669029 (replicate 64 x00) = Some (s ++ x00 :: drop 30 (replicate 64 x00)) /\
    length s = 29%nat /\ no_nul s /\ date_read s = Some 1419669029.
Proof. apply http_date_roundtrip; [lia|]. simpl. lia. Defined.

Lemma http_date_example :
  pmilter_http_date_str 1419669029 (replicate 30 x00) = Some (lit "Sat, 27 Dec 2014 08:30:29 GMT" ++ [x00]).
Proof. vm_compute. reflexivity. Qed.

(** Every level is its index in the table, and any other string is the default. *)
Lemma log_level_exact s :
  (exists i, err_levels !! i = Some s /\ pmilter_get_log_level s = Z.of_nat i) \/
  ((s ∉ err_levels) /\ pmilter_get_log_level s = PMILTER_LOG_WARN).
Proof.
  destruct (decide (s ∈ err_levels)) as [Hin|Hout].
  - left. apply list_elem_of_lookup in Hin as [i Hi]. exists i. split; [done|].
    do 8 (destruct i as [|i]; [injection Hi as <-; vm_compute; reflexivity|]). done.
  - right. split; [done|]. unfold pmilter_get_log_level. generalize PMILTER_LOG_WARN, 0.
    induction err_levels as [|e l IH]; intros lv i; [done|]. simpl.
    rewrite decide_False by (intros ->; apply Hout, list_elem_of_here). apply IH.
    intros Hin. by apply Hout, list_elem_of_further.
Qed.
