(* ===== verification/Log.v ===== *)
(** * Log lines: pmilter_log.c

    What [pmilter_log_error] writes to stderr.  [vfprintf] is the function of
    the C library on the conversions the program uses, %s and %d, with the
    arguments in the order of the call; [None] is undefined behaviour: an
    argument that is missing or of the wrong type, a level outside the table, a
    date that is not terminated.  [log_call] lists every call of
    [pmilter_log_error] in the program, with its level, format and arguments. *)

From stdpp Require Import base option numbers strings list.
From Stdlib Require Import Strings.Byte ZArith Lia.
From S2P Require Import Prelude Utils.
Local Open Scope Z_scope.

Inductive va_arg :=
  | VaString (s : bytes)
  | VaInt (z : Z).

Fixpoint vfprintf (fmt : bytes) (args : list va_arg) : option bytes :=
  match fmt with
  | [] => Some []
  | c :: r =>
      if decide (c = "%"%byte) then
        match r, args with
        | "s"%byte :: r, VaString s :: args => app s <$> vfprintf r args
        | "d"%byte :: r, VaInt z :: args => app (fmt_d z) <$> vfprintf r args
        | _, _ => None
        end
      else cons c <$> vfprintf r args
  end.

(** [now] is what [time] gives, [date] the content of the array before. *)
Definition pmilter_log_core_error (now : Z) (date : bytes) (level : Z) (fmt : bytes) (args : list va_arg) : option bytes :=
  date ← pmilter_http_date_str now date;
  d ← cstr date;
  l ← (if level <? 0 then None else err_levels !! Z.to_nat level);
  m ← vfprintf fmt args;
  Some (lit "[" ++ d ++ lit "][" ++ l ++ lit "]: " ++ m ++ [x0a]).

(** The macro: nothing is written below the configured level. *)
Definition pmilter_log_error (now : Z) (date : bytes) (level log_level : Z) (fmt : bytes) (args : list va_arg) : option bytes :=
  if log_enabled log_level level then pmilter_log_core_error now date level fmt args else Some [].

(** ** The calls *)

Inductive log_call :=
  | LMrbRun (inspect : bytes)
  | LCompileFile (func : bytes) (line : Z) (file : bytes)
  | LCompileString (func : bytes) (line : Z) (code : bytes)
  | LHandlerCompile (hook_phase : bytes)
  | LHandlerRun (hook_phase : bytes)
  | LCallback (func : bytes)
  | LSetconn | LSettimeout | LSetbacklog | LRegister
  | LStarting (description mruby_version : bytes)
  | LNotInteger (key : bytes) | LNotString (key : bytes) | LNotBool (key : bytes)
  | LNtop4 | LNtop6
  | LUnknownFamily (sa_family : Z).

Definition call_level (c : log_call) : Z :=
  match c with
  | LCompileFile _ _ _ | LCompileString _ _ _ | LCallback _ => PMILTER_LOG_DEBUG
  | LStarting _ _ => PMILTER_LOG_NOTICE
  | LNotInteger _ | LNotString _ | LNotBool _ => PMILTER_LOG_EMERG
  | _ => PMILTER_LOG_ERR
  end.

(** The phase's name is pasted into the format of its messages. *)
Definition call_format (c : log_call) : bytes :=
  match c with
  | LMrbRun _ => lit "mrb_run failed: error: %s"
  | LCompileFile _ _ _ => lit "%s:%d: compile info: code->code.file=(%s)"
  | LCompileString _ _ _ => lit "%s:%d: compile info: code->code.string=(%s)"
  | LHandlerCompile p => p ++ lit " handler compile failed"
  | LHandlerRun p => p ++ lit " handler run failed"
  | LCallback _ => lit "=== %s ==="
  | LSetconn => lit "smfi_setconn failed: port or socket already exists?"
  | LSettimeout => lit "smfi_settimeout failed"
  | LSetbacklog => lit "smfi_setbacklog failed"
  | LRegister => lit "smfi_register failed" ++ [x0a]
  | LStarting _ _ => lit "%s starting (using mruby %s)"
  | LNotInteger _ => lit "%s must be integer type in config"
  | LNotString _ => lit "%s must be string type in config"
  | LNotBool _ => lit "%s must be boolen type in config"
  | LNtop4 => lit "inet_ntop AF_INET4 failed" ++ [x0a]
  | LNtop6 => lit "inet_ntop AF_INET6 failed" ++ [x0a]
  | LUnknownFamily _ => lit "Unknown protocol: sa_familyr=%d" ++ [x0a]
  end.

Definition call_args (c : log_call) : list va_arg :=
  match c with
  | LMrbRun s | LCallback s | LNotInteger s | LNotString s | LNotBool s => [VaString s]
  | LCompileFile f l s | LCompileString f l s => [VaString f; VaInt l; VaString s]
  | LStarting d v => [VaString d; VaString v]
  | LUnknownFamily z => [VaInt z]
  | _ => []
  end.

(** The phases [PMILTER_DEFINE_MRUBY_CONFIG_HADNLER] is used for. *)
Definition call_phase_ok (c : log_call) : Prop :=
  match c with
  | LHandlerCompile p | LHandlerRun p => p = lit "postconfig" \/ p = lit "master_exit"
  | _ => True
  end.

(** ** The line *)

(** The message of a call: what its format stands for. *)
Definition call_message (c : log_call) : bytes :=
  match c with
  | LMrbRun s => lit "mrb_run failed: error: " ++ s
  | LCompileFile f l s => f ++ lit ":" ++ fmt_d l ++ lit ": compile info: code->code.file=(" ++ s ++ lit ")"
  | LCompileString f l s => f ++ lit ":" ++ fmt_d l ++ lit ": compile info: code->code.string=(" ++ s ++ lit ")"
  | LCallback f => lit "=== " ++ f ++ lit " ==="
  | LStarting d v => d ++ lit " starting (using mruby " ++ v ++ lit ")"
  | LNotInteger k => k ++ lit " must be integer type in config"
  | LNotString k => k ++ lit " must be string type in config"
  | LNotBool k => k ++ lit " must be boolen type in config"
  | LUnknownFamily z => lit "Unknown protocol: sa_familyr=" ++ fmt_d z ++ [x0a]
  | _ => call_format c
  end.

Lemma call_prints (c : log_call) : call_phase_ok c ->
  vfprintf (call_format c) (call_args c) = Some (call_message c).
Proof.
  destruct c; intros H; try (destruct H as [->| ->]); try reflexivity;
    cbn -[fmt_d app]; by rewrite ?app_nil_r.
Qed.

Lemma call_level_range c : 0 <= call_level c < 8.
Proof. by destruct c. Qed.

(** A log message at a level the configuration admits is one record: the date
    in brackets, which reads back as the time, the name of the level, which
    reads back as the level, and the message; at other levels nothing is
    written.  No call of the program has a conversion that lacks its argument,
    and the date fits the array of 64 whatever it held. *)
Theorem log_record_exact (c : log_call) (now log_level : Z) (date : bytes)
  (Hnow : 0 <= now < 253402300800) (Hdate : length date = 64%nat) (Hc : call_phase_ok c) :
  exists d l,
    pmilter_log_error now date (call_level c) log_level (call_format c) (call_args c) =
      Some (if call_level c <=? log_level
            then lit "[" ++ d ++ lit "][" ++ l ++ lit "]: " ++ call_message c ++ [x0a] else []) /\
    date_read d = Some now /\ pmilter_get_log_level l = call_level c.
Proof.
  destruct (http_date_roundtrip now date Hnow) as (s & Hs & _ & Hz & Hr); [lia|].
  pose proof (call_level_range c) as Hl.
  destruct (lookup_lt_is_Some_2 err_levels (Z.to_nat (call_level c))) as [l El]; [simpl; lia|].
  exists s, l. split; [|split; [done|]].
  - unfold pmilter_log_error, log_enabled, pmilter_log_core_error.
    destruct (call_level c <=? log_level); [|done].
    rewrite Hs. cbn [mbind option_bind]. rewrite cstr_app by done. cbn [mbind option_bind].
    rewrite (proj2 (Z.ltb_ge _ _)) by lia. rewrite El. cbn [mbind option_bind].
    by rewrite (call_prints c Hc).
  - revert El. destruct c; intros [= <-]; vm_compute; reflexivity.
Qed.

Lemma log_record_exact_witness :
  exists d l,
    pmilter_log_error 1419669029 (replicate 64 x00) 7 7 (lit "=== %s ===") [VaString (lit "mrb_xxfi_eom")] =
      Some (lit "[" ++ d ++ lit "][" ++ l ++ lit "]: " ++ lit "=== mrb_xxfi_eom ===" ++ [x0a]) /\
    date_read d = Some 1419669029 /\ pmilter_get_log_level l = 7.
Proof.
  apply (log_record_exact (LCallback (lit "mrb_xxfi_eom")) 1419669029 7 (replicate 64 x00)); [lia|reflexivity|exact I].
Defined.

Lemma log_record_sample :
  pmilter_log_error 1419669029 (replicate 64 x00) PMILTER_LOG_NOTICE PMILTER_LOG_NOTICE
    (call_format (LStarting (lit "pmilter/0.0.2") (lit "1.2.0"))) (call_args (LStarting (lit "pmilter/0.0.2") (lit "1.2.0"))) =
  Some (lit "[Sat, 27 Dec 2014 08:30:29 GMT][notice]: pmilter/0.0.2 starting (using mruby 1.2.0)" ++ [x0a]).
Proof. vm_compute. reflexivity. Qed.
