(* ===== verification/Toml.v ===== *)
(** * The configuration tree: libtoml (toml.c, toml_private.c)

    A [struct toml_node] is a type, an optional name and a union.  The union's
    [map] and [list] members are the same list head and their items have the
    same layout, so both are [VItems]; a read of a member the value is not
    stored in is the fault [BadCast].  Modelled: [toml_init], [toml_get],
    [toml_type], [SawTable] and [SawTableArray], which the parser calls for
    the headers [\[a.b\]] and [\[\[a.b\]\]].  A pointer into the tree is the
    path from the root, as positions in the item lists.  The parser is in
    TomlParse.v; walking, freeing and printing a tree are in TomlTree.v. *)

From stdpp Require Import base option numbers strings list.
From Stdlib Require Import Strings.Byte ZArith Lia.
From S2P Require Import Prelude.
Local Open Scope Z_scope.

Inductive toml_type :=
  | TOML_ROOT | TOML_TABLE | TOML_LIST | TOML_INT | TOML_FLOAT | TOML_STRING
  | TOML_DATE | TOML_BOOLEAN | TOML_TABLE_ARRAY | TOML_INLINE_TABLE.

#[global] Instance toml_type_eq_dec : EqDecision toml_type.
Proof. solve_decision. Defined.

(** The enumerators' values. *)
Definition type_num (t : toml_type) : Z :=
  match t with
  | TOML_ROOT => 1 | TOML_TABLE => 2 | TOML_LIST => 3 | TOML_INT => 4 | TOML_FLOAT => 5
  | TOML_STRING => 6 | TOML_DATE => 7 | TOML_BOOLEAN => 8 | TOML_TABLE_ARRAY => 9
  | TOML_INLINE_TABLE => 10
  end.

(** The union of a node: [value.floating] is kept as its two members, the
    [double] as its bits. *)
Inductive toml_value (N : Type) :=
  | VItems (items : list N)
  | VInteger (z : Z)
  | VFloating (bits : Z) (precision : Z)
  | VString (s : bytes)
  | VTime (epoch sec_frac : Z) (offset_sign_negative : bool) (offset : Z) (offset_is_zulu : bool).
Arguments VItems {N} items.
Arguments VInteger {N} z.
Arguments VFloating {N} bits precision.
Arguments VString {N} s.
Arguments VTime {N} epoch sec_frac offset_sign_negative offset offset_is_zulu.

#[warnings="-register-all"]
Inductive toml_node := mk_node {
  n_type : toml_type;
  n_name : option bytes;
  n_value : toml_value toml_node
}.

(** [toml_init] *)
Definition toml_init : toml_node := mk_node TOML_ROOT None (VItems []).

(** [value.map] or [value.list] *)
Definition items (n : toml_node) : fault + list toml_node :=
  match n_value n with VItems l => inr l | _ => inl BadCast end.

(** The parser leaves the name of a list inside a list unset; NULL is not a
    name of a list otherwise. *)
Definition unset_name (n : toml_node) : bool :=
  bool_decide (n_type n = TOML_LIST) && bool_decide (n_name n = None).

(** The items of a node for a search by name, which reads their names.  (The
    items of a list are all lists, or none is.) *)
Definition map_items (n : toml_node) : fault + list toml_node :=
  match items n with
  | inl f => inl f
  | inr l => if existsb unset_name l then inl Indeterminate else inr l
  end.

(** All that [strsep(&name, ".")] returns, one after the other. *)
Fixpoint strsep_dot (s : bytes) : list bytes :=
  match s with
  | [] => [[]]
  | c :: r =>
      if decide (c = "."%byte) then [] :: strsep_dot r
      else match strsep_dot r with
           | [] => [[c]]
           | x :: xs => (c :: x) :: xs
           end
  end.

(** The first item of that name: its position and the node. *)
Definition find_item (name : bytes) (l : list toml_node) : option (nat * toml_node) :=
  list_find (fun n => n_name n = Some name) l.

(** The loop of [toml_get]. *)
Fixpoint get_loop (node : toml_node) (path : list bytes) : fault + option toml_node :=
  match path with
  | [] => inr (Some node)
  | a :: r =>
      match map_items node with
      | inl f => inl f
      | inr l => match find_item a l with
                 | Some (_, n) => get_loop n r
                 | None => inr None
                 end
      end
  end.

(** [dup]: [strdup] of the key gave memory; otherwise [strsep] has nothing to
    split and the root is returned. *)
Definition toml_get (dup : bool) (toml_root : toml_node) (key : bytes) : fault + option toml_node :=
  if dup then get_loop toml_root (strsep_dot key) else inr (Some toml_root).

(** [toml_type(node)] for a pointer that may be NULL. *)
Definition toml_type_of (node : option toml_node) : fault + toml_type :=
  match node with None => inl NullDeref | Some n => inr (n_type n) end.

(** ** Tables of the parser *)

Definition new_table (name : option bytes) : toml_node := mk_node TOML_TABLE name (VItems []).

(** The node with another item list. *)
Definition with_items (n : toml_node) (l : list toml_node) : toml_node :=
  mk_node (n_type n) (n_name n) (VItems l).

(** What the loop of [SawTable] leaves: the changed node, the path to [place]
    and its type, and whether an item was added; or the code [1] for an empty
    name, with the tree as far as it was changed. *)
Inductive saw :=
  | SawAt (node : toml_node) (place : list nat) (ptype : toml_type) (added : bool)
  | SawEmpty (node : toml_node).

Definition saw_node (s : saw) : toml_node :=
  match s with SawAt n _ _ _ => n | SawEmpty n => n end.

Fixpoint saw_loop (anc : list bytes) (place : toml_node) : fault + saw :=
  match anc with
  | [] => inr (SawAt place [] (n_type place) false)
  | a :: r =>
      if decide (a = []) then inr (SawEmpty place)
      else
        match map_items place with
        | inl f => inl f
        | inr l =>
            let '(i, item, l, new) :=
              match find_item a l with
              | Some (i, n) => (i, n, l, false)
              | None => (length l, new_table (Some a), l ++ [new_table (Some a)], true)
              end in
            match saw_loop r item with
            | inl f => inl f
            | inr (SawEmpty n) => inr (SawEmpty (with_items place (<[i := n]> l)))
            | inr (SawAt n p t added) =>
                inr (SawAt (with_items place (<[i := n]> l)) (i :: p) t (new || added))
            end
        end
  end.

(** Result, tree and [*lastTable] of [SawTable]. *)
Definition SawTable (place : toml_node) (name : bytes) : fault + (Z * toml_node * option (list nat)) :=
  match saw_loop (strsep_dot name) place with
  | inl f => inl f
  | inr (SawEmpty n) => inr (1, n, None)
  | inr (SawAt n p t added) =>
      if negb added then inr (2, n, None)
      else if decide (t = TOML_TABLE) then inr (0, n, Some p)
      else inr (3, n, None)
  end.

(** [InsertAnonymousTable] at the end of a list node; the position it gets. *)
Definition InsertAnonymousTable (place : toml_node) : fault + (toml_node * nat) :=
  match items place with
  | inl f => inl f
  | inr l => inr (with_items place (l ++ [new_table None]), length l)
  end.

(** The loop of [SawTableArray] and the insertion after it.  [place] of the
    code is the node; a component that is found leads to its last item, on to
    which the loop goes, or, for the last component, to a new anonymous table
    in it.  [list_tail] of an empty list is NULL. *)
Fixpoint saw_array (anc : list bytes) (place : toml_node) : fault + (toml_node * list nat) :=
  match anc with
  | [] => inr (place, [])
  | a :: r =>
      match map_items place with
      | inl f => inl f
      | inr l =>
          match find_item a l with
          | Some (i, item) =>
              match items item with
              | inl f => inl f
              | inr sub =>
                  match r with
                  | [] =>
                      match InsertAnonymousTable item with
                      | inl f => inl f
                      | inr (item', j) => inr (with_items place (<[i := item']> l), [i; j])
                      end
                  | _ =>
                      match last sub with
                      | None => inl NullDeref
                      | Some tl =>
                          match saw_array r tl with
                          | inl f => inl f
                          | inr (tl', p) =>
                              let j := (length sub - 1)%nat in
                              inr (with_items place (<[i := with_items item (<[j := tl']> sub)]> l), i :: j :: p)
                          end
                      end
                  end
              end
          | None =>
              match saw_array r (new_table None) with
              | inl f => inl f
              | inr (t', p) =>
                  inr (with_items place (l ++ [mk_node TOML_TABLE_ARRAY (Some a) (VItems [t'])]),
                       length l :: 0%nat :: p)
              end
          end
      end
  end.

Definition SawTableArray (root : toml_node) (name : bytes) : fault + (Z * toml_node * option (list nat)) :=
  if negb (bool_decide (n_type root = TOML_ROOT)) then inr (1, root, None)
  else match saw_array (strsep_dot name) root with
       | inl f => inl f
       | inr (n, p) => inr (0, n, Some p)
       end.

(** The node a pointer into the tree points to. *)
Fixpoint node_at (n : toml_node) (p : list nat) : option toml_node :=
  match p with
  | [] => Some n
  | i :: r => match n_value n with VItems l => c ← l !! i; node_at c r | _ => None end
  end.

(** ** Properties of the tables *)

Lemma find_item_name a l i n : find_item a l = Some (i, n) -> l !! i = Some n /\ n_name n = Some a.
Proof. intros H. apply list_find_Some in H as (? & ? & _). done. Qed.

Lemma find_item_insert b l i old n : l !! i = Some old -> n_name n = n_name old ->
  find_item b (<[i := n]> l) = (fun '(j, x) => (j, if decide (j = i) then n else x)) <$> find_item b l.
Proof.
  unfold find_item. intros Hi Hn. revert i Hi. induction l as [|x l IH]; intros i Hi; [done|].
  destruct i as [|i]; simpl in Hi |- *.
  - injection Hi as ->. rewrite Hn. case_decide; [done|].
    destruct (list_find _ l) as [[j y]|]; done.
  - case_decide; [done|]. rewrite (IH i Hi). destruct (list_find _ l) as [[j y]|]; [|done]. simpl.
    do 2 case_decide; try done; lia.
Qed.

Lemma find_item_snoc b l n : find_item b l = None ->
  find_item b (l ++ [n]) = if decide (n_name n = Some b) then Some (length l, n) else None.
Proof.
  unfold find_item. induction l as [|x l IH]; simpl; intros H; [by case_decide|].
  case_decide; [done|]. rewrite IH by (by destruct (list_find _ l)). by case_decide.
Qed.

Lemma find_item_app b l l' i x : find_item b l = Some (i, x) -> find_item b (l ++ l') = Some (i, x).
Proof.
  unfold find_item. revert i. induction l as [|y l IH]; simpl; intros i H; [done|].
  case_decide; [done|]. destruct (list_find _ l) as [[j z]|]; [|done].
  injection H as <- <-. by rewrite (IH j).
Qed.

(** Searches by name in changed item lists. *)
Lemma map_items_with n l : map_items (with_items n l) = if existsb unset_name l then inl Indeterminate else inr l.
Proof. done. Qed.

Lemma map_items_inr n l : map_items n = inr l -> items n = inr l /\ existsb unset_name l = false.
Proof. unfold map_items. destruct (items n); [done|]. destruct (existsb _ _) eqn:E; [done|]. by intros [= <-]. Qed.

Lemma named_set n a : n_name n = Some a -> unset_name n = false.
Proof. unfold unset_name. intros ->. by rewrite andb_false_r. Qed.

Lemma unset_insert l i n : existsb unset_name l = false -> unset_name n = false -> existsb unset_name (<[i := n]> l) = false.
Proof.
  intros H Hn. revert i. induction l as [|x l IH]; intros [|i]; simpl in *; [done..| |];
    apply orb_false_iff in H as [H1 H2]; apply orb_false_iff; auto.
Qed.

Lemma unset_snoc l n : existsb unset_name l = false -> unset_name n = false -> existsb unset_name (l ++ [n]) = false.
Proof. intros H Hn. rewrite existsb_app, H. simpl. by rewrite Hn. Qed.

(** The item the loop goes on with is in the list it goes on with, under the
    name it looks for. *)
Lemma saw_step a l i item l' new :
  match find_item a l with
  | Some (i, n) => (i, n, l, false)
  | None => (length l, new_table (Some a), l ++ [new_table (Some a)], true)
  end = (i, item, l', new) ->
  l' !! i = Some item /\ n_name item = Some a /\ find_item a l' = Some (i, item) /\
  (forall b j x, find_item b l = Some (j, x) -> find_item b l' = Some (j, x)) /\
  (existsb unset_name l = false -> existsb unset_name l' = false) /\
  (if new then find_item a l = None /\ item = new_table (Some a) else find_item a l = Some (i, item)).
Proof.
  destruct (find_item a l) as [[j n]|] eqn:E; intros [= <- <- <- <-].
  - apply find_item_name in E as E'. destruct E'. done.
  - split; [by rewrite lookup_app_r, Nat.sub_diag by lia|]. split; [done|].
    split; [rewrite find_item_snoc by done; by rewrite decide_True|]. split; [intros b j x Hx; by apply find_item_app|].
    split; [|done]. intros Hu. by apply unset_snoc.
Qed.

Lemma get_loop_new a r : get_loop (new_table a) r = inr (if decide (r = []) then Some (new_table a) else None).
Proof. by destruct r. Qed.

(** A node with nothing below it. *)
Definition leaf (n : toml_node) : Prop := exists f, items n = inl f.

(** What the loop of [SawTable] does to the tree. *)
Lemma saw_loop_spec anc : forall place s, saw_loop anc place = inr s ->
  n_name (saw_node s) = n_name place /\
  (forall q m, leaf m -> get_loop place q = inr (Some m) -> get_loop (saw_node s) q = inr (Some m)) /\
  match s with
  | SawEmpty _ => True
  | SawAt n p t added => exists m, node_at n p = Some m /\ n_type m = t /\ get_loop n anc = inr (Some m) /\
      (if added then get_loop place anc = inr None /\ t = TOML_TABLE /\ n_value m = VItems [] else n = place \/ anc <> [])
  end.
Proof.
  induction anc as [|a r IH]; intros place s; cbn [saw_loop].
  { intros [= <-]. cbn [saw_node]. split; [done|]. split; [done|]. exists place. auto. }
  case_decide as Ha; [intros [= <-]; done|].
  destruct (map_items place) as [f|l] eqn:El; [done|]. pose proof (map_items_inr _ _ El) as [El0 Hu].
  destruct (match find_item a l with Some _ => _ | None => _ end) as [[[i item] l'] new] eqn:E.
  destruct (saw_step _ _ _ _ _ _ E) as (Hi & Hna & Hfind & Hmono & Hus & Hnew).
  destruct (saw_loop r item) as [f|s'] eqn:Es; [done|].
  destruct (IH item s' Es) as (Hname & Hkeep & Hat). clear IH.
  assert (map_items (with_items place (<[i := saw_node s']> l')) = inr (<[i := saw_node s']> l')) as Hmi.
  { rewrite map_items_with, unset_insert; [done|auto|]. apply (named_set _ a). congruence. }
  assert (forall q m, leaf m -> get_loop place q = inr (Some m) ->
            get_loop (with_items place (<[i := saw_node s']> l')) q = inr (Some m)) as Hkeep'.
  { intros [|b q] m [f Hf] Hq; [simpl in Hq; congruence|].
    cbn [get_loop] in Hq |- *. rewrite El in Hq. rewrite Hmi. destruct (find_item b l) as [[j x]|] eqn:Eb; [|done].
    rewrite (find_item_insert b l' i item) by done. rewrite (Hmono _ _ _ Eb). simpl.
    case_decide as Hj; [|done]. subst j. apply Hkeep; [by exists f|].
    apply Hmono in Eb. apply find_item_name in Eb as [Eb _]. congruence. }
  assert (get_loop (with_items place (<[i := saw_node s']> l')) (a :: r) = get_loop (saw_node s') r) as Hget.
  { cbn [get_loop]. rewrite Hmi. rewrite (find_item_insert a l' i item), Hfind by done. simpl. by rewrite decide_True. }
  destruct s' as [n p t added|n]; intros [= <-]; cbn [saw_node] in *; (split; [done|]); (split; [done|]); [|done].
  destruct Hat as (m & Hm & Ht & Hg & Hadd). exists m.
  split; [simpl; rewrite list_lookup_insert_eq by (by apply lookup_lt_Some in Hi); done|].
  split; [done|]. split; [by rewrite Hget|].
  destruct new; cbn [orb].
  - destruct Hnew as [Hno ->]. cbn [get_loop]. rewrite El, Hno. split; [done|].
    destruct added; [by destruct Hadd as (_ & ? & ?)|].
    destruct r as [|b r]; [simpl in Es; by simplify_eq/=|].
    exfalso. clear -Es. cbn [saw_loop] in Es. case_decide; [done|]. simpl in Es.
    destruct (saw_loop r _) as [|[]]; by simplify_eq.
  - destruct added; [|by right]. destruct Hadd as (Hno & ? & ?). split; [|done].
    cbn [get_loop]. by rewrite El, Hnew.
Qed.

(** When the parser's [SawTable] accepts a header [\[a.b.c\]], the name led
    to nothing before, [*lastTable] points to an empty table that [toml_get]
    finds under the name, and every value that was in the tree is still found
    under its key.  The code 3 (a name that is not a table) is never
    returned. *)
Theorem SawTable_roundtrip (place place' : toml_node) (name : bytes) (code : Z) (last : option (list nat))
  (H : SawTable place name = inr (code, place', last)) :
  code <> 3 /\
  (forall key m, leaf m -> toml_get true place key = inr (Some m) -> toml_get true place' key = inr (Some m)) /\
  (code = 0 -> toml_get true place name = inr None /\
     exists p m, last = Some p /\ node_at place' p = Some m /\ toml_get true place' name = inr (Some m) /\
       n_type m = TOML_TABLE /\ n_value m = VItems []).
Proof.
  unfold SawTable in H. destruct (saw_loop (strsep_dot name) place) as [f|s] eqn:E; [done|].
  apply saw_loop_spec in E as (_ & Hkeep & Hat).
  destruct s as [n p t added|n]; cbn [saw_node] in Hkeep; [|injection H as <- <- <-; split; [done|]; split; [intros key; apply Hkeep|discriminate]].
  destruct Hat as (m & Hm & Ht & Hg & Hadd). destruct added; cbn [negb] in H; [|injection H as <- <- <-; split; [done|]; split; [intros key; apply Hkeep|discriminate]].
  destruct Hadd as (Hno & -> & Hv). rewrite decide_True in H by done. injection H as <- <- <-.
  split; [done|]. split; [intros key; apply Hkeep|]. intros _. split; [exact Hno|].
  exists p, m. done.
Qed.

Lemma SawTable_roundtrip_witness :
  let place := mk_node TOML_ROOT None (VItems [mk_node TOML_INT (Some (lit "x")) (VInteger 7)]) in
  let place' := mk_node TOML_ROOT None (VItems [mk_node TOML_INT (Some (lit "x")) (VInteger 7);
      mk_node TOML_TABLE (Some (lit "handler")) (VItems [new_table (Some (lit "session"))])]) in
  toml_get true place (lit "handler.session") = inr None /\
  exists p m, Some [1%nat; 0%nat] = Some p /\ node_at place' p = Some m /\
    toml_get true place' (lit "handler.session") = inr (Some m) /\
    n_type m = TOML_TABLE /\ n_value m = VItems [].
Proof.
  intros place place'.
  assert (SawTable place (lit "handler.session") = inr (0, place', Some [1%nat; 0%nat])) as H by (vm_compute; reflexivity).
  exact (proj2 (proj2 (SawTable_roundtrip place place' (lit "handler.session") 0 (Some [1%nat; 0%nat]) H)) eq_refl).
Defined.
