(* ===== verification/TomlParse.v ===== *)
(** * The TOML parser: libtoml (toml_parse.rl)

    toml_parse.rl is the source of a Ragel state machine and of the C functions
    around it.  The machine is modelled by Ragel's own rules:

    - a position is a place in the expression of a label; [moves] gives, for a
      position and a character, the positions it leads to and the actions on the
      way.  An epsilon transition to a label at the end of an alternative is the
      label's first position;
    - the machine is deterministic by the subset construction: the current state
      is a set of positions, and a transition of the state has the actions of all
      its positions' transitions;
    - actions on a transition run in the order in which they were embedded, which
      is that of the source; the number of an embedding is its line, times ten,
      plus its place in the line.  An action that appears more than once on a
      transition runs once, the first time;
    - a leaving action (and an entering action of an expression that can be empty)
      runs on the first transition after the expression;
    - [fhold], [fgoto], [fnext], [fcall], [fret] and [fbreak] are what the code
      Ragel generates for them does: [fgoto], [fcall], [fret] and [fbreak] skip the
      remaining actions.

    Not modelled: the counters [cur_line] and [indent] and the text of error
    messages, which are only printed.  [strtod] is a parameter.  Memory that is
    asked for by the actions themselves comes from [alloc], that of [SawTable] and
    [SawTableArray] is always there. *)

From stdpp Require Import base option numbers strings list.
From Stdlib Require Import Strings.Byte ZArith Lia.
From S2P Require Import Prelude Utils Toml.
Local Open Scope Z_scope.

Module Rl.

(** ** Characters *)

Definition TAB : byte := x09.
Definition NL : byte := x0a.
Definition SP : byte := x20.
Definition DQ : byte := x22.
Definition SQ : byte := x27.
Definition BSL : byte := x5c.

Definition eqc (d c : byte) : bool := Byte.eqb c d.
Definition one_of (s : bytes) (c : byte) : bool := existsb (Byte.eqb c) s.
Definition none_of (s : bytes) (c : byte) : bool := negb (one_of s c).
Definition print (c : byte) : bool := (32 <=? uchar c) && (uchar c <=? 126).
Definition digit (c : byte) : bool := (48 <=? uchar c) && (uchar c <=? 57).
Definition xdigit (c : byte) : bool :=
  digit c || ((65 <=? uchar c) && (uchar c <=? 70)) || ((97 <=? uchar c) && (uchar c <=? 102)).

(** Characters of the names; [whitespace] takes the blank and the tabulator away. *)
Definition whitespace : bytes := [TAB; SP].
Definition name_char (c : byte) : bool := print c && none_of (["#"%byte; "="%byte; DQ] ++ whitespace) c.
Definition dq_char (c : byte) : bool := print c && none_of [DQ] c.
Definition sq_char (c : byte) : bool := print c && none_of [SQ] c.
Definition tablename_char (c : byte) : bool := print c && none_of (["#"%byte; "]"%byte; "["%byte; DQ] ++ whitespace) c.

(** ** The machine *)

(** The first position of each label, and the positions inside. *)
Inductive pos :=
  | start | text_in                                     (* [text_in]: [text], with the leaving action of [start] *)
  | comment
  | table | T_name | T_dq0 | T_dq | T_dq_end | T_sq0 | T_sq | T_sq_end
  | A_open | A_name | A_close | A_dq0 | A_dq | A_dq_end | A_sq0 | A_sq | A_sq_end | A_last
  | true_ | false_
  | basic_string | basic_empty_or_multi_line | basic_multi_line_start | basic_multi_line
  | basic_multi_line_escape | basic_multi_line_rm_ws | basic_multi_line_quote | basic_multi_line_quote_2
  | basic_string_contents | str_escape
  | unicode4 (n : nat) | unicode8 (n : nat)             (* [n]: digits read *)
  | number_or_date | N_underscore | fractional_part | exponent_part
  | date (n : nat)                                      (* [n]: characters read *)
  | fractional_second_or_offset | F_dot | F_digits
  | time_offset_ | O_sign (n : nat)                     (* [n]: characters read after the sign *)
  | literal_string | literal_string_contents | literal_empty_or_multi_line | literal_multi_line_start
  | literal_multi_line | literal_multi_line_quote | literal_multi_line_second_quote
  | singular | S_true (n : nat) | S_false (n : nat)     (* [n]: characters read *)
  | list_ | inline_table | val
  | key | K_name | K_name_ws | K_dq0 | K_dq | K_dq_end | K_sq0 | K_sq | K_sq_end
  | text.

#[global] Instance pos_eq_dec : EqDecision pos.
Proof. solve_decision. Defined.

(** The statements of the inline actions, and the named actions. *)
Inductive act :=
  | In_text (b : bool)                   (* in_text = b; *)
  | Fhold | Fgoto (l : pos) | Fcall (l : pos) | Fret | Fbreak
  | Put (c : byte) | Put_fc              (* *strp++ = c; *strp++ = fc; *)
  | Str_start                            (* strp = string; *)
  | Ts                                   (* ts = p; *)
  | Namelen (d : Z)                      (* namelen = (int)(p - ts - d); *)
  | Number (n : Z)                       (* number = n; *)
  | Number_more                          (* number *= 10; number += fc - '0'; *)
  | Number_sign                          (* negative = fc == '-'; number = 0; ts = p; *)
  | Number_first                         (* negative = false; ts = p; number = fc - '0'; *)
  | Year                                 (* tm.tm_year = number - 1900; *)
  | Precision_0 | Precision_more         (* precision = 0; precision++; *)
  | Exponent                             (* exponent = true; *)
  | Utf_start                            (* utf_start = p; *)
  | Date_init                            (* secfrac_ptr = NULL; time_offset = 0; ... *)
  | Mon | Mday | Hour | Min | Sec        (* tm.tm_mon = atoi(fpc-1) - 1; ... *)
  | Secfrac                              (* secfrac_ptr = p; *)
  | Offset_negative                      (* time_offset_is_negative = 1; *)
  | Offset_hours | Offset_minutes        (* time_offset = atoi(fpc-1) * 60; time_offset += atoi(fpc-1); *)
  | Offset_zulu                          (* time_offset_is_zulu = 1; *)
  | saw_key | saw_bool | saw_int | saw_float | saw_string | saw_date | start_list | end_list
  | saw_inline_table | end_inline_table | saw_table | saw_table_array | saw_utf16 | saw_utf32 | bad_escape.

#[global] Instance act_eq_dec : EqDecision act.
Proof. solve_decision. Defined.

Definition named (a : act) : bool :=
  match a with
  | saw_key | saw_bool | saw_int | saw_float | saw_string | saw_date | start_list | end_list
  | saw_inline_table | end_inline_table | saw_table | saw_table_array | saw_utf16 | saw_utf32 | bad_escape => true
  | _ => false
  end.

(** An embedded action: its number and its statements. *)
Abbreviation emb := (Z * list act)%type.

Definition mv (b : bool) (es : list emb) (q : pos) : list (list emb * pos) := if b then [(es, q)] else [].

Definition table_moves (q : pos) (c : byte) : list (list emb * pos) :=
  match q with
  | table =>
      mv (tablename_char c) [(4830, [Ts])] T_name ++ mv (eqc DQ c) [] T_dq0 ++ mv (eqc SQ c) [] T_sq0 ++
      mv (eqc "["%byte c) [] A_open
  | T_name => mv (tablename_char c) [] T_name ++ mv (eqc "]"%byte c) [(4831, [saw_table])] start
  | T_dq0 => mv (dq_char c) [(4840, [Ts])] T_dq
  | T_dq => mv (dq_char c) [] T_dq ++ mv (eqc DQ c) [(4841, [saw_table])] T_dq_end
  | T_dq_end | T_sq_end | A_last => mv (eqc "]"%byte c) [] start
  | T_sq0 => mv (sq_char c) [(4850, [Ts])] T_sq
  | T_sq => mv (sq_char c) [] T_sq ++ mv (eqc SQ c) [(4851, [saw_table])] T_sq_end
  | A_open => mv (tablename_char c) [(4860, [Ts])] A_name ++ mv (eqc DQ c) [] A_dq0 ++ mv (eqc SQ c) [] A_sq0
  | A_name => mv (tablename_char c) [] A_name ++ mv (eqc "]"%byte c) [] A_close
  | A_close => mv (eqc "]"%byte c) [(4861, [saw_table_array])] start
  | A_dq0 => mv (dq_char c) [(4870, [Ts])] A_dq
  | A_dq => mv (dq_char c) [] A_dq ++ mv (eqc DQ c) [] A_dq_end
  | A_dq_end => mv (eqc "]"%byte c) [(4871, [saw_table_array])] A_last
  | A_sq0 => mv (sq_char c) [(4880, [Ts])] A_sq
  | A_sq => mv (sq_char c) [] A_sq ++ mv (eqc SQ c) [] A_sq_end
  | A_sq_end => mv (eqc "]"%byte c) [(4881, [saw_table_array])] A_last
  | _ => []
  end.

Definition basic_moves (q : pos) (c : byte) : list (list emb * pos) :=
  match q with
  | basic_string => mv (eqc DQ c) [] basic_empty_or_multi_line ++ mv (none_of [DQ] c) [(4970, [Fhold])] basic_string_contents
  | basic_empty_or_multi_line =>
      mv (eqc DQ c) [] basic_multi_line_start ++ mv (none_of [DQ] c) [(5020, [saw_string]); (5021, [Fhold])] start
  | basic_multi_line_start => mv (eqc NL c) [] basic_multi_line ++ mv (none_of [NL] c) [(5070, [Fhold])] basic_multi_line
  | basic_multi_line =>
      mv (eqc DQ c) [] basic_multi_line_quote ++
      mv (eqc NL c) [(5120, [Put_fc]); (5121, [Fgoto basic_multi_line])] basic_multi_line ++
      mv (eqc BSL c) [] basic_multi_line_escape ++
      mv (none_of [DQ; NL; BSL] c) [(5140, [Put_fc]); (5141, [Fgoto basic_multi_line])] basic_multi_line
  | basic_multi_line_escape =>
      mv (eqc NL c) [] basic_multi_line_rm_ws ++ mv (none_of [NL] c) [(5190, [Fcall str_escape])] basic_multi_line
  | basic_multi_line_rm_ws =>
      mv (eqc NL c) [(5231, [Fgoto basic_multi_line_rm_ws])] basic_multi_line_rm_ws ++
      mv (one_of [SP; TAB] c) [(5240, [Fgoto basic_multi_line_rm_ws])] basic_multi_line_rm_ws ++
      mv (none_of [SP; TAB; NL] c) [(5250, [Fhold])] basic_multi_line
  | basic_multi_line_quote =>
      mv (eqc DQ c) [] basic_multi_line_quote_2 ++ mv (none_of [DQ] c) [(5300, [Fhold; Put DQ])] basic_multi_line
  | basic_multi_line_quote_2 =>
      mv (eqc DQ c) [(5340, [saw_string])] start ++ mv (none_of [DQ] c) [(5350, [Fhold; Put DQ; Put DQ])] basic_multi_line
  | basic_string_contents =>
      mv (eqc DQ c) [(5410, [saw_string])] start ++
      mv (eqc NL c) [(5420, [Put_fc]); (5421, [Fgoto basic_string_contents])] basic_string_contents ++
      mv (eqc BSL c) [(5430, [Fcall str_escape])] basic_string_contents ++
      mv (none_of [DQ; NL; BSL] c) [(5440, [Put_fc]); (5441, [Fgoto basic_string_contents])] basic_string_contents
  | _ => []
  end.

Definition escape_moves (q : pos) (c : byte) : list (list emb * pos) :=
  match q with
  | str_escape =>
      mv (eqc "b"%byte c) [(5480, [Put x08]); (5481, [Fret])] str_escape ++
      mv (eqc "t"%byte c) [(5490, [Put TAB]); (5491, [Fret])] str_escape ++
      mv (eqc "n"%byte c) [(5500, [Put NL]); (5501, [Fret])] str_escape ++
      mv (eqc "f"%byte c) [(5510, [Put x0c]); (5511, [Fret])] str_escape ++
      mv (eqc "r"%byte c) [(5520, [Put x0d]); (5521, [Fret])] str_escape ++
      mv (eqc "0"%byte c) [(5530, [Put x00]); (5531, [Fret])] str_escape ++
      mv (eqc DQ c) [(5540, [Put DQ]); (5541, [Fret])] str_escape ++
      mv (eqc "/"%byte c) [(5550, [Put "/"%byte]); (5551, [Fret])] str_escape ++
      mv (eqc BSL c) [(5560, [Put BSL]); (5561, [Fret])] str_escape ++
      mv (eqc "u"%byte c) [] (unicode4 0) ++
      mv (eqc "U"%byte c) [] (unicode8 0) ++
      mv (none_of (lit "btnfr0uU/" ++ [DQ; BSL]) c) [(5590, [bad_escape])] str_escape
  | unicode4 n =>
      mv (xdigit c) ((if bool_decide (n = 0%nat) then [(5630, [Utf_start])] else []) ++
                     (if bool_decide (n = 3%nat) then [(5631, [saw_utf16])] else [])) (unicode4 (S n))
  | unicode8 n =>
      mv (xdigit c) ((if bool_decide (n = 0%nat) then [(5670, [Utf_start])] else []) ++
                     (if bool_decide (n = 7%nat) then [(5671, [saw_utf32])] else [])) (unicode8 (S n))
  | _ => []
  end.

Definition number_moves (q : pos) (c : byte) : list (list emb * pos) :=
  match q with
  | number_or_date =>
      mv (eqc "_"%byte c) [] N_underscore ++
      mv (digit c) [(5730, [Number_more]); (5731, [Fgoto number_or_date])] number_or_date ++
      mv (eqc "-"%byte c) [(5740, [Year])] (date 0) ++
      mv (one_of (lit "eE") c) [] exponent_part ++
      mv (eqc "."%byte c) [(5760, [Precision_0])] fractional_part ++
      mv (one_of ([TAB; SP] ++ lit ",}]" ++ [NL; x00]) c) [(5770, [saw_int])] start
  | N_underscore => mv (digit c) [(5730, [Number_more]); (5731, [Fgoto number_or_date])] number_or_date
  | fractional_part =>
      mv (digit c) [(5820, [Precision_more]); (5821, [Fgoto fractional_part])] fractional_part ++
      mv (one_of (lit "eE") c) [] exponent_part ++
      mv (negb (digit c) && none_of (lit "eE") c) [(5840, [saw_float])] start
  | exponent_part =>
      mv (digit c || one_of (lit "-+") c) [(5880, [Exponent]); (5881, [Fgoto exponent_part])] exponent_part ++
      mv (negb (digit c || one_of (lit "-+") c)) [(5890, [saw_float])] start
  | _ => []
  end.

(** The characters of a date from the month on: digits, or the given character. *)
Definition date_form : list (option byte) :=
  [None; None; Some "-"%byte; None; None; Some "T"%byte; None; None; Some ":"%byte; None; None; Some ":"%byte; None; None].
Definition offset_form : list (option byte) := [None; None; Some ":"%byte; None; None].
Definition fits (o : option byte) (c : byte) : bool := match o with None => digit c | Some d => eqc d c end.

(** Leaving [digit*] before its first digit runs its entering actions. *)
Definition time_moves (pre : list emb) (c : byte) : list (list emb * pos) :=
  mv (eqc "-"%byte c) (pre ++ [(6120, [Offset_negative])]) (O_sign 0) ++ mv (eqc "+"%byte c) pre (O_sign 0) ++
  mv (eqc "Z"%byte c) (pre ++ [(6170, [Offset_zulu]); (6171, [saw_date])]) start.

Definition date_moves (q : pos) (c : byte) : list (list emb * pos) :=
  match q with
  | date n =>
      match date_form !! n with
      | None => []
      | Some o =>
          mv (fits o c)
            match n with
            | 0%nat => [(5940, [Date_init])]
            | 1%nat => [(5950, [Mon])]
            | 4%nat => [(5970, [Mday])]
            | 7%nat => [(5990, [Hour])]
            | 10%nat => [(6010, [Min])]
            | 13%nat => [(6030, [Sec])]
            | _ => []
            end (if bool_decide (n = 13%nat) then fractional_second_or_offset else date (S n))
      end
  | fractional_second_or_offset => mv (eqc "."%byte c) [] F_dot ++ mv (none_of (lit ".") c) [(6080, [Fhold])] time_offset_
  | F_dot => mv (digit c) [(6070, [Secfrac]); (6071, [Fhold])] F_digits ++ time_moves [(6070, [Secfrac]); (6071, [Fhold])] c
  | F_digits => mv (digit c) [] F_digits ++ time_moves [] c
  | time_offset_ => time_moves [] c
  | O_sign n =>
      match offset_form !! n with
      | None => []
      | Some o =>
          mv (fits o c)
            match n with
            | 1%nat => [(6130, [Offset_hours])]
            | 4%nat => [(6150, [Offset_minutes]); (6160, [saw_date])]
            | _ => []
            end (if bool_decide (n = 4%nat) then start else O_sign (S n))
      end
  | _ => []
  end.

Definition literal_moves (q : pos) (c : byte) : list (list emb * pos) :=
  match q with
  | literal_string => mv (eqc SQ c) [] literal_empty_or_multi_line ++ mv (none_of [SQ] c) [(6220, [Fhold])] literal_string_contents
  | literal_string_contents =>
      mv (eqc SQ c) [(6260, [saw_string])] start ++
      mv (none_of [SQ] c) [(6270, [Put_fc]); (6271, [Fgoto literal_string_contents])] literal_string_contents
  | literal_empty_or_multi_line =>
      mv (eqc SQ c) [] literal_multi_line_start ++ mv (none_of [SQ] c) [(6320, [Fhold]); (6321, [saw_string])] start
  | literal_multi_line_start => mv (eqc NL c) [] literal_multi_line ++ mv (none_of [NL] c) [(6370, [Fhold])] literal_multi_line
  | literal_multi_line =>
      mv (eqc SQ c) [] literal_multi_line_quote ++
      mv (eqc NL c) [(6420, [Put_fc]); (6421, [Fgoto literal_multi_line])] literal_multi_line ++
      mv (none_of [SQ; NL] c) [(6430, [Put_fc]); (6431, [Fgoto literal_multi_line])] literal_multi_line
  | literal_multi_line_quote =>
      mv (eqc SQ c) [] literal_multi_line_second_quote ++ mv (none_of [SQ] c) [(6490, [Fhold; Put SQ])] literal_multi_line
  | literal_multi_line_second_quote =>
      mv (eqc SQ c) [(6550, [saw_string])] start ++ mv (none_of [SQ] c) [(6560, [Fhold; Put SQ; Put SQ])] literal_multi_line
  | _ => []
  end.

Definition value_moves (q : pos) (c : byte) : list (list emb * pos) :=
  match q with
  | true_ => mv true [(4920, [Fhold]); (4921, [saw_bool])] start
  | false_ => mv true [(4930, [Fhold]); (4931, [saw_bool])] start
  | singular =>
      mv (eqc "t"%byte c) [] (S_true 1) ++ mv (eqc "f"%byte c) [] (S_false 1) ++
      mv (eqc DQ c) [(6630, [Str_start])] basic_string ++ mv (eqc SQ c) [(6640, [Str_start])] literal_string ++
      mv (one_of (lit "-+") c) [(6650, [Number_sign])] number_or_date ++
      mv (digit c) [(6660, [Number_first])] number_or_date
  | S_true n =>
      match lit "true" !! n with
      | None => []
      | Some d => if bool_decide (n = 3%nat) then mv (eqc d c) [(6610, [Number 1])] true_ else mv (eqc d c) [] (S_true (S n))
      end
  | S_false n =>
      match lit "false" !! n with
      | None => []
      | Some d => if bool_decide (n = 4%nat) then mv (eqc d c) [(6620, [Number 0])] false_ else mv (eqc d c) [] (S_false (S n))
      end
  | list_ =>
      mv (eqc "#"%byte c) [(6710, [Fcall comment])] list_ ++
      mv (eqc NL c) [(6721, [Fgoto list_])] list_ ++
      mv (one_of [TAB; SP] c) [(6730, [Fgoto list_])] list_ ++
      mv (eqc ","%byte c) [(6740, [Fgoto list_])] list_ ++
      mv (eqc "]"%byte c) [(6750, [end_list])] start ++
      mv (none_of (["#"%byte; TAB; ","%byte; SP; NL; "]"%byte]) c) [(6760, [Fhold])] val
  | inline_table =>
      mv (eqc ","%byte c) [(6800, [Fgoto inline_table])] inline_table ++
      mv (one_of [TAB; SP] c) [(6810, [Fgoto inline_table])] inline_table ++
      mv (eqc "#"%byte c) [(6820, [Fcall comment])] inline_table ++
      mv (eqc "}"%byte c) [(6830, [end_inline_table])] start ++
      mv (none_of [TAB; SP; ","%byte; "}"%byte] c) [(6840, [Fhold])] key
  | val =>
      mv (eqc "#"%byte c) [(6890, [Fcall comment])] val ++
      mv (eqc NL c) [(6901, [Fgoto val])] val ++
      mv (one_of [TAB; SP] c) [(6910, [Fgoto val])] val ++
      mv (eqc "["%byte c) [(6920, [start_list])] list_ ++
      mv (eqc "{"%byte c) [(6930, [saw_inline_table])] inline_table ++
      mv (none_of (["#"%byte; TAB; SP; NL; "["%byte; "{"%byte]) c) [(6940, [Fhold])] singular
  | _ => []
  end.

Definition key_moves (q : pos) (c : byte) : list (list emb * pos) :=
  match q with
  | key =>
      mv (name_char c) [(6990, [Ts]); (6991, [Namelen 0])] K_name ++ mv (eqc DQ c) [] K_dq0 ++ mv (eqc SQ c) [] K_sq0
  | K_name =>
      mv (name_char c) [(6991, [Namelen 0])] K_name ++ mv (one_of whitespace c) [] K_name_ws ++
      mv (eqc "="%byte c) [(6992, [saw_key])] val
  | K_name_ws => mv (one_of whitespace c) [] K_name_ws ++ mv (eqc "="%byte c) [(6992, [saw_key])] val
  | K_dq0 => mv (dq_char c) [(7000, [Ts])] K_dq
  | K_dq => mv (dq_char c) [] K_dq ++ mv (eqc DQ c) [(7001, [Namelen 1])] K_dq_end
  | K_dq_end => mv (one_of whitespace c) [] K_dq_end ++ mv (eqc "="%byte c) [(7002, [saw_key])] val
  | K_sq0 => mv (sq_char c) [(7010, [Ts])] K_sq
  | K_sq => mv (sq_char c) [] K_sq ++ mv (eqc SQ c) [(7011, [Namelen 1])] K_sq_end
  | K_sq_end => mv (one_of whitespace c) [] K_sq_end ++ mv (eqc "="%byte c) [(7012, [saw_key])] val
  | _ => []
  end.

(** [pre]: the leaving action of [start]. *)
Definition text_moves (pre : list emb) (c : byte) : list (list emb * pos) :=
  mv (eqc "#"%byte c) (pre ++ [(7060, [Fcall comment])]) text ++
  mv (eqc "["%byte c) pre table ++
  mv (one_of [TAB; SP] c) (pre ++ [(7080, [Fgoto text])]) text ++
  mv (eqc NL c) pre start ++
  mv (none_of ["#"%byte; "["%byte; TAB; SP; NL] c) (pre ++ [(7100, [Fhold])]) key.

Definition line_moves (q : pos) (c : byte) : list (list emb * pos) :=
  match q with
  | start =>
      mv (eqc "#"%byte c) [(4710, [In_text false; Fcall comment])] start ++
      mv (one_of [TAB; SP] c) [(4720, [In_text false]); (4722, [Fgoto start])] start ++
      mv (eqc NL c) [(4730, [In_text false]); (4731, [Fgoto start])] start ++
      mv (eqc x00 c) [(4740, [In_text false; Fbreak]); (4741, [Fgoto start])] start ++
      mv (none_of ["#"%byte; TAB; SP; NL; x00] c) [(4750, [Fhold])] text_in
  | comment => mv (none_of [NL] c) [] comment ++ mv (eqc NL c) [(4790, [Fret])] comment
  | text_in => text_moves [(4751, [In_text true])] c
  | text => text_moves [] c
  | _ => []
  end.

(** The transitions out of a position. *)
Definition moves (q : pos) (c : byte) : list (list emb * pos) :=
  match q with
  | start | text_in | comment | text => line_moves q c
  | table | T_name | T_dq0 | T_dq | T_dq_end | T_sq0 | T_sq | T_sq_end
  | A_open | A_name | A_close | A_dq0 | A_dq | A_dq_end | A_sq0 | A_sq | A_sq_end | A_last => table_moves q c
  | basic_string | basic_empty_or_multi_line | basic_multi_line_start | basic_multi_line
  | basic_multi_line_escape | basic_multi_line_rm_ws | basic_multi_line_quote | basic_multi_line_quote_2
  | basic_string_contents => basic_moves q c
  | str_escape | unicode4 _ | unicode8 _ => escape_moves q c
  | number_or_date | N_underscore | fractional_part | exponent_part => number_moves q c
  | date _ | fractional_second_or_offset | F_dot | F_digits | time_offset_ | O_sign _ => date_moves q c
  | literal_string | literal_string_contents | literal_empty_or_multi_line | literal_multi_line_start
  | literal_multi_line | literal_multi_line_quote | literal_multi_line_second_quote => literal_moves q c
  | true_ | false_ | singular | S_true _ | S_false _ | list_ | inline_table | val => value_moves q c
  | key | K_name | K_name_ws | K_dq0 | K_dq | K_dq_end | K_sq0 | K_sq | K_sq_end => key_moves q c
  end.

(** One embedded action before another: by number. *)
Fixpoint insert_emb (e : emb) (l : list emb) : list emb :=
  match l with
  | [] => [e]
  | x :: r => if e.1 <? x.1 then e :: l else x :: insert_emb e r
  end.

(** The same action: the same embedding, or one of a named action. *)
Definition same_emb (a b : emb) : bool :=
  (a.1 =? b.1) || (bool_decide (a.2 = b.2) && forallb named a.2).

Definition first_only (l : list emb) : list emb :=
  foldr (fun x r => x :: filter (fun y => same_emb x y = false) r) [] l.

(** The actions of a transition of the deterministic machine, and its target. *)
Definition merge (ms : list (list emb * pos)) : list act :=
  concat (first_only (foldr insert_emb [] (concat ms.*1))).*2.
Definition targets (ms : list (list emb * pos)) : list pos := remove_dups ms.*2.

(** ** The state of [toml_parse] *)

(** The variable [name]: NULL, a string, or a string that was freed. *)
Inductive cname := NameNull | NameStr (s : bytes) | NameFreed.

(** [struct toml_stack_item]: [list_type], with 0 as [None], and the path of
    [node]. *)
Record stack_item := mk_item { list_type : option toml_type; node : list nat }.

Record mach := mk_mach {
  p : Z;   (* the character looked at *)
  cs : list pos;   (* the current state; toml_error is [] *)
  stack : list (list pos)   (* stack[0 .. top-1], the top first *)
}.

Definition set_p (v : Z) (r : mach) : mach :=
  mk_mach v (cs r) (stack r).
Definition set_cs (v : list pos) (r : mach) : mach :=
  mk_mach (p r) v (stack r).
Definition set_stack (v : list (list pos)) (r : mach) : mach :=
  mk_mach (p r) (cs r) v.

Record regs := mk_regs {
  ts : Z;
  string_ : bytes;   (* string up to strp *)
  precision : option Z;   (* None while it is not set *)
  namelen : Z;
  number : Z;
  negative : bool;
  tm_ : tm;
  utf_start : Z;
  time_offset : Z;
  secfrac_ptr : option Z;   (* None is NULL *)
  time_offset_is_negative : bool;
  time_offset_is_zulu : bool;
  exponent : bool;
  in_text : bool
}.

Definition set_ts (v : Z) (r : regs) : regs :=
  mk_regs v (string_ r) (precision r) (namelen r) (number r) (negative r) (tm_ r) (utf_start r) (time_offset r) (secfrac_ptr r) (time_offset_is_negative r) (time_offset_is_zulu r) (exponent r) (in_text r).
Definition set_string_ (v : bytes) (r : regs) : regs :=
  mk_regs (ts r) v (precision r) (namelen r) (number r) (negative r) (tm_ r) (utf_start r) (time_offset r) (secfrac_ptr r) (time_offset_is_negative r) (time_offset_is_zulu r) (exponent r) (in_text r).
Definition set_precision (v : option Z) (r : regs) : regs :=
  mk_regs (ts r) (string_ r) v (namelen r) (number r) (negative r) (tm_ r) (utf_start r) (time_offset r) (secfrac_ptr r) (time_offset_is_negative r) (time_offset_is_zulu r) (exponent r) (in_text r).
Definition set_namelen (v : Z) (r : regs) : regs :=
  mk_regs (ts r) (string_ r) (precision r) v (number r) (negative r) (tm_ r) (utf_start r) (time_offset r) (secfrac_ptr r) (time_offset_is_negative r) (time_offset_is_zulu r) (exponent r) (in_text r).
Definition set_number (v : Z) (r : regs) : regs :=
  mk_regs (ts r) (string_ r) (precision r) (namelen r) v (negative r) (tm_ r) (utf_start r) (time_offset r) (secfrac_ptr r) (time_offset_is_negative r) (time_offset_is_zulu r) (exponent r) (in_text r).
Definition set_negative (v : bool) (r : regs) : regs :=
  mk_regs (ts r) (string_ r) (precision r) (namelen r) (number r) v (tm_ r) (utf_start r) (time_offset r) (secfrac_ptr r) (time_offset_is_negative r) (time_offset_is_zulu r) (exponent r) (in_text r).
Definition set_tm_ (v : tm) (r : regs) : regs :=
  mk_regs (ts r) (string_ r) (precision r) (namelen r) (number r) (negative r) v (utf_start r) (time_offset r) (secfrac_ptr r) (time_offset_is_negative r) (time_offset_is_zulu r) (exponent r) (in_text r).
Definition set_utf_start (v : Z) (r : regs) : regs :=
  mk_regs (ts r) (string_ r) (precision r) (namelen r) (number r) (negative r) (tm_ r) v (time_offset r) (secfrac_ptr r) (time_offset_is_negative r) (time_offset_is_zulu r) (exponent r) (in_text r).
Definition set_time_offset (v : Z) (r : regs) : regs :=
  mk_regs (ts r) (string_ r) (precision r) (namelen r) (number r) (negative r) (tm_ r) (utf_start r) v (secfrac_ptr r) (time_offset_is_negative r) (time_offset_is_zulu r) (exponent r) (in_text r).
Definition set_secfrac_ptr (v : option Z) (r : regs) : regs :=
  mk_regs (ts r) (string_ r) (precision r) (namelen r) (number r) (negative r) (tm_ r) (utf_start r) (time_offset r) v (time_offset_is_negative r) (time_offset_is_zulu r) (exponent r) (in_text r).
Definition set_time_offset_is_negative (v : bool) (r : regs) : regs :=
  mk_regs (ts r) (string_ r) (precision r) (namelen r) (number r) (negative r) (tm_ r) (utf_start r) (time_offset r) (secfrac_ptr r) v (time_offset_is_zulu r) (exponent r) (in_text r).
Definition set_time_offset_is_zulu (v : bool) (r : regs) : regs :=
  mk_regs (ts r) (string_ r) (precision r) (namelen r) (number r) (negative r) (tm_ r) (utf_start r) (time_offset r) (secfrac_ptr r) (time_offset_is_negative r) v (exponent r) (in_text r).
Definition set_exponent (v : bool) (r : regs) : regs :=
  mk_regs (ts r) (string_ r) (precision r) (namelen r) (number r) (negative r) (tm_ r) (utf_start r) (time_offset r) (secfrac_ptr r) (time_offset_is_negative r) (time_offset_is_zulu r) v (in_text r).
Definition set_in_text (v : bool) (r : regs) : regs :=
  mk_regs (ts r) (string_ r) (precision r) (namelen r) (number r) (negative r) (tm_ r) (utf_start r) (time_offset r) (secfrac_ptr r) (time_offset_is_negative r) (time_offset_is_zulu r) (exponent r) v.

Record build := mk_build {
  name : cname;
  context_stack : list stack_item;   (* the innermost context first *)
  toml_root : toml_node;
  alloc : list bool;   (* the answers of malloc to come; then it succeeds *)
  parse_error : bool;
  malloc_error : bool
}.

Definition set_name (v : cname) (r : build) : build :=
  mk_build v (context_stack r) (toml_root r) (alloc r) (parse_error r) (malloc_error r).
Definition set_context_stack (v : list stack_item) (r : build) : build :=
  mk_build (name r) v (toml_root r) (alloc r) (parse_error r) (malloc_error r).
Definition set_toml_root (v : toml_node) (r : build) : build :=
  mk_build (name r) (context_stack r) v (alloc r) (parse_error r) (malloc_error r).
Definition set_alloc (v : list bool) (r : build) : build :=
  mk_build (name r) (context_stack r) (toml_root r) v (parse_error r) (malloc_error r).
Definition set_parse_error (v : bool) (r : build) : build :=
  mk_build (name r) (context_stack r) (toml_root r) (alloc r) v (malloc_error r).
Definition set_malloc_error (v : bool) (r : build) : build :=
  mk_build (name r) (context_stack r) (toml_root r) (alloc r) (parse_error r) v.


Record pst := mk_pst { ps_m : mach; ps_r : regs; ps_b : build }.

Definition upd_m (f : mach -> mach) (s : pst) : pst := mk_pst (f (ps_m s)) (ps_r s) (ps_b s).
Definition upd_r (f : regs -> regs) (s : pst) : pst := mk_pst (ps_m s) (f (ps_r s)) (ps_b s).
Definition upd_b (f : build -> build) (s : pst) : pst := mk_pst (ps_m s) (ps_r s) (f (ps_b s)).

(** What a statement leaves: the next one, [goto _again], [goto _out], or
    undefined behaviour. *)
Inductive ares := AGo (s : pst) | AAgain (s : pst) | AOut (s : pst) | ABad (f : fault).

(** [fbreak] *)
Definition fbreak (s : pst) : ares := AOut (upd_m (set_p (p (ps_m s) + 1)) s).
Definition fnext (l : pos) : pst -> pst := upd_m (set_cs [l]).
Definition failed (s : pst) : ares := fbreak (upd_b (set_parse_error true) s).

Section parser.

(** The text and what can be read after it; the C library's [strtod], as the bits
    of the result. *)
Variables (buf : bytes) (strtod : bytes -> Z).

Definition char_at (i : Z) : option byte := if i <? 0 then None else buf !! Z.to_nat i.

(** [malloc] and the functions that call it. *)
Definition malloc (b : build) : bool * build :=
  match alloc b with [] => (true, b) | a :: r => (a, set_alloc r b) end.

(** [strndup(buf + i, n)] *)
Fixpoint upto_nul (s : bytes) : bytes :=
  match s with [] => [] | c :: r => if bool_decide (c = x00) then [] else c :: upto_nul r end.
Definition text_at (i : Z) (n : Z) : bytes := upto_nul (take (Z.to_nat n) (drop (Z.to_nat i) buf)).

(** [atoi(buf + i)]: the digits from there on, through a [long]. *)
Fixpoint digits (s : bytes) : bytes :=
  match s with [] => [] | c :: r => if digit c then c :: digits r else [] end.
Definition strtol10 (i : Z) : Z := Z.min (2 ^ 63 - 1) (read_dec (digits (drop (Z.to_nat i) buf))).
Definition atoi (i : Z) : Z := s32 (strtol10 i).

(** [strtoul(s, NULL, 16)] on hexadecimal digits. *)
Definition hex_val (c : byte) : Z :=
  if digit c then uchar c - 48 else if uchar c <? 97 then uchar c - 55 else uchar c - 87.
Definition strtoul16 (s : bytes) : Z := fold_left (fun n c => 16 * n + hex_val c) s 0.

(** ** Building the tree *)

(** The node at a path, changed by [f]. *)
Fixpoint update_at (path : list nat) (f : toml_node -> fault + toml_node) (n : toml_node) : fault + toml_node :=
  match path with
  | [] => f n
  | i :: r =>
      match items n with
      | inl e => inl e
      | inr l =>
          match l !! i with
          | None => inl NullDeref
          | Some c => match update_at r f c with inl e => inl e | inr c => inr (with_items n (<[i := c]> l)) end
          end
      end
  end.

(** [list_add_tail] on the items of a node. *)
Definition add_tail (x : toml_node) (n : toml_node) : fault + toml_node :=
  match items n with inl e => inl e | inr l => inr (with_items n (l ++ [x])) end.

(** The innermost context and its node. *)
Definition with_context (s : pst) (k : stack_item -> toml_node -> ares) : ares :=
  match context_stack (ps_b s) with
  | [] => ABad NullDeref
  | c :: _ => match node_at (toml_root (ps_b s)) (node c) with None => ABad NullDeref | Some n => k c n end
  end.

(** [x] is added to the items of the innermost context's node. *)
Definition add_to_context (x : toml_node) (c : stack_item) (s : pst) (k : pst -> ares) : ares :=
  match update_at (node c) (add_tail x) (toml_root (ps_b s)) with
  | inl e => ABad e
  | inr t => k (upd_b (set_toml_root t) s)
  end.

(** [context->list_type = t] for the innermost context. *)
Definition set_list_type (t : toml_type) (b : build) : build :=
  match context_stack b with
  | [] => b
  | c :: r => set_context_stack (mk_item (Some t) (node c) :: r) b
  end.

(** [PUSH_CONTEXT(make_stack_item(node))], which does not test [malloc]. *)
Definition push_context (path : list nat) (s : pst) (k : pst -> ares) : ares :=
  let '(ok, b) := malloc (ps_b s) in
  if ok then k (upd_b (fun _ => set_context_stack (mk_item None path :: context_stack b) b) s) else ABad NullDeref.

Definition POP_CONTEXT (s : pst) : pst := upd_b (fun b => set_context_stack (tail (context_stack b)) b) s.

(** [name] as a node gets it. *)
Definition node_name (n : cname) : option bytes := match n with NameStr x => Some x | _ => None end.

(** Where the machine goes after a value. *)
Definition after_value (s : pst) : ares :=
  with_context s (fun _ n =>
    AGo (fnext (match n_type n with TOML_LIST => list_ | TOML_INLINE_TABLE => inline_table | _ => start end) s)).

(** [add_node_to_tree] and what follows it in the actions. *)
Definition add_node_to_tree (ty : toml_type) (v : toml_value toml_node) (s : pst) : ares :=
  with_context s (fun c n =>
    match n_type n with
    | TOML_ROOT | TOML_TABLE | TOML_INLINE_TABLE =>
        let '(ok, b) := malloc (ps_b s) in
        let s := upd_b (fun _ => b) s in
        if negb ok then fbreak (upd_b (set_malloc_error true) s)
        else
          match name b with
          | NameFreed => ABad UseAfterFree
          | nm => add_to_context (mk_node ty (node_name nm) v) c s after_value
          end
    | _ =>
        if match list_type c with None => false | Some t => negb (bool_decide (t = ty)) end then failed s
        else
          let s := upd_b (set_list_type ty) s in
          let '(ok, b) := malloc (ps_b s) in
          let s := upd_b (fun _ => b) s in
          if negb ok then fbreak (upd_b (set_malloc_error true) s)
          else add_to_context (mk_node ty None v) c s after_value
    end).

(** ** Named actions *)

(** [strncmp(a, buf + i, n) == 0] *)
Fixpoint strncmp_eq (n : nat) (a : bytes) (i : Z) : fault + bool :=
  match n with
  | O => inr true
  | S n =>
      match char_at i with
      | None => inl OutOfBounds
      | Some d =>
          match a with
          | [] => inr (bool_decide (d = x00))
          | c :: a => if bool_decide (c = d) then strncmp_eq n a (i + 1) else inr false
          end
      end
  end.

(** Whether the key at [ts] is one of the names. *)
Fixpoint dup_key (l : list toml_node) (i : Z) (n : nat) : fault + bool :=
  match l with
  | [] => inr false
  | x :: r =>
      match n_name x with
      | None => dup_key r i n
      | Some a => match strncmp_eq n a i with inr false => dup_key r i n | e => e end
      end
  end.

(** The last position from [i] down that is neither blank nor tabulator. *)
Fixpoint trim (i : nat) : option Z :=
  match buf !! i with
  | None => None
  | Some c => if one_of whitespace c then match i with O => None | S j => trim j end else Some (Z.of_nat i)
  end.

Definition do_saw_key (s : pst) : ares :=
  let r := ps_r s in
  with_context s (fun c n =>
    match n_type n with
    | TOML_TABLE | TOML_ROOT | TOML_INLINE_TABLE =>
        match map_items n with
        | inl e => ABad e
        | inr l =>
            match dup_key l (ts r) (Z.to_nat (namelen r + 1)) with
            | inl e => ABad e
            | inr true => failed s
            | inr false =>
                match trim (Z.to_nat (ts r + namelen r)) with
                | None => ABad OutOfBounds
                | Some e =>
                    let '(ok, b) := malloc (ps_b s) in
                    let nm := if ok then NameStr (text_at (ts r) (e - ts r + 1)) else NameNull in
                    AGo (mk_pst (ps_m s) (set_namelen (e - ts r) r) (set_name nm b))
                end
            end
        end
    | _ => failed s
    end).

Definition do_saw_int (s : pst) : ares :=
  let r := ps_r s in
  add_node_to_tree TOML_INT (VInteger (if negative r then - number r else number r)) (upd_m (set_p (p (ps_m s) - 1)) s).

Definition do_saw_float (s : pst) : ares :=
  let s := upd_m (set_p (p (ps_m s) - 1)) s in
  let r := ps_r s in
  match precision r with
  | None => ABad Indeterminate
  | Some prec =>
      if (prec =? 0) && negb (exponent r) then failed s
      else add_node_to_tree TOML_FLOAT (VFloating (strtod (drop (Z.to_nat (ts r)) buf)) prec) (upd_r (set_exponent false) s)
  end.

(** [*strp = 0] needs room, too; a NUL in the string ends it for its readers. *)
Definition STRING_SIZE : nat := 1024.
Definition do_saw_string (s : pst) : ares :=
  let x := string_ (ps_r s) in
  if (STRING_SIZE <=? length x)%nat then ABad OutOfBounds
  else
    let '(ok, b) := malloc (ps_b s) in
    let s := upd_b (fun _ => b) s in
    if negb ok then fbreak (upd_b (set_malloc_error true) s)
    else add_node_to_tree TOML_STRING (VString (upto_nul x)) s.

(** [timegm]: a month outside the year counts into other years. *)
Definition timegm_ (t : tm) : Z :=
  timegm (tm_year t + 1900 + tm_mon t / 12) (tm_mon t mod 12) (tm_mday t) (tm_hour t) (tm_min t) (tm_sec t).

Definition do_saw_date (s : pst) : ares :=
  let r := ps_r s in
  let frac := match secfrac_ptr r with Some i => s32 (strtol10 i) | None => -1 end in
  add_node_to_tree TOML_DATE
    (VTime (timegm_ (tm_ r)) frac (time_offset_is_negative r) (time_offset r mod 256) (time_offset_is_zulu r)) s.

Definition do_start_list (s : pst) : ares :=
  with_context s (fun c n =>
    if match list_type c with None => false | Some t => negb (bool_decide (t = TOML_LIST)) end then failed s
    else
      let '(ok, b) := malloc (ps_b s) in
      let s := upd_b (fun _ => b) s in
      if negb ok then fbreak (upd_b (set_malloc_error true) s)
      else
        match name b, items n with
        | NameFreed, _ => ABad UseAfterFree
        | _, inl e => ABad e
        | nm, inr l =>
            (* without a name the node's stays unset *)
            let s := upd_b (fun b => set_name NameNull (set_list_type TOML_LIST b)) s in
            add_to_context (mk_node TOML_LIST (node_name nm) (VItems [])) c s (fun s =>
              push_context (node c ++ [length l]) s AGo)
        end).

Definition do_end_list (s : pst) : ares := after_value (POP_CONTEXT s).

(** [strcmp(item->node.name, tablename)] on the items in turn; [Some false]: none is
    equal. *)
Fixpoint dup_table (l : list toml_node) (tablename : cname) : fault + bool :=
  match l with
  | [] => inr false
  | x :: r =>
      match n_name x, tablename with
      | Some a, NameStr t => if bool_decide (a = t) then inr true else dup_table r tablename
      | _, NameFreed => inl UseAfterFree
      | _, _ => inl NullDeref
      end
  end.

Definition do_saw_inline_table (s : pst) : ares :=
  with_context s (fun c n =>
    match map_items n with
    | inl e => ABad e
    | inr l =>
        match dup_table l (name (ps_b s)) with
        | inl e => ABad e
        | inr true => failed s
        | inr false =>
            let '(ok, b) := malloc (ps_b s) in
            let s := upd_b (fun _ => b) s in
            if negb ok then fbreak (upd_b (set_malloc_error true) s)
            else
              match name b with
              | NameNull => ABad NullDeref
              | NameFreed => ABad UseAfterFree
              | NameStr t =>
                  let '(ok, b) := malloc b in   (* strdup *)
                  let s := upd_b (fun _ => b) s in
                  add_to_context (mk_node TOML_INLINE_TABLE (if ok then Some t else None) (VItems [])) c s (fun s =>
                    push_context (node c ++ [length l]) s (fun s => AGo (upd_b (set_name NameFreed) s)))
              end
        end
    end).

Definition do_end_inline_table (s : pst) : ares := after_value (POP_CONTEXT s).

(** A table that is the innermost context is dropped. *)
Definition drop_table (s : pst) (k : pst -> ares) : ares :=
  with_context s (fun _ n => k (if bool_decide (n_type n = TOML_TABLE) then POP_CONTEXT s else s)).

(** [strndup] of the name, and [SawTable] or [SawTableArray] on it. *)
Definition saw_header (saw : toml_node -> bytes -> fault + (Z * toml_node * option (list nat))) (len : Z) (s : pst) : ares :=
  drop_table s (fun s =>
    let '(ok, b) := malloc (ps_b s) in
    let s := upd_b (fun _ => b) s in
    if negb ok then ABad NullDeref
    else
      match saw (toml_root b) (text_at (ts (ps_r s)) len) with
      | inl e => ABad e
      | inr (code, t, last) =>
          let s := upd_b (set_toml_root t) s in
          match last with
          | Some path => if code =? 0 then push_context path s AGo else failed s
          | None => failed s
          end
      end).

Definition do_saw_table (s : pst) : ares := saw_header SawTable (p (ps_m s) - ts (ps_r s)) s.
Definition do_saw_table_array (s : pst) : ares := saw_header SawTableArray (p (ps_m s) - ts (ps_r s) - 1) s.

(** [u_strToUTF8] of ICU on one unit: the bytes it writes into a buffer of
    [capacity] and the length it needs; nothing for a surrogate, whose length stays
    unset. *)
Definition u_strToUTF8 (capacity : Z) (ch : Z) : option (bytes * Z) :=
  let out (l : list Z) := if Z.of_nat (length l) <=? capacity then byte_of <$> l else [] in
  if ch <=? 0x7f then Some (out [ch], 1)
  else if ch <=? 0x7ff then Some (out [Z.lor (Z.shiftr ch 6) 0xc0; Z.lor (Z.land ch 0x3f) 0x80], 2)
  else if (ch <=? 0xd7ff) || (0xe000 <=? ch) then
    Some (out [Z.lor (Z.shiftr ch 12) 0xe0; Z.lor (Z.land (Z.shiftr ch 6) 0x3f) 0x80; Z.lor (Z.land ch 0x3f) 0x80], 3)
  else None.

Definition utf32ToUTF8 (len : Z) (utf32 : Z) : bytes :=
  let out (l : list Z) := if len <? Z.of_nat (length l) then [] else byte_of <$> l in
  if utf32 <? 0x80 then out [utf32]
  else if utf32 <? 0x800 then out [Z.lor 0xc0 (Z.shiftr utf32 6); Z.lor 0x80 (Z.land utf32 0x3f)]
  else if utf32 <? 0x10000 then
    out [Z.lor 0xe0 (Z.shiftr utf32 12); Z.lor 0x80 (Z.shiftr (Z.land utf32 0x0fc0) 6); Z.lor 0x80 (Z.land utf32 0x3f)]
  else
    out [Z.lor 0xf0 (Z.shiftr utf32 18); Z.lor 0x80 (Z.shiftr (Z.land utf32 0x03f000) 12);
         Z.lor 0x80 (Z.shiftr (Z.land utf32 0xfc0) 6); Z.lor 0x80 (Z.land utf32 0x3f)].

(** The room behind [strp]. *)
Definition room (s : pst) : Z := Z.of_nat STRING_SIZE - Z.of_nat (length (string_ (ps_r s))).

(** [fret] *)
Definition fret (s : pst) : ares :=
  match stack (ps_m s) with
  | [] => ABad OutOfBounds
  | q :: r => AAgain (upd_m (fun m => set_stack r (set_cs q m)) s)
  end.

Definition do_saw_utf16 (s : pst) : ares :=
  match u_strToUTF8 (room s) (strtoul16 (text_at (utf_start (ps_r s)) 4)) with
  | None => ABad Indeterminate
  | Some (l, outLen) =>
      if room s <? outLen then ABad OutOfBounds else fret (upd_r (set_string_ (string_ (ps_r s) ++ l)) s)
  end.

Definition do_saw_utf32 (s : pst) : ares :=
  fret (upd_r (set_string_ (string_ (ps_r s) ++ utf32ToUTF8 (room s) (strtoul16 (text_at (utf_start (ps_r s)) 8)))) s).

(** [*strp++ = c] *)
Definition put (c : byte) (s : pst) : ares :=
  let x := string_ (ps_r s) in
  if (length x <? STRING_SIZE)%nat then AGo (upd_r (set_string_ (x ++ [c])) s) else ABad OutOfBounds.

(** [number *= 10; number += fc - '0'] *)
Definition number_more (fc : byte) (s : pst) : ares :=
  let n := number (ps_r s) * 10 + (uchar fc - 48) in
  if 2 ^ 63 <=? n then ABad SignedOverflow else AGo (upd_r (set_number n) s).

Definition upd_tm (f : tm -> tm) (s : pst) : pst := upd_r (set_tm_ (f (tm_ (ps_r s)))) s.

(** A statement, with the character [fc] at [p]. *)
Definition run_act (a : act) (fc : byte) (s : pst) : ares :=
  let fpc := p (ps_m s) in
  match a with
  | In_text b => AGo (upd_r (set_in_text b) s)
  | Fhold => AGo (upd_m (set_p (fpc - 1)) s)
  | Fgoto l => AAgain (upd_m (set_cs [l]) s)
  | Fcall l => AAgain (upd_m (fun m => set_stack (cs m :: stack m) (set_cs [l] m)) s)
  | Fret => fret s
  | Fbreak => fbreak s
  | Put c => put c s
  | Put_fc => put fc s
  | Str_start => AGo (upd_r (set_string_ []) s)
  | Ts => AGo (upd_r (set_ts fpc) s)
  | Namelen d => AGo (upd_r (set_namelen (fpc - ts (ps_r s) - d)) s)
  | Number n => AGo (upd_r (set_number n) s)
  | Number_more => number_more fc s
  | Number_sign => AGo (upd_r (fun r => set_ts fpc (set_number 0 (set_negative (eqc "-"%byte fc) r))) s)
  | Number_first => AGo (upd_r (fun r => set_ts fpc (set_number (uchar fc - 48) (set_negative false r))) s)
  | Year => AGo (upd_tm (fun t => mk_tm (tm_sec t) (tm_min t) (tm_hour t) (tm_mday t) (tm_mon t) (s32 (number (ps_r s) - 1900)) 0) s)
  | Precision_0 => AGo (upd_r (set_precision (Some 0)) s)
  | Precision_more => AGo (upd_r (set_precision (Z.add 1 <$> precision (ps_r s))) s)
  | Exponent => AGo (upd_r (set_exponent true) s)
  | Utf_start => AGo (upd_r (set_utf_start fpc) s)
  | Date_init => AGo (upd_r (fun r => set_secfrac_ptr None (set_time_offset 0
                     (set_time_offset_is_negative false (set_time_offset_is_zulu false r)))) s)
  | Mon => AGo (upd_tm (fun t => mk_tm (tm_sec t) (tm_min t) (tm_hour t) (tm_mday t) (atoi (fpc - 1) - 1) (tm_year t) 0) s)
  | Mday => AGo (upd_tm (fun t => mk_tm (tm_sec t) (tm_min t) (tm_hour t) (atoi (fpc - 1)) (tm_mon t) (tm_year t) 0) s)
  | Hour => AGo (upd_tm (fun t => mk_tm (tm_sec t) (tm_min t) (atoi (fpc - 1)) (tm_mday t) (tm_mon t) (tm_year t) 0) s)
  | Min => AGo (upd_tm (fun t => mk_tm (tm_sec t) (atoi (fpc - 1)) (tm_hour t) (tm_mday t) (tm_mon t) (tm_year t) 0) s)
  | Sec => AGo (upd_tm (fun t => mk_tm (atoi (fpc - 1)) (tm_min t) (tm_hour t) (tm_mday t) (tm_mon t) (tm_year t) 0) s)
  | Secfrac => AGo (upd_r (set_secfrac_ptr (Some fpc)) s)
  | Offset_negative => AGo (upd_r (set_time_offset_is_negative true) s)
  | Offset_hours => AGo (upd_r (set_time_offset (atoi (fpc - 1) * 60)) s)
  | Offset_minutes => AGo (upd_r (set_time_offset (time_offset (ps_r s) + atoi (fpc - 1))) s)
  | Offset_zulu => AGo (upd_r (set_time_offset_is_zulu true) s)
  | saw_key => do_saw_key s
  | saw_bool => add_node_to_tree TOML_BOOLEAN (VInteger (number (ps_r s))) s
  | saw_int => do_saw_int s
  | saw_float => do_saw_float s
  | saw_string => do_saw_string s
  | saw_date => do_saw_date s
  | start_list => do_start_list s
  | end_list => do_end_list s
  | saw_inline_table => do_saw_inline_table s
  | end_inline_table => do_end_inline_table s
  | saw_table => do_saw_table s
  | saw_table_array => do_saw_table_array s
  | saw_utf16 => do_saw_utf16 s
  | saw_utf32 => do_saw_utf32 s
  | bad_escape => failed s
  end.

Fixpoint run_acts (l : list act) (fc : byte) (s : pst) : ares :=
  match l with
  | [] => AGo s
  | a :: r => match run_act a fc s with AGo s => run_acts r fc s | e => e end
  end.

(** ** The loop *)

Inductive sres := SNext (s : pst) | SStop (s : pst) | SBad (f : fault).

(** One round of the generated code, from [_resume] on; [pe] is the end. *)
Definition step (pe : Z) (s : pst) : sres :=
  match char_at (p (ps_m s)) with
  | None => SBad OutOfBounds
  | Some fc =>
      match cs (ps_m s) ≫= (fun q => moves q fc) with
      | [] => SStop (upd_m (set_cs []) s)
      | ms =>
          match run_acts (merge ms) fc (upd_m (set_cs (targets ms)) s) with
          | AGo s | AAgain s =>
              let s := upd_m (set_p (p (ps_m s) + 1)) s in
              if p (ps_m s) =? pe then SStop s else SNext s
          | AOut s => SStop s
          | ABad f => SBad f
          end
      end
  end.

Fixpoint exec (fuel : nat) (pe : Z) (s : pst) : option (fault + pst) :=
  match fuel with
  | O => None
  | S fuel =>
      match step pe s with
      | SNext s => exec fuel pe s
      | SStop s => Some (inr s)
      | SBad f => Some (inl f)
      end
  end.

Definition regs0 : regs := mk_regs 0 [] None 0 0 false (mk_tm 0 0 0 0 0 0 0) 0 0 None false false false false.
Definition init (b : build) : pst :=
  mk_pst (mk_mach 0 [start] []) regs0 (set_context_stack [mk_item None []] b).

(** After the machine has stopped. *)
Definition verdict (pe : Z) (s : pst) : Z :=
  if malloc_error (ps_b s) then 1
  else if parse_error (ps_b s) then 1
  else if in_text (ps_r s) then 1
  else if negb (p (ps_m s) =? pe) then 1
  else if bool_decide (cs (ps_m s) = []) then 1
  else 0.

End parser.

End Rl.

(** The result and the tree; [None] if the rounds were not enough. *)
Definition toml_parse (strtod : bytes -> Z) (answers : list bool) (fuel : nat) (root : toml_node) (buf : bytes) (buflen : nat)
    : option (fault + (Z * toml_node)) :=
  let pe := Z.of_nat buflen + 1 in
  let '(ok, b) := Rl.malloc (Rl.mk_build Rl.NameNull [] root answers false false) in
  if negb ok then Some (inl NullDeref)
  else if negb (bool_decide (n_type root = TOML_ROOT)) then Some (inl AssertFailed)
  else
    match Rl.exec buf strtod fuel pe (Rl.init b) with
    | None => None
    | Some (inl f) => Some (inl f)
    | Some (inr s) => Some (inr (Rl.verdict pe s, Rl.toml_root (Rl.ps_b s)))
    end.
