(* ===== verification/TomlStates.v ===== *)
(** * The states of the TOML parser's machine

    The state of the machine is a set of positions.  A name in single quotes is
    read along with the same name without them, and with what follows it, so
    that the sets become too many to list.  But the positions inside a name (the
    [rider]s) only record where the name is; they neither move [p] back nor leave
    the state for another, and all they do is to add one position, [start] or
    [val], to the set when the name ends.  So the table of this file does not
    list sets: it lists the pairs of the other positions of a set, in their
    order, with one rider or none.  A set is described when all its pairs are in
    the table ([fits]).

    [table] is found by search.  Its pairs have weights that bound the rounds in
    which [p] is held back, and the least value of [p]; that they do so is
    checked in TomlMachine.v. *)

From stdpp Require Import base option numbers strings list pmap.
From Stdlib Require Import Strings.Byte ZArith Lia.
From S2P Require Import Prelude Utils Toml TomlParse.
Import Rl.
Local Open Scope Z_scope.

(** ** What a transition's actions do to the machine *)

(** How far [p] has moved, and the state, where [None] is the target of the
    transition. *)
Record amove := mk_amove { a_d : Z; a_cs : option pos }.

(** Where the actions lead: on to the next one; to [_again]; to a label, with the
    state pushed on the stack; to the state on the stack. *)
Inductive aend := Go (a : amove) | Again (a : amove) | Call (a : amove) (l : pos) | Ret (a : amove).

Definition a_value (d : Z) (a : amove) : list aend :=
  (fun q => Go (mk_amove (a_d a + d) (Some q))) <$> [start; list_; inline_table].

Definition abs_act (x : act) (a : amove) : list aend :=
  match x with
  | Fhold => [Go (mk_amove (a_d a - 1) (a_cs a))]
  | Fgoto l => [Again (mk_amove (a_d a) (Some l))]
  | Fcall l => [Call a l]
  | Fret | saw_utf16 | saw_utf32 => [Ret a]
  | Fbreak | bad_escape => []
  | saw_bool | saw_string | saw_date | end_list | end_inline_table => a_value 0 a
  | saw_int | saw_float => a_value (-1) a
  | _ => [Go a]
  end.

Fixpoint abs_acts (l : list act) (a : amove) : list aend :=
  match l with
  | [] => [Go a]
  | x :: r => abs_act x a ≫= (fun e => match e with Go a => abs_acts r a | _ => [e] end)
  end.

Definition effects (ms : list (list emb * pos)) : list aend := abs_acts (merge ms) (mk_amove 1 None).

(** ** Riders *)

Definition rider (q : pos) : bool :=
  match q with
  | T_name | T_dq0 | T_dq | T_dq_end | T_sq0 | T_sq | T_sq_end
  | A_open | A_name | A_close | A_dq0 | A_dq | A_dq_end | A_sq0 | A_sq | A_sq_end | A_last
  | K_name | K_name_ws | K_dq0 | K_dq | K_dq_end | K_sq0 | K_sq | K_sq_end => true
  | _ => false
  end.

Definition actives (l : list pos) : list pos := filter (fun q => rider q = false) l.
Definition riders (l : list pos) : list pos := filter (fun q => rider q = true) l.

(** The position that a name adds when it ends at [c]. *)
Definition added (c : byte) : list pos :=
  if Byte.eqb c "]"%byte then [start] else if Byte.eqb c "="%byte then [val] else [].

(** What becomes of a rider: positions added to the set, and riders. *)
Definition goes_to (q : pos) (c : byte) : list pos := snd <$> moves q c.
Definition adds (r : option pos) (c : byte) : list pos := match r with None => [] | Some q => actives (goes_to q c) end.
Definition rides (r : option pos) (c : byte) : list pos := match r with None => [] | Some q => riders (goes_to q c) end.

Fixpoint inserts {A} (e : A) (l : list A) : list (list A) :=
  match l with
  | [] => [[e]]
  | x :: r => (e :: l) :: (cons x <$> inserts e r)
  end.

(** A round out of a set with the active positions [A]: how far [p] moves, whether
    the next character is another one, the active positions after it, the riders
    that come from active positions, and whether riders stay. *)
Record turn := mk_turn { t_d : Z; t_any : bool; t_set : list pos; t_new : list pos; t_keep : bool }.

(** [e]: the position that a rider adds. *)
Definition turn_of (T : list pos) (e : option pos) (any : bool) (a : amove) : list turn :=
  match a_cs a with
  | Some l => [mk_turn (a_d a) (any || negb (a_d a =? 0)) [l] [] false]
  | None =>
      (fun L => mk_turn (a_d a) (any || negb (a_d a =? 0)) (remove_dups L) (riders T) true) <$>
        match e with None => [actives T] | Some e => inserts e (actives T) end
  end.

Definition turns (A : list pos) (c : byte) (e : option pos) : list turn :=
  let ms := A ≫= (fun q => moves q c) in
  effects ms ≫= (fun x =>
    match x with
    | Go a | Again a => turn_of ms.*2 e false a
    | Call a _ => turn_of ms.*2 e true a
    | Ret _ => []
    end).

(** The riders, or none, after a round of a set with the rider [r]. *)
Definition next_riders (t : turn) (r : option pos) (c : byte) : list (option pos) :=
  None :: (if t_keep t then Some <$> t_new t ++ rides r c else []).

(** ** The pairs *)

(** A number for a position, to find sets by. *)
Definition code (q : pos) : positive :=
  match q with
  | start => 1 | text_in => 2 | comment => 3 | table => 4 | true_ => 5 | false_ => 6
  | basic_string => 7 | basic_empty_or_multi_line => 8 | basic_multi_line_start => 9 | basic_multi_line => 10
  | basic_multi_line_escape => 11 | basic_multi_line_rm_ws => 12 | basic_multi_line_quote => 13
  | basic_multi_line_quote_2 => 14 | basic_string_contents => 15
  | number_or_date => 16 | N_underscore => 17 | fractional_part => 18 | exponent_part => 19
  | fractional_second_or_offset => 20 | F_dot => 21 | F_digits => 22 | time_offset_ => 23
  | literal_string => 24 | literal_string_contents => 25 | literal_empty_or_multi_line => 26
  | literal_multi_line_start => 27 | literal_multi_line => 28 | literal_multi_line_quote => 29
  | literal_multi_line_second_quote => 30 | singular => 31 | list_ => 32 | inline_table => 33 | val => 34
  | key => 35 | text => 36
  | date n => 40 + Pos.of_succ_nat n | O_sign n => 60 + Pos.of_succ_nat n
  | S_true n => 70 + Pos.of_succ_nat n | S_false n => 80 + Pos.of_succ_nat n
  | _ => 37
  end%positive.

Definition set_key (A : list pos) : positive := fold_left (fun k q => (128 * k + code q)%positive) A 1%positive.

(** The positions of [comment] and the escapes, which are called, and all others. *)
Definition callees : list pos := [comment; str_escape] ++ (unicode4 <$> seq 0 4) ++ (unicode8 <$> seq 0 8).
Definition positions : list pos :=
  [start; text_in; text; Rl.table; T_name; T_dq0; T_dq; T_dq_end; T_sq0; T_sq; T_sq_end;
   A_open; A_name; A_close; A_dq0; A_dq; A_dq_end; A_sq0; A_sq; A_sq_end; A_last; true_; false_;
   basic_string; basic_empty_or_multi_line; basic_multi_line_start; basic_multi_line;
   basic_multi_line_escape; basic_multi_line_rm_ws; basic_multi_line_quote; basic_multi_line_quote_2; basic_string_contents;
   number_or_date; N_underscore; fractional_part; exponent_part;
   fractional_second_or_offset; F_dot; F_digits; time_offset_;
   literal_string; literal_string_contents; literal_empty_or_multi_line; literal_multi_line_start;
   literal_multi_line; literal_multi_line_quote; literal_multi_line_second_quote;
   singular; list_; inline_table; val; key; K_name; K_name_ws; K_dq0; K_dq; K_dq_end; K_sq0; K_sq; K_sq_end] ++
  (date <$> seq 0 14) ++ (O_sign <$> seq 0 5) ++ (S_true <$> seq 0 4) ++ (S_false <$> seq 0 5).

(** Characters that no position tells apart have one representative. *)
Definition all_bytes : list byte := (fun n => byte_of (Z.of_nat n)) <$> seq 0 256.
Definition alike (c d : byte) : bool := forallb (fun q => bool_decide (moves q c = moves q d)) positions.
Definition reps : list byte :=
  Eval vm_compute in
    foldl (fun l c => if existsb (alike c) l then l else l ++ [c]) [] all_bytes.
Definition rep (c : byte) : byte := default c (find (alike c) reps).

(** The search: from each set to its pairs' next pairs. *)
Definition sets : Type := Pmap (list pos * list (option pos)).

Definition add_pair (st : sets * list (list pos)) (x : list pos * option pos) : sets * list (list pos) :=
  let k := set_key x.1 in
  let old := match st.1 !! k with None => [] | Some g => g.2 end in
  if bool_decide (x.2 ∈ old) then st
  else (<[k := (x.1, x.2 :: old)]> st.1, if bool_decide (x.1 ∈ st.2) then st.2 else st.2 ++ [x.1]).

(** The pairs that follow on a set with riders [g]. *)
Definition pairs_of (t : turn) (c : byte) (g : list (option pos)) : list (list pos * option pos) :=
  (fun r => (t_set t, r)) <$> (g ≫= (fun r => next_riders t r c)).

Definition silent (c : byte) (r : option pos) : bool := match adds r c with [] => true | _ => false end.

Definition next_pairs_at (A : list pos) (g : list (option pos)) (c : byte) : list (list pos * option pos) :=
  (turns A c None ≫= (fun t => pairs_of t c (List.filter (silent c) g))) ++
  (if forallb (silent c) g then []
   else added c ≫= (fun e => turns A c (Some e) ≫= (fun t => pairs_of t c g))).

Definition next_pairs (A : list pos) (g : list (option pos)) : list (list pos * option pos) :=
  reps ≫= next_pairs_at A g.

Fixpoint search (n : nat) (st : sets * list (list pos)) : sets :=
  match n, st.2 with
  | S n, A :: todo =>
      match st.1 !! set_key A with
      | None => st.1
      | Some g => search n (foldl add_pair (st.1, todo) (remove_dups (next_pairs A g.2)))
      end
  | _, _ => st.1
  end.

Definition found : list (list pos * list (option pos)) :=
  Eval vm_compute in (map_to_list (search 5000 (add_pair (∅, []) ([start], None)))).*2.

(** ** Weights *)

(** A function of the representatives: its value but for a few of them. *)
Record row := mk_row { usual : Z; but : list (byte * Z) }.
Definition row_at (w : row) (c : byte) : Z := default (usual w) (snd <$> find (fun x => Byte.eqb x.1 c) (but w)).

(** [phi] goes down by more than six times what [p] goes up; [low] is a least
    value of [p]; with their greatest values. *)
Record wt := mk_wt { phi : row; phi_max : Z; low : row; low_max : Z }.

(** The pairs by number, and the rounds between them: how far [p] moves, whether
    the next character is another one, and the pair. *)
Definition numbered : list (positive * (list pos * option pos)) :=
  imap (fun i x => (Pos.of_succ_nat i, x)) (found ≫= (fun g => (fun r => (g.1, r)) <$> g.2)).
Definition numbers : Pmap (list (option pos * positive)) :=
  Eval vm_compute in
    foldl (fun m '(n, (A, r)) => <[set_key A := (r, n) :: default [] (m !! set_key A)]> m) ∅ numbered.

Definition number_in (g : list (option pos * positive)) (r : option pos) : list positive :=
  snd <$> List.filter (fun x => bool_decide (x.1 = r)) g.

Definition rounds (A : list pos) (r : option pos) (c : byte) : list (Z * bool * positive) :=
  turns A c (head (adds r c)) ≫= (fun t =>
    let g := default [] (numbers !! set_key (t_set t)) in
    (fun n => (t_d t, t_any t, n)) <$>
      (if silent c r then remove_dups (next_riders t r c) ≫= number_in g else if t_keep t then g.*2 else number_in g None)).

(** For each pair, the rounds by the place of the character in [reps]. *)
Definition edge : Type := Z * bool * positive.
Definition graph : list (positive * list (nat * list edge)) :=
  (fun '(n, (A, r)) => (n, imap (fun i c => (i, remove_dups (rounds A r c))) reps)) <$> numbered.

(** Longest and shortest paths, by repeated improvement: the values for the
    representatives, with the greatest one. *)
Definition line : Type := Z * list Z.
Definition greatest (l : list Z) : Z := foldr Z.max 0 l.

Definition relax_phi (gr : list (positive * list (nat * list edge))) (w : Pmap line) : Pmap line :=
  foldl (fun w '(n, es) =>
    let l := (fun '(i, e) => foldr (fun '(d, any, m) z =>
                let v : line := default (0, []) (w !! m) in
                Z.max z ((if any : bool then v.1 else nth i v.2 0) + 1 - 6 * d)) 0 e) <$> es in
    <[n := (greatest l, l)]> w) w gr.

Definition lower (z : Z) (any : bool) (i : nat) (w : line) : line :=
  let l := if any then Z.min z <$> w.2 else alter (Z.min z) i w.2 in (greatest l, l).
Definition relax_low (gr : list (positive * list (nat * list edge))) (w : Pmap line) : Pmap line :=
  foldl (fun w '(n, es) =>
    let l := (default (0, []) (w !! n)).2 in
    foldl (fun w '(i, e) =>
      let z := nth i l 0 in
      foldl (fun w '(d, any, m) =>
        let old := default (0, []) (w !! m) in
        if z + d <? (if any : bool then old.1 else nth i old.2 0) then <[m := lower (z + d) any i old]> w else w) w e) w es) w gr.

Definition best (l : list Z) : Z :=
  (foldr (fun x b => let k := length (List.filter (Z.eqb x) l) in if (b.1 <? k)%nat then (k, x) else b) (0%nat, 0) l).2.
Definition to_row (l : list Z) : row :=
  let b := best l in mk_row b (List.filter (fun x => negb (x.2 =? b)) (zip reps l)).

Definition low0 : Pmap line :=
  foldl (fun (m : Pmap line) (x : positive * (list pos * option pos)) =>
    let z := if bool_decide (x.2 = ([start], None)) then 0 else 4 in
    <[x.1 := (z, (fun _ => z) <$> reps)]> m) ∅ numbered.

Definition weigh_pair (ph lo : Pmap line) (A : list pos) (r : option pos) : option pos * wt :=
  let n := default 1%positive (head (number_in (default [] (numbers !! set_key A)) r)) in
  let p : line := default (0, []) (ph !! n) in
  let l : line := default (0, []) (lo !! n) in
  (r, mk_wt (to_row p.2) p.1 (to_row l.2) l.1).

Definition weigh (n : nat) : list (list pos * list (option pos * wt)) :=
  let gr := graph in
  let ph := Nat.iter n (relax_phi gr) ∅ in
  let lo := Nat.iter n (relax_low gr) low0 in
  (fun g : list pos * list (option pos) => (g.1, weigh_pair ph lo g.1 <$> g.2)) <$> found.

Definition by_key : Pmap (list pos * list (option pos * wt)) :=
  Eval vm_compute in foldl (fun m g => <[set_key g.1 := g]> m) ∅ (weigh 9).

(** The pairs of a set. *)
Definition group (A : list pos) : option (list (option pos * wt)) :=
  match by_key !! set_key A with Some (B, g) => if bool_decide (A = B) then Some g else None | None => None end.

(** ** The check *)

(** The weights [w] at [c] allow a round to weights [v]. *)
Definition drops (w : wt) (c : byte) (t : turn) (v : wt) : bool :=
  (t_d t <=? 1) &&
  ((if t_any t then phi_max v else row_at (phi v) c) <? row_at (phi w) c + 6 * t_d t) &&
  ((if t_any t then low_max v else row_at (low v) c) <=? row_at (low w) c + t_d t).

Definition pair_in (r : option pos) (g : list (option pos * wt)) : option wt :=
  snd <$> find (fun x => bool_decide (x.1 = r)) g.

(** A set whose riders add nothing. *)
Definition quiet_ok (A : list pos) (g : list (option pos * wt)) (c : byte) : bool :=
  forallb (fun t =>
    match group (t_set t) with
    | None => false
    | Some h =>
        forallb (fun x => negb (silent c x.1) ||
          forallb (fun r => match pair_in r h with None => false | Some v => drops x.2 c t v end) (next_riders t x.1 c)) g
    end) (turns A c None).

(** A set with a rider that adds a position. *)
Definition adding_ok (A : list pos) (g : list (option pos * wt)) (c : byte) : bool :=
  forallb (fun x => silent c x.1) g ||
  forallb (fun e => forallb (fun t =>
    match group (t_set t) with
    | None => false
    | Some h =>
        forallb (fun x =>
          forallb (fun r => bool_decide (is_Some (pair_in r h))) (next_riders t x.1 c) &&
          (silent c x.1 || forallb (fun y => (negb (t_keep t) && bool_decide (is_Some y.1)) || drops x.2 c t y.2) h)) g
    end) (turns A c (Some e))) (added c).

Definition within (a b : Z) (w : row) : bool := forallb (fun z => (a <=? z) && (z <=? b)) (usual w :: (but w).*2).

(** Only [comment] and the escapes are called, and no rider is a label. *)
Definition label_ok (a : amove) : bool := match a_cs a with Some l => negb (rider l) | None => true end.
Definition labels_ok (A : list pos) (c : byte) : bool :=
  forallb (fun x =>
    match x with
    | Go a | Again a => label_ok a
    | Call a l => label_ok a && bool_decide (l ∈ callees)
    | Ret _ => true
    end) (effects (A ≫= (fun q => moves q c))).

Definition group_ok (A : list pos) (g : list (option pos * wt)) : bool :=
  forallb (fun q => negb (rider q) && bool_decide (q ∈ positions)) A &&
  forallb (fun x => within 0 (phi_max x.2) (phi x.2) && within 0 (low_max x.2) (low x.2)) g &&
  forallb (fun c => quiet_ok A g c && adding_ok A g c && labels_ok A c) reps.

Lemma by_key_ok : forallb (fun x => group_ok x.2.1 x.2.2) (map_to_list by_key) = true.
Proof. vm_compute. reflexivity. Qed.

(** Inside a call [p] only goes on. *)
Lemma callees_ok :
  forallb (fun q => forallb (fun c =>
    forallb (fun x =>
      match x with
      | Go a | Again a =>
          (a_d a =? 1) && bool_decide (a_cs a = None) &&
          match targets (moves q c) with [] => true | [q'] => bool_decide (q' ∈ callees) | _ => false end
      | Call _ _ => false
      | Ret a => a_d a =? 1
      end) (effects (moves q c))) all_bytes) callees = true.
Proof. vm_compute. reflexivity. Qed.

Lemma reps_ok : forallb (fun c => alike c (rep c) && bool_decide (rep c ∈ reps)) all_bytes = true.
Proof. vm_compute. reflexivity. Qed.
