(* ===== verification/TomlRiders.v ===== *)
(** * Riders do not change what a transition does

    The transition of a set of positions has the actions of all its positions'
    transitions.  Those of a rider are of five kinds that leave the machine
    alone, and have numbers of their own ([loud] is the rest); so what the
    actions do to the machine is what those of the active positions do
    ([effects_actives]), and the set after the transition is that of the active
    positions, with riders, and with the one position that a rider can add
    ([targets_actives]). *)

From stdpp Require Import base option numbers strings list sets.
From Stdlib Require Import Strings.Byte ZArith Lia Sorting.Sorted.
From S2P Require Import Prelude Utils Toml TomlParse TomlStates.
Import Rl.
Local Open Scope Z_scope.

(** ** Embedded actions *)

Definition mute (x : act) : bool :=
  match x with Ts | Namelen _ | saw_table | saw_table_array | saw_key => true | _ => false end.

(** By its number, an action of the positions that are not in names. *)
Definition loud (e : emb) : bool :=
  negb (((4830 <=? e.1) && (e.1 <? 4890)) || ((6990 <=? e.1) && (e.1 <? 7020))).

(** The number tells whether the statements are mute. *)
Definition told (e : emb) : Prop := loud e = negb (forallb mute e.2).

Definition embs (q : pos) (c : byte) : list emb := concat (moves q c).*1.

Lemma mv_told b es q : Forall told es -> Forall told (concat (mv b es q).*1).
Proof. intros H. unfold mv. destruct b; simpl; [|done]. by rewrite app_nil_r. Qed.

Lemma told_app (l k : list (list emb * pos)) : Forall told (concat l.*1) -> Forall told (concat k.*1) -> Forall told (concat (l ++ k).*1).
Proof. intros. rewrite fmap_app, concat_app. by apply Forall_app. Qed.

Lemma embs_told q c : Forall told (embs q c).
Proof.
  unfold embs. destruct q; simpl; unfold text_moves, time_moves; simpl; try constructor;
    repeat apply told_app; try apply mv_told; try (repeat constructor; fail).
  all: repeat case_match; simpl; repeat (apply mv_told || apply told_app); repeat constructor.
Qed.

Lemma rider_mute q c : rider q = true -> Forall (fun e => loud e = false) (embs q c).
Proof.
  intros H. unfold embs. destruct q; try done; simpl; unfold mv; repeat case_match; simpl; repeat constructor.
Qed.

(** ** Sorting, and the first of each *)

Definition sort (l : list emb) : list emb := foldr insert_emb [] l.

Definition ordered : list emb -> Prop := StronglySorted (fun a b => a.1 <= b.1).

Lemma insert_emb_perm e l : insert_emb e l ≡ₚ e :: l.
Proof. induction l as [|x l IH]; simpl; [done|]. case_match; [done|]. rewrite IH. constructor. Qed.

Lemma sort_perm l : sort l ≡ₚ l.
Proof. induction l as [|e l IH]; simpl; [done|]. by rewrite insert_emb_perm, IH. Qed.

Lemma insert_emb_ordered e l : ordered l -> ordered (insert_emb e l).
Proof.
  induction 1 as [|x l Hs IH Hx]; simpl; [repeat constructor|]. case_match eqn:E.
  - constructor; [by constructor|]. constructor; [lia|]. eapply Forall_impl; [exact Hx|]. simpl. lia.
  - constructor; [done|]. rewrite insert_emb_perm. constructor; [lia|done].
Qed.

Lemma sort_ordered l : ordered (sort l).
Proof. induction l; simpl; [constructor|]. by apply insert_emb_ordered. Qed.

Lemma insert_emb_head e l : Forall (fun x => e.1 < x.1) l -> insert_emb e l = e :: l.
Proof. destruct 1 as [|x l H]; simpl; [done|]. by rewrite (proj2 (Z.ltb_lt _ _)). Qed.

Section keep.
Context (P : emb -> bool).
Abbreviation keep := (List.filter P).

Lemma keep_Forall (Q : emb -> Prop) l : Forall Q l -> Forall Q (keep l).
Proof. induction 1 as [|x l H Hl IH]; simpl; [done|]. destruct (P x); [by constructor|done]. Qed.

Lemma keep_insert e l : ordered l -> keep (insert_emb e l) = if P e then insert_emb e (keep l) else keep l.
Proof.
  induction 1 as [|x l Hs IH Hx]; simpl; [by destruct (P e)|]. destruct (e.1 <? x.1) eqn:E; simpl.
  - destruct (P e), (P x); simpl; try done; [by rewrite E|].
    rewrite insert_emb_head; [done|]. apply keep_Forall. eapply Forall_impl; [exact Hx|]. simpl. lia.
  - rewrite IH. destruct (P e), (P x); simpl; try done. by rewrite E.
Qed.

Lemma keep_sort l : keep (sort l) = sort (keep l).
Proof.
  induction l as [|e l IH]; simpl; [done|]. rewrite keep_insert by apply sort_ordered. rewrite IH. by destruct (P e).
Qed.

Lemma first_only_sub l : first_only l ⊆ l.
Proof.
  induction l as [|x l IH]; simpl; [done|]. intros y Hy. apply elem_of_cons in Hy as [->|Hy]; [constructor|].
  apply list_elem_of_filter in Hy as [_ Hy]. constructor. by apply IH.
Qed.

Lemma keep_filter (Q : emb -> Prop) `{forall x, Decision (Q x)} (l : list emb) : keep (filter Q l) = filter Q (keep l).
Proof.
  induction l as [|x l IH]; simpl; [done|]. rewrite filter_cons. case_decide as HQ; simpl; destruct (P x); simpl.
  - by rewrite filter_cons_True, IH.
  - done.
  - by rewrite filter_cons_False.
  - done.
Qed.

Lemma filter_all (Q : emb -> Prop) `{forall x, Decision (Q x)} (l : list emb) : (forall y, y ∈ l -> Q y) -> filter Q l = l.
Proof.
  induction l as [|x l IH]; intros HQ; [done|]. rewrite filter_cons_True by (apply HQ; constructor).
  rewrite IH; [done|]. intros. apply HQ. by constructor.
Qed.

Lemma elem_of_keep x l : x ∈ keep l <-> P x = true /\ x ∈ l.
Proof. rewrite !list_elem_of_In, filter_In. tauto. Qed.

Lemma keep_first_only l : (forall x y, x ∈ l -> y ∈ l -> same_emb x y = true -> P x = P y) ->
  keep (first_only l) = first_only (keep l).
Proof.
  induction l as [|x l IH]; simpl; intros H; [done|].
  assert (keep (first_only l) = first_only (keep l)) as E by (apply IH; intros; apply H; by (done || constructor)).
  rewrite keep_filter, E. destruct (P x) eqn:Px; simpl; [done|].
  apply filter_all. intros y Hy. apply first_only_sub, elem_of_keep in Hy as [Py Hy].
  destruct (same_emb x y) eqn:S; [|done]. rewrite (H x y) in Px; [congruence|constructor|by constructor|done].
Qed.
End keep.

Lemma keep_concat P (l : list (list emb)) : List.filter P (concat l) = concat (List.filter P <$> l).
Proof. induction l as [|x l IH]; simpl; [done|]. by rewrite List.filter_app, IH. Qed.

(** ** The effect of a transition *)

Lemma same_emb_loud x y : told x -> told y -> same_emb x y = true -> loud x = loud y.
Proof.
  unfold told, same_emb. intros Hx Hy H. apply orb_true_iff in H as [H|H].
  - apply Z.eqb_eq in H. unfold loud. by rewrite H.
  - apply andb_true_iff in H as [H _]. apply bool_decide_eq_true in H. by rewrite Hx, Hy, H.
Qed.

Lemma abs_acts_mute l r a : forallb mute l = true -> abs_acts (l ++ r) a = abs_acts r a.
Proof.
  induction l as [|x l IH]; simpl; [done|]. intros H. apply andb_true_iff in H as [Hx Hl].
  rewrite <- (IH Hl). destruct x; try done; simpl; by rewrite app_nil_r.
Qed.

Lemma abs_acts_cong l r r' : (forall a, abs_acts r a = abs_acts r' a) -> forall a, abs_acts (l ++ r) a = abs_acts (l ++ r') a.
Proof.
  intros H. induction l as [|x l IH]; intros a; simpl; [apply H|].
  apply list_bind_ext; [|done]. intros []; auto.
Qed.

Lemma abs_acts_loud (l : list emb) : Forall told l -> forall a,
  abs_acts (concat l.*2) a = abs_acts (concat (List.filter loud l).*2) a.
Proof.
  induction 1 as [|e l He Hl IH]; intros a; simpl; [done|]. unfold told in He. destruct (loud e) eqn:E; simpl.
  - by apply abs_acts_cong.
  - rewrite abs_acts_mute; [apply IH|]. by destruct (forallb mute e.2).
Qed.

Lemma merge_loud ms a : Forall told (concat ms.*1) ->
  abs_acts (merge ms) a = abs_acts (concat (first_only (sort (List.filter loud (concat ms.*1)))).*2) a.
Proof.
  intros H. unfold merge. fold (sort (concat ms.*1)).
  assert (Forall told (sort (concat ms.*1))) as Hs by by rewrite sort_perm.
  rewrite abs_acts_loud.
  - rewrite keep_first_only, keep_sort; [done|]. rewrite Forall_forall in Hs. intros x y Hx Hy. apply same_emb_loud; auto.
  - rewrite Forall_forall in Hs |- *. intros x Hx. by apply Hs, first_only_sub.
Qed.

Definition moves_of (S : list pos) (c : byte) : list (list emb * pos) := S ≫= (fun q => moves q c).

Lemma moves_of_embs S c : concat (moves_of S c).*1 = concat ((fun q => embs q c) <$> S).
Proof.
  induction S as [|q S IH]; simpl; [done|]. unfold moves_of. simpl. rewrite fmap_app, concat_app. by f_equal.
Qed.

Lemma moves_of_told S c : Forall told (concat (moves_of S c).*1).
Proof.
  rewrite moves_of_embs. induction S as [|q S IH]; simpl; [done|]. apply Forall_app. split; [apply embs_told|done].
Qed.

Lemma keep_mute l : Forall (fun e => loud e = false) l -> List.filter loud l = [].
Proof. induction 1 as [|e l He Hl IH]; simpl; [done|]. by rewrite He. Qed.

Lemma loud_actives S c :
  List.filter loud (concat (moves_of S c).*1) = List.filter loud (concat (moves_of (actives S) c).*1).
Proof.
  rewrite !moves_of_embs. induction S as [|q S IH]; [done|]. unfold actives. rewrite filter_cons.
  fold (actives S). case_decide as H; rewrite ?fmap_cons; cbn [concat]; rewrite !List.filter_app.
  - by f_equal.
  - rewrite IH, keep_mute; [done|]. apply rider_mute. by destruct (rider q).
Qed.

(** What the actions of a set do to the machine, its active positions' do. *)
Lemma effects_actives S c : effects (moves_of S c) = effects (moves_of (actives S) c).
Proof. unfold effects. rewrite !merge_loud by apply moves_of_told. by rewrite loud_actives. Qed.

(** ** The set after a transition *)

Lemma remove_dups_in {A} `{EqDecision A} (x : A) l : x ∈ l -> remove_dups (x :: l) = remove_dups l.
Proof. intros. simpl. by case_decide. Qed.
Lemma remove_dups_out {A} `{EqDecision A} (x : A) l : x ∉ l -> remove_dups (x :: l) = x :: remove_dups l.
Proof. intros. simpl. by case_decide. Qed.

Lemma filter_remove_dups {A} `{EqDecision A} (P : A -> Prop) `{forall x, Decision (P x)} (l : list A) :
  filter P (remove_dups l) = remove_dups (filter P l).
Proof.
  induction l as [|x l IH]; [done|]. rewrite filter_cons. destruct (decide (x ∈ l)) as [Hx|Hx].
  - rewrite remove_dups_in, IH by done. case_decide; [|done]. symmetry. apply remove_dups_in. by apply list_elem_of_filter.
  - rewrite remove_dups_out, filter_cons, IH by done. case_decide; [|done]. symmetry. apply remove_dups_out.
    by intros [_ ?]%list_elem_of_filter.
Qed.

(** What riders add. *)
Lemma rider_adds q c : rider q = true ->
  actives (goes_to q c) = [] \/ exists e, added c = [e] /\ actives (goes_to q c) = [e].
Proof.
  unfold goes_to, added, actives. intros H.
  destruct q; try done; simpl; unfold mv, eqc; repeat case_match; simpl; try (by left); try (right; by eexists).
  all: repeat match goal with E : Byte.eqb _ _ = true |- _ => apply byte_dec_bl in E; subst end; try done.
Qed.

Lemma moves_of_goes S c : (moves_of S c).*2 = concat ((fun q => goes_to q c) <$> S).
Proof.
  induction S as [|q S IH]; [done|]. unfold moves_of. cbn [mbind list_bind]. rewrite fmap_app. cbn. by f_equal.
Qed.

Lemma actives_concat S c : actives (concat ((fun q => goes_to q c) <$> S)) = concat ((fun q => actives (goes_to q c)) <$> S).
Proof. induction S as [|q S IH]; [done|]. cbn. unfold actives in *. by rewrite filter_app, IH. Qed.

(** [l] is [k] with copies of [e] put in; at least one if [b]. *)
Inductive sprinkled {A} (e : A) : bool -> list A -> list A -> Prop :=
  | sprinkled_nil : sprinkled e false [] []
  | sprinkled_cons b x l k : sprinkled e b l k -> sprinkled e b (x :: l) (x :: k)
  | sprinkled_add b l k : sprinkled e b l k -> sprinkled e true (e :: l) k.

Lemma sprinkled_inserts {A} `{EqDecision A} (e : A) b l k : sprinkled e b l k ->
  if b then e ∈ l /\ exists l', l' ∈ inserts e k /\ remove_dups l = remove_dups l' else l = k.
Proof.
  induction 1 as [|b x l k H IH|b l k H IH]; [done|..].
  - destruct b; [|by subst]. destruct IH as (He & l' & Hl' & E). split; [by constructor|].
    exists (x :: l'). split; [|].
    + simpl. right. apply list_elem_of_fmap. by exists l'.
    + assert (x ∈ l <-> x ∈ l') as Hx by (rewrite <- (elem_of_remove_dups l), E; apply elem_of_remove_dups).
      destruct (decide (x ∈ l)).
      * rewrite !remove_dups_in by tauto. done.
      * rewrite !remove_dups_out by tauto. by rewrite E.
  - split; [constructor|]. destruct b.
    + destruct IH as (He & l' & Hl' & E). exists l'. split; [done|]. by rewrite remove_dups_in.
    + subst. exists (e :: k). split; [|done]. destruct k; constructor.
Qed.

Lemma sprinkled_app {A} (e : A) b x l k : sprinkled e b l k -> sprinkled e b (x ++ l) (x ++ k).
Proof. intros H. induction x; simpl; [done|]. by constructor. Qed.

(** Does some rider of the set add a position? *)
Definition adding (S : list pos) (c : byte) : bool :=
  existsb (fun q => rider q && negb (silent c (Some q))) S.

Lemma goes_sprinkled S c e : (forall q, rider q = true -> actives (goes_to q c) = [] \/ actives (goes_to q c) = [e]) ->
  sprinkled e (adding S c) (concat ((fun q => actives (goes_to q c)) <$> S))
    (concat ((fun q => actives (goes_to q c)) <$> actives S)).
Proof.
  intros H. induction S as [|q S IH]; [constructor|]. unfold actives at 3. rewrite filter_cons. fold (actives S).
  cbn [adding existsb]. fold (adding S c). unfold silent. cbn [adds]. rewrite fmap_cons. cbn [concat].
  case_decide as Hq.
  - rewrite Hq. simpl. by apply sprinkled_app.
  - destruct (rider q) eqn:R; [|done]. destruct (H q R) as [->| ->]; simpl; [done|]. by econstructor.
Qed.

(** The set after a transition, by the active positions before it. *)
Lemma targets_actives S c :
  let T := actives (moves_of (actives S) c).*2 in
  let N := actives (targets (moves_of S c)) in
  if adding S c then exists e L, added c = [e] /\ L ∈ inserts e T /\ N = remove_dups L
  else N = remove_dups T.
Proof.
  intros T N. assert (T = concat ((fun q => actives (goes_to q c)) <$> actives S)) as -> by (unfold T; by rewrite moves_of_goes, actives_concat).
  assert (N = remove_dups (concat ((fun q => actives (goes_to q c)) <$> S))) as ->.
  { unfold N, targets. rewrite moves_of_goes, <- actives_concat. apply filter_remove_dups. }
  destruct (added c) as [|e [|]] eqn:E; [| |by unfold added in E; repeat case_match].
  - assert (H : forall q, rider q = true -> actives (goes_to q c) = []).
    { intros q Hq. destruct (rider_adds q c Hq) as [|(e & He & _)]; [done|]. by rewrite E in He. }
    pose proof (goes_sprinkled S c start (fun q Hq => or_introl (H q Hq))) as Hs.
    assert (adding S c = false) as Ha.
    { unfold adding. apply not_true_iff_false. intros (q & _ & Hq)%existsb_exists. apply andb_true_iff in Hq as [Hq Hn].
      unfold silent in Hn. simpl in Hn. by rewrite (H q Hq) in Hn. }
    rewrite Ha in *. by apply sprinkled_inserts in Hs as ->.
  - assert (H : forall q, rider q = true -> actives (goes_to q c) = [] \/ actives (goes_to q c) = [e]).
    { intros q Hq. destruct (rider_adds q c Hq) as [|(e' & He & ?)]; [by left|]. rewrite E in He. injection He as <-. by right. }
    pose proof (sprinkled_inserts _ _ _ _ (goes_sprinkled S c e H)) as Hs. destruct (adding S c).
    + destruct Hs as (_ & L & HL & ->). by exists e, L.
    + by rewrite Hs.
Qed.

Lemma riders_targets S c r : rider r = true -> r ∈ targets (moves_of S c) ->
  r ∈ riders (moves_of (actives S) c).*2 \/ exists q, q ∈ S /\ rider q = true /\ r ∈ rides (Some q) c.
Proof.
  unfold targets, riders, rides. intros Hr H. rewrite elem_of_remove_dups in H.
  apply list_elem_of_fmap in H as (m & -> & Hm). apply list_elem_of_bind in Hm as (q & Hm & Hq).
  destruct (rider q) eqn:R.
  - right. exists q. split; [done|]. split; [done|]. apply list_elem_of_filter. split; [done|].
    apply list_elem_of_fmap. by exists m.
  - left. apply list_elem_of_filter. split; [done|]. apply list_elem_of_fmap. exists m. split; [done|].
    apply list_elem_of_bind. exists q. split; [done|]. by apply list_elem_of_filter.
Qed.
