(* ===== verification/TomlMachine.v ===== *)
(** * The machine of the TOML parser runs to its end

    The abstract run of the actions (TomlStates.v) keeps what the loop depends
    on: by how much [p] moves, the next state, and calls and returns.  It is shown
    to follow the machine; the table of TomlStates.v then describes every state
    the machine goes through, for all texts: [p] never moves below zero, the
    stack never holds more than one state, and a weight goes down in every round
    by more than six times what [p] goes up.  So the machine stops after a number
    of rounds that is linear in the text. *)

From stdpp Require Import base option numbers strings list sets pmap.
From Stdlib Require Import Strings.Byte ZArith Lia.
From S2P Require Import Prelude Utils Toml TomlParse TomlStates TomlRiders.
Import Rl.
Local Open Scope Z_scope.

(** ** The abstract run follows the machine *)

(** The result leaves the machine as it is, or stops it. *)
Definition keeps (m : mach) (r : ares) : Prop :=
  match r with AGo s => ps_m s = m | AAgain _ => False | AOut _ | ABad _ => True end.

(** The result goes on at one of the labels that follow a value. *)
Definition values (m : mach) (r : ares) : Prop :=
  match r with
  | AGo s => exists q, q ∈ [start; list_; inline_table] /\ ps_m s = set_cs [q] m
  | AAgain _ => False
  | AOut _ | ABad _ => True
  end.

Section sound.
Context (buf : bytes) (strtod : bytes -> Z).

Lemma with_context_ind (P : ares -> Prop) s k :
  P (ABad NullDeref) -> (forall c n, P (k c n)) -> P (with_context s k).
Proof. unfold with_context. intros. destruct (context_stack _); [done|]. by destruct (node_at _ _). Qed.

Lemma add_to_context_ind (P : ares -> Prop) x c s k :
  (forall f, P (ABad f)) -> (forall t, P (k (upd_b (set_toml_root t) s))) -> P (add_to_context x c s k).
Proof. unfold add_to_context. intros. by destruct (update_at _ _ _). Qed.

Lemma push_context_ind (P : ares -> Prop) path s k :
  P (ABad NullDeref) -> (forall b, P (k (upd_b (fun _ => b) s))) -> P (push_context path s k).
Proof. unfold push_context. intros. destruct (malloc _) as [[] b]; [|done]. auto. Qed.

Lemma after_value_values s : values (ps_m s) (after_value s).
Proof.
  unfold after_value. apply with_context_ind; [done|]. intros c n. eexists. split; [|done].
  destruct (n_type n); set_solver.
Qed.

Lemma values_upd m s r : ps_m s = m -> values (ps_m s) r -> values m r.
Proof. by intros <-. Qed.

Lemma add_node_to_tree_values ty v s : values (ps_m s) (add_node_to_tree ty v s).
Proof.
  unfold add_node_to_tree. apply with_context_ind; [done|]. intros c n.
  assert (forall x s', ps_m s' = ps_m s -> values (ps_m s) (add_to_context x c s' after_value)) as Hadd.
  { intros x s' E. apply add_to_context_ind; [done|]. intros t. by eapply values_upd, after_value_values. }
  destruct (n_type n); destruct (malloc _) as [[] b]; simpl;
    repeat case_match; simpl; try done; by apply Hadd.
Qed.

Create HintDb machine.
#[local] Hint Resolve add_node_to_tree_values after_value_values : machine.

Lemma saw_header_keeps saw len s : keeps (ps_m s) (saw_header buf saw len s).
Proof.
  unfold saw_header, drop_table. apply with_context_ind; [done|]. intros _ n.
  set (s1 := if bool_decide _ then POP_CONTEXT s else s).
  assert (ps_m s1 = ps_m s) as <- by (unfold s1; by case_bool_decide).
  destruct (malloc _) as [[] b]; simpl; [|done].
  destruct (saw _ _) as [|[[code t] [path|]]]; try done.
  destruct (code =? 0); [|done]. by apply push_context_ind.
Qed.

Lemma do_saw_key_keeps s : keeps (ps_m s) (do_saw_key buf s).
Proof.
  unfold do_saw_key. apply with_context_ind; [done|]. intros c n.
  destruct (n_type n); try done; destruct (map_items n); try done;
    destruct (dup_key _ _ _ _) as [|[]]; try done; destruct (trim _ _); try done; by destruct (malloc _) as [[] b].
Qed.

Lemma do_start_list_keeps s : keeps (ps_m s) (do_start_list s).
Proof.
  unfold do_start_list. apply with_context_ind; [done|]. intros c n. case_match; [done|].
  destruct (malloc _) as [[] b]; simpl; [|done]. destruct (name b), (items n); try done;
    (apply add_to_context_ind; [done|]; intros t; by apply push_context_ind).
Qed.

Lemma do_saw_inline_table_keeps s : keeps (ps_m s) (do_saw_inline_table s).
Proof.
  unfold do_saw_inline_table. apply with_context_ind; [done|]. intros c n.
  destruct (map_items n); [done|]. destruct (dup_table _ _) as [|[]]; try done.
  destruct (malloc _) as [[] b]; simpl; [|done]. destruct (name b); try done. destruct (malloc b) as [ok b'].
  apply add_to_context_ind; [done|]. intros t. by apply push_context_ind.
Qed.

(** The state that [a] stands for, where [tg] is the target of the transition. *)
Definition at_set (tg : list pos) (a : amove) : list pos := match a_cs a with None => tg | Some l => [l] end.

(** The round began at [p0]; [p], the state and the stack are as given. *)
Definition is_at (p0 d : Z) (q : list pos) (st : list (list pos)) (s : pst) : Prop :=
  p (ps_m s) = p0 + d - 1 /\ cs (ps_m s) = q /\ stack (ps_m s) = st.

Section round.
Context (p0 : Z) (tg : list pos) (st : list (list pos)).

Definition describes (a : amove) (s : pst) : Prop := is_at p0 (a_d a) (at_set tg a) st s.

(** What the result of statements is, by the abstract run. *)
Definition foretold (l : list aend) (r : ares) : Prop :=
  match r with
  | AGo s => exists a, Go a ∈ l /\ describes a s
  | AAgain s =>
      (exists a, Again a ∈ l /\ describes a s) \/
      (exists a x, Call a x ∈ l /\ is_at p0 (a_d a) [x] (at_set tg a :: st) s) \/
      (exists a q st', Ret a ∈ l /\ st = q :: st' /\ is_at p0 (a_d a) q st' s)
  | AOut _ | ABad _ => True
  end.

Lemma keeps_foretold a s r : describes a s -> keeps (ps_m s) r -> foretold [Go a] r.
Proof.
  destruct r as [s'| | |]; simpl; try done. intros H E.
  exists a. split; [constructor|]. unfold describes, is_at in *. by rewrite E.
Qed.

(** What the actions of a value do to the machine. *)
Definition value_step (d : Z) (s : pst) (r : ares) : Prop := values (set_p (p (ps_m s) + d) (ps_m s)) r.

Lemma values_foretold d a s r : describes a s -> value_step d s r -> foretold (a_value d a) r.
Proof.
  intros (H1 & H2 & H3). unfold value_step. destruct r as [s'| | |]; simpl; try done. intros (q & Hq & E).
  exists (mk_amove (a_d a + d) (Some q)). split; [set_solver|]. unfold describes, is_at. rewrite E. simpl. split; [lia|done].
Qed.

Lemma fret_foretold a s s' : describes a s -> ps_m s' = ps_m s -> foretold [Ret a] (fret s').
Proof.
  intros (H1 & H2 & H3) E. unfold fret. rewrite E, H3. destruct st as [|q st'] eqn:Est; [done|].
  right. right. exists a, q, st'. split; [constructor|]. split; [done|]. unfold is_at. simpl. by rewrite E.
Qed.

Lemma set_p_same m : set_p (p m + 0) m = m.
Proof. destruct m. unfold set_p. by rewrite Z.add_0_r. Qed.

Lemma value_step_same s s' r : ps_m s' = ps_m s -> values (ps_m s') r -> value_step 0 s r.
Proof. intros E H. unfold value_step. by rewrite set_p_same, <- E. Qed.

Lemma do_saw_float_step s : value_step (-1) s (do_saw_float buf strtod s).
Proof. unfold do_saw_float. destruct (precision _); [|done]. case_match; [done|]. apply add_node_to_tree_values. Qed.

Lemma do_saw_string_step s : value_step 0 s (do_saw_string s).
Proof.
  unfold do_saw_string. case_match; [done|]. destruct (malloc _) as [[] b]; [|done].
  eapply value_step_same; [|apply add_node_to_tree_values]. done.
Qed.

#[local] Hint Resolve do_saw_float_step do_saw_string_step do_saw_key_keeps do_start_list_keeps
  do_saw_inline_table_keeps : machine.
#[local] Hint Extern 1 (value_step 0 _ _) => eapply value_step_same; [|apply add_node_to_tree_values]; done : machine.
#[local] Hint Extern 1 (value_step 0 _ _) => eapply value_step_same; [|apply after_value_values]; done : machine.
#[local] Hint Extern 1 (value_step (-1) _ _) => apply add_node_to_tree_values : machine.

Lemma run_act_foretold x fc a s : describes a s -> foretold (abs_act x a) (run_act buf strtod x fc s).
Proof.
  intros H. destruct x; cbn [abs_act run_act];
    lazymatch goal with
    | |- foretold [] _ => done
    | |- foretold [Go a] _ => apply (keeps_foretold _ s); [done|];
        first [done | by unfold put, number_more; case_match | auto with machine]
    | |- foretold (a_value ?d _) _ => apply (values_foretold d a s _ H); auto with machine
    | |- foretold [Ret _] _ => try (eapply fret_foretold; [exact H|]; done)
    | _ => destruct H as (? & ? & ?)
    end.
  - eexists. split; [constructor|]. unfold describes, is_at. simpl. split; [lia|done].
  - left. eexists. split; [constructor|]. by unfold describes, is_at.
  - right. left. exists a, l. split; [constructor|]. unfold is_at. simpl. split; [done|]. split; [done|]. by f_equal.
  - apply saw_header_keeps.
  - apply saw_header_keeps.
  - unfold do_saw_utf16. destruct (u_strToUTF8 _ _) as [[x outLen]|]; [|done]. case_match; [done|].
    by eapply fret_foretold; [exact H|].
Qed.

Lemma foretold_mono l l' r : l ⊆ l' -> foretold l r -> foretold l' r.
Proof. destruct r; simpl; try done; intros Hsub H; naive_solver. Qed.

Lemma run_acts_foretold fc xs : forall a s, describes a s -> foretold (abs_acts xs a) (run_acts buf strtod xs fc s).
Proof.
  induction xs as [|x xs IH]; cbn [abs_acts run_acts]; intros a s H.
  { exists a. split; [constructor|done]. }
  pose proof (run_act_foretold x fc a s H) as Hx.
  assert (forall e, e ∈ abs_act x a -> match e with Go a => abs_acts xs a | _ => [e] end ⊆
            (abs_act x a ≫= (fun e => match e with Go a => abs_acts xs a | _ => [e] end))) as Hsub.
  { intros e He y Hy. apply list_elem_of_bind. by exists e. }
  destruct (run_act buf strtod x fc s) as [s'|s'| |]; simpl in Hx; try done.
  - destruct Hx as (a' & Ha' & Hd). eapply foretold_mono; [exact (Hsub _ Ha')|]. by apply IH.
  - destruct Hx as [(a' & Ha & Hd)|[(a' & y & Ha & Hd)|(a' & q & st' & Ha & E & Hd)]]; apply Hsub in Ha as Hs; simpl in Hs.
    + left. exists a'. split; [apply Hs; constructor|done].
    + right. left. exists a', y. split; [apply Hs; constructor|done].
    + right. right. exists a', q, st'. split; [apply Hs; constructor|done].
Qed.
End round.
End sound.

(** ** Sets that the table describes *)

Lemma all_bytes_elem c : c ∈ all_bytes.
Proof.
  apply list_elem_of_fmap. exists (Z.to_nat (uchar c)). destruct c; (split; [reflexivity|apply elem_of_seq; vm_compute; lia]).
Qed.

Lemma rep_reps c : rep c ∈ reps.
Proof.
  pose proof reps_ok as H. rewrite forallb_forall in H. specialize (H c (proj1 (list_elem_of_In _ _) (all_bytes_elem c))).
  apply andb_true_iff in H as [_ H]. by apply bool_decide_eq_true in H.
Qed.

(** Positions outside the calls do not tell a character from its representative. *)
Lemma moves_rep q c : q ∈ positions -> moves q c = moves q (rep c).
Proof.
  intros Hq. pose proof reps_ok as H. rewrite forallb_forall in H.
  specialize (H c (proj1 (list_elem_of_In _ _) (all_bytes_elem c))). apply andb_true_iff in H as [H _].
  unfold alike in H. rewrite forallb_forall in H. apply list_elem_of_In, H in Hq. by apply bool_decide_eq_true in Hq.
Qed.

Lemma rider_position q : rider q = true -> q ∈ positions.
Proof. destruct q; try done; intros _; apply (bool_decide_eq_true_1 _); vm_compute; reflexivity. Qed.

(** [r] is none, or a rider of the set. *)
Definition of_set (S : list pos) (r : option pos) : Prop :=
  match r with None => True | Some q => q ∈ S /\ rider q = true end.

(** The set's pairs are in the table, with weights that satisfy [f]. *)
Definition fits (S : list pos) (f : wt -> Prop) : Prop :=
  exists g, group (actives S) = Some g /\ forall r, of_set S r -> exists w, pair_in r g = Some w /\ f w.

(** Weights for the character [c], and for any character. *)
Definition at_char (c : byte) (v z : Z) (w : wt) : Prop := row_at (phi w) (rep c) <= v /\ row_at (low w) (rep c) <= z.
Definition anywhere (v z : Z) (w : wt) : Prop := phi_max w <= v /\ low_max w <= z.

Lemma group_group_ok A g : group A = Some g -> group_ok A g = true.
Proof.
  unfold group. destruct (by_key !! set_key A) as [[B h]|] eqn:E; [|done]. case_bool_decide as EB; [|done].
  intros [= ->]. subst B. pose proof by_key_ok as H. rewrite forallb_forall in H.
  apply (H (set_key A, (A, g))), list_elem_of_In, elem_of_map_to_list, E.
Qed.

Section group.
Context (A : list pos) (g : list (option pos * wt)) (Hg : group A = Some g).

Lemma group_active q : q ∈ A -> rider q = false /\ q ∈ positions.
Proof.
  intros Hq. pose proof (group_group_ok A g Hg) as H. unfold group_ok in H. rewrite !andb_true_iff in H.
  destruct H as [[H _] _]. rewrite forallb_forall in H. apply list_elem_of_In, H, andb_true_iff in Hq as [H1 H2].
  split; [by destruct (rider q)|by apply bool_decide_eq_true in H2].
Qed.

Lemma group_round c : c ∈ reps -> quiet_ok A g c = true /\ adding_ok A g c = true /\ labels_ok A c = true.
Proof.
  intros Hc. pose proof (group_group_ok A g Hg) as H. unfold group_ok in H. rewrite !andb_true_iff in H.
  destruct H as [_ H]. rewrite forallb_forall in H. apply list_elem_of_In, H in Hc. rewrite !andb_true_iff in Hc. tauto.
Qed.

Lemma pair_in_elem r w : pair_in r g = Some w -> (r, w) ∈ g.
Proof.
  unfold pair_in. destruct (find _ g) as [[r' w']|] eqn:E; [|done]. intros [= <-]. apply find_some in E as [E H].
  apply bool_decide_eq_true in H. simpl in H. subst. by apply list_elem_of_In.
Qed.

Lemma row_within a b w c : within a b w = true -> a <= row_at w c <= b.
Proof.
  unfold within, row_at. intros H. rewrite forallb_forall in H.
  destruct (find _ (but w)) as [x|] eqn:E; simpl.
  - apply find_some in E as [E _]. specialize (H x.2). rewrite andb_true_iff in H.
    assert (List.In x.2 (usual w :: (but w).*2)) as Hx by (right; by apply in_map). apply H in Hx. lia.
  - specialize (H (usual w)). rewrite andb_true_iff in H. assert (List.In (usual w) (usual w :: (but w).*2)) as Hx by by left.
    apply H in Hx. lia.
Qed.

Lemma weights_within r w c : pair_in r g = Some w ->
  0 <= row_at (phi w) c <= phi_max w /\ 0 <= row_at (low w) c <= low_max w.
Proof.
  intros Hr. apply pair_in_elem, list_elem_of_In in Hr. pose proof (group_group_ok A g Hg) as H.
  unfold group_ok in H. rewrite !andb_true_iff in H. destruct H as [[_ H] _]. rewrite forallb_forall in H.
  apply H, andb_true_iff in Hr as [H1 H2]. split; by apply row_within.
Qed.
End group.

Lemma fits_impl S (f f' : wt -> Prop) : (forall w, f w -> f' w) -> fits S f -> fits S f'.
Proof. intros Hf (g & Hg & H). exists g. split; [done|]. intros r Hr. destruct (H r Hr) as (w & Hw & Hfw). eauto. Qed.

Lemma anywhere_at_char S c v z : fits S (anywhere v z) -> fits S (at_char c v z).
Proof.
  intros (g & Hg & H). exists g. split; [done|]. intros r Hr. destruct (H r Hr) as (w & Hw & H1 & H2).
  exists w. split; [done|]. pose proof (weights_within _ g Hg r w (rep c) Hw). unfold at_char. lia.
Qed.

Lemma at_char_nonneg S c v z : fits S (at_char c v z) -> 0 <= v /\ 0 <= z.
Proof.
  intros (g & Hg & H). destruct (H None I) as (w & Hw & H1 & H2). pose proof (weights_within _ g Hg None w (rep c) Hw). lia.
Qed.

Lemma anywhere_nonneg S v z : fits S (anywhere v z) -> 0 <= v /\ 0 <= z.
Proof. intros H. by apply (anywhere_at_char S x00), at_char_nonneg in H. Qed.

(** A set that fits has no position of a call. *)
Lemma fits_positions S f q : fits S f -> q ∈ S -> q ∈ positions.
Proof.
  intros (g & Hg & _) Hq. destruct (rider q) eqn:R; [by apply rider_position|].
  apply (group_active _ g Hg). by apply list_elem_of_filter.
Qed.

Lemma moves_of_rep S c : (forall q, q ∈ S -> q ∈ positions) -> moves_of S c = moves_of S (rep c).
Proof.
  unfold moves_of. induction S as [|q S IH]; intros H; [done|]. cbn [mbind list_bind].
  rewrite (moves_rep q c) by (apply H; constructor). f_equal. apply IH. intros. apply H. by constructor.
Qed.

(** ** A round *)

(** An effect that leaves the machine in a set of the transition, and whether it
    is pushed on the stack. *)
Definition stays (x : aend) : option (amove * bool) :=
  match x with Go a | Again a => Some (a, false) | Call a _ => Some (a, true) | Ret _ => None end.

Lemma turns_elem A c e x a any t : x ∈ effects (moves_of A c) -> stays x = Some (a, any) ->
  t ∈ turn_of (moves_of A c).*2 e any a -> t ∈ turns A c e.
Proof.
  intros Hx Hs Ht. unfold turns. apply list_elem_of_bind. exists x. split; [|done]. destruct x; try done; by injection Hs as -> ->.
Qed.

(** What the weights become. *)
Definition lowered (any : bool) (c : byte) (v z d : Z) : wt -> Prop :=
  if any || negb (d =? 0) then anywhere (v - 1 + 6 * d) (z + d) else at_char c (v - 1 + 6 * d) (z + d).

Lemma drops_lowered any c v z d w t w' : at_char c v z w -> t_d t = d -> t_any t = any || negb (d =? 0) ->
  drops w (rep c) t w' = true -> d <= 1 /\ lowered any c v z d w'.
Proof.
  unfold drops, lowered, at_char, anywhere. intros [H1 H2] <- -> H. rewrite !andb_true_iff in H.
  destruct (any || _); lia.
Qed.

Section a_round.
Context (S : list pos) (c : byte) (v z : Z) (g : list (option pos * wt)).
Context (Hg : group (actives S) = Some g).
Context (Hw : forall r, of_set S r -> exists w, pair_in r g = Some w /\ at_char c v z w).
Abbreviation c0 := (rep c).

(** The set after the round, when the turn [t] tells its active positions. *)
Definition after (t : turn) (S' : list pos) : Prop :=
  actives S' = t_set t /\
  forall r, of_set S' r -> exists r0, of_set S r0 /\ r ∈ next_riders t r0 c0.

Lemma quiet_round any d t S' : adding S c0 = false -> t ∈ turns (actives S) c0 None -> after t S' ->
  t_d t = d -> t_any t = any || negb (d =? 0) -> d <= 1 /\ fits S' (lowered any c v z d).
Proof.
  intros Hq Ht [Hset Hr] Hd Hany. destruct (group_round _ g Hg c0 (rep_reps c)) as (H & _ & _).
  unfold quiet_ok in H. rewrite forallb_forall in H. apply list_elem_of_In, H in Ht.
  destruct (group (t_set t)) as [h|] eqn:Eh; [|done]. rewrite forallb_forall in Ht.
  assert (forall r, of_set S' r -> exists w', pair_in r h = Some w' /\ d <= 1 /\ lowered any c v z d w') as Hall.
  { intros r Hr'. destruct (Hr r Hr') as (r0 & Hr0 & Hn). destruct (Hw r0 Hr0) as (w & Hp & Hat).
    specialize (Ht _ (proj1 (list_elem_of_In _ _) (pair_in_elem _ r0 w Hp))). cbn [fst snd] in Ht.
    assert (silent c0 r0 = true) as Hsil.
    { destruct r0 as [q|]; [|done]. destruct Hr0 as [Hin Hrid]. destruct (silent c0 (Some q)) eqn:Es; [done|].
      assert (adding S c0 = true) as Ha; [|congruence]. unfold adding. apply existsb_exists. exists q.
      split; [by apply list_elem_of_In|]. by rewrite Hrid, Es. }
    rewrite Hsil in Ht. cbn [negb orb] in Ht. rewrite forallb_forall in Ht. apply list_elem_of_In, Ht in Hn.
    destruct (pair_in r h) as [w'|]; [|done]. exists w'. split; [done|]. by apply (drops_lowered any c v z d w t). }
  split; [by destruct (Hall None I) as (? & _ & ? & _)|]. exists h. rewrite Hset. split; [done|].
  intros r Hr'. destruct (Hall r Hr') as (w' & ? & _ & ?). eauto.
Qed.

Lemma adding_round any d e t S' : adding S c0 = true -> added c0 = [e] -> t ∈ turns (actives S) c0 (Some e) -> after t S' ->
  (t_keep t = false -> forall r, of_set S' r -> r = None) ->
  t_d t = d -> t_any t = any || negb (d =? 0) -> d <= 1 /\ fits S' (lowered any c v z d).
Proof.
  intros Hq He Ht [Hset Hr] Hk Hd Hany. destruct (group_round _ g Hg c0 (rep_reps c)) as (_ & H & _).
  apply existsb_exists in Hq as (q & Hin & Hq). apply andb_true_iff in Hq as [Hrid Hsil]. apply negb_true_iff in Hsil.
  apply list_elem_of_In in Hin. destruct (Hw (Some q) (conj Hin Hrid)) as (w & Hp & Hat).
  pose proof (proj1 (list_elem_of_In _ _) (pair_in_elem _ _ _ Hp)) as Hpin.
  unfold adding_ok in H. apply orb_true_iff in H as [H|H].
  { rewrite forallb_forall in H. apply H in Hpin. cbn [fst] in Hpin. congruence. }
  rewrite He in H. cbn [forallb] in H. rewrite andb_true_r, forallb_forall in H. apply list_elem_of_In, H in Ht.
  destruct (group (t_set t)) as [h|] eqn:Eh; [|done]. rewrite forallb_forall in Ht.
  pose proof (Ht _ Hpin) as Hdrop. apply andb_true_iff in Hdrop as [_ Hdrop]. cbn [fst snd] in Hdrop.
  rewrite Hsil in Hdrop. cbn [orb] in Hdrop. rewrite forallb_forall in Hdrop.
  assert (forall r, of_set S' r -> exists w', pair_in r h = Some w' /\ d <= 1 /\ lowered any c v z d w') as Hall.
  { intros r Hr'. destruct (Hr r Hr') as (r0 & Hr0 & Hn). destruct (Hw r0 Hr0) as (w0 & Hp0 & _).
    specialize (Ht _ (proj1 (list_elem_of_In _ _) (pair_in_elem _ r0 w0 Hp0))). apply andb_true_iff in Ht as [Ht _].
    rewrite forallb_forall in Ht. apply list_elem_of_In, Ht, bool_decide_eq_true in Hn as [w' Hw'].
    exists w'. split; [done|]. apply (drops_lowered any c v z d w t); [done..|].
    specialize (Hdrop _ (proj1 (list_elem_of_In _ _) (pair_in_elem _ r w' Hw'))). cbn [fst snd] in Hdrop.
    apply orb_true_iff in Hdrop as [Hdrop|]; [|done]. apply andb_true_iff in Hdrop as [Hkeep Hsome].
    apply negb_true_iff in Hkeep. rewrite (Hk Hkeep r Hr') in Hsome. by apply bool_decide_eq_true, is_Some_None in Hsome. }
  split; [by destruct (Hall None I) as (? & _ & ? & _)|]. exists h. rewrite Hset. split; [done|].
  intros r Hr'. destruct (Hall r Hr') as (w' & ? & _ & ?). eauto.
Qed.

(** The turn of an effect that goes to a label. *)
Lemma after_label any a l : rider l = false ->
  after (mk_turn (a_d a) (any || negb (a_d a =? 0)) [l] [] false) [l].
Proof.
  intros R. split.
  - unfold actives. by rewrite filter_cons_True.
  - intros [q|] Hr; [|exists None; split; [done|constructor]]. destruct Hr as [Hr Hq].
    apply list_elem_of_singleton in Hr. congruence.
Qed.

(** The turn of an effect that goes to the target of the transition. *)
Lemma after_targets any a L : actives (targets (moves_of S c0)) = remove_dups L ->
  after (mk_turn (a_d a) (any || negb (a_d a =? 0)) (remove_dups L) (riders (moves_of (actives S) c0).*2) true)
    (targets (moves_of S c0)).
Proof.
  intros HL. split; [done|]. intros [r|] Hr; [|exists None; split; [done|constructor]]. destruct Hr as [Hr Hrid].
  destruct (riders_targets S c0 r Hrid Hr) as [H|(q & Hq & Hqr & H)].
  - exists None. split; [done|]. right. simpl. rewrite app_nil_r. apply list_elem_of_fmap. by exists r.
  - exists (Some q). split; [done|]. right. simpl. apply list_elem_of_fmap. exists r. split; [done|]. apply elem_of_app. by right.
Qed.

Lemma label_rider x a any : x ∈ effects (moves_of (actives S) c0) -> stays x = Some (a, any) -> label_ok a = true.
Proof.
  intros Hx Hs. destruct (group_round _ g Hg c0 (rep_reps c)) as (_ & _ & H). unfold labels_ok in H.
  rewrite forallb_forall in H. apply list_elem_of_In, H in Hx.
  destruct x; try done; injection Hs as -> <-; try done. by apply andb_true_iff in Hx as [? _].
Qed.

Lemma round_to x a any : x ∈ effects (moves_of (actives S) c0) -> stays x = Some (a, any) ->
  a_d a <= 1 /\ fits (at_set (targets (moves_of S c0)) a) (lowered any c v z (a_d a)).
Proof.
  intros Hx Hs. pose proof (label_rider x a any Hx Hs) as Hl. unfold label_ok, at_set in *.
  pose proof (fun e t => turns_elem (actives S) c0 e x a any t Hx Hs) as Hturn. unfold turn_of in Hturn.
  pose proof (targets_actives S c0) as HT. cbv zeta in HT. destruct (adding S c0) eqn:Ha.
  - destruct HT as (e & L & He & HL & HN). destruct (a_cs a) as [l|] eqn:El.
    + apply negb_true_iff in Hl. eapply (adding_round any _ e); [done|exact He|apply Hturn; constructor|by apply after_label| |done..].
      intros _ [q|] Hr; [|done]. destruct Hr as [Hr Hq]. apply list_elem_of_singleton in Hr. congruence.
    + eapply (adding_round any _ e); [done|exact He| |by apply (after_targets any a L)|done..].
      apply Hturn. apply list_elem_of_fmap. by exists L.
  - destruct (a_cs a) as [l|] eqn:El.
    + apply negb_true_iff in Hl. eapply quiet_round; [done|apply Hturn; constructor|by apply after_label|done..].
    + eapply quiet_round; [done|apply Hturn; constructor|by apply (after_targets any a)|done..].
Qed.
End a_round.

Lemma callee_called S c f x a l : fits S f -> x ∈ effects (moves_of (actives S) (rep c)) -> x = Call a l -> l ∈ callees.
Proof.
  intros (g & Hg & _) Hx ->. destruct (group_round _ g Hg (rep c) (rep_reps c)) as (_ & _ & H). unfold labels_ok in H.
  rewrite forallb_forall in H. apply list_elem_of_In, H, andb_true_iff in Hx as [_ Hx]. by apply bool_decide_eq_true in Hx.
Qed.

(** What a round makes of a set that fits. *)
Lemma round_fits S c v z x : fits S (at_char c v z) -> x ∈ effects (moves_of S c) ->
  (forall a any, stays x = Some (a, any) ->
    a_d a <= 1 /\ fits (at_set (targets (moves_of S c)) a) (lowered any c v z (a_d a))) /\
  (forall a l, x = Call a l -> l ∈ callees).
Proof.
  intros Hf Hx. assert (moves_of S c = moves_of S (rep c)) as E by (apply moves_of_rep; intros q; by apply (fits_positions _ _ _ Hf)).
  rewrite E in *. rewrite effects_actives in Hx. split.
  - destruct Hf as (g & Hg & Hw). intros a any. by apply (round_to S c v z g Hg Hw).
  - intros a l. by apply (callee_called S c (at_char c v z)).
Qed.

(** What a round does inside a call. *)
Lemma callee_round q c x : q ∈ callees -> x ∈ effects (moves q c) -> moves q c <> [] ->
  match x with
  | Go a | Again a => a_d a = 1 /\ exists q', at_set (targets (moves q c)) a = [q'] /\ q' ∈ callees
  | Call _ _ => False
  | Ret a => a_d a = 1
  end.
Proof.
  intros Hq Hx Hne. pose proof callees_ok as H. rewrite forallb_forall in H. apply list_elem_of_In, H in Hq.
  rewrite forallb_forall in Hq. specialize (Hq c (proj1 (list_elem_of_In _ _) (all_bytes_elem c))).
  rewrite forallb_forall in Hq. apply list_elem_of_In, Hq in Hx.
  assert (targets (moves q c) <> []) as Ht.
  { unfold targets. destruct (moves q c) as [|m ms]; [done|]. intros E.
    assert (m.2 ∈ remove_dups (m :: ms).*2) as Hm by (rewrite elem_of_remove_dups, fmap_cons; constructor). rewrite E in Hm. by apply elem_of_nil in Hm. }
  destruct x as [a|a|a l|a]; try done; [| |by apply Z.eqb_eq in Hx];
    rewrite !andb_true_iff in Hx; destruct Hx as [[Hd Hc] Hx]; apply Z.eqb_eq in Hd; apply bool_decide_eq_true in Hc;
    (split; [done|]); unfold at_set; rewrite Hc; destruct (targets (moves q c)) as [|q' [|]]; try done;
    exists q'; (split; [done|]); by apply bool_decide_eq_true in Hx.
Qed.

(** ** The loop *)

Section loop.
Context (buf : bytes) (strtod : bytes -> Z) (pe : Z).

(** A state with the weight [v]: no call, and the set fits the character; or a
    call from a set that fits any. *)
Definition weighted (v : Z) (s : pst) : Prop :=
  0 <= v /\ 0 <= p (ps_m s) /\
  match stack (ps_m s) with
  | [] => forall c, char_at buf (p (ps_m s)) = Some c -> fits (cs (ps_m s)) (at_char c v (p (ps_m s)))
  | [Q] => (exists q, cs (ps_m s) = [q] /\ q ∈ callees) /\ fits Q (anywhere v (p (ps_m s)))
  | _ => False
  end.

(** [s'] is where the machine is at the end of a round from [s] at [c]. *)
Definition moved (v : Z) (s s' : pst) : Prop :=
  p (ps_m s') <= p (ps_m s) + 1 /\ weighted (v - 1 + 6 * (p (ps_m s') - p (ps_m s))) s'.

Lemma moved_set v s s' S d c : is_at (p (ps_m s)) d S [] s' -> 0 <= p (ps_m s) -> char_at buf (p (ps_m s)) = Some c ->
  d <= 1 -> fits S (lowered false c v (p (ps_m s)) d) -> moved v s (upd_m (set_p (p (ps_m s') + 1)) s').
Proof.
  intros (Hp & Hcs & Hst) H0 Hc Hd Hf. unfold moved, weighted. simpl. rewrite Hp, Hst, Hcs.
  replace (p (ps_m s) + d - 1 + 1) with (p (ps_m s) + d) by lia. replace (p (ps_m s) + d - p (ps_m s)) with d by lia.
  split; [lia|]. unfold lowered in Hf. simpl in Hf. destruct (Z.eqb_spec d 0) as [->|Hd0]; simpl in Hf.
  - apply at_char_nonneg in Hf as Hn. split; [tauto|]. split; [tauto|]. intros c' Hc'.
    rewrite Z.add_0_r, Hc in Hc'. by injection Hc' as <-.
  - apply anywhere_nonneg in Hf as Hn. split; [tauto|]. split; [tauto|]. intros c' _. by apply anywhere_at_char.
Qed.

(** The end of a round: where the actions have led to, and [p++]. *)
Definition ended (r : ares) (Q : pst -> Prop) : Prop :=
  match r with AGo s | AAgain s => Q (upd_m (set_p (p (ps_m s) + 1)) s) | AOut _ | ABad _ => True end.

Lemma round_outside v s c r : weighted v s -> stack (ps_m s) = [] -> char_at buf (p (ps_m s)) = Some c ->
  foretold (p (ps_m s)) (targets (moves_of (cs (ps_m s)) c)) [] (effects (moves_of (cs (ps_m s)) c)) r -> ended r (moved v s).
Proof.
  intros (_ & H0 & Hw) Hst Hc Hr. rewrite Hst in Hw. pose proof (fun x => round_fits _ _ _ _ x (Hw c Hc)) as HR.
  assert (forall a s', (Go a ∈ effects (moves_of (cs (ps_m s)) c) \/ Again a ∈ effects (moves_of (cs (ps_m s)) c)) ->
            describes (p (ps_m s)) (targets (moves_of (cs (ps_m s)) c)) [] a s' ->
            moved v s (upd_m (set_p (p (ps_m s') + 1)) s')) as Hgo.
  { intros a s' [Ha|Ha] Hd; destruct (HR _ Ha) as [Hstay _]; destruct (Hstay a false eq_refl) as [Hle Hf];
      by eapply moved_set. }
  destruct r as [s'|s'| |]; simpl in *; try done.
  - destruct Hr as (a & Ha & Hd). by apply (Hgo a); [left|].
  - destruct Hr as [(a & Ha & Hd)|[(a & l & Ha & Hp & Hcs & Hs)|(a & q & st' & _ & E & _)]]; [by apply (Hgo a); [right|]| |done].
    destruct (HR _ Ha) as [Hstay Hcall]. destruct (Hstay a true eq_refl) as [Hle Hf]. specialize (Hcall a l eq_refl).
    unfold lowered in Hf. simpl in Hf. unfold moved, weighted. simpl. rewrite Hs, Hp, Hcs.
    replace (p (ps_m s) + a_d a - 1 + 1) with (p (ps_m s) + a_d a) by lia.
    replace (p (ps_m s) + a_d a - p (ps_m s)) with (a_d a) by lia.
    apply anywhere_nonneg in Hf as Hn. split; [lia|]. split; [tauto|]. split; [tauto|]. split; [by exists l|done].
Qed.

Lemma anywhere_on S v z : fits S (anywhere v z) -> fits S (anywhere (v - 1 + 6 * 1) (z + 1)).
Proof. apply fits_impl. unfold anywhere. lia. Qed.

Lemma round_inside v s Q q c r : weighted v s -> stack (ps_m s) = [Q] -> cs (ps_m s) = [q] ->
  char_at buf (p (ps_m s)) = Some c -> moves q c <> [] ->
  foretold (p (ps_m s)) (targets (moves q c)) [Q] (effects (moves q c)) r -> ended r (moved v s).
Proof.
  intros (Hv & H0 & Hw) Hst Hq Hc Hne Hr. rewrite Hst, Hq in Hw. destruct Hw as [(q0 & [= <-] & Hin) Hf].
  pose proof (fun x Hx => callee_round q c x Hin Hx Hne) as HR.
  assert (forall a s', (Go a ∈ effects (moves q c) \/ Again a ∈ effects (moves q c)) ->
            describes (p (ps_m s)) (targets (moves q c)) [Q] a s' -> moved v s (upd_m (set_p (p (ps_m s') + 1)) s')) as Hgo.
  { intros a s' Ha (Hp & Hcs & Hs). assert (a_d a = 1 /\ exists q', at_set (targets (moves q c)) a = [q'] /\ q' ∈ callees) as (Hd & q' & Et & Hq')
      by (destruct Ha as [Ha|Ha]; exact (HR _ Ha)).
    unfold moved, weighted. simpl. rewrite Hs, Hp, Hcs, Hd, Et.
    replace (p (ps_m s) + 1 - 1 + 1) with (p (ps_m s) + 1) by lia. replace (p (ps_m s) + 1 - p (ps_m s)) with 1 by lia.
    split; [lia|]. split; [lia|]. split; [lia|]. split; [by exists q'|by apply anywhere_on]. }
  destruct r as [s'|s'| |]; simpl in *; try done.
  - destruct Hr as (a & Ha & Hd). by apply (Hgo a); [left|].
  - destruct Hr as [(a & Ha & Hd)|[(a & l & Ha & _)|(a & Q' & st' & Ha & [= <- <-] & Hd)]]; [by apply (Hgo a); [right|]|by apply HR in Ha|].
    apply HR in Ha as Hd1. simpl in Hd1. rewrite Hd1 in Hd. eapply moved_set; [exact Hd|done|exact Hc|done|]. by apply anywhere_on.
Qed.

Lemma step_weighted v s c : weighted v s -> char_at buf (p (ps_m s)) = Some c ->
  match step buf strtod pe s with SNext s' => moved v s s' /\ p (ps_m s') <> pe | _ => True end.
Proof.
  intros Hw Hc. unfold step. rewrite Hc. fold (moves_of (cs (ps_m s)) c).
  destruct (moves_of (cs (ps_m s)) c) as [|m ms] eqn:Em; [done|]. rewrite <- Em.
  set (s1 := upd_m _ s).
  assert (ended (run_acts buf strtod (merge (moves_of (cs (ps_m s)) c)) c s1) (moved v s)) as H.
  { pose proof (run_acts_foretold buf strtod (p (ps_m s)) (targets (moves_of (cs (ps_m s)) c)) (stack (ps_m s)) c
                  (merge (moves_of (cs (ps_m s)) c)) (mk_amove 1 None) s1) as Hr.
    destruct (stack (ps_m s)) as [|Q [|]] eqn:Est; [| |by destruct Hw as (_ & _ & Hw); rewrite Est in Hw].
    - apply (round_outside v s c _ Hw Est Hc), Hr. unfold describes, is_at, s1. simpl. split; [lia|done].
    - destruct Hw as (Hv & H0 & Hw). rewrite Est in Hw. destruct Hw as [(q & Hq & Hin) Hf].
      assert (moves_of (cs (ps_m s)) c = moves q c) as Emq by (rewrite Hq; unfold moves_of; simpl; apply app_nil_r).
      rewrite Emq in *. apply (round_inside v s Q q c); [|done|done|done|by rewrite Em|apply Hr].
      + split; [done|]. split; [done|]. rewrite Est, Hq. eauto.
      + unfold describes, is_at, s1. simpl. split; [lia|]. by rewrite Emq. }
  destruct (run_acts buf strtod _ c s1) as [s'|s'| |]; simpl in H; try done;
    simpl; destruct (Z.eqb_spec (p (ps_m s') + 1) pe); try done; by split.
Qed.

(** States the machine goes through. *)
Inductive goes : pst -> pst -> Prop :=
  | goes_refl s : goes s s
  | goes_step s s1 s2 : goes s s1 -> step buf strtod pe s1 = SNext s2 -> goes s s2.

Lemma goes_weighted s s' v : goes s s' -> weighted v s -> p (ps_m s) < pe -> exists w, weighted w s' /\ p (ps_m s') < pe.
Proof.
  intros H Hv Hp. induction H as [|s1 s2 s3 H IH E]; [by exists v|]. destruct (IH Hv Hp) as (w & Hw & Hp2).
  assert (exists c, char_at buf (p (ps_m s2)) = Some c) as [c Hc]
    by (unfold step in E; destruct (char_at _ _); [by eexists|done]).
  pose proof (step_weighted w s2 c Hw Hc) as Hs. rewrite E in Hs. destruct Hs as [[Hle Hw'] Hne].
  eexists. split; [exact Hw'|]. lia.
Qed.

Lemma exec_total fuel : forall s v, weighted v s -> p (ps_m s) < pe -> 6 * (pe - p (ps_m s)) + v < Z.of_nat fuel ->
  exists r, exec buf strtod fuel pe s = Some r.
Proof.
  induction fuel as [|fuel IH]; intros s v Hv Hp Hf; [destruct Hv; lia|]. simpl.
  destruct (char_at buf (p (ps_m s))) as [c|] eqn:Hc; [|unfold step; rewrite Hc; by eexists].
  pose proof (step_weighted v s c Hv Hc) as Hs. destruct (step buf strtod pe s) as [s'| |]; [|by eexists..].
  destruct Hs as [[Hle Hw] Hne]. eapply IH; [exact Hw|lia..].
Qed.
End loop.

Lemma fits_start v z : 3 <= v -> 0 <= z -> fits [start] (anywhere v z).
Proof.
  intros Hv Hz. eexists. split; [vm_compute; reflexivity|]. intros [q|] Hr.
  - destruct Hr as [Hr Hq]. apply list_elem_of_singleton in Hr. by subst.
  - eexists. split; [vm_compute; reflexivity|]. unfold anywhere. simpl. lia.
Qed.

Lemma weighted_init buf b : weighted buf 3 (init b).
Proof. split; [lia|]. split; [simpl; lia|]. intros c _. apply anywhere_at_char, fits_start; simpl; lia. Qed.

Lemma toml_parse_stops strtod answers root buf buflen fuel : (6 * buflen + 10 <= fuel)%nat ->
  exists r, toml_parse strtod answers fuel root buf buflen = Some r.
Proof.
  intros Hf. unfold toml_parse. destruct (malloc _) as [[] b]; simpl; [|by eexists].
  destruct (negb _); [by eexists|].
  destruct (exec_total buf strtod (Z.of_nat buflen + 1) fuel (init b) 3) as [r ->].
  - apply weighted_init.
  - simpl. lia.
  - simpl. lia.
  - destruct r; by eexists.
Qed.

(** C28: [toml_parse] comes to an end.  For every text, any tree and any answers of
    [malloc], six rounds a character and ten more are enough for the machine to
    stop: [p] is moved back by [fhold] over and over, by two places at times, but
    never so that the same place is read for ever. *)
Theorem toml_parse_total (strtod : bytes -> Z) (answers : list bool) (root : toml_node) (buf : bytes) (buflen fuel : nat)
  (Hf : (6 * buflen + 10 <= fuel)%nat) :
  exists r, toml_parse strtod answers fuel root buf buflen = Some r.
Proof. by apply toml_parse_stops. Qed.

Lemma toml_parse_total_witness :
  let text := lit "['a]b'] 'k'='v'" in
  exists r, toml_parse (fun _ => 0) [] 110 toml_init (text ++ [x00]) (length text) = Some r.
Proof. apply toml_parse_total. vm_compute. lia. Defined.

(** C31: the machine stays in its arrays.  For every text, in every state it goes
    through, the character it looks at is one of the text or the one after it, and
    the stack of [fcall], for which there are 1024 entries, holds one state at
    most. *)
Theorem toml_machine_in_bounds (strtod : bytes -> Z) (b : build) (buf : bytes) (buflen : nat) (s : pst)
  (H : goes buf strtod (Z.of_nat buflen + 1) (init b) s) :
  0 <= p (ps_m s) <= Z.of_nat buflen /\ (length (stack (ps_m s)) <= 1)%nat.
Proof.
  destruct (goes_weighted buf strtod _ _ _ 3 H (weighted_init buf b)) as (w & (_ & H0 & Hw) & Hp); [simpl; lia|].
  split; [lia|]. destruct (stack (ps_m s)) as [|Q [|]]; simpl; [lia..|done].
Qed.

Lemma toml_machine_in_bounds_witness :
  let buf := lit "#x" in
  let s := mk_pst (mk_mach 1 [comment] [[start]]) regs0 (mk_build NameNull [mk_item None []] toml_init [] false false) in
  0 <= p (ps_m s) <= 1 /\ (length (stack (ps_m s)) <= 1)%nat.
Proof.
  intros buf s. apply (toml_machine_in_bounds (fun _ => 0) (mk_build NameNull [] toml_init [] false false) buf 1 s).
  eapply goes_step; [apply goes_refl|]. vm_compute. reflexivity.
Defined.
