(* ===== verification/TomlText.v ===== *)
(** * What the TOML parser makes of a configuration file

    A configuration file is seen as lines: blank, a comment, a table header, or a
    key with a number, a truth value or a string.  [interp] gives the meaning of the
    lines one by one, with [SawTable] for a header; the machine of toml_parse.rl,
    run on the printed lines, has exactly the result of [interp]: the code, the
    tree, or the undefined behaviour. *)

From stdpp Require Import base option numbers strings list.
From Stdlib Require Import Strings.Byte ZArith Lia.
From S2P Require Import Prelude Utils Toml TomlParse.
Import Rl.
Local Open Scope Z_scope.

(** ** Lines *)

(** Letters, digits, [_] and [-]: the characters of a bare key. *)
Definition bare (c : byte) : bool :=
  digit c || ((65 <=? uchar c) && (uchar c <=? 90)) || ((97 <=? uchar c) && (uchar c <=? 122)) || one_of (lit "_-") c.
Definition header_char (c : byte) : bool := bare c || eqc "."%byte c.

(** A character of a string as it is, or one after a backslash. *)
Inductive piece := Raw (c : byte) | Esc (c : byte).

Definition escapes : list (byte * byte) :=
  [("b"%byte, x08); ("t"%byte, TAB); ("n"%byte, NL); ("f"%byte, x0c); ("r"%byte, x0d); ("0"%byte, x00);
   (DQ, DQ); ("/"%byte, "/"%byte); (BSL, BSL)].
Definition escape (c : byte) : option byte := snd <$> List.find (fun x => eqc c x.1) escapes.

Definition piece_ok (x : piece) : bool :=
  match x with Raw c => none_of [DQ; BSL] c | Esc c => bool_decide (is_Some (escape c)) end.
Definition piece_text (x : piece) : bytes := match x with Raw c => [c] | Esc c => [BSL; c] end.
Definition piece_byte (x : piece) : byte := match x with Raw c => c | Esc c => default x00 (escape c) end.

Inductive scalar :=
  | Num (sign : option byte) (ds : bytes)
  | Bool (v : bool)
  | Str (s : list piece).

Definition scalar_ok (v : scalar) : bool :=
  match v with
  | Num sign ds => forallb digit ds && negb (bool_decide (ds = [])) && match sign with None => true | Some c => one_of (lit "-+") c end
  | Bool _ => true
  | Str s => forallb piece_ok s
  end.
Definition scalar_text (v : scalar) : bytes :=
  match v with
  | Num sign ds => option_list sign ++ ds
  | Bool true => lit "true"
  | Bool false => lit "false"
  | Str s => [DQ] ++ mjoin (piece_text <$> s) ++ [DQ]
  end.

(** The node's type and value. *)
Definition scalar_value (v : scalar) : fault + (toml_type * toml_value toml_node) :=
  match v with
  | Num sign ds =>
      let n := read_dec ds in
      if 2 ^ 63 <=? n then inl SignedOverflow
      else inr (TOML_INT, VInteger (if bool_decide (sign = Some "-"%byte) then - n else n))
  | Bool v => inr (TOML_BOOLEAN, VInteger (if v then 1 else 0))
  | Str s =>
      if (STRING_SIZE <=? length s)%nat then inl OutOfBounds else inr (TOML_STRING, VString (upto_nul (piece_byte <$> s)))
  end.

Inductive content := Blank | Comment (text : bytes) | Header (name : bytes) | Entry (key : bytes) (v : scalar).
Record line := mk_line { indent : bytes; what : content }.

Definition content_ok (c : content) : bool :=
  match c with
  | Blank => true
  | Comment t => forallb (none_of [NL]) t
  | Header n => forallb header_char n && negb (bool_decide (n = []))
  | Entry k v => forallb bare k && negb (bool_decide (k = [])) && scalar_ok v
  end.
Definition line_ok (l : line) : bool := forallb (one_of [TAB; SP]) (indent l) && content_ok (what l).

Definition content_text (c : content) : bytes :=
  match c with
  | Blank => []
  | Comment t => ["#"%byte] ++ t
  | Header n => ["["%byte] ++ n ++ ["]"%byte]
  | Entry k v => k ++ lit " = " ++ scalar_text v
  end.
Definition line_text (l : line) : bytes := indent l ++ content_text (what l) ++ [NL].
Definition text_of (ls : list line) : bytes := mjoin (line_text <$> ls).

(** ** Their meaning *)

Inductive meaning :=
  | Fault_ (f : fault)                                    (* undefined behaviour *)
  | Refused (root : toml_node)                            (* the code 1, with this tree *)
  | Next (root : toml_node) (tbl : option (list nat)).  (* on with this tree in this table *)

(** The place new keys go to. *)
Definition place (tbl : option (list nat)) : list nat := default [] tbl.

(** The test for a key that is there: whether it is a prefix of a name. *)
Definition begins (key : bytes) (n : toml_node) : bool :=
  match n_name n with None => false | Some a => bool_decide (take (length key) a = key) end.

Definition interp_content (root : toml_node) (tbl : option (list nat)) (c : content) : meaning :=
  match c with
  | Blank | Comment _ => Next root tbl
  | Header n =>
      match SawTable root n with
      | inl f => Fault_ f
      | inr (code, root, Some path) => if code =? 0 then Next root (Some path) else Refused root
      | inr (_, root, None) => Refused root
      end
  | Entry k v =>
      match node_at root (place tbl) with
      | None => Fault_ NullDeref
      | Some n =>
          match map_items n with
          | inl f => Fault_ f
          | inr l =>
              if existsb (begins k) l then Refused root
              else
                match scalar_value v with
                | inl f => Fault_ f
                | inr (ty, x) =>
                    match update_at (place tbl) (add_tail (mk_node ty (Some k) x)) root with
                    | inl f => Fault_ f
                    | inr root => Next root tbl
                    end
                end
          end
      end
  end.

Fixpoint interp (root : toml_node) (tbl : option (list nat)) (ls : list line) : fault + (Z * toml_node) :=
  match ls with
  | [] => inr (0, root)
  | l :: r =>
      match interp_content root tbl (what l) with
      | Fault_ f => inl f
      | Refused root => inr (1, root)
      | Next root tbl => interp root tbl r
      end
  end.

(** ** Runs of the machine *)

(** A transition: its actions and its target. *)
Definition tr (q : list pos) (c : byte) (acts : list act) (tg : list pos) : Prop :=
  exists m ms, (q ≫= fun q => moves q c) = m :: ms /\ merge (m :: ms) = acts /\ targets (m :: ms) = tg.

Ltac tr_solve := eexists _, _; split; [reflexivity|split; reflexivity].
Ltac tr_class c := destruct c; intros H; first [discriminate H | tr_solve].

(** The transitions the lines use, by classes of characters. *)
Lemma tr_start_blank c : one_of [TAB; SP] c = true -> tr [start] c [In_text false; Fgoto start] [start].
Proof. tr_class c. Qed.
Lemma tr_start_NL : tr [start] NL [In_text false; Fgoto start] [start].
Proof. tr_solve. Qed.
Lemma tr_start_hash : tr [start] "#"%byte [In_text false; Fcall comment] [start].
Proof. tr_solve. Qed.
Lemma tr_comment c : none_of [NL] c = true -> tr [comment] c [] [comment].
Proof. tr_class c. Qed.
Lemma tr_comment_NL : tr [comment] NL [Fret] [comment].
Proof. tr_solve. Qed.

Lemma tr_start_bracket : tr [start] "["%byte [Fhold] [text_in].
Proof. tr_solve. Qed.
Lemma tr_text_bracket : tr [text_in] "["%byte [In_text true] [table].
Proof. tr_solve. Qed.
Lemma tr_table c : header_char c = true -> tr [table] c [Ts] [T_name].
Proof. tr_class c. Qed.
Lemma tr_T_name c : header_char c = true -> tr [T_name] c [] [T_name].
Proof. tr_class c. Qed.
Lemma tr_T_name_end : tr [T_name] "]"%byte [saw_table] [start].
Proof. tr_solve. Qed.

Lemma tr_start_bare c : bare c = true -> tr [start] c [Fhold] [text_in].
Proof. tr_class c. Qed.
Lemma tr_text_bare c : bare c = true -> tr [text_in] c [In_text true; Fhold] [key].
Proof. tr_class c. Qed.
Lemma tr_key c : bare c = true -> tr [key] c [Ts; Namelen 0] [K_name].
Proof. tr_class c. Qed.
Lemma tr_K_name c : bare c = true -> tr [K_name] c [Namelen 0] [K_name].
Proof. tr_class c. Qed.
Lemma tr_K_name_SP : tr [K_name] SP [] [K_name_ws].
Proof. tr_solve. Qed.
Lemma tr_K_name_eq : tr [K_name_ws] "="%byte [saw_key] [val].
Proof. tr_solve. Qed.
Lemma tr_val_SP : tr [val] SP [Fgoto val] [val].
Proof. tr_solve. Qed.

(** The first character of a value. *)
Definition value_char (c : byte) : bool := digit c || one_of (lit "-+tf" ++ [DQ]) c.
Lemma tr_val c : value_char c = true -> tr [val] c [Fhold] [singular].
Proof. tr_class c. Qed.

Lemma tr_singular_digit c : digit c = true -> tr [singular] c [Number_first] [number_or_date].
Proof. tr_class c. Qed.
Lemma tr_singular_sign c : one_of (lit "-+") c = true -> tr [singular] c [Number_sign] [number_or_date].
Proof. tr_class c. Qed.
Lemma tr_digit c : digit c = true -> tr [number_or_date] c [Number_more; Fgoto number_or_date] [number_or_date].
Proof. tr_class c. Qed.
Lemma tr_number_NL : tr [number_or_date] NL [saw_int] [start].
Proof. tr_solve. Qed.

Lemma tr_singular_DQ : tr [singular] DQ [Str_start] [basic_string].
Proof. tr_solve. Qed.
Lemma tr_string_first c : none_of [DQ] c = true -> tr [basic_string] c [Fhold] [basic_string_contents].
Proof. tr_class c. Qed.
Lemma tr_string_DQ : tr [basic_string] DQ [] [basic_empty_or_multi_line].
Proof. tr_solve. Qed.
Lemma tr_empty_NL : tr [basic_empty_or_multi_line] NL [saw_string; Fhold] [start].
Proof. tr_solve. Qed.
Lemma tr_raw c : none_of [DQ; BSL] c = true ->
  tr [basic_string_contents] c [Put_fc; Fgoto basic_string_contents] [basic_string_contents].
Proof. tr_class c. Qed.
Lemma tr_BSL : tr [basic_string_contents] BSL [Fcall str_escape] [basic_string_contents].
Proof. tr_solve. Qed.
Lemma tr_escape c d : escape c = Some d -> tr [str_escape] c [Put d; Fret] [str_escape].
Proof. destruct c; intros H; first [discriminate H | injection H as <-; tr_solve]. Qed.
Lemma tr_string_end : tr [basic_string_contents] DQ [saw_string] [start].
Proof. tr_solve. Qed.

Lemma tr_true n : (n < 3)%nat -> tr [if n is 0%nat then singular else S_true n] (default x00 (lit "true" !! n)) [] [S_true (S n)].
Proof. intros. destruct n as [|[|[|]]]; try lia; tr_solve. Qed.
Lemma tr_true_e : tr [S_true 3] "e"%byte [Number 1] [true_].
Proof. tr_solve. Qed.
Lemma tr_true_NL : tr [true_] NL [Fhold; saw_bool] [start].
Proof. tr_solve. Qed.
Lemma tr_false n : (n < 4)%nat -> tr [if n is 0%nat then singular else S_false n] (default x00 (lit "false" !! n)) [] [S_false (S n)].
Proof. intros. destruct n as [|[|[|[|]]]]; try lia; tr_solve. Qed.
Lemma tr_false_e : tr [S_false 4] "e"%byte [Number 0] [false_].
Proof. tr_solve. Qed.
Lemma tr_false_NL : tr [false_] NL [Fhold; saw_bool] [start].
Proof. tr_solve. Qed.

(** ** The contexts *)

(** The context stack while a table is open, or none is. *)
Definition ctx (tbl : option (list nat)) : list stack_item :=
  match tbl with None => [mk_item None []] | Some path => [mk_item None path; mk_item None []] end.
Definition bld (nm : cname) (root : toml_node) (tbl : option (list nat)) : build := mk_build nm (ctx tbl) root [] false false.

Definition ctx_ok (root : toml_node) (tbl : option (list nat)) : Prop :=
  n_type root = TOML_ROOT /\
  match tbl with None => True | Some path => exists m, node_at root path = Some m /\ n_type m = TOML_TABLE end.

Lemma update_at_node path f : forall n n', update_at path f n = inr n' ->
  exists m m', node_at n path = Some m /\ f m = inr m' /\ node_at n' path = Some m' /\ (path <> [] -> n_type n' = n_type n /\ n_name n' = n_name n).
Proof.
  induction path as [|i path IH]; simpl; intros n n' H; [by exists n, n'|].
  unfold items in H. destruct (n_value n) as [l| | | |]; try done.
  destruct (l !! i) as [c|] eqn:Ei; [|done]. destruct (update_at path f c) as [|c'] eqn:Ec; [done|]. injection H as <-.
  destruct (IH _ _ Ec) as (m & m' & Hm & Hf & Hm' & _). exists m, m'. simpl. split; [done|]. split; [done|].
  split; [|done]. by rewrite list_lookup_insert_eq by (by eapply lookup_lt_Some).
Qed.

Lemma add_tail_same x n n' : add_tail x n = inr n' -> n_type n' = n_type n /\ n_name n' = n_name n.
Proof. unfold add_tail. destruct (items n); [done|]. by intros [= <-]. Qed.

(** An added item leaves the context as it is. *)
Lemma ctx_ok_add root root' tbl x : ctx_ok root tbl -> update_at (place tbl) (add_tail x) root = inr root' -> ctx_ok root' tbl.
Proof.
  intros [H1 H2] H. destruct (update_at_node _ _ _ _ H) as (m & m' & Hm & Hf & Hm' & Hsame).
  destruct (add_tail_same _ _ _ Hf) as [Ht _]. destruct tbl as [path|]; simpl in *.
  - destruct H2 as (m0 & Hm0 & Hty). split; [|exists m'; split; congruence].
    destruct path; [simpl in *; congruence|]. by rewrite (proj1 (Hsame ltac:(done))).
  - split; [|done]. simplify_eq/=. congruence.
Qed.

Lemma ctx_type root tbl n : ctx_ok root tbl -> node_at root (place tbl) = Some n -> n_type n = TOML_ROOT \/ n_type n = TOML_TABLE.
Proof. intros [H1 H2]. destruct tbl as [path|]; simpl; [|intros [= <-]; auto]. intros H. destruct H2 as (m & ? & ?). right. congruence. Qed.

(** A header that is accepted opens its table. *)
Lemma ctx_ok_header root root' name code path : n_type root = TOML_ROOT -> SawTable root name = inr (code, root', Some path) ->
  ctx_ok root' (Some path).
Proof.
  unfold SawTable. intros Hr H. destruct (saw_loop (strsep_dot name) root) as [|[n q t added|n]] eqn:E; try done.
  assert (n_type n = n_type root) as Hn.
  { clear -E. destruct (strsep_dot name) as [|a anc]; cbn [saw_loop] in E; [by injection E as <-|].
    case_decide; [done|]. destruct (map_items root); [done|].
    destruct (match find_item _ _ with Some _ => _ | None => _ end) as [[[i item] l'] new].
    destruct (saw_loop anc item) as [|[]]; try done. by injection E as <-. }
  destruct added; [|done]. case_decide as Ht; [|done]. injection H as <- <- <-.
  apply saw_loop_spec in E as (_ & _ & m & Hm & Hty & _). split; [congruence|]. exists m. split; congruence.
Qed.

Lemma with_context_bld i q k r nm root tbl f :
  with_context (mk_pst (mk_mach i q k) r (bld nm root tbl)) f =
    match node_at root (place tbl) with None => ABad NullDeref | Some n => f (mk_item None (place tbl)) n end.
Proof. unfold with_context. by destruct tbl. Qed.

(** A value is added to the context's node and the machine goes back to [start]. *)
Lemma add_node_bld ty v i q k r key root tbl : ctx_ok root tbl ->
  add_node_to_tree ty v (mk_pst (mk_mach i q k) r (bld (NameStr key) root tbl)) =
    match update_at (place tbl) (add_tail (mk_node ty (Some key) v)) root with
    | inl f => ABad f
    | inr t => AGo (mk_pst (mk_mach i [start] k) r (bld (NameStr key) t tbl))
    end.
Proof.
  intros Hok. unfold add_node_to_tree. rewrite with_context_bld.
  destruct (node_at root (place tbl)) as [n|] eqn:En.
  2: { destruct Hok as [_ H2]. destruct tbl as [path|]; [|done]. destruct H2 as (? & ? & _). simpl in En. congruence. }
  assert (add_to_context (mk_node ty (Some key) v) (mk_item None (place tbl)) (mk_pst (mk_mach i q k) r (bld (NameStr key) root tbl)) after_value =
    match update_at (place tbl) (add_tail (mk_node ty (Some key) v)) root with
    | inl f => ABad f
    | inr t => AGo (mk_pst (mk_mach i [start] k) r (bld (NameStr key) t tbl))
    end) as Hadd.
  { unfold add_to_context. simpl. destruct (update_at _ _ _) as [|t] eqn:Et; [done|].
    pose proof (ctx_ok_add _ _ _ _ Hok Et) as Hok'. destruct (update_at_node _ _ _ _ Et) as (_ & m' & _ & _ & Hm' & _).
    unfold after_value. change (upd_b _ _) with (mk_pst (mk_mach i q k) r (bld (NameStr key) t tbl)).
    rewrite with_context_bld, Hm'. by destruct (ctx_type _ _ _ Hok' Hm') as [-> | ->]. }
  destruct (ctx_type _ _ _ Hok En) as [-> | ->]; exact Hadd.
Qed.

Lemma add_node_state ty v s key root tbl : ctx_ok root tbl -> ps_b s = bld (NameStr key) root tbl ->
  add_node_to_tree ty v s =
    match update_at (place tbl) (add_tail (mk_node ty (Some key) v)) root with
    | inl f => ABad f
    | inr t => AGo (mk_pst (set_cs [start] (ps_m s)) (ps_r s) (bld (NameStr key) t tbl))
    end.
Proof. destruct s as [[] ? ?]. simpl. intros Hok ->. by apply add_node_bld. Qed.

Section text.
Context (strtod : bytes -> Z) (text more : bytes).

Abbreviation buf := (text ++ x00 :: more).
Abbreviation pe := (Z.of_nat (length text) + 1).
Abbreviation step := (Rl.step buf strtod pe).
Abbreviation exec n := (Rl.exec buf strtod n pe).
Abbreviation len l := (Z.of_nat (length l)) (only parsing).

Definition st (i : Z) (q : list pos) (k : list (list pos)) (r : regs) (b : build) : pst := mk_pst (mk_mach i q k) r b.

Definition runs (s s' : pst) : Prop := exists n, forall fuel, exec (n + fuel)%nat s = exec fuel s'.
Definition ends (s : pst) (o : fault + pst) : Prop := exists n, forall fuel, exec (n + fuel)%nat s = Some o.

Lemma runs_refl s : runs s s.
Proof. by exists 0%nat. Qed.

Lemma runs_trans s1 s2 s3 : runs s1 s2 -> runs s2 s3 -> runs s1 s3.
Proof. intros [n Hn] [m Hm]. exists (n + m)%nat. intros fuel. by rewrite <- Nat.add_assoc, Hn, Hm. Qed.

Lemma runs_ends s1 s2 o : runs s1 s2 -> ends s2 o -> ends s1 o.
Proof. intros [n Hn] [m Hm]. exists (n + m)%nat. intros fuel. by rewrite <- Nat.add_assoc, Hn, Hm. Qed.

Lemma step_runs s s' : step s = SNext s' -> runs s s'.
Proof. intros E. exists 1%nat. intros fuel. simpl. by rewrite E. Qed.

Lemma step_ends s o : match step s with SNext _ => False | SStop s' => o = inr s' | SBad f => o = inl f end -> ends s o.
Proof. intros E. exists 1%nat. intros fuel. simpl. by destruct (step s); subst. Qed.

Lemma char_here pre c l : text = pre ++ c :: l -> char_at buf (len pre) = Some c.
Proof.
  intros E. unfold char_at. destruct (Z.ltb_spec (len pre) 0); [lia|]. rewrite Nat2Z.id, E, <- app_assoc.
  by rewrite lookup_app_r, Nat.sub_diag by lia.
Qed.

(** One round at a character of the text. *)
Lemma step_tr pre c l q k r b acts tg : text = pre ++ c :: l -> tr q c acts tg ->
  step (st (len pre) q k r b) =
    match run_acts buf strtod acts c (st (len pre) tg k r b) with
    | AGo s | AAgain s =>
        let s := upd_m (set_p (p (ps_m s) + 1)) s in if p (ps_m s) =? pe then SStop s else SNext s
    | AOut s => SStop s
    | ABad f => SBad f
    end.
Proof.
  intros E (m & ms & Hms & <- & <-). unfold Rl.step. simpl. rewrite (char_here _ _ _ E). by rewrite Hms.
Qed.

Lemma move i q' k' r' b' pre c l q k r b acts tg : text = pre ++ c :: l -> tr q c acts tg -> i <= len pre ->
  (run_acts buf strtod acts c (st (len pre) tg k r b) = AGo (st i q' k' r' b') \/
   run_acts buf strtod acts c (st (len pre) tg k r b) = AAgain (st i q' k' r' b')) ->
  runs (st (len pre) q k r b) (st (i + 1) q' k' r' b').
Proof.
  intros E Htr Hi Hr. apply step_runs. rewrite (step_tr _ _ _ _ _ _ _ _ _ E Htr).
  assert (len pre < len text) as Hlt by (rewrite E, length_app; simpl; lia).
  destruct Hr as [-> | ->]; simpl; (destruct (Z.eqb_spec (i + 1) pe); [lia|done]).
Qed.

Lemma stop pre c l q k r b acts tg o : text = pre ++ c :: l -> tr q c acts tg ->
  match run_acts buf strtod acts c (st (len pre) tg k r b) with
  | AGo _ | AAgain _ => False
  | AOut s => o = inr s
  | ABad f => o = inl f
  end -> ends (st (len pre) q k r b) o.
Proof.
  intros E Htr Hr. apply step_ends. rewrite (step_tr _ _ _ _ _ _ _ _ _ E Htr).
  by destruct (run_acts _ _ _ _ _).
Qed.
(** The character is left behind, or looked at again. *)
Lemma eat q' k' r' b' pre c l q k r b acts tg : text = pre ++ c :: l -> tr q c acts tg ->
  (run_acts buf strtod acts c (st (len pre) tg k r b) = AGo (st (len pre) q' k' r' b') \/
   run_acts buf strtod acts c (st (len pre) tg k r b) = AAgain (st (len pre) q' k' r' b')) ->
  runs (st (len pre) q k r b) (st (len (pre ++ [c])) q' k' r' b').
Proof.
  intros E Htr Hr. replace (len (pre ++ [c])) with (len pre + 1) by (rewrite length_app; simpl; lia).
  by eapply move; [exact E|exact Htr|lia|].
Qed.

Lemma hold q' k' r' b' pre c l q k r b acts tg : text = pre ++ c :: l -> tr q c acts tg ->
  run_acts buf strtod acts c (st (len pre) tg k r b) = AGo (st (len pre - 1) q' k' r' b') ->
  runs (st (len pre) q k r b) (st (len pre) q' k' r' b').
Proof.
  intros E Htr Hr. replace (len pre) with (len pre - 1 + 1) at 2 by lia.
  eapply move; [exact E|exact Htr|lia|by left].
Qed.

(** A state that reads on while the characters are of a kind. *)
Lemma eat_while (I : bytes -> regs -> Prop) (P : byte -> bool) q k b :
  (forall pre c l r, text = pre ++ c :: l -> P c = true -> I pre r ->
     exists r', runs (st (len pre) q k r b) (st (len (pre ++ [c])) q k r' b) /\ I (pre ++ [c]) r') ->
  forall w pre l r, text = pre ++ w ++ l -> forallb P w = true -> I pre r ->
    exists r', runs (st (len pre) q k r b) (st (len (pre ++ w)) q k r' b) /\ I (pre ++ w) r'.
Proof.
  intros Hone. induction w as [|c w IH]; intros pre l r E Hw HI; simpl in Hw.
  { exists r. rewrite app_nil_r. split; [apply runs_refl|done]. }
  apply andb_true_iff in Hw as [Hc Hw]. destruct (Hone pre c (w ++ l) r E Hc HI) as (r1 & H1 & HI1).
  destruct (IH (pre ++ [c]) l r1) as (r2 & H2 & HI2); [by rewrite <- app_assoc|done|done|].
  rewrite <- app_assoc in H2, HI2. exists r2. split; [|done]. by eapply runs_trans.
Qed.

Lemma run_blanks b w pre l r : text = pre ++ w ++ l -> forallb (one_of [TAB; SP]) w = true -> in_text r = false ->
  exists r', runs (st (len pre) [start] [] r b) (st (len (pre ++ w)) [start] [] r' b) /\ in_text r' = false.
Proof.
  intros E Hw Hr. eapply (eat_while (fun _ r => in_text r = false)); [|done..]. clear. intros pre c l r E Hc Hr.
  eexists. split; [|shelve]. eapply eat; [exact E|by apply tr_start_blank|right; reflexivity]. Unshelve. done.
Qed.

(** The end of a line. *)
Lemma run_NL b pre l r : text = pre ++ NL :: l ->
  exists r', runs (st (len pre) [start] [] r b) (st (len (pre ++ [NL])) [start] [] r' b) /\ in_text r' = false.
Proof.
  intros E. exists (set_in_text false r). split; [|done]. eapply eat; [exact E|apply tr_start_NL|right; reflexivity].
Qed.

Lemma run_comment b t pre l r : text = pre ++ ["#"%byte] ++ t ++ NL :: l -> forallb (none_of [NL]) t = true ->
  exists r', runs (st (len pre) [start] [] r b) (st (len (pre ++ ["#"%byte] ++ t ++ [NL])) [start] [] r' b) /\ in_text r' = false.
Proof.
  intros E Ht. assert (text = (pre ++ ["#"%byte]) ++ t ++ NL :: l) as E1 by (by rewrite <- app_assoc).
  destruct (eat_while (fun _ r => in_text r = false) (none_of [NL]) [comment] [[start]] b) with
    (w := t) (pre := pre ++ ["#"%byte]) (l := NL :: l) (r := set_in_text false r) as (r' & Hr' & HI); [|done..|].
  { clear. intros pre c l r E Hc Hr. exists r. split; [|done].
    eapply eat; [exact E|by apply tr_comment|left; reflexivity]. }
  exists r'. split; [|done]. eapply runs_trans; [eapply eat; [exact E|apply tr_start_hash|right; reflexivity]|].
  eapply runs_trans; [exact Hr'|]. rewrite !app_assoc.
  eapply eat; [|apply tr_comment_NL|right; reflexivity]. by rewrite <- !app_assoc.
Qed.
(** ** Values *)

(** What the machine makes of a value of the type and content [x], where it is at
    [s] before and at place [j] after it. *)
Definition stored (s : pst) (j : Z) (key : bytes) (root : toml_node) (tbl : option (list nat)) (x : toml_type * toml_value toml_node) : Prop :=
  match update_at (place tbl) (add_tail (mk_node x.1 (Some key) x.2)) root with
  | inl f => ends s (inl f)
  | inr t => exists r', runs s (st j [start] [] r' (bld (NameStr key) t tbl))
  end.

Lemma runs_stored s s' j key root tbl x : runs s s' -> stored s' j key root tbl x -> stored s j key root tbl x.
Proof.
  intros H. unfold stored. destruct (update_at _ _ _); [by apply runs_ends|].
  intros [r' Hr]. exists r'. by eapply runs_trans.
Qed.

(** The transition at which the value is added. *)
Lemma close pre c l q r b acts tg key root tbl x j r' : text = pre ++ c :: l -> tr q c acts tg -> j <= len pre ->
  run_acts buf strtod acts c (st (len pre) tg [] r b) =
    match update_at (place tbl) (add_tail (mk_node x.1 (Some key) x.2)) root with
    | inl f => ABad f
    | inr t => AGo (st j [start] [] r' (bld (NameStr key) t tbl))
    end ->
  stored (st (len pre) q [] r b) (j + 1) key root tbl x.
Proof.
  intros E Htr Hj Hr. unfold stored. destruct (update_at _ _ _) as [f|t].
  - eapply stop; [exact E|exact Htr|]. by rewrite Hr.
  - exists r'. eapply move; [exact E|exact Htr|done|]. by left.
Qed.
Lemma close_held pre l q r b acts tg key root tbl x r' : text = pre ++ NL :: l -> tr q NL acts tg ->
  run_acts buf strtod acts NL (st (len pre) tg [] r b) =
    match update_at (place tbl) (add_tail (mk_node x.1 (Some key) x.2)) root with
    | inl f => ABad f
    | inr t => AGo (st (len pre - 1) [start] [] r' (bld (NameStr key) t tbl))
    end ->
  stored (st (len pre) q [] r b) (len pre) key root tbl x.
Proof. intros E Htr Hr. replace (len pre) with (len pre - 1 + 1) at 2 by lia. eapply close; [exact E|exact Htr|lia|exact Hr]. Qed.

(** The lists of the text, the one after the other. *)
Ltac assoc := rewrite <- ?app_assoc; simpl; (done || eassumption).

Ltac close_value Hok :=
  cbn [run_acts run_act]; unfold do_saw_int, do_saw_string; simpl; rewrite (add_node_state _ _ _ _ _ _ Hok) by done;
  simpl; by destruct (update_at _ _ _).

Lemma run_bool v key root tbl pre l r : text = pre ++ scalar_text (Bool v) ++ NL :: l -> ctx_ok root tbl ->
  stored (st (len pre) [singular] [] r (bld (NameStr key) root tbl)) (len (pre ++ scalar_text (Bool v))) key root tbl
    (TOML_BOOLEAN, VInteger (if v then 1 else 0)).
Proof.
  intros E Hok. destruct v; simpl in E |- *.
  - replace (pre ++ lit "true") with ((((pre ++ ["t"%byte]) ++ ["r"%byte]) ++ ["u"%byte]) ++ ["e"%byte]) by assoc.
    eapply runs_stored; [eapply eat; [exact E|apply (tr_true 0); lia|left; reflexivity]|].
    eapply runs_stored; [eapply eat; [assoc|apply (tr_true 1); lia|left; reflexivity]|].
    eapply runs_stored; [eapply eat; [assoc|apply (tr_true 2); lia|left; reflexivity]|].
    eapply runs_stored; [eapply eat; [assoc|apply tr_true_e|left; reflexivity]|].
    eapply close_held; [assoc|apply tr_true_NL|]. close_value Hok.
  - replace (pre ++ lit "false") with (((((pre ++ ["f"%byte]) ++ ["a"%byte]) ++ ["l"%byte]) ++ ["s"%byte]) ++ ["e"%byte]) by assoc.
    eapply runs_stored; [eapply eat; [exact E|apply (tr_false 0); lia|left; reflexivity]|].
    eapply runs_stored; [eapply eat; [assoc|apply (tr_false 1); lia|left; reflexivity]|].
    eapply runs_stored; [eapply eat; [assoc|apply (tr_false 2); lia|left; reflexivity]|].
    eapply runs_stored; [eapply eat; [assoc|apply (tr_false 3); lia|left; reflexivity]|].
    eapply runs_stored; [eapply eat; [assoc|apply tr_false_e|left; reflexivity]|].
    eapply close_held; [assoc|apply tr_false_NL|]. close_value Hok.
Qed.

(** Digits: the number as far as it fits. *)
Lemma fold_dec_mono ds : forall n, forallb digit ds = true -> 0 <= n -> n <= fold_left (fun acc c => 10 * acc + (uchar c - 48)) ds n.
Proof.
  induction ds as [|c ds IH]; simpl; intros n H Hn; [lia|]. apply andb_true_iff in H as [Hc Hds].
  unfold digit in Hc. assert (0 <= uchar c - 48) by lia. etransitivity; [|apply IH; [done|lia]]. lia.
Qed.

Lemma run_digits b : forall ds pre l r, text = pre ++ ds ++ l -> forallb digit ds = true -> 0 <= number r < 2 ^ 63 ->
  let m := fold_left (fun acc c => 10 * acc + (uchar c - 48)) ds (number r) in
  if 2 ^ 63 <=? m then ends (st (len pre) [number_or_date] [] r b) (inl SignedOverflow)
  else exists r', runs (st (len pre) [number_or_date] [] r b) (st (len (pre ++ ds)) [number_or_date] [] r' b) /\
         number r' = m /\ negative r' = negative r.
Proof.
  induction ds as [|c ds IH]; simpl; intros pre l r E H Hn.
  { destruct (Z.leb_spec (2 ^ 63) (number r)); [lia|]. exists r. rewrite app_nil_r. split; [apply runs_refl|done]. }
  apply andb_true_iff in H as [Hc Hds]. set (n := number r * 10 + (uchar c - 48)).
  assert (10 * number r + (uchar c - 48) = n) as -> by (unfold n; lia).
  assert (0 <= n) by (unfold digit in Hc; unfold n; lia).
  destruct (Z.leb_spec (2 ^ 63) n) as [Hov|Hov].
  - pose proof (fold_dec_mono ds n Hds ltac:(lia)). destruct (Z.leb_spec (2 ^ 63) (fold_left (fun acc c => 10 * acc + (uchar c - 48)) ds n)); [|lia].
    eapply stop; [exact E|by apply tr_digit|]. simpl. unfold number_more. simpl. fold n.
    by destruct (Z.leb_spec (2 ^ 63) n); [|lia].
  - assert (runs (st (len pre) [number_or_date] [] r b) (st (len (pre ++ [c])) [number_or_date] [] (set_number n r) b)) as Hrun.
    { eapply eat; [exact E|by apply tr_digit|right]. simpl. unfold number_more. simpl. fold n.
      by destruct (Z.leb_spec (2 ^ 63) n); [lia|]. }
    specialize (IH (pre ++ [c]) l (set_number n r) ltac:(assoc) Hds ltac:(simpl; lia)). simpl in IH.
    destruct (2 ^ 63 <=? _); [by eapply runs_ends|]. destruct IH as (r' & Hr' & Hn' & Hneg).
    rewrite <- app_assoc in Hr'. exists r'. split; [by eapply runs_trans|done].
Qed.
Lemma do_saw_string_state s key root tbl : ctx_ok root tbl -> ps_b s = bld (NameStr key) root tbl ->
  do_saw_string s =
    if (STRING_SIZE <=? length (string_ (ps_r s)))%nat then ABad OutOfBounds
    else match update_at (place tbl) (add_tail (mk_node TOML_STRING (Some key) (VString (upto_nul (string_ (ps_r s)))))) root with
         | inl f => ABad f
         | inr t => AGo (mk_pst (set_cs [start] (ps_m s)) (ps_r s) (bld (NameStr key) t tbl))
         end.
Proof.
  destruct s as [m r b]. cbn [ps_b ps_r]. intros Hok ->. unfold do_saw_string. cbn [ps_r]. set (n := (_ <=? _)%nat). destruct n; [done|]. simpl.
  by apply add_node_state.
Qed.

(** What the machine makes of a value that may not fit. *)
Definition taken (s : pst) (j : Z) (key : bytes) (root : toml_node) (tbl : option (list nat))
    (x : fault + (toml_type * toml_value toml_node)) : Prop :=
  match x with inl f => ends s (inl f) | inr x => stored s j key root tbl x end.

Lemma runs_taken s s' j key root tbl x : runs s s' -> taken s' j key root tbl x -> taken s j key root tbl x.
Proof. intros H. destruct x; [by apply runs_ends|by apply runs_stored]. Qed.

Lemma run_number_tail ds key root tbl pre l r : text = pre ++ ds ++ NL :: l -> forallb digit ds = true ->
  0 <= number r < 2 ^ 63 -> ctx_ok root tbl ->
  let n := fold_left (fun acc c => 10 * acc + (uchar c - 48)) ds (number r) in
  taken (st (len pre) [number_or_date] [] r (bld (NameStr key) root tbl)) (len (pre ++ ds)) key root tbl
    (if 2 ^ 63 <=? n then inl SignedOverflow else inr (TOML_INT, VInteger (if negative r then - n else n))).
Proof.
  intros E Hds Hn Hok n. pose proof (run_digits (bld (NameStr key) root tbl) ds pre (NL :: l) r E Hds Hn) as Hd.
  cbv zeta in Hd. fold n in Hd. destruct (2 ^ 63 <=? n); [exact Hd|]. destruct Hd as (r' & Hr' & Hnum & Hneg).
  eapply runs_taken; [exact Hr'|]. rewrite <- Hnum, <- Hneg.
  eapply close_held; [assoc|apply tr_number_NL|]. close_value Hok.
Qed.

Lemma run_num sign ds key root tbl pre l r : text = pre ++ scalar_text (Num sign ds) ++ NL :: l ->
  scalar_ok (Num sign ds) = true -> ctx_ok root tbl ->
  taken (st (len pre) [singular] [] r (bld (NameStr key) root tbl)) (len (pre ++ scalar_text (Num sign ds))) key root tbl
    (scalar_value (Num sign ds)).
Proof.
  simpl. intros E H Hok. repeat rewrite andb_true_iff in H. destruct H as [[Hds Hne] Hsign].
  destruct sign as [c|]; simpl in E, Hsign |- *.
  - eapply runs_taken; [eapply eat; [exact E|by apply tr_singular_sign|left; reflexivity]|].
    replace (pre ++ c :: ds) with ((pre ++ [c]) ++ ds) by assoc.
    replace (bool_decide (Some c = Some "-"%byte)) with (eqc "-"%byte c) by (clear; by destruct c).
    apply (run_number_tail ds key root tbl (pre ++ [c]) l); [assoc|done|simpl; lia|done].
  - destruct ds as [|c ds]; [done|]. simpl in E, Hds |- *. apply andb_true_iff in Hds as [Hc Hds].
    eapply runs_taken; [eapply eat; [exact E|by apply tr_singular_digit|left; reflexivity]|].
    replace (pre ++ c :: ds) with ((pre ++ [c]) ++ ds) by assoc.
    apply (run_number_tail ds key root tbl (pre ++ [c]) l); [assoc|done| |done].
    unfold digit in Hc. simpl. lia.
Qed.

(** The characters of a string, as far as there is room. *)
Lemma run_put b k q pre c d l r acts tg : text = pre ++ c :: l -> tr q c acts tg ->
  (acts = [Put_fc; Fgoto basic_string_contents] /\ d = c /\ k = [] \/
   acts = [Put d; Fret] /\ k = [[basic_string_contents]]) ->
  if (length (string_ r) <? STRING_SIZE)%nat
  then runs (st (len pre) q k r b) (st (len (pre ++ [c])) [basic_string_contents] [] (set_string_ (string_ r ++ [d]) r) b)
  else ends (st (len pre) q k r b) (inl OutOfBounds).
Proof.
  intros E Htr Hacts. destruct (_ <? _)%nat eqn:Er.
  - eapply eat; [exact E|exact Htr|]. right.
    destruct Hacts as [(-> & -> & ->)|(-> & ->)]; simpl; unfold put; simpl; by rewrite Er.
  - eapply stop; [exact E|exact Htr|]. destruct Hacts as [(-> & -> & ->)|(-> & ->)]; simpl; unfold put; simpl; by rewrite Er.
Qed.

Lemma run_piece b x pre l r : text = pre ++ piece_text x ++ l -> piece_ok x = true ->
  if (length (string_ r) <? STRING_SIZE)%nat
  then runs (st (len pre) [basic_string_contents] [] r b)
         (st (len (pre ++ piece_text x)) [basic_string_contents] [] (set_string_ (string_ r ++ [piece_byte x]) r) b)
  else ends (st (len pre) [basic_string_contents] [] r b) (inl OutOfBounds).
Proof.
  intros E H. destruct x as [c|c]; simpl in E, H |- *.
  - eapply run_put; [exact E|by apply tr_raw|by left].
  - apply bool_decide_eq_true in H as [d Hd]. rewrite Hd. simpl.
    assert (runs (st (len pre) [basic_string_contents] [] r b) (st (len (pre ++ [BSL])) [str_escape] [[basic_string_contents]] r b)) as Hb
      by (eapply eat; [exact E|apply tr_BSL|right; reflexivity]).
    pose proof (run_put b [[basic_string_contents]] [str_escape] (pre ++ [BSL]) c d l r _ _ ltac:(assoc) (tr_escape _ _ Hd) ltac:(by right)) as Hp.
    destruct (_ <? _)%nat; [|by eapply runs_ends]. rewrite <- app_assoc in Hp. by eapply runs_trans.
Qed.

Lemma run_pieces b : forall ps pre l r, text = pre ++ mjoin (piece_text <$> ps) ++ l -> forallb piece_ok ps = true ->
  (length (string_ r) <= STRING_SIZE)%nat ->
  let x := string_ r ++ (piece_byte <$> ps) in
  if (length x <=? STRING_SIZE)%nat
  then runs (st (len pre) [basic_string_contents] [] r b)
         (st (len (pre ++ mjoin (piece_text <$> ps))) [basic_string_contents] [] (set_string_ x r) b)
  else ends (st (len pre) [basic_string_contents] [] r b) (inl OutOfBounds).
Proof.
  induction ps as [|x ps IH]; intros pre l r E H Hl; simpl in E, H; cbv zeta; cbn [fmap list_fmap mjoin list_join].
  { rewrite !app_nil_r. destruct (Nat.leb_spec (length (string_ r)) STRING_SIZE); [|lia].
    replace (set_string_ (string_ r) r) with r by (by destruct r). apply runs_refl. }
  apply andb_true_iff in H as [Hx Hps]. rewrite <- app_assoc in E.
  pose proof (run_piece b x pre _ r E Hx) as Hp. rewrite (cons_middle (piece_byte x)), (app_assoc (string_ r)), (app_assoc pre).
  destruct (Nat.ltb_spec (length (string_ r)) STRING_SIZE) as [Hlt|Hge].
  - specialize (IH (pre ++ piece_text x) l (set_string_ (string_ r ++ [piece_byte x]) r) ltac:(by rewrite <- app_assoc) Hps).
    cbv zeta in IH. cbn [string_ set_string_] in IH. rewrite length_app in IH at 1. specialize (IH ltac:(simpl; lia)).
    destruct (_ <=? STRING_SIZE)%nat; [|by eapply runs_ends]. eapply runs_trans; [exact Hp|exact IH].
  - rewrite !length_app. simpl. by destruct (Nat.leb_spec (length (string_ r) + 1 + length (piece_byte <$> ps)) STRING_SIZE); [lia|].
Qed.
Lemma piece_first x l : piece_ok x = true -> exists c l', piece_text x ++ l = c :: l' /\ none_of [DQ] c = true.
Proof.
  destruct x as [c|c]; simpl; intros H; eexists _, _; (split; [reflexivity|]); [|done].
  clear -H. by destruct c.
Qed.

Lemma run_str s key root tbl pre l r : text = pre ++ scalar_text (Str s) ++ NL :: l ->
  scalar_ok (Str s) = true -> ctx_ok root tbl ->
  taken (st (len pre) [singular] [] r (bld (NameStr key) root tbl)) (len (pre ++ scalar_text (Str s))) key root tbl
    (scalar_value (Str s)).
Proof.
  cbn [scalar_text scalar_ok scalar_value]. intros E H Hok.
  eapply runs_taken; [eapply eat; [exact E|apply tr_singular_DQ|left; reflexivity]|].
  assert (text = (pre ++ [DQ]) ++ mjoin (piece_text <$> s) ++ DQ :: NL :: l) as E1 by (rewrite E; rewrite <- !app_assoc; done).
  replace (pre ++ [DQ] ++ mjoin (piece_text <$> s) ++ [DQ]) with (((pre ++ [DQ]) ++ mjoin (piece_text <$> s)) ++ [DQ]) by (by rewrite <- !app_assoc).
  destruct s as [|x s].
  { simpl in E1. change (mjoin (piece_text <$> [])) with (@nil byte). rewrite app_nil_r.
    eapply runs_taken; [eapply eat; [exact E1|apply tr_string_DQ|left; reflexivity]|].
    eapply close_held with (r' := set_string_ [] r); [rewrite E1, <- !app_assoc; reflexivity|apply tr_empty_NL|]. close_value Hok. }
  simpl in H. apply andb_true_iff in H as [Hx Hs].
  assert (exists c l', text = (pre ++ [DQ]) ++ c :: l' /\ none_of [DQ] c = true) as (c & l' & Ec & Hc).
  { cbn [fmap list_fmap mjoin list_join] in E1. rewrite <- (app_assoc (piece_text x)) in E1.
    destruct (piece_first x (mjoin (piece_text <$> s) ++ DQ :: NL :: l) Hx) as (c & l' & Hcl & Hc).
    exists c, l'. split; [|done]. rewrite <- Hcl. exact E1. }
  eapply runs_taken; [eapply hold; [exact Ec|by apply tr_string_first|reflexivity]|].
  pose proof (run_pieces (bld (NameStr key) root tbl) (x :: s) (pre ++ [DQ]) (DQ :: NL :: l) (set_string_ [] r) E1
    ltac:(simpl; by rewrite Hx, Hs) ltac:(simpl; lia)) as Hp.
  cbv zeta in Hp. cbn [string_ set_string_] in Hp. rewrite app_nil_l, length_fmap in Hp.
  destruct (Nat.leb_spec STRING_SIZE (length (x :: s))) as [Hge|Hlt]; cbn [taken].
  - destruct (Nat.leb_spec (length (x :: s)) STRING_SIZE); [|exact Hp]. eapply runs_ends; [exact Hp|].
    eapply stop; [by rewrite <- app_assoc|apply tr_string_end|]. cbn [run_acts run_act].
    rewrite (do_saw_string_state _ _ _ _ Hok) by done. cbn [st ps_r string_ set_string_].
    rewrite length_fmap. by destruct (Nat.leb_spec STRING_SIZE (length (x :: s))); [|lia].
  - destruct (Nat.leb_spec (length (x :: s)) STRING_SIZE); [|lia]. eapply runs_stored; [exact Hp|].
    replace (len (((pre ++ [DQ]) ++ mjoin (piece_text <$> x :: s)) ++ [DQ])) with (len ((pre ++ [DQ]) ++ mjoin (piece_text <$> x :: s)) + 1)
      by (rewrite (length_app _ [DQ]); simpl length; lia).
    eapply close; [by rewrite <- app_assoc|apply tr_string_end|lia|]. cbn [run_acts run_act].
    rewrite (do_saw_string_state _ _ _ _ Hok) by done. cbn [st ps_r string_ set_string_].
    rewrite length_fmap. destruct (Nat.leb_spec STRING_SIZE (length (x :: s))); [lia|].
    cbn [fst snd]. by destruct (update_at _ _ _).
Qed.

Lemma value_first v : scalar_ok v = true -> exists c l, scalar_text v = c :: l /\ value_char c = true.
Proof.
  destruct v as [[c|] ds|[]|s]; simpl; intros H; try (by eexists _, _).
  - eexists _, _. split; [reflexivity|]. repeat rewrite andb_true_iff in H. destruct H as [_ H]. clear -H. by destruct c.
  - destruct ds as [|c ds]; [by rewrite andb_false_r in H|]. eexists _, _. split; [reflexivity|].
    simpl in H. repeat rewrite andb_true_iff in H. destruct H as [[[H _] _] _]. unfold value_char. by rewrite H.
Qed.

(** A value, from [val] on. *)
Lemma run_value v key root tbl pre l r : text = pre ++ scalar_text v ++ NL :: l -> scalar_ok v = true -> ctx_ok root tbl ->
  taken (st (len pre) [val] [] r (bld (NameStr key) root tbl)) (len (pre ++ scalar_text v)) key root tbl (scalar_value v).
Proof.
  intros E H Hok. destruct (value_first v H) as (c & l' & Hcl & Hc).
  eapply runs_taken. { eapply hold; [rewrite E, Hcl; reflexivity|by apply tr_val|reflexivity]. }
  destruct v as [sign ds|v|s]; [by eapply run_num|by eapply run_bool|by eapply run_str].
Qed.
(** ** Keys *)

Lemma run_key b k pre l r : text = pre ++ k ++ SP :: l -> forallb bare k = true -> k <> [] ->
  exists r', runs (st (len pre) [start] [] r b) (st (len (pre ++ k ++ [SP])) [K_name_ws] [] r' b) /\
    ts r' = len pre /\ namelen r' = len k - 1.
Proof.
  intros E Hk Hne. destruct k as [|c k]; [done|]. simpl in E, Hk. apply andb_true_iff in Hk as [Hc Hk].
  destruct (eat_while (fun q r => ts r = len pre /\ namelen r = len q - 1 - len pre) bare [K_name] [] b) with
    (w := k) (pre := pre ++ [c]) (l := SP :: l) (r := set_namelen (len pre - len pre - 0) (set_ts (len pre) (set_in_text true r)))
    as (r' & Hr' & Ht & Hn); [|assoc|done| |].
  { clear. intros q c l r E Hc [Ht Hn]. eexists. split; [eapply eat; [exact E|by apply tr_K_name|left; reflexivity]|].
    simpl. rewrite length_app. simpl. split; [done|]. rewrite Ht. lia. }
  { simpl. rewrite length_app. simpl. split; [done|lia]. }
  exists r'. split; [|split; [done|rewrite Hn, !length_app; simpl; lia]].
  eapply runs_trans; [eapply hold; [exact E|by apply tr_start_bare|reflexivity]|].
  eapply runs_trans; [eapply hold; [exact E|by apply tr_text_bare|reflexivity]|].
  eapply runs_trans; [eapply eat; [exact E|by apply tr_key|left; reflexivity]|].
  eapply runs_trans; [exact Hr'|]. replace (pre ++ (c :: k) ++ [SP]) with (((pre ++ [c]) ++ k) ++ [SP]) by assoc.
  eapply eat; [assoc|apply tr_K_name_SP|left; reflexivity].
Qed.

Lemma drop_here (w l : bytes) : drop (length w) (w ++ l) = l.
Proof. by rewrite drop_app_le, drop_all by lia. Qed.

Lemma strncmp_key k : forall a pre l, text = pre ++ k ++ l -> forallb bare k = true ->
  strncmp_eq buf (length k) a (len pre) = inr (bool_decide (take (length k) a = k)).
Proof.
  induction k as [|c k IH]; intros a pre l E Hk; [done|]. simpl in Hk. apply andb_true_iff in Hk as [Hc Hk].
  cbn [strncmp_eq length]. rewrite (char_here pre c (k ++ l)) by done. destruct a as [|d a]; simpl.
  { rewrite (bool_decide_false (c = x00)) by (by intros ->). done. }
  case_bool_decide as Hd.
  - subst d. replace (len pre + 1) with (len (pre ++ [c])) by (rewrite length_app; simpl; lia).
    rewrite (IH a (pre ++ [c]) l) by (done || assoc). f_equal. apply bool_decide_ext. naive_solver congruence.
  - rewrite bool_decide_false; [done|]. naive_solver.
Qed.

Lemma dup_key_begins k pre l ns : text = pre ++ k ++ l -> forallb bare k = true ->
  dup_key buf ns (len pre) (length k) = inr (existsb (begins k) ns).
Proof.
  intros E Hk. induction ns as [|n ns IH]; simpl; [done|]. unfold begins at 1. destruct (n_name n) as [a|]; [|done].
  rewrite (strncmp_key k a pre l E Hk). by case_bool_decide.
Qed.

Lemma bare_no_nul k : forallb bare k = true -> upto_nul k = k.
Proof.
  induction k as [|c k IH]; simpl; [done|]. intros H. apply andb_true_iff in H as [Hc Hk].
  rewrite bool_decide_false by (by intros ->). by rewrite IH.
Qed.

Lemma text_here k pre l : text = pre ++ k ++ l -> upto_nul k = k -> text_at buf (len pre) (len k) = k.
Proof.
  intros E Hk. unfold text_at. rewrite !Nat2Z.id, E, <- !app_assoc, drop_here, take_app_le, take_ge by lia. done.
Qed.

Lemma trim_key k pre l : text = pre ++ k ++ l -> forallb bare k = true -> k <> [] ->
  trim buf (Z.to_nat (len pre + (len k - 1))) = Some (len pre + (len k - 1)).
Proof.
  intros E Hk Hne. destruct (last k) as [c|] eqn:El; [|by apply last_None in El].
  apply last_Some in El as [k' ->]. rewrite length_app. simpl.
  replace (Z.to_nat (len pre + (Z.of_nat (length k' + 1) - 1))) with (length pre + length k')%nat by lia.
  assert (buf !! (length pre + length k')%nat = Some c) as Hc.
  { rewrite E, <- !app_assoc, lookup_app_r, lookup_app_r by lia. by replace (_ - _ - _)%nat with 0%nat by lia. }
  rewrite forallb_app in Hk. simpl in Hk. repeat rewrite andb_true_iff in Hk. destruct Hk as (_ & Hk & _).
  assert (one_of whitespace c = false) as Hw by (clear -Hk; by destruct c).
  destruct (length pre + length k')%nat as [|n] eqn:En; cbn [trim]; rewrite Hc, Hw; f_equal; lia.
Qed.

Lemma do_saw_key_state s nm root tbl k pre l : text = pre ++ k ++ l -> forallb bare k = true -> k <> [] ->
  ctx_ok root tbl -> ps_b s = bld nm root tbl -> ts (ps_r s) = len pre -> namelen (ps_r s) = len k - 1 ->
  do_saw_key buf s =
    match node_at root (place tbl) with
    | None => ABad NullDeref
    | Some n =>
        match map_items n with
        | inl f => ABad f
        | inr ns => if existsb (begins k) ns then failed s
                    else AGo (mk_pst (ps_m s) (set_namelen (len k - 1) (ps_r s)) (bld (NameStr k) root tbl))
        end
    end.
Proof.
  intros E Hk Hne Hok Hb Ht Hn. destruct s as [[i q st] r b]. simpl in Hb, Ht, Hn. subst b.
  unfold do_saw_key. rewrite with_context_bld. destruct (node_at root (place tbl)) as [n|] eqn:En; [|done].
  cbn [ps_r ps_m ps_b]. rewrite Ht, Hn. replace (Z.to_nat (len k - 1 + 1)) with (length k) by lia.
  rewrite (trim_key k pre l E Hk Hne).
  assert (forall X Y : ares, match map_items n with
    | inl e => ABad e
    | inr ns => match dup_key buf ns (len pre) (length k) with inl e => ABad e | inr true => X | inr false => Y end end =
    match map_items n with inl f => ABad f | inr ns => if existsb (begins k) ns then X else Y end) as Hd.
  { intros X Y. destruct (map_items n); [done|]. rewrite (dup_key_begins k pre l _ E Hk). by destruct (existsb _ _). }
  cbn [malloc alloc bld]. replace (len pre + (len k - 1) - len pre + 1) with (len k) by lia.
  rewrite (text_here k pre l E (bare_no_nul k Hk)). replace (len pre + (len k - 1) - len pre) with (len k - 1) by lia.
  destruct (ctx_type _ _ _ Hok En) as [-> | ->]; rewrite Hd; done.
Qed.
(** ** Lines *)

(** What the machine makes of a line, where it is at [s] before and at place [j]
    after it. *)
Definition meant (s : pst) (j : Z) (m : meaning) : Prop :=
  match m with
  | Fault_ f => ends s (inl f)
  | Refused root => exists s', ends s (inr s') /\ toml_root (ps_b s') = root /\ parse_error (ps_b s') = true /\ malloc_error (ps_b s') = false
  | Next root tbl => ctx_ok root tbl /\ exists r nm, runs s (st j [start] [] r (bld nm root tbl)) /\ in_text r = false
  end.

Lemma runs_meant s s' j m : runs s s' -> meant s' j m -> meant s j m.
Proof.
  intros H. destruct m as [f|root|root tbl]; simpl.
  - by apply runs_ends.
  - intros (s1 & Hs & Hr). exists s1. split; [by eapply runs_ends|done].
  - intros (Hok & r & nm & Hr & Ht). split; [done|]. exists r, nm. split; [by eapply runs_trans|done].
Qed.

Lemma run_entry k v nm root tbl pre l r : text = pre ++ content_text (Entry k v) ++ NL :: l ->
  content_ok (Entry k v) = true -> ctx_ok root tbl ->
  meant (st (len pre) [start] [] r (bld nm root tbl)) (len (pre ++ content_text (Entry k v) ++ [NL])) (interp_content root tbl (Entry k v)).
Proof.
  cbn [content_text content_ok interp_content]. intros E H Hok. repeat rewrite andb_true_iff in H. destruct H as [[Hk Hne] Hv].
  apply negb_true_iff, bool_decide_eq_false in Hne. change (lit " = ") with [SP; "="%byte; SP] in E |- *.
  rewrite <- app_assoc in E. simpl in E.
  destruct (run_key (bld nm root tbl) k pre _ r E Hk Hne) as (r1 & Hr1 & Ht & Hn). eapply runs_meant; [exact Hr1|].
  assert (text = (pre ++ k ++ [SP]) ++ "="%byte :: SP :: scalar_text v ++ NL :: l) as E1 by (rewrite E, <- !app_assoc; done).
  pose proof (fun i q => do_saw_key_state (mk_pst (mk_mach i q []) r1 (bld nm root tbl)) nm root tbl k pre _ E Hk Hne Hok eq_refl Ht Hn) as Hsaw.
  destruct (node_at root (place tbl)) as [n|]; [|eapply stop; [exact E1|apply tr_K_name_eq|]; cbn [run_acts run_act]; unfold st; by rewrite Hsaw].
  destruct (map_items n) as [f|ns]; [eapply stop; [exact E1|apply tr_K_name_eq|]; cbn [run_acts run_act]; unfold st; by rewrite Hsaw|].
  destruct (existsb (begins k) ns).
  { eexists. split; [eapply stop; [exact E1|apply tr_K_name_eq|]; cbn [run_acts run_act]; unfold st; rewrite Hsaw; reflexivity|]. done. }
  eapply runs_meant; [eapply eat; [exact E1|apply tr_K_name_eq|left; cbn [run_acts run_act]; unfold st; rewrite Hsaw; reflexivity]|].
  assert (text = ((pre ++ k ++ [SP]) ++ ["="%byte]) ++ SP :: scalar_text v ++ NL :: l) as E2 by (rewrite E, <- !app_assoc; done).
  eapply runs_meant; [eapply eat; [exact E2|apply tr_val_SP|right; reflexivity]|].
  set (pre' := ((pre ++ k ++ [SP]) ++ ["="%byte]) ++ [SP]).
  assert (text = pre' ++ scalar_text v ++ NL :: l) as E3 by (unfold pre'; rewrite E, <- !app_assoc; done).
  pose proof (run_value v k root tbl pre' l (set_namelen (len k - 1) r1) E3 Hv Hok) as Hval.
  destruct (scalar_value v) as [f|[ty x]]; [exact Hval|]. simpl in Hval. unfold stored in Hval. cbn [fst snd] in Hval.
  destruct (update_at _ _ _) as [f|t] eqn:Et; [exact Hval|]. destruct Hval as [r2 Hr2].
  split; [by eapply ctx_ok_add|]. destruct (run_NL (bld (NameStr k) t tbl) (pre' ++ scalar_text v) l r2) as (r3 & Hr3 & Hin); [by rewrite <- app_assoc|].
  exists r3, (NameStr k). split; [|done]. replace (pre ++ (k ++ [SP; "="%byte; SP] ++ scalar_text v) ++ [NL]) with ((pre' ++ scalar_text v) ++ [NL])
    by (unfold pre'; rewrite <- !app_assoc; done).
  by eapply runs_trans.
Qed.
Lemma do_saw_table_state s nm root tbl name pre l : text = pre ++ name ++ l -> upto_nul name = name -> ctx_ok root tbl ->
  ps_b s = bld nm root tbl -> ts (ps_r s) = len pre -> p (ps_m s) = len (pre ++ name) ->
  do_saw_table buf s =
    match SawTable root name with
    | inl f => ABad f
    | inr (code, t, Some path) =>
        if code =? 0 then AGo (mk_pst (ps_m s) (ps_r s) (bld nm t (Some path))) else failed (mk_pst (ps_m s) (ps_r s) (bld nm t None))
    | inr (_, t, None) => failed (mk_pst (ps_m s) (ps_r s) (bld nm t None))
    end.
Proof.
  intros E Hn Hok Hb Ht Hp. destruct s as [[i q st] r b]. simpl in Hb, Ht, Hp. subst b.
  unfold do_saw_table, saw_header, drop_table. rewrite with_context_bld.
  destruct (node_at root (place tbl)) as [n|] eqn:En.
  2: { destruct Hok as [_ H2]. destruct tbl as [path|]; [|done]. destruct H2 as (? & ? & _). simpl in En. congruence. }
  assert ((if bool_decide (n_type n = TOML_TABLE) then POP_CONTEXT (mk_pst (mk_mach i q st) r (bld nm root tbl))
           else mk_pst (mk_mach i q st) r (bld nm root tbl)) = mk_pst (mk_mach i q st) r (bld nm root None)) as ->.
  { destruct Hok as [H1 H2]. destruct tbl as [path|]; simpl in En.
    - destruct H2 as (m & Hm & Hty). rewrite bool_decide_true by congruence. done.
    - injection En as <-. by rewrite bool_decide_false by congruence. }
  cbn [malloc alloc bld ps_b ps_m ps_r p negb upd_b toml_root]. rewrite Ht, Hp, length_app.
  replace (Z.of_nat (length pre + length name) - len pre) with (len name) by lia.
  rewrite (text_here name pre l E Hn). destruct (SawTable root name) as [|[[code t] [path|]]]; done.
Qed.

Lemma header_no_nul k : forallb header_char k = true -> upto_nul k = k.
Proof.
  induction k as [|c k IH]; simpl; [done|]. intros H. apply andb_true_iff in H as [Hc Hk].
  rewrite bool_decide_false by (by intros ->). by rewrite IH.
Qed.

Lemma run_header n nm root tbl pre l r : text = pre ++ content_text (Header n) ++ NL :: l ->
  content_ok (Header n) = true -> ctx_ok root tbl ->
  meant (st (len pre) [start] [] r (bld nm root tbl)) (len (pre ++ content_text (Header n) ++ [NL])) (interp_content root tbl (Header n)).
Proof.
  cbn [content_text content_ok interp_content]. intros E H Hok. apply andb_true_iff in H as [Hn Hne].
  apply negb_true_iff, bool_decide_eq_false in Hne. rewrite <- !app_assoc in E. simpl in E.
  assert (text = (pre ++ ["["%byte]) ++ n ++ "]"%byte :: NL :: l) as E1 by (rewrite E, <- !app_assoc; done).
  eapply runs_meant; [eapply hold; [exact E|apply tr_start_bracket|reflexivity]|].
  eapply runs_meant; [eapply eat; [exact E|apply tr_text_bracket|left; reflexivity]|].
  set (pre1 := pre ++ ["["%byte]) in *. set (b := bld nm root tbl).
  assert (exists r', runs (st (len pre1) [table] [] (set_in_text true r) b) (st (len (pre1 ++ n)) [T_name] [] r' b) /\ ts r' = len pre1)
    as (r1 & Hr1 & Ht).
  { destruct n as [|c n]; [done|]. simpl in Hn. apply andb_true_iff in Hn as [Hc Hn].
    destruct (eat_while (fun _ r => ts r = len pre1) header_char [T_name] [] b) with
      (w := n) (pre := pre1 ++ [c]) (l := "]"%byte :: NL :: l) (r := set_ts (len pre1) (set_in_text true r)) as (r' & Hr' & Ht);
      [|rewrite E1, <- app_assoc; done|done|done|].
    { clear. intros q c l r E Hc Ht. exists r. split; [|done]. eapply eat; [exact E|by apply tr_T_name|left; reflexivity]. }
    rewrite <- app_assoc in Hr'. exists r'. split; [|done]. eapply runs_trans; [|exact Hr'].
    eapply eat; [exact E1|by apply tr_table|left; reflexivity]. }
  eapply runs_meant; [exact Hr1|].
  assert (text = (pre1 ++ n) ++ "]"%byte :: NL :: l) as E2 by (rewrite E1, <- app_assoc; done).
  pose proof (fun q => do_saw_table_state (mk_pst (mk_mach (len (pre1 ++ n)) q []) r1 b) nm root tbl n pre1 _ E1
    (header_no_nul n Hn) Hok eq_refl Ht eq_refl) as Hsaw.
  destruct (SawTable root n) as [f|[[code t] [path|]]] eqn:Es.
  - eapply stop; [exact E2|apply tr_T_name_end|]; cbn [run_acts run_act]; unfold st; by rewrite Hsaw.
  - destruct (code =? 0).
    2: { eexists. split; [eapply stop; [exact E2|apply tr_T_name_end|]; cbn [run_acts run_act]; unfold st; rewrite Hsaw; reflexivity|]. done. }
    split; [eapply ctx_ok_header; [apply Hok|exact Es]|].
    destruct (run_NL (bld nm t (Some path)) ((pre1 ++ n) ++ ["]"%byte]) l r1) as (r3 & Hr3 & Hin); [rewrite E2, <- !app_assoc; done|].
    exists r3, nm. split; [|done]. replace (pre ++ (["["%byte] ++ n ++ ["]"%byte]) ++ [NL]) with (((pre1 ++ n) ++ ["]"%byte]) ++ [NL])
      by (unfold pre1; rewrite <- !app_assoc; done).
    eapply runs_trans; [|exact Hr3]. eapply eat; [exact E2|apply tr_T_name_end|left; cbn [run_acts run_act]; unfold st; rewrite Hsaw; reflexivity].
  - eexists. split; [eapply stop; [exact E2|apply tr_T_name_end|]; cbn [run_acts run_act]; unfold st; rewrite Hsaw; reflexivity|]. done.
Qed.

Lemma run_line x nm root tbl pre l r : text = pre ++ line_text x ++ l -> line_ok x = true -> ctx_ok root tbl -> in_text r = false ->
  meant (st (len pre) [start] [] r (bld nm root tbl)) (len (pre ++ line_text x)) (interp_content root tbl (what x)).
Proof.
  destruct x as [w c]. unfold line_text, line_ok. cbn [indent what]. intros E H Hok Hr. apply andb_true_iff in H as [Hw Hc].
  rewrite <- !app_assoc in E. destruct (run_blanks (bld nm root tbl) w pre _ r E Hw Hr) as (r1 & Hr1 & Hin).
  eapply runs_meant; [exact Hr1|]. rewrite app_assoc.
  assert (text = (pre ++ w) ++ content_text c ++ NL :: l) as E1 by (rewrite E, <- !app_assoc; done).
  destruct c as [|t|n|k v]; [|simpl|by eapply run_header|by eapply run_entry].
  - split; [done|]. destruct (run_NL (bld nm root tbl) (pre ++ w) l r1 E1) as (r2 & Hr2 & Hin2). by exists r2, nm.
  - split; [done|]. destruct (run_comment (bld nm root tbl) t (pre ++ w) l r1 E1 Hc) as (r2 & Hr2 & Hin2). by exists r2, nm.
Qed.

(** All lines, and the character after them. *)
Lemma run_text : forall ls nm root tbl pre r, text = pre ++ text_of ls -> forallb line_ok ls = true -> ctx_ok root tbl -> in_text r = false ->
  match interp root tbl ls with
  | inl f => ends (st (len pre) [start] [] r (bld nm root tbl)) (inl f)
  | inr (code, t) => exists s, ends (st (len pre) [start] [] r (bld nm root tbl)) (inr s) /\ verdict pe s = code /\ toml_root (ps_b s) = t
  end.
Proof.
  induction ls as [|x ls IH]; intros nm root tbl pre r E H Hok Hr; cbn [interp].
  - cbn in E. rewrite app_nil_r in E. subst pre.
    exists (st (len text + 1) [start] [] (set_in_text false r) (bld nm root tbl)). split; [|split; [|done]].
    + apply step_ends. unfold Rl.step, char_at. simpl. destruct (Z.ltb_spec (len text) 0); [lia|].
      rewrite Nat2Z.id, lookup_app_r, Nat.sub_diag by lia. reflexivity.
    + unfold verdict. simpl. by rewrite Z.eqb_refl.
  - simpl in E, H. apply andb_true_iff in H as [Hx Hls].
    pose proof (run_line x nm root tbl pre (text_of ls) r E Hx Hok Hr) as Hl.
    destruct (interp_content root tbl (what x)) as [f|t|t tbl'].
    + exact Hl.
    + destruct Hl as (s & Hs & Ht & Hp & Hm). exists s. split; [done|]. split; [|done]. unfold verdict. by rewrite Hm, Hp.
    + destruct Hl as (Hok' & r' & nm' & Hrun & Hin).
      specialize (IH nm' t tbl' (pre ++ line_text x) r' ltac:(rewrite <- app_assoc; exact E) Hls Hok' Hin).
      destruct (interp t tbl' ls) as [f|[code t']]; [by eapply runs_ends|].
      destruct IH as (s & Hs & Hv & Ht). exists s. split; [by eapply runs_ends|done].
Qed.
End text.

Lemma toml_parse_text strtod more ls : forallb line_ok ls = true ->
  exists rounds, forall fuel, (rounds <= fuel)%nat ->
    toml_parse strtod [] fuel toml_init (text_of ls ++ x00 :: more) (length (text_of ls)) = Some (interp toml_init None ls).
Proof.
  intros H.
  pose proof (run_text strtod (text_of ls) more ls NameNull toml_init None [] regs0 eq_refl H ltac:(done) eq_refl) as Hrun.
  unfold toml_parse. simpl. change (init _) with (st (Z.of_nat (length (@nil byte))) [start] [] regs0 (bld NameNull toml_init None)).
  destruct (interp toml_init None ls) as [f|[code t]].
  - destruct Hrun as [n Hn]. exists n. intros fuel Hf. specialize (Hn (fuel - n)%nat).
    replace (n + (fuel - n))%nat with fuel in Hn by lia. by rewrite Hn.
  - destruct Hrun as (s & [n Hn] & Hv & Ht). exists n. intros fuel Hf. specialize (Hn (fuel - n)%nat).
    replace (n + (fuel - n))%nat with fuel in Hn by lia. by rewrite Hn, Hv, Ht.
Qed.

(** C24: the parser implements the meaning of the lines.  For every sequence of
    blank lines, comments, table headers and keys with numbers, truth values or
    strings, enough rounds of the machine on the printed text give exactly what
    [interp] says of the lines: the code 0 with the tree, the code 1 with the tree
    so far at the first header or key that is refused, or the undefined behaviour
    of the first value that does not fit. *)
Theorem toml_parse_lines (strtod : bytes -> Z) (more : bytes) (ls : list line) (H : forallb line_ok ls = true) :
  exists rounds, forall fuel, (rounds <= fuel)%nat ->
    toml_parse strtod [] fuel toml_init (text_of ls ++ x00 :: more) (length (text_of ls)) = Some (interp toml_init None ls).
Proof. by apply toml_parse_text. Qed.

(** A few lines as in pmilter.conf. *)
Definition sample_lines : list line :=
  [mk_line [] (Header (lit "server"));
   mk_line [SP; SP] (Comment (lit " hoge.sock or ipaddree:port"));
   mk_line [SP; SP] (Entry (lit "listen") (Str (Raw <$> lit "pmilter.sock")));
   mk_line [SP; SP] (Entry (lit "timeout") (Num None (lit "7210")));
   mk_line [] Blank;
   mk_line [TAB] (Header (lit "handler.config"));
   mk_line [TAB] (Entry (lit "enabled") (Bool true))].

Definition sample_tree : toml_node :=
  mk_node TOML_ROOT None (VItems [
    mk_node TOML_TABLE (Some (lit "server")) (VItems [
      mk_node TOML_STRING (Some (lit "listen")) (VString (lit "pmilter.sock"));
      mk_node TOML_INT (Some (lit "timeout")) (VInteger 7210)]);
    mk_node TOML_TABLE (Some (lit "handler")) (VItems [
      mk_node TOML_TABLE (Some (lit "config")) (VItems [mk_node TOML_BOOLEAN (Some (lit "enabled")) (VInteger 1)])])]).

Lemma toml_parse_lines_witness :
  forallb line_ok sample_lines = true /\
  exists rounds, forall fuel, (rounds <= fuel)%nat ->
    toml_parse (fun _ => 0) [] fuel toml_init (text_of sample_lines ++ [x00]) (length (text_of sample_lines)) = Some (inr (0, sample_tree)).
Proof.
  split; [reflexivity|]. exact (toml_parse_lines (fun _ => 0) [] sample_lines eq_refl).
Defined.
