(* ===== verification/TomlLookup.v ===== *)
(** * Values of a configuration file and [toml_get]

    The tree of a file that is accepted holds exactly the file's values: what
    [toml_get] finds under a dotted key is the value of the line with that key. *)

From stdpp Require Import base option numbers strings list.
From Stdlib Require Import Strings.Byte ZArith Lia.
From S2P Require Import Prelude Utils Toml TomlParse TomlText.
Import Rl.
Local Open Scope Z_scope.

(** The values of the lines: the dotted key, the key itself, and the value. *)
Fixpoint entries (header : option bytes) (ls : list line) : list (bytes * (bytes * scalar)) :=
  match ls with
  | [] => []
  | l :: r =>
      match what l with
      | Header n => entries (Some n) r
      | Entry k v => (match header with None => k | Some n => n ++ ["."%byte] ++ k end, (k, v)) :: entries header r
      | _ => entries header r
      end
  end.

(** ** Paths and names *)

(** The path [toml_get] takes for a name. *)
Fixpoint follows (n : toml_node) (segs : list bytes) (path : list nat) : Prop :=
  match segs, path with
  | [], [] => True
  | a :: segs, i :: path => exists l m, map_items n = inr l /\ find_item a l = Some (i, m) /\ follows m segs path
  | _, _ => False
  end.

Lemma saw_loop_follows anc : forall place n q t added, saw_loop anc place = inr (SawAt n q t added) -> follows n anc q.
Proof.
  induction anc as [|a anc IH]; intros place n q t added; cbn [saw_loop]; [by intros [= <- <- <- <-]|].
  case_decide as Ha; [done|]. destruct (map_items place) as [f|l] eqn:El; [done|].
  pose proof (map_items_inr _ _ El) as [_ Hu].
  destruct (match find_item a l with Some _ => _ | None => _ end) as [[[i item] l'] new] eqn:E.
  destruct (saw_step _ _ _ _ _ _ E) as (Hi & Hna & Hfind & _ & Hus & _).
  destruct (saw_loop anc item) as [f|s] eqn:Es; [done|]. pose proof (proj1 (saw_loop_spec _ _ _ Es)) as Hname.
  destruct s as [n' q' t' added'|n']; intros [= <- <- <- <-]. simpl in Hname.
  exists (<[i := n']> l'), n'. split; [|split; [|by eapply IH]].
  - rewrite map_items_with, unset_insert; [done|auto|]. apply (named_set _ a). congruence.
  - rewrite (find_item_insert a l' i item), Hfind by congruence. simpl. by rewrite decide_True.
Qed.

(** Values below a node are the same in two nodes. *)
Definition same_leaves (n n' : toml_node) : Prop :=
  forall q m, leaf m -> get_loop n q = inr (Some m) <-> get_loop n' q = inr (Some m).

(** A list whose items were replaced by, or are followed by, nodes. *)
Lemma get_loop_items n l b q : map_items n = inr l ->
  get_loop n (b :: q) = match find_item b l with Some (_, x) => get_loop x q | None => inr None end.
Proof. intros H. cbn [get_loop]. by rewrite H. Qed.

Lemma leaf_items n l : leaf n -> items n = inr l -> False.
Proof. intros [f Hf] H. congruence. Qed.

Lemma saw_loop_leaves anc : forall place s, saw_loop anc place = inr s -> same_leaves place (saw_node s).
Proof.
  induction anc as [|a anc IH]; intros place s; cbn [saw_loop]; [by intros [= <-]|].
  case_decide as Ha; [by intros [= <-]|]. destruct (map_items place) as [f|l] eqn:El; [done|].
  pose proof (map_items_inr _ _ El) as [El0 Hu].
  destruct (match find_item a l with Some _ => _ | None => _ end) as [[[i item] l'] new] eqn:E.
  destruct (saw_step _ _ _ _ _ _ E) as (Hi & Hna & Hfind & Hmono & Hus & Hnew).
  destruct (saw_loop anc item) as [f|s'] eqn:Es; [done|]. pose proof (proj1 (saw_loop_spec _ _ _ Es)) as Hname.
  specialize (IH item s' Es).
  assert (map_items (with_items place (<[i := saw_node s']> l')) = inr (<[i := saw_node s']> l')) as Hmi.
  { rewrite map_items_with, unset_insert; [done|auto|]. apply (named_set _ a). congruence. }
  assert (same_leaves place (with_items place (<[i := saw_node s']> l'))) as Hsame.
  { intros [|b q] m Hm.
    - simpl. split; intros [= <-]; exfalso; by eapply leaf_items.
    - rewrite (get_loop_items _ _ _ _ El), (get_loop_items _ _ _ _ Hmi), (find_item_insert b l' i item) by congruence.
      destruct (find_item b l) as [[j x]|] eqn:Eb.
      + rewrite (Hmono _ _ _ Eb). simpl. case_decide as Hj; [|done]. subst j. apply Hmono, find_item_name in Eb as [Eb _].
        simplify_eq. by apply IH.
      + split; [done|]. destruct (find_item a l) as [[i0 x0]|] eqn:Ea; injection E as <- <- <- <-; [by rewrite Eb|].
        rewrite find_item_snoc by done. case_decide as Hab; [|done]. simpl. rewrite decide_True by done. intros Hg.
        apply IH in Hg; [|done]. rewrite get_loop_new in Hg. case_decide; [|done]. injection Hg as <-. by destruct Hm. }
  destruct s' as [n q t added|n]; intros [= <-]; exact Hsame.
Qed.

(** An item added at the end of a node's items. *)
Lemma add_tail_leaves x n n' l k : map_items n = inr l -> find_item k l = None -> n_name x = Some k -> leaf x ->
  add_tail x n = inr n' ->
  map_items n' = inr (l ++ [x]) /\
  (forall q m, leaf m -> get_loop n' q = inr (Some m) <-> get_loop n q = inr (Some m) \/ q = [k] /\ m = x).
Proof.
  intros El Hk Hx Hleaf H. pose proof (map_items_inr _ _ El) as [El0 Hu]. unfold add_tail in H. rewrite El0 in H. injection H as <-.
  assert (map_items (with_items n (l ++ [x])) = inr (l ++ [x])) as Hmi.
  { rewrite map_items_with, unset_snoc; [done|done|]. by apply (named_set _ k). }
  split; [exact Hmi|]. intros [|b q] m Hm.
  - simpl. split; [intros [= <-]; exfalso; by eapply leaf_items|]. intros [[= <-]|[? _]]; [exfalso; by eapply leaf_items|done].
  - rewrite (get_loop_items _ _ _ _ Hmi), (get_loop_items _ _ _ _ El). destruct (find_item b l) as [[j y]|] eqn:Eb.
    + rewrite (find_item_app _ _ _ _ _ Eb). split; [by left|]. intros [?|[[= -> ->] _]]; [done|congruence].
    + rewrite (find_item_snoc _ _ _ Eb), Hx. case_decide as Hb.
      * injection Hb as ->. split.
        -- intros H. right. destruct q as [|c q]; [by injection H as ->|]. cbn [get_loop] in H.
           destruct Hleaf as [f Hf]. unfold map_items in H. by rewrite Hf in H.
        -- intros [?|[[= ->] ->]]; done.
      * split; [done|]. intros [?|[[= ->] _]]; [done|congruence].
Qed.

(** The item added at the end of a path. *)
Lemma update_at_leaves x k segs : forall path n n' m l, follows n segs path -> update_at path (add_tail x) n = inr n' ->
  node_at n path = Some m -> map_items m = inr l -> find_item k l = None -> n_name x = Some k -> leaf x ->
  follows n' segs path /\
  (forall q y, leaf y -> get_loop n' q = inr (Some y) <-> get_loop n q = inr (Some y) \/ q = segs ++ [k] /\ y = x).
Proof.
  induction segs as [|a segs IH]; intros [|i path] n n' m l Hf H Hm Hl Hk Hx Hleaf; try done.
  - injection Hm as ->. split; [done|]. by destruct (add_tail_leaves x m n' l k).
  - destruct Hf as (li & c & Hli & Hc & Hf). pose proof (map_items_inr _ _ Hli) as [Hli0 Hu].
    destruct (find_item_name _ _ _ _ Hc) as [Hci Hca]. cbn [update_at] in H. rewrite Hli0, Hci in H.
    destruct (update_at path (add_tail x) c) as [|c'] eqn:Ec; [done|]. injection H as <-.
    assert (node_at c path = Some m) as Hm'. { unfold items in Hli0. cbn [node_at] in Hm. destruct (n_value n); simplify_eq. by rewrite Hci in Hm. }
    destruct (IH path c c' m l Hf Ec Hm' Hl Hk Hx Hleaf) as [Hf' Hg].
    assert (n_name c' = n_name c) as Hname.
    { destruct (update_at_node _ _ _ _ Ec) as (c0 & c1 & Hc0 & Hc1 & Hc2 & Hsame). destruct path as [|j path]; [|by apply Hsame].
      simpl in Hc0, Hc2. simplify_eq. by destruct (add_tail_same _ _ _ Hc1). }
    assert (map_items (with_items n (<[i := c']> li)) = inr (<[i := c']> li)) as Hmi.
    { rewrite map_items_with, unset_insert; [done|done|]. apply (named_set _ a). congruence. }
    split.
    { exists (<[i := c']> li), c'. split; [exact Hmi|]. split; [|done].
      rewrite (find_item_insert a li i c), Hc by done. simpl. by rewrite decide_True. }
    intros [|b q] y Hy.
    + simpl. split; [intros [= <-]; exfalso; by eapply leaf_items|]. intros [[= <-]|[? _]]; [exfalso; by eapply leaf_items|done].
    + rewrite (get_loop_items _ _ _ _ Hmi), (get_loop_items _ _ _ _ Hli), (find_item_insert b li i c) by done.
      destruct (find_item b li) as [[j z]|] eqn:Eb; simpl.
      * case_decide as Hj.
        -- subst j. destruct (find_item_name _ _ _ _ Eb) as [Hz Hzb]. simplify_eq.
           rewrite (Hg q y Hy). split; (intros [?|[Hq ->]]; [by left|right]); [by rewrite Hq|by injection Hq as ->].
        -- split; [by left|]. intros [?|[[= -> ->] _]]; [done|congruence].
      * split; [done|]. intros [?|[[= -> ->] _]]; [done|congruence].
Qed.

(** ** Dotted keys *)

Lemma strsep_dot_ne s : strsep_dot s <> [].
Proof. destruct s as [|c s]; simpl; [done|]. case_decide; [done|]. by destruct (strsep_dot s). Qed.

Lemma strsep_dot_bare k : forallb bare k = true -> strsep_dot k = [k].
Proof.
  induction k as [|c k IH]; simpl; [done|]. intros H. apply andb_true_iff in H as [Hc Hk].
  rewrite decide_False by (by intros ->). by rewrite IH.
Qed.

Lemma strsep_dot_join n k : forallb bare k = true -> strsep_dot (n ++ ["."%byte] ++ k) = strsep_dot n ++ [k].
Proof.
  intros Hk. induction n as [|c n IH]; simpl in *; [by rewrite strsep_dot_bare|]. rewrite IH. case_decide; [done|].
  pose proof (strsep_dot_ne n). by destruct (strsep_dot n).
Qed.

Lemma strsep_dot_inj s : forall t, strsep_dot s = strsep_dot t -> s = t.
Proof.
  induction s as [|c s IH]; intros [|d t]; simpl; [done| | |].
  - case_decide; [intros [= E]; by destruct (strsep_dot_ne t)|]. by destruct (strsep_dot t).
  - case_decide; [intros [= E]; by destruct (strsep_dot_ne s)|]. by destruct (strsep_dot s).
  - pose proof (strsep_dot_ne s) as Hs. pose proof (strsep_dot_ne t) as Ht.
    repeat case_decide; [intros [= E]; subst; f_equal; auto|by destruct (strsep_dot t)|by destruct (strsep_dot s)|].
    destruct (strsep_dot s) as [|x xs] eqn:Es, (strsep_dot t) as [|y ys] eqn:Et; try done. intros [= -> -> ->].
    f_equal. by apply IH.
Qed.

(** ** The values of the lines *)

Definition segs (header : option bytes) : list bytes := match header with None => [] | Some n => strsep_dot n end.

(** A line with this key, whose value is this node. *)
Definition holds (header : option bytes) (ls : list line) (key : bytes) (m : toml_node) : Prop :=
  exists k v ty x, (key, (k, v)) ∈ entries header ls /\ scalar_value v = inr (ty, x) /\ m = mk_node ty (Some k) x.

Lemma begins_find k l : existsb (begins k) l = false -> find_item k l = None.
Proof.
  intros H. apply list_find_None, Forall_forall. intros n Hn Hk.
  assert (existsb (begins k) l = true) as E; [|congruence].
  apply existsb_exists. exists n. split; [by apply list_elem_of_In|]. unfold begins. rewrite Hk.
  apply bool_decide_eq_true. by apply take_ge.
Qed.

Lemma interp_leaves ls : forall root tbl header tree, forallb line_ok ls = true -> follows root (segs header) (place tbl) ->
  interp root tbl ls = inr (0, tree) ->
  forall q m, leaf m -> get_loop tree q = inr (Some m) <->
    get_loop root q = inr (Some m) \/ exists key, q = strsep_dot key /\ holds header ls key m.
Proof.
  induction ls as [|[w c] ls IH]; intros root tbl header tree Hok Hf H q m Hm; cbn [interp what] in H.
  { injection H as <-. split; [by left|]. intros [?|(key & _ & k & v & ty & x & Hin & _)]; [done|]. by apply elem_of_nil in Hin. }
  simpl in Hok. apply andb_true_iff in Hok as [Hc Hls]. apply andb_true_iff in Hc as [_ Hc]. simpl in Hc.
  destruct c as [|t|n|k v]; cbn [interp_content] in H.
  - by apply (IH root tbl header tree).
  - by apply (IH root tbl header tree).
  - destruct (SawTable root n) as [|[[code root'] [path|]]] eqn:Es; try done. destruct (code =? 0) eqn:Ecode; [|done].
    unfold SawTable in Es. destruct (saw_loop (strsep_dot n) root) as [|[n' q' t' []|n']] eqn:El; try done.
    case_decide; [|done]. injection Es as <- <- <-.
    pose proof (saw_loop_follows _ _ _ _ _ _ El) as Hf'. pose proof (saw_loop_leaves _ _ _ El q m Hm) as Hsame. simpl in Hsame.
    by rewrite (IH n' (Some q') (Some n) tree Hls Hf' H q m Hm), Hsame.
  - destruct (node_at root (place tbl)) as [n|] eqn:En; [|done]. destruct (map_items n) as [|l] eqn:El; [done|].
    destruct (existsb (begins k) l) eqn:Eb; [done|]. destruct (scalar_value v) as [|[ty x]] eqn:Ev; [done|].
    destruct (update_at _ _ _) as [|root'] eqn:Eu; [done|].
    assert (leaf (mk_node ty (Some k) x)) as Hleaf.
    { destruct v as [sign ds|b|s]; cbn [scalar_value] in Ev; [destruct (_ <=? _)| |destruct (_ <=? _)%nat]; simplify_eq; by eexists. }
    destruct (update_at_leaves (mk_node ty (Some k) x) k (segs header) (place tbl) root root' n l) as [Hf' Hg]; try done; [by apply begins_find|].
    rewrite (IH root' tbl header tree Hls Hf' H q m Hm), (Hg q m Hm).
    assert (forallb bare k = true) as Hk by (simpl in Hc; repeat rewrite andb_true_iff in Hc; apply Hc).
    set (key := match header with None => k | Some n => n ++ ["."%byte] ++ k end).
    assert (strsep_dot key = segs header ++ [k]) as Hkey.
    { unfold key. destruct header as [h|]; simpl; [by apply strsep_dot_join|by apply strsep_dot_bare]. }
    split.
    + intros [[?|[-> ->]]|(key' & -> & k' & v' & ty' & x' & Hin & Hx')]; [by left|right..].
      * exists key. split; [done|]. exists k, v, ty, x. split; [constructor|done].
      * exists key'. split; [done|]. exists k', v', ty', x'. split; [|done]. simpl. by apply elem_of_cons; right.
    + intros [?|(key' & -> & k' & v' & ty' & x' & Hin & Hv' & ->)]; [by left; left|]. simpl in Hin. apply elem_of_cons in Hin as [Heq|Hin].
      * left. right. injection Heq as -> -> ->. split; [exact Hkey|]. by rewrite Ev in Hv'; injection Hv' as -> ->.
      * right. exists key'. split; [done|]. by exists k', v', ty', x'.
Qed.

Lemma exec_more buf strtod pe fuel k o : forall s, exec buf strtod fuel pe s = Some o -> exec buf strtod (fuel + k) pe s = Some o.
Proof. induction fuel as [|fuel IH]; simpl; [done|]. intros s. destruct (step _ _ _ s); auto. Qed.

(** The parser's result on the text of the lines, however many rounds it took. *)
Lemma toml_parse_interp strtod more ls fuel r : forallb line_ok ls = true ->
  toml_parse strtod [] fuel toml_init (text_of ls ++ x00 :: more) (length (text_of ls)) = Some r ->
  r = interp toml_init None ls.
Proof.
  intros Hok. pose proof (run_text strtod (text_of ls) more ls NameNull toml_init None [] regs0 eq_refl Hok ltac:(done) eq_refl) as Hrun.
  unfold toml_parse. simpl. change (init _) with (st (Z.of_nat (length (@nil byte))) [start] [] regs0 (bld NameNull toml_init None)).
  destruct (exec _ _ fuel _ _) as [o|] eqn:E; [|done].
  destruct (interp toml_init None ls) as [f|[code t]].
  - destruct Hrun as [n Hn]. apply (exec_more _ _ _ _ n) in E. rewrite Nat.add_comm, Hn in E. injection E as <-. by intros [= <-].
  - destruct Hrun as (s & [n Hn] & Hv & Ht). apply (exec_more _ _ _ _ n) in E. rewrite Nat.add_comm, Hn in E. injection E as <-.
    intros [= <-]. by rewrite Hv, Ht.
Qed.

(** A value of the file is found under its key. *)
Lemma entry_found ls tree key k v ty x : forallb line_ok ls = true -> interp toml_init None ls = inr (0, tree) ->
  (key, (k, v)) ∈ entries None ls -> scalar_value v = inr (ty, x) -> toml_get true tree key = inr (Some (mk_node ty (Some k) x)).
Proof.
  intros Hok Hi Hin Hv. unfold toml_get. apply (interp_leaves ls toml_init None None tree Hok I Hi).
  - destruct v as [sign ds|b|s]; cbn [scalar_value] in Hv; [destruct (_ <=? _)| |destruct (_ <=? _)%nat]; simplify_eq; by eexists.
  - right. exists key. split; [done|]. by exists k, v, ty, x.
Qed.

(** C25: what is in the file is what is found, and nothing else.  When [toml_parse]
    accepts the text of some lines, [toml_get] finds a value under a dotted key of
    the tree exactly if a line under the header of that name has that key, and the
    node is the one of its value: the number, the truth value, or the string with
    its escapes replaced. *)
Theorem toml_parse_get (strtod : bytes -> Z) (more : bytes) (ls : list line) (fuel : nat) (tree : toml_node)
  (Hok : forallb line_ok ls = true)
  (H : toml_parse strtod [] fuel toml_init (text_of ls ++ x00 :: more) (length (text_of ls)) = Some (inr (0, tree)))
  (key : bytes) (m : toml_node) (Hm : leaf m) :
  toml_get true tree key = inr (Some m) <->
  exists k v ty x, (key, (k, v)) ∈ entries None ls /\ scalar_value v = inr (ty, x) /\ m = mk_node ty (Some k) x.
Proof.
  pose proof (toml_parse_interp _ _ _ _ _ Hok H) as Hi. symmetry in Hi.
  unfold toml_get. rewrite (interp_leaves ls toml_init None None tree Hok I Hi _ _ Hm). split.
  - intros [Hroot|(key' & Hkey & Hh)]; [|apply strsep_dot_inj in Hkey as ->; exact Hh].
    pose proof (strsep_dot_ne key). by destruct (strsep_dot key).
  - intros Hh. right. exists key. split; [done|]. exact Hh.
Qed.

Lemma toml_parse_get_witness :
  toml_get true sample_tree (lit "handler.config.enabled") = inr (Some (mk_node TOML_BOOLEAN (Some (lit "enabled")) (VInteger 1))).
Proof.
  apply (toml_parse_get (fun _ => 0) [] sample_lines 1000 sample_tree).
  - reflexivity.
  - vm_compute. reflexivity.
  - by eexists.
  - exists (lit "enabled"), (Bool true), TOML_BOOLEAN, (VInteger 1). split; [|done]. vm_compute. do 2 apply list_elem_of_further. apply list_elem_of_here.
Defined.
