(* ===== verification/TomlTree.v ===== *)
(** * Operations on the tree: libtoml (toml.c)

    Walking the tree, freeing it, its values as text, and the two printers.  A
    block of memory of the tree is named by the path of its node; [toml_free] is
    the sequence of reads and frees it does.  Output is the text written.  The
    digits of a [double] (printf's %f) are a parameter.  pmilter calls [toml_free]
    only. *)

From stdpp Require Import base option numbers strings list.
From Stdlib Require Import Strings.Byte ZArith Lia.
From S2P Require Import Prelude Strl Utils Toml.
Local Open Scope Z_scope.

(** Results in sequence. *)
Definition and_then {A B} (m : fault + A) (k : A -> fault + B) : fault + B :=
  match m with inl f => inl f | inr a => k a end.

(** The text of all results, one after the other. *)
Definition then_app {A} (a b : fault + list A) : fault + list A :=
  and_then a (fun x => and_then b (fun y => inr (x ++ y))).

(** ** [toml_walk] and [toml_dive] *)

(** Types whose value is a list of items. *)
Definition has_items (t : toml_type) : bool :=
  match t with TOML_ROOT | TOML_INLINE_TABLE | TOML_TABLE | TOML_TABLE_ARRAY | TOML_LIST => true | _ => false end.

(** Memory: the structure that holds the node at a path (an item, or the root),
    its name, its string. *)
Inductive block := BNode (path : list nat) | BName (path : list nat) | BStr (path : list nat).
Inductive event := Read (path : list nat) | Free (b : block).

#[global] Instance block_eq_dec : EqDecision block.
Proof. solve_decision. Defined.
#[global] Instance event_eq_dec : EqDecision event.
Proof. solve_decision. Defined.

Inductive order := kOrderWalk | kOrderDive.

Section process.
Context (ord : order) (fn : list nat -> toml_node -> fault + list event).

(** The items are read for their successors before they are processed. *)
Fixpoint _toml_process (path : list nat) (node : toml_node) {struct node} : fault + list event :=
  let go := fix go (i : nat) (l : list toml_node) : fault + list event :=
    match l with
    | [] => inr []
    | x :: r => then_app (inr [Read (path ++ [i])]) (then_app (_toml_process (path ++ [i]) x) (go (S i) r))
    end in
  let sub := then_app (inr [Read path])
    (if has_items (n_type node) then match n_value node with VItems l => go 0%nat l | _ => inl BadCast end else inr []) in
  match ord with
  | kOrderWalk => then_app (fn path node) sub
  | kOrderDive => then_app sub (fn path node)
  end.

Definition process_items (path : list nat) : nat -> list toml_node -> fault + list event :=
  fix go i l :=
    match l with
    | [] => inr []
    | x :: r => then_app (inr [Read (path ++ [i])]) (then_app (_toml_process (path ++ [i]) x) (go (S i) r))
    end.
End process.

Definition toml_walk (root : toml_node) (fn : list nat -> toml_node -> fault + list event) : fault + list event :=
  _toml_process kOrderWalk fn [] root.
Definition toml_dive (root : toml_node) (fn : list nat -> toml_node -> fault + list event) : fault + list event :=
  _toml_process kOrderDive fn [] root.

(** ** [toml_free] *)

(** [list_del] and [free] of the items, from the first on. *)
Fixpoint free_items (path : list nat) (i : nat) (l : list toml_node) : list event :=
  match l with
  | [] => []
  | _ :: r => Read (path ++ [i]) :: Free (BNode (path ++ [i])) :: free_items path (S i) r
  end.

Definition toml_node_walker_free (path : list nat) (node : toml_node) : fault + list event :=
  if unset_name node then inl Indeterminate
  else
    then_app (inr (Read path :: match n_name node with None => [] | Some _ => [Free (BName path)] end))
      (if has_items (n_type node) then match n_value node with VItems l => inr (free_items path 0 l) | _ => inl BadCast end
       else match n_type node, n_value node with
            | TOML_STRING, VString _ => inr [Free (BStr path)]
            | TOML_STRING, _ => inl BadCast
            | _, _ => inr []
            end).

Definition toml_free (root : toml_node) : fault + list event :=
  if negb (bool_decide (n_type root = TOML_ROOT)) then inl AssertFailed
  else then_app (toml_dive root toml_node_walker_free) (inr [Free (BNode [])]).

(** ** [_json_string_encode] *)

(** The letter after the backslash. *)
Definition json_escape (c : byte) : option byte :=
  match c with
  | x22 => Some x22 | x5c => Some x5c | x2f => Some x2f
  | x08 => Some "b"%byte | x0c => Some "f"%byte | x0a => Some "n"%byte | x0d => Some "r"%byte | x09 => Some "t"%byte
  | _ => None
  end.

(** The first loop: [i] and [j] at its end. *)
Fixpoint json_count (s : bytes) (i j : nat) : nat * nat :=
  match s with
  | [] => (i, j)
  | c :: r => json_count r (S i) (match json_escape c with Some _ => S j | None => j end)
  end.

(** The second loop, which writes into [ret]. *)
Fixpoint json_fill (s : bytes) (i j : nat) (ret : bytes) : option (bytes * nat) :=
  match s with
  | [] => Some (ret, (i + j)%nat)
  | c :: r =>
      match json_escape c with
      | Some d => ret ← store ret (i + j) x5c; ret ← store ret (i + S j) d; json_fill r (S i) (S j) ret
      | None => ret ← store ret (i + j) c; json_fill r (S i) j ret
      end
  end.

(** The block that is returned; [mem]: [malloc] has memory.  What is in it before
    it is written does not matter. *)
Definition _json_string_encode (mem : bool) (string : bytes) : fault + bytes :=
  let '(i, j) := json_count string 0 0 in
  if negb mem then inl NullDeref
  else match (ret ← json_fill string 0 0 (replicate (i + j + 1) x00); store ret.1 ret.2 x00) with
       | None => inl OutOfBounds
       | Some ret => inr ret
       end.

(** [toml_name] *)
Definition toml_name (mem : bool) (node : toml_node) : fault + bytes :=
  match n_name node with
  | None => if unset_name node then inl Indeterminate else inl NullDeref
  | Some s => _json_string_encode mem s
  end.

(** ** [toml_value_as_string] *)

(** printf's %02d *)
Definition fmt_02d (n : Z) : bytes := let s := fmt_d n in if (length s <? 2)%nat then "0"%byte :: s else s.

Section text.
(** printf's [%.*f] for the bits of a [double]. *)
Context (fmt_f : Z -> Z -> bytes).

Definition date_string (epoch sec_frac : Z) (neg : bool) (offset : Z) (zulu : bool) : option bytes :=
  let offset_string := if zulu then lit "Z" else lit (if neg then "-" else "+") ++ fmt_02d (offset / 60) ++ lit ":" ++ fmt_02d (offset mod 60) in
  let sec_frac := if sec_frac =? -1 then [] else lit "." ++ fmt_d sec_frac in
  tm ← gmtime_r epoch;
  Some (fmt_d (1900 + tm_year tm) ++ lit "-" ++ fmt_02d (tm_mon tm + 1) ++ lit "-" ++ fmt_02d (tm_mday tm) ++ lit "T" ++
        fmt_02d (tm_hour tm) ++ lit ":" ++ fmt_02d (tm_min tm) ++ lit ":" ++ fmt_02d (tm_sec tm) ++ sec_frac ++ offset_string).

(** The string returned, [None] for NULL. *)
Definition toml_value_as_string (node : toml_node) : fault + option bytes :=
  match n_type node, n_value node with
  | TOML_INT, VInteger z => inr (Some (fmt_d z))
  | TOML_BOOLEAN, VInteger z => inr (Some (lit (if z =? 0 then "false" else "true")))
  | TOML_FLOAT, VFloating bits prec => inr (Some (fmt_f prec bits))
  | TOML_STRING, VString s => and_then (_json_string_encode true s) (fun ret => inr (cstr ret))
  | TOML_DATE, VTime epoch frac neg offset zulu => inr (date_string epoch frac neg offset zulu)
  | (TOML_INT | TOML_BOOLEAN | TOML_FLOAT | TOML_STRING | TOML_DATE), _ => inl BadCast
  | _, _ => inr None
  end.

(** ** [toml_dump] *)

(** [bname]: NULL, a string, or an array that was not written. *)
Inductive bname := BnNull | BnStr (s : bytes) | BnUnset.

Definition tabs (n : nat) : bytes := replicate n x09.
Definition nl : bytes := [x0a].

(** The name of a node for [%s] and for a test. *)
Definition name_of (node : toml_node) : fault + option bytes :=
  if unset_name node then inl Indeterminate else inr (n_name node).

Definition NAME_SIZE : nat := 100.

(** [char name\[100\]] of a table: what [sprintf] writes into it. *)
Definition dump_name (b : bname) (node : toml_node) : fault + bname :=
  match n_name node with
  | None => inr BnUnset
  | Some s =>
      match b with
      | BnUnset => inl Indeterminate
      | BnNull => if (length s <? NAME_SIZE)%nat then inr (BnStr s) else inl OutOfBounds
      | BnStr p => if (length (p ++ lit "." ++ s) <? NAME_SIZE)%nat then inr (BnStr (p ++ lit "." ++ s)) else inl OutOfBounds
      end
  end.

Definition key_text (name : option bytes) : bytes := match name with None => [] | Some s => s ++ lit " = " end.
Definition as_bname (name : option bytes) : bname := match name with None => BnNull | Some s => BnStr s end.

Fixpoint _toml_dump (node : toml_node) (b : bname) (indent : nat) (newline : bool) {struct node} : fault + bytes :=
  let all := fix all (l : list toml_node) (pre : bytes) (b : bname) (indent : nat) : fault + bytes :=
    match l with [] => inr [] | x :: r => then_app (then_app (inr pre) (_toml_dump x b indent true)) (all r pre b indent) end in
  let list_ := fix list_ (l : list toml_node) (b : bname) : fault + bytes :=
    match l with
    | [] => inr []
    | x :: r => then_app (_toml_dump x b 0 false) (then_app (inr (match r with [] => [] | _ => lit ", " end)) (list_ r b))
    end in
  then_app (inr (tabs (indent - 1)))
    match n_type node, n_value node with
    | TOML_ROOT, VItems l => all l [] (as_bname (n_name node)) indent
    | (TOML_INLINE_TABLE | TOML_TABLE), VItems l =>
        and_then (dump_name b node) (fun name =>
          then_app (inr match name with
                        | BnStr s => (match indent with O => [] | _ => [x09] end) ++ lit "[" ++ s ++ lit "]" ++ nl
                        | _ => []
                        end)
            (then_app (all l [] name (S indent)) (inr nl)))
    | TOML_LIST, VItems l =>
        and_then (name_of node) (fun name =>
          then_app (inr (key_text name ++ lit "[ "))
            (then_app (list_ l (as_bname name)) (inr (lit " ]" ++ if newline then nl else []))))
    | TOML_TABLE_ARRAY, VItems l =>
        match n_name node with
        | None => match l with [] => inr [] | _ => inl NullDeref end
        | Some s => all l (lit "[[" ++ s ++ lit "]]" ++ nl) (BnStr s) indent
        end
    | (TOML_ROOT | TOML_INLINE_TABLE | TOML_TABLE | TOML_LIST | TOML_TABLE_ARRAY), _ => inl BadCast
    | ty, _ =>
        and_then (toml_value_as_string node) (fun value =>
          match value with
          | None => inl NullDeref
          | Some value =>
              let quote := if bool_decide (ty = TOML_STRING) then [x22] else [] in
              inr (key_text (n_name node) ++ quote ++ value ++ quote ++ if newline then nl else [])
          end)
    end.

Definition toml_dump (root : toml_node) : fault + bytes := _toml_dump root BnNull 0 true.

(** ** [toml_tojson] *)

(** The entries of the array that are set. *)
Definition toml_json_types (t : toml_type) : option bytes :=
  lit <$> match t with
          | TOML_INT => Some "integer" | TOML_FLOAT => Some "float" | TOML_STRING => Some "string"
          | TOML_DATE => Some "datetime" | TOML_BOOLEAN => Some "bool" | _ => None
          end.

Definition quoted (s : bytes) : bytes := [x22] ++ s ++ [x22].

Definition _output_name (node : toml_node) : fault + bytes :=
  and_then (name_of node) (fun name =>
    match name with
    | None => inr []
    | Some s => and_then (_json_string_encode true s) (fun ret => inr (quoted (default [] (cstr ret)) ++ lit ": "))
    end).

Fixpoint _toml_tojson (node : toml_node) (indent : nat) {struct node} : fault + bytes :=
  let all := fix all (l : list toml_node) : fault + bytes :=
    match l with
    | [] => inr []
    | x :: r => then_app (_toml_tojson x (S indent)) (then_app (inr ((match r with [] => [] | _ => lit "," end) ++ nl)) (all r))
    end in
  let around (opening closing : bytes) (l : list toml_node) : fault + bytes :=
    then_app (_output_name node) (then_app (inr (opening ++ nl)) (then_app (all l) (inr (tabs (indent - 1) ++ closing)))) in
  then_app (inr (tabs (indent - 1)))
    match n_type node, n_value node with
    | TOML_ROOT, VItems l => all l
    | (TOML_INLINE_TABLE | TOML_TABLE), VItems l => around (lit "{") (lit "}") l
    | TOML_LIST, VItems l =>
        around (lit "{ " ++ quoted (lit "type") ++ lit ": " ++ quoted (lit "array") ++ lit ", " ++ quoted (lit "value") ++ lit ": [") (lit " ] }") l
    | TOML_TABLE_ARRAY, VItems l => around (lit "[") (lit "]") l
    | (TOML_ROOT | TOML_INLINE_TABLE | TOML_TABLE | TOML_LIST | TOML_TABLE_ARRAY), _ => inl BadCast
    | ty, _ =>
        and_then (toml_value_as_string node) (fun value =>
          match value, toml_json_types ty with
          | None, _ => inl NullDeref
          | _, None => inl Indeterminate
          | Some value, Some tname =>
              then_app (_output_name node)
                (inr (lit "{ " ++ quoted (lit "type") ++ lit ": " ++ quoted tname ++ lit ", " ++ quoted (lit "value") ++
                      lit ": " ++ quoted value ++ lit " }"))
          end)
    end.

Definition toml_tojson (root : toml_node) : fault + bytes :=
  then_app (inr (lit "{" ++ nl)) (then_app (_toml_tojson root 1) (inr (lit "}" ++ nl))).
End text.

(** [toml_type_to_str] *)
Definition toml_type_to_str (t : toml_type) : bytes :=
  lit match t with
      | TOML_ROOT => "TOML_ROOT" | TOML_TABLE => "TOML_TABLE" | TOML_LIST => "TOML_LIST" | TOML_INT => "TOML_INT"
      | TOML_FLOAT => "TOML_FLOAT" | TOML_STRING => "TOML_STRING" | TOML_DATE => "TOML_DATE" | TOML_BOOLEAN => "TOML_BOOLEAN"
      | TOML_TABLE_ARRAY => "TOML_TABLE_ARRAY" | TOML_INLINE_TABLE => "TOML_INLINE_TABLE"
      end.

(** ** Strings as JSON *)

Definition json_text (s : bytes) : bytes :=
  s ≫= fun c => match json_escape c with Some d => [x5c; d] | None => [c] end.

(** Reading it back. *)
Definition json_unescape (d : byte) : option byte :=
  match d with
  | x22 => Some x22 | x5c => Some x5c | x2f => Some x2f
  | "b"%byte => Some x08 | "f"%byte => Some x0c | "n"%byte => Some x0a | "r"%byte => Some x0d | "t"%byte => Some x09
  | _ => None
  end.
Fixpoint json_read (s : bytes) : option bytes :=
  match s with
  | [] => Some []
  | x5c :: d :: r => c ← json_unescape d; cons c <$> json_read r
  | x5c :: [] => None
  | c :: r => cons c <$> json_read r
  end.

Lemma json_escape_back c d : json_escape c = Some d -> json_unescape d = Some c.
Proof. destruct c; simpl; intros [= <-]; reflexivity. Qed.

Lemma json_read_text s : json_read (json_text s) = Some s.
Proof.
  induction s as [|c s IH]; [done|]. unfold json_text in *. cbn [mbind list_bind].
  destruct (json_escape c) as [d|] eqn:E.
  - simpl. rewrite (json_escape_back _ _ E). simpl. by rewrite IH.
  - cbn [app]. assert (c <> x5c) by (by intros ->). destruct c; try done; simpl; by rewrite IH.
Qed.

Lemma json_count_text s : forall i j, (json_count s i j).1 = (i + length s)%nat /\
  ((json_count s i j).1 + (json_count s i j).2 = i + j + length (json_text s))%nat.
Proof.
  induction s as [|c s IH]; intros i j; simpl; [lia|]. unfold json_text in *. cbn [mbind list_bind]. rewrite length_app.
  destruct (json_escape c); simpl length; destruct (IH (S i) (S j)), (IH (S i) j); lia.
Qed.

Lemma json_fill_text s : forall i j pre ret, length pre = (i + j)%nat -> (length pre + length (json_text s) <= length ret)%nat ->
  json_fill s i j (put ret 0 pre) = Some (put ret 0 (pre ++ json_text s), length (pre ++ json_text s)).
Proof.
  induction s as [|c s IH]; intros i j pre ret Hp Hr; cbn [json_fill].
  { unfold json_text. simpl. by rewrite app_nil_r, <- Hp. }
  unfold json_text in *. cbn [mbind list_bind] in Hr |- *. rewrite length_app in Hr.
  destruct (json_escape c) as [d|]; simpl in Hr.
  - rewrite store_start by lia. cbn [mbind option_bind]. rewrite store_start by (rewrite ?length_app; simpl; lia).
    cbn [mbind option_bind]. rewrite IH by (rewrite ?length_app; simpl; lia). by rewrite <- !app_assoc.
  - rewrite store_start by lia. cbn [mbind option_bind]. rewrite IH by (rewrite ?length_app; simpl; lia). by rewrite <- !app_assoc.
Qed.

Lemma put_all (ret s : bytes) : length ret = length s -> put ret 0 s = s.
Proof. intros H. unfold put. simpl. rewrite drop_ge by lia. by rewrite app_nil_r. Qed.

(** A string as JSON.  The block that the first loop of [_json_string_encode]
    counts out is exactly filled by the second: every write is inside it, and it
    holds the escaped text and the byte that ends it; and reading the text back
    gives the string again.  With no memory the second loop writes through NULL. *)
Theorem json_encode_exact (s : bytes) :
  _json_string_encode true s = inr (json_text s ++ [x00]) /\ json_read (json_text s) = Some s /\
  _json_string_encode false s = inl NullDeref.
Proof.
  unfold _json_string_encode. destruct (json_count s 0 0) as [i j] eqn:E. pose proof (json_count_text s 0 0) as [_ H].
  rewrite E in H. simpl in H. split; [|split; [apply json_read_text|done]]. cbn [negb].
  rewrite <- (put_nil (replicate (i + j + 1) x00) 0).
  rewrite (json_fill_text s 0 0 []) by (rewrite ?length_replicate; simpl; lia). cbn [mbind option_bind fst snd app].
  rewrite store_start by (rewrite ?length_replicate; simpl; lia). f_equal. apply put_all.
  rewrite length_replicate, length_app. simpl. lia.
Qed.

(** ** Memory of the tree *)

(** Induction over a node and the nodes below it. *)
Lemma toml_node_induction (P : toml_node -> Prop) :
  (forall n, (forall l, n_value n = VItems l -> Forall P l) -> P n) -> forall n, P n.
Proof.
  intros H. fix IH 1. intros [ty nm [l| | | |]]; [|apply H; done..].
  assert (Forall P l) as Hl by (induction l as [|x l IHl]; constructor; [apply IH|apply IHl]).
  apply H. simpl. by intros l' [= <-].
Qed.

(** The value is of the kind of the type, everywhere below. *)
Fixpoint typed (n : toml_node) : bool :=
  match n_type n, n_value n with
  | (TOML_ROOT | TOML_TABLE | TOML_LIST | TOML_TABLE_ARRAY | TOML_INLINE_TABLE), VItems l => forallb typed l
  | (TOML_INT | TOML_BOOLEAN), VInteger _ | TOML_FLOAT, VFloating _ _ | TOML_STRING, VString _ | TOML_DATE, VTime _ _ _ _ _ => true
  | _, _ => false
  end.

(** No name is unset. *)
Fixpoint names_set (n : toml_node) : bool :=
  negb (unset_name n) && match n_value n with VItems l => forallb names_set l | _ => true end.

(** What belongs to a node besides the structure it is in. *)
Fixpoint inner (path : list nat) (n : toml_node) : list block :=
  let go := fix go (i : nat) (l : list toml_node) : list block :=
    match l with [] => [] | x :: r => BNode (path ++ [i]) :: inner (path ++ [i]) x ++ go (S i) r end in
  match n_name n with None => [] | Some _ => [BName path] end ++
  match n_value n with VItems l => go 0%nat l | VString _ => [BStr path] | _ => [] end.

Definition inner_items (path : list nat) : nat -> list toml_node -> list block :=
  fix go i l := match l with [] => [] | x :: r => BNode (path ++ [i]) :: inner (path ++ [i]) x ++ go (S i) r end.

(** Every block of the tree: the root's, and what is below. *)
Definition blocks (root : toml_node) : list block := BNode [] :: inner [] root.

Definition frees (es : list event) : list block := omap (fun e => match e with Free b => Some b | Read _ => None end) es.

(** Nothing is read, or freed again, after it was freed. *)
Definition compat (e e' : event) : Prop :=
  match e, e' with
  | Free b, Free b' => b <> b'
  | Free (BNode q), Read q' => q <> q'
  | _, _ => True
  end.
Fixpoint safe (es : list event) : Prop :=
  match es with [] => True | e :: r => Forall (compat e) r /\ safe r end.

Lemma safe_app a b : safe a -> safe b -> (forall x y, x ∈ a -> y ∈ b -> compat x y) -> safe (a ++ b).
Proof.
  induction a as [|e a IH]; simpl; [done|]. intros [Ha Hs] Hb Hc. split.
  - apply Forall_app. split; [done|]. apply Forall_forall. intros y Hy. apply Hc; [constructor|done].
  - apply IH; [done..|]. intros x y Hx. apply Hc. by constructor.
Qed.

Lemma frees_app a b : frees (a ++ b) = frees a ++ frees b.
Proof. apply omap_app. Qed.

(** Events at or below a path; the structure at the path itself is not freed. *)
Definition under (path : list nat) (e : event) : Prop :=
  match e with
  | Read q | Free (BName q) | Free (BStr q) => path `prefix_of` q
  | Free (BNode q) => path `prefix_of` q /\ q <> path
  end.

Lemma under_self path : under path (Read path).
Proof. exists []. by rewrite app_nil_r. Qed.

Definition path_of (e : event) : list nat := match e with Read q | Free (BNode q | BName q | BStr q) => q end.

Lemma under_prefix path e : under path e -> path `prefix_of` path_of e.
Proof. destruct e as [q|[q|q|q]]; simpl; tauto. Qed.

Lemma prefix_snoc (path q : list nat) i : (path ++ [i]) `prefix_of` q -> path `prefix_of` q.
Proof. intros [k ->]. exists ([i] ++ k). by rewrite <- app_assoc. Qed.

Lemma under_child path i e : under (path ++ [i]) e -> under path e.
Proof.
  assert (forall q, (path ++ [i]) `prefix_of` q -> q <> path) as Hne.
  { intros q [k ->] E. apply (f_equal length) in E. rewrite !length_app in E. simpl in E. lia. }
  destruct e as [q|[q|q|q]]; simpl; try apply prefix_snoc. intros [H _]. split; [by eapply prefix_snoc|auto].
Qed.

Lemma children_differ (path q : list nat) i k : (path ++ [i]) `prefix_of` q -> (path ++ [k]) `prefix_of` q -> i = k.
Proof.
  intros [a ->] [b E]. rewrite <- !app_assoc in E. apply app_inv_head in E. by injection E.
Qed.

(** Events below different items. *)
Lemma compat_children path i k x y : i <> k -> under (path ++ [i]) x -> under (path ++ [k]) y -> compat x y.
Proof.
  intros Hik Hx%under_prefix Hy%under_prefix.
  assert (path_of x <> path_of y) as Hne by (intros E; apply Hik; eapply children_differ; [exact Hx|by rewrite E]).
  destruct x as [q|[q|q|q]], y as [q'|[q'|q'|q']]; simpl in *; first [done | congruence].
Qed.

(** An event below an item and one of the node or the items' own. *)
Lemma compat_own path i x y : under (path ++ [i]) x ->
  (y = Read path \/ y = Free (BName path) \/ y = Free (BStr path) \/ exists k, y = Read (path ++ [k]) \/ y = Free (BNode (path ++ [k]))) ->
  compat x y.
Proof.
  intros Hx Hy. assert (forall q, (path ++ [i]) `prefix_of` q -> q <> path) as Hne.
  { intros q [k ->] E. apply (f_equal length) in E. rewrite !length_app in E. simpl in E. lia. }
  assert (forall q k, (path ++ [i]) `prefix_of` q -> q <> path ++ [i] -> q <> path ++ [k]) as Hne'.
  { intros q k Hq Hqi ->. apply Hqi. by rewrite (children_differ path (path ++ [k]) i k). }
  destruct x as [q|[q|q|q]]; simpl in Hx; [done|destruct Hx as [Hx Hxi]|..];
    destruct Hy as [->|[->|[->|(k & [->| ->])]]]; simpl; try done; try (by intros [=]);
    try (by apply Hne); try (by apply Hne'); try (by intros [= E]; apply (Hne q)); by intros [= E]; apply (Hne' q k).
Qed.

Definition dive := _toml_process kOrderDive toml_node_walker_free.

Lemma dive_eq path n : dive path n =
  then_app (then_app (inr [Read path])
    (if has_items (n_type n) then match n_value n with VItems l => process_items kOrderDive toml_node_walker_free path 0 l | _ => inl BadCast end else inr []))
    (toml_node_walker_free path n).
Proof. by destruct n. Qed.

Lemma inner_eq path n : inner path n =
  match n_name n with None => [] | Some _ => [BName path] end ++
  match n_value n with VItems l => inner_items path 0 l | VString _ => [BStr path] | _ => [] end.
Proof. by destruct n. Qed.

(** What freeing a node's contents does. *)
Definition freed (path : list nat) (n : toml_node) : Prop :=
  exists es, dive path n = inr es /\ safe es /\ Forall (under path) es /\ frees es ≡ₚ inner path n.

Lemma freed_items path l : forall i, Forall (fun n => forall path, freed path n) l ->
  exists es, process_items kOrderDive toml_node_walker_free path i l = inr es /\ safe es /\
    Forall (fun e => exists k, (i <= k < i + length l)%nat /\ under (path ++ [k]) e) es /\
    (frees es ++ frees (free_items path i l)) ≡ₚ inner_items path i l.
Proof.
  induction l as [|x l IH]; intros i H; [by exists []|]. apply Forall_cons in H as [Hx Hl].
  destruct (Hx (path ++ [i])) as (e1 & E1 & S1 & U1 & F1). destruct (IH (S i) Hl) as (e2 & E2 & S2 & U2 & F2).
  exists (Read (path ++ [i]) :: e1 ++ e2). cbn [process_items]. fold (process_items kOrderDive toml_node_walker_free path).
  unfold dive in E1. rewrite E1, E2. split; [done|].
  split; [|split].
  - simpl. split; [by apply Forall_forall|]. apply safe_app; [done..|]. intros e e' He He'.
    rewrite Forall_forall in U1, U2. destruct (U2 _ He') as (k & Hk & Hu). apply (compat_children path i k); [lia|auto|done].
  - constructor; [exists i; split; [simpl; lia|apply under_self]|]. apply Forall_app. split; (eapply Forall_impl; [eassumption|]).
    + intros e He. exists i. split; [simpl; lia|done].
    + intros e (k & Hk & Hu). exists k. split; [simpl; lia|done].
  - cbn [inner_items free_items]. fold (inner_items path). unfold frees at 1 2. simpl. fold (frees (e1 ++ e2)) (frees (free_items path (S i) l)).
    rewrite frees_app, F1, <- F2. solve_Permutation.
Qed.

(** The node's own events, after those of its items. *)
Definition own (path : list nat) (e : event) : Prop :=
  e = Read path \/ e = Free (BName path) \/ e = Free (BStr path) \/ exists k, e = Read (path ++ [k]) \/ e = Free (BNode (path ++ [k])).

Lemma own_under path e : own path e -> under path e.
Proof.
  assert (path `prefix_of` path) by done.
  intros [->|[->|[->|(k & [->| ->])]]]; simpl; try done; [by apply prefix_app_r|].
  split; [by apply prefix_app_r|]. intros E. apply (f_equal length) in E. rewrite length_app in E. simpl in E. lia.
Qed.

Lemma free_items_safe path l : forall i, safe (free_items path i l) /\
  Forall (fun e => exists k, (i <= k)%nat /\ (e = Read (path ++ [k]) \/ e = Free (BNode (path ++ [k])))) (free_items path i l).
Proof.
  induction l as [|x l IH]; intros i; simpl; [done|]. destruct (IH (S i)) as [Hs Hf]. split.
  - split; [by apply Forall_true|]. split; [|done]. eapply Forall_impl; [exact Hf|]. intros e (k & Hk & He).
    assert (path ++ [i] <> path ++ [k]) as Hne by (intros E; apply app_inv_head in E; injection E; lia).
    destruct He as [-> | ->]; simpl; congruence.
  - constructor; [exists i; auto|]. constructor; [exists i; auto|]. eapply Forall_impl; [exact Hf|].
    intros e (k & Hk & He). exists k. split; [lia|done].
Qed.

Lemma free_items_own path l : Forall (own path) (free_items path 0 l).
Proof. eapply Forall_impl; [apply free_items_safe|]. intros e (k & _ & He). right. right. right. by exists k. Qed.

Lemma walker_free_own path n : typed n = true -> unset_name n = false ->
  exists es, toml_node_walker_free path n = inr es /\ safe es /\ Forall (own path) es /\
    frees es = match n_name n with None => [] | Some _ => [BName path] end ++
      match n_value n with VItems l => frees (free_items path 0 l) | VString _ => [BStr path] | _ => [] end.
Proof.
  intros Ht Hu. unfold toml_node_walker_free. rewrite Hu.
  assert (forall tl, safe tl -> Forall (own path) tl -> Free (BName path) ∉ tl ->
    exists es, then_app (inr (Read path :: match n_name n with None => [] | Some _ => [Free (BName path)] end)) (inr tl) = inr es /\
      safe es /\ Forall (own path) es /\ frees es = match n_name n with None => [] | Some _ => [BName path] end ++ frees tl) as H.
  { intros tl Hs Ho Hn. eexists. split; [reflexivity|]. destruct (n_name n); simpl.
    - split; [|split; [|done]].
      + split; [by constructor; [|apply Forall_true]|]. split; [|done]. apply Forall_forall. intros [q|b] He; [done|]. simpl. by intros <-.
      + constructor; [by left|]. constructor; [by right; left|done].
    - split; [split; [by apply Forall_true|done]|]. split; [|done]. constructor; [by left|done]. }
  assert (forall l, Free (BName path) ∉ free_items path 0 l) as Hfi.
  { intros l Hin. pose proof (proj2 (free_items_safe path l 0)) as Hf. rewrite Forall_forall in Hf.
    destruct (Hf _ Hin) as (k & _ & [?|?]); done. }
  destruct (n_type n) eqn:Ety, (n_value n) as [l| | | |] eqn:Ev; simpl in Ht |- *;
    try (destruct n; simpl in *; subst; done);
    first [apply H; [apply free_items_safe|apply free_items_own|apply Hfi] | (apply (H []); [done|done|apply not_elem_of_nil]) | idtac].
  apply (H [Free (BStr path)]); [done| |]. { constructor; [right; right; by left|done]. }
  intros Hin. apply list_elem_of_singleton in Hin. done.
Qed.

Lemma freed_node n : typed n = true -> names_set n = true -> forall path, freed path n.
Proof.
  induction n as [n IH] using toml_node_induction. intros Ht Hn path. unfold freed. rewrite dive_eq, inner_eq.
  assert (unset_name n = false) as Hu. { destruct n. simpl in Hn. apply andb_true_iff in Hn as [Hn _]. by apply negb_true_iff. }
  destruct (walker_free_own path n Ht Hu) as (e2 & -> & S2 & O2 & F2).
  destruct (has_items (n_type n)) eqn:Eh.
  - destruct (n_value n) as [l| | | |] eqn:Ev; try (destruct n as [[] ? ?]; simpl in *; subst; done).
    assert (Forall (fun n => forall path, freed path n) l) as Hl.
    { apply Forall_forall. intros x Hx. specialize (IH l eq_refl). rewrite Forall_forall in IH. apply (IH x Hx).
      - destruct n as [[] ? ?]; simpl in *; subst; try done; (rewrite forallb_forall in Ht; by apply Ht, list_elem_of_In).
      - destruct n as [? ? ?]; simpl in *; subst. apply andb_true_iff in Hn as [_ Hn]. rewrite forallb_forall in Hn. by apply Hn, list_elem_of_In. }
    destruct (freed_items path l 0 Hl) as (e1 & -> & S1 & U1 & F1). eexists. split; [reflexivity|].
    assert (safe (e1 ++ e2)) as Hs.
    { apply safe_app; [done..|]. intros x y Hx Hy. rewrite Forall_forall in U1, O2. destruct (U1 x Hx) as (k & _ & Hux).
      eapply compat_own; [exact Hux|]. exact (O2 y Hy). }
    simpl. split; [split; [by apply Forall_true|exact Hs]|]. split.
    + constructor; [apply under_self|]. apply Forall_app. split; (eapply Forall_impl; [eassumption|]); [|apply own_under].
      intros e (k & _ & Hk). by eapply under_child.
    + unfold frees at 1. simpl. fold (frees (e1 ++ e2)). rewrite frees_app, F2, <- F1. solve_Permutation.
  - eexists. split; [reflexivity|]. simpl. split; [split; [by apply Forall_true|done]|]. split.
    + constructor; [apply under_self|]. eapply Forall_impl; [exact O2|apply own_under].
    + unfold frees at 1. simpl. fold (frees e2). rewrite F2. destruct n as [[] ? []]; simpl in *; done.
Qed.


Definition free_demo : toml_node :=
  mk_node TOML_ROOT None (VItems [
    mk_node TOML_TABLE (Some (lit "server")) (VItems [mk_node TOML_STRING (Some (lit "listen")) (VString (lit "pmilter.sock"))])]).


(** On a tree of well-typed values [toml_free] can fail at an unset name only. *)
Lemma dive_faults n : typed n = true -> forall path f, dive path n = inl f -> f = Indeterminate.
Proof.
  induction n as [n IH] using toml_node_induction. intros Ht path f. rewrite dive_eq.
  assert (forall g, toml_node_walker_free path n = inl g -> g = Indeterminate) as Hw.
  { intros g. destruct (unset_name n) eqn:Eu; [unfold toml_node_walker_free; rewrite Eu; by intros [= <-]|].
    destruct (walker_free_own path n Ht Eu) as (es & -> & _). done. }
  destruct (has_items (n_type n)) eqn:Eh; [|simpl; destruct (toml_node_walker_free path n); [intros [= <-]; auto|done]].
  destruct (n_value n) as [l| | | |] eqn:Ev; try (destruct n as [[] ? ?]; simpl in *; subst; done).
  assert (forall i g, process_items kOrderDive toml_node_walker_free path i l = inl g -> g = Indeterminate) as Hp.
  { assert (forallb typed l = true) as Hl by (destruct n as [[] ? ?]; simpl in *; subst; done).
    specialize (IH l eq_refl). clear -IH Hl. induction l as [|x l IHl]; [done|]. intros i g. apply Forall_cons in IH as [Hx IH].
    simpl in Hl. apply andb_true_iff in Hl as [Htx Hl]. cbn [process_items].
    fold (process_items kOrderDive toml_node_walker_free path). fold dive.
    destruct (dive (path ++ [i]) x) as [f0|] eqn:E; [intros [= <-]; by eapply Hx|].
    destruct (process_items _ _ _ _ _) as [f0|] eqn:E2; [intros [= <-]; by eapply IHl|done]. }
  destruct (process_items _ _ _ _ _) as [f0|] eqn:E; [intros [= <-]; by eapply Hp|]. simpl.
  destruct (toml_node_walker_free path n); [intros [= <-]; auto|done].
Qed.
