(* ===== verification/TomlTyped.v ===== *)
(** * The parser builds well-typed trees

    Whatever the text, every node of the tree [toml_parse] leaves has a value of the
    kind its type stands for, so that [value.map] is read as a list of items only
    where one was stored. *)

From stdpp Require Import base option numbers strings list.
From Stdlib Require Import Strings.Byte ZArith Lia.
From S2P Require Import Prelude Utils Toml TomlParse TomlTree.
Import Rl.
Local Open Scope Z_scope.

(** ** The operations on the tree *)

Lemma typed_items n l : typed n = true -> items n = inr l -> forallb typed l = true /\ has_items (n_type n) = true.
Proof. destruct n as [[] ? []]; simpl; try done; by intros H [= <-]. Qed.

Lemma typed_with_items n l : has_items (n_type n) = true -> forallb typed l = true -> typed (with_items n l) = true.
Proof. destruct n as [[] ? ?]; done. Qed.

Lemma typed_lookup l i x : forallb typed l = true -> l !! i = Some x -> typed x = true.
Proof. intros H Hi. rewrite forallb_forall in H. by eapply H, list_elem_of_In, list_elem_of_lookup_2. Qed.

Lemma typed_insert l i x : forallb typed l = true -> typed x = true -> forallb typed (<[i := x]> l) = true.
Proof.
  revert i. induction l as [|y l IH]; intros [|i] H Hx; simpl in *; try done; apply andb_true_iff in H as [H1 H2];
    [by rewrite Hx|rewrite H1; by apply IH].
Qed.

Lemma typed_snoc l x : forallb typed l = true -> typed x = true -> forallb typed (l ++ [x]) = true.
Proof. intros H Hx. rewrite forallb_app, H. simpl. by rewrite Hx. Qed.

Lemma map_items_items n l : map_items n = inr l -> items n = inr l.
Proof. intros H. by apply map_items_inr in H as [? _]. Qed.

Create HintDb typed.
#[export] Hint Resolve typed_with_items typed_lookup typed_insert typed_snoc map_items_items : typed.

Lemma update_at_typed path x : typed x = true -> forall n n', typed n = true -> update_at path (add_tail x) n = inr n' -> typed n' = true.
Proof.
  intros Hx. induction path as [|i path IH]; simpl; intros n n' Hn H.
  - unfold add_tail in H. destruct (items n) as [|l] eqn:E; [done|]. injection H as <-.
    destruct (typed_items n l Hn E). auto with typed.
  - destruct (items n) as [|l] eqn:E; [done|]. destruct (typed_items n l Hn E) as [Hl Ht].
    destruct (l !! i) as [c|] eqn:Ei; [|done]. destruct (update_at path (add_tail x) c) as [|c'] eqn:Ec; [done|].
    injection H as <-. apply typed_with_items; [done|]. apply typed_insert; [done|]. eapply IH; [|exact Ec]. by eapply typed_lookup.
Qed.

Lemma saw_loop_typed anc : forall n s, typed n = true -> saw_loop anc n = inr s -> typed (saw_node s) = true.
Proof.
  induction anc as [|a anc IH]; intros n s Hn; cbn [saw_loop]; [by intros [= <-]|].
  case_decide; [by intros [= <-]|]. destruct (map_items n) as [|l] eqn:El; [done|].
  destruct (typed_items n l Hn (map_items_items _ _ El)) as [Hl Ht].
  destruct (match find_item a l with Some _ => _ | None => _ end) as [[[i item] l'] new] eqn:E.
  assert (forallb typed l' = true /\ typed item = true) as [Hl' Hitem].
  { destruct (find_item a l) as [[j x]|] eqn:Ef; injection E as <- <- <- <-; [|by auto with typed].
    apply find_item_name in Ef as [Ef _]. split; [done|]. by eapply typed_lookup. }
  destruct (saw_loop anc item) as [|s'] eqn:Es; [done|]. specialize (IH _ _ Hitem Es).
  destruct s'; intros [= <-]; cbn [saw_node] in *; auto with typed.
Qed.

Lemma SawTable_typed n name code n' last : typed n = true -> SawTable n name = inr (code, n', last) -> typed n' = true.
Proof.
  unfold SawTable. intros Hn. destruct (saw_loop (strsep_dot name) n) as [|s] eqn:E; [done|].
  pose proof (saw_loop_typed _ _ _ Hn E) as Hs. destruct s as [m p t []|m]; simpl in *; try case_decide; by intros [= <- <- <-].
Qed.

Lemma saw_array_typed anc : forall n n' p, typed n = true -> saw_array anc n = inr (n', p) -> typed n' = true.
Proof.
  induction anc as [|a anc IH]; intros n n' p Hn; cbn [saw_array]; [by intros [= <- <-]|].
  destruct (map_items n) as [|l] eqn:El; [done|]. destruct (typed_items n l Hn (map_items_items _ _ El)) as [Hl Ht].
  destruct (find_item a l) as [[i item]|] eqn:Ef.
  - apply find_item_name in Ef as [Ei _]. assert (typed item = true) as Hi by (by eapply typed_lookup).
    destruct (items item) as [|sub] eqn:Es; [done|]. destruct (typed_items item sub Hi Es) as [Hsub Hti].
    destruct anc as [|b anc].
    + unfold InsertAnonymousTable. rewrite Es. intros [= <- _]. auto with typed.
    + destruct (last sub) as [tl|] eqn:Etl; [|done]. destruct (saw_array (b :: anc) tl) as [|[tl' q]] eqn:Ea; [done|].
      intros [= <- _]. assert (typed tl = true) as Htl.
      { apply last_Some in Etl as [k ->]. rewrite forallb_app in Hsub. simpl in Hsub. repeat rewrite andb_true_iff in Hsub. tauto. }
      pose proof (IH tl tl' q Htl Ea). auto with typed.
  - destruct (saw_array anc (new_table None)) as [|[t' q]] eqn:Ea; [done|]. intros [= <- _].
    pose proof (IH (new_table None) t' q eq_refl Ea) as Ht'. apply typed_with_items; [done|]. apply typed_snoc; [done|].
    simpl. by rewrite Ht'.
Qed.

Lemma SawTableArray_typed n name code n' last : typed n = true -> SawTableArray n name = inr (code, n', last) -> typed n' = true.
Proof.
  unfold SawTableArray. intros Hn. destruct (negb _); [by intros [= _ <- _]|].
  destruct (saw_array (strsep_dot name) n) as [|[m p]] eqn:E; [done|]. intros [= _ <- _]. by eapply saw_array_typed.
Qed.

(** ** The actions *)

Definition tree (s : pst) : toml_node := toml_root (ps_b s).

(** The root of a well-typed tree. *)
Definition good (n : toml_node) : Prop := typed n = true /\ n_type n = TOML_ROOT.

Lemma update_at_good path x n n' : typed x = true -> good n -> update_at path (add_tail x) n = inr n' -> good n'.
Proof.
  intros Hx [Hn Ht] H. split; [exact (update_at_typed _ _ Hx _ _ Hn H)|]. rewrite <- Ht. destruct path as [|i path]; simpl in H.
  - unfold add_tail in H. destruct (items n); [done|]. by injection H as <-.
  - destruct (items n) as [|l]; [done|]. destruct (l !! i) as [c|]; [|done]. destruct (update_at path _ c); [done|]. by injection H as <-.
Qed.

Lemma saw_loop_type anc n s : saw_loop anc n = inr s -> n_type (saw_node s) = n_type n.
Proof.
  destruct anc as [|a anc]; cbn [saw_loop]; [by intros [= <-]|]. case_decide; [by intros [= <-]|].
  destruct (map_items n) as [|l]; [done|]. destruct (match find_item a l with Some _ => _ | None => _ end) as [[[i item] l'] new].
  destruct (saw_loop anc item) as [|[]]; try done; by intros [= <-].
Qed.

Lemma SawTable_good n name code n' last : good n -> SawTable n name = inr (code, n', last) -> good n'.
Proof.
  intros [Hn Ht] H. split; [exact (SawTable_typed _ _ _ _ _ Hn H)|]. rewrite <- Ht. unfold SawTable in H.
  destruct (saw_loop (strsep_dot name) n) as [|s] eqn:E; [done|]. apply saw_loop_type in E.
  destruct s as [m p t []|m]; simpl in *; try case_decide; by simplify_eq.
Qed.

Lemma SawTableArray_good n name code n' place : good n -> SawTableArray n name = inr (code, n', place) -> good n'.
Proof.
  intros [Hn Ht] H. split; [exact (SawTableArray_typed _ _ _ _ _ Hn H)|]. rewrite <- Ht. unfold SawTableArray in H.
  destruct (negb _); [by injection H as _ <- _|].
  destruct (saw_array (strsep_dot name) n) as [|[m p]] eqn:E; [done|]. injection H as _ <- _.
  destruct (strsep_dot name) as [|a anc]; cbn [saw_array] in E; [by injection E as <- <-|].
  destruct (map_items n) as [|l]; [done|]. destruct (find_item a l) as [[i item]|].
  - destruct (items item) as [|sub]; [done|]. destruct anc as [|b anc].
    + destruct (InsertAnonymousTable item) as [|[]]; [done|]. by injection E as <- <-.
    + destruct (last sub) as [tl|]; [|done]. destruct (saw_array (b :: anc) tl) as [|[]]; [done|]. by injection E as <- <-.
  - destruct (saw_array anc _) as [|[]]; [done|]. by injection E as <- <-.
Qed.

Definition res_typed (r : ares) : Prop :=
  match r with AGo s | AAgain s | AOut s => good (tree s) | ABad _ => True end.

Section actions.
Context (buf : bytes) (strtod : bytes -> Z).

Lemma malloc_root b : toml_root (malloc b).2 = toml_root b.
Proof. unfold malloc. by destruct (alloc b). Qed.

Lemma with_context_typed s k : (forall c n, res_typed (k c n)) -> res_typed (with_context s k).
Proof. unfold with_context. intros. destruct (context_stack _); [done|]. by destruct (node_at _ _). Qed.

Lemma add_to_context_typed x c s k : typed x = true -> good (tree s) ->
  (forall s', good (tree s') -> res_typed (k s')) -> res_typed (add_to_context x c s k).
Proof.
  unfold add_to_context. intros Hx Hs Hk. destruct (update_at _ _ _) as [|t] eqn:E; [done|]. apply Hk. eapply update_at_good; [exact Hx|exact Hs|exact E].
Qed.

Lemma push_context_typed path s k : good (tree s) ->
  (forall s', good (tree s') -> res_typed (k s')) -> res_typed (push_context path s k).
Proof.
  unfold push_context. intros Hs Hk. pose proof (malloc_root (ps_b s)) as Hm. destruct (malloc (ps_b s)) as [[] b]; [|done].
  apply Hk. unfold tree in *. simpl in *. congruence.
Qed.

Lemma after_value_typed s : good (tree s) -> res_typed (after_value s).
Proof. intros H. by apply with_context_typed. Qed.

Lemma set_list_type_root t b : toml_root (set_list_type t b) = toml_root b.
Proof. unfold set_list_type. by destruct (context_stack b). Qed.

Lemma malloc_typed (k : bool -> build -> ares) b : good (toml_root b) ->
  (forall ok b', good (toml_root b') -> res_typed (k ok b')) -> res_typed (let '(ok, b') := malloc b in k ok b').
Proof. intros Hb Hk. pose proof (malloc_root b) as Hm. destruct (malloc b) as [ok b']. apply Hk. simpl in Hm. congruence. Qed.

Lemma add_node_typed ty v s : typed (mk_node ty None v) = true -> good (tree s) -> res_typed (add_node_to_tree ty v s).
Proof.
  intros Hv Hs. unfold add_node_to_tree. apply with_context_typed. intros c n.
  assert (forall nm, typed (mk_node ty nm v) = true) as Hnm by (intros nm; exact Hv).
  assert (forall b nm, good (toml_root b) -> res_typed (add_to_context (mk_node ty nm v) c (upd_b (fun _ => b) s) after_value)) as Hadd.
  { intros b nm Hb. apply add_to_context_typed; [apply Hnm|exact Hb|apply after_value_typed]. }
  assert (res_typed (let '(ok, b) := malloc (ps_b s) in
    if negb ok then fbreak (upd_b (set_malloc_error true) (upd_b (fun _ => b) s))
    else match name b with NameFreed => ABad UseAfterFree | nm => add_to_context (mk_node ty (node_name nm) v) c (upd_b (fun _ => b) s) after_value end)) as Htab.
  { apply malloc_typed; [exact Hs|]. intros [] b Hb; [|exact Hb]. simpl. destruct (name b); [by apply Hadd..|done]. }
  assert (res_typed (if match list_type c with None => false | Some t => negb (bool_decide (t = ty)) end then failed s
    else let s1 := upd_b (set_list_type ty) s in let '(ok, b) := malloc (ps_b s1) in
      if negb ok then fbreak (upd_b (set_malloc_error true) (upd_b (fun _ => b) s1)) else add_to_context (mk_node ty None v) c (upd_b (fun _ => b) s1) after_value)) as Hlist.
  { destruct (match list_type c with None => false | Some t => _ end); [exact Hs|]. cbv zeta.
    apply malloc_typed; [simpl; rewrite set_list_type_root; exact Hs|]. intros [] b Hb; [|exact Hb]. by apply (Hadd b). }
  destruct (n_type n); first [exact Htab | exact Hlist].
Qed.

Lemma fret_typed s : good (tree s) -> res_typed (fret s).
Proof. intros H. unfold fret. by destruct (stack _). Qed.

Lemma put_typed c s : good (tree s) -> res_typed (put c s).
Proof. intros H. unfold put. by case_match. Qed.

Lemma saw_header_typed saw len s :
  (forall n name code n' last, good n -> saw n name = inr (code, n', last) -> good n') ->
  good (tree s) -> res_typed (saw_header buf saw len s).
Proof.
  intros Hsaw Hs. unfold saw_header, drop_table. apply with_context_typed. intros _ n.
  set (s1 := if bool_decide _ then POP_CONTEXT s else s).
  assert (good (toml_root (ps_b s1))) as Hs1 by (unfold s1; by case_bool_decide).
  apply malloc_typed; [exact Hs1|]. intros [] b Hb; [|done]. simpl.
  destruct (saw (toml_root b) _) as [|[[code t] last]] eqn:E; [done|]. pose proof (Hsaw _ _ _ _ _ Hb E) as Ht.
  destruct last as [path|]; [|exact Ht]. destruct (code =? 0); [|exact Ht]. by apply push_context_typed.
Qed.

Lemma do_saw_key_typed s : good (tree s) -> res_typed (do_saw_key buf s).
Proof.
  intros Hs. unfold do_saw_key. apply with_context_typed. intros c n.
  assert (res_typed match map_items n with
    | inl e => ABad e
    | inr l => match dup_key buf l (ts (ps_r s)) (Z.to_nat (namelen (ps_r s) + 1)) with
      | inl e => ABad e
      | inr true => failed s
      | inr false => match trim buf (Z.to_nat (ts (ps_r s) + namelen (ps_r s))) with
        | None => ABad OutOfBounds
        | Some e => let '(ok, b) := malloc (ps_b s) in
            let nm := if ok then NameStr (text_at buf (ts (ps_r s)) (e - ts (ps_r s) + 1)) else NameNull in
            AGo (mk_pst (ps_m s) (set_namelen (e - ts (ps_r s)) (ps_r s)) (set_name nm b))
        end end end) as H.
  { destruct (map_items n) as [|l]; [done|]. destruct (dup_key _ _ _ _) as [|[]]; [done|exact Hs|].
    destruct (trim _ _); [|done]. by apply malloc_typed. }
  destruct (n_type n); first [exact H | exact Hs].
Qed.

Lemma do_start_list_typed s : good (tree s) -> res_typed (do_start_list s).
Proof.
  intros Hs. unfold do_start_list. apply with_context_typed. intros c n.
  destruct (match list_type c with None => false | Some t => _ end); [exact Hs|].
  apply malloc_typed; [exact Hs|]. intros [] b Hb; [|exact Hb]. cbn [negb].
  assert (forall nm l, res_typed (add_to_context (mk_node TOML_LIST nm (VItems [])) c
    (upd_b (fun b => set_name NameNull (set_list_type TOML_LIST b)) (upd_b (fun _ => b) s)) (fun s => push_context (node c ++ [length (l : list toml_node)]) s AGo))) as H.
  { intros nm l. apply add_to_context_typed; [done|unfold tree; simpl; by rewrite set_list_type_root|]. intros s' Hs'. by apply push_context_typed. }
  destruct (name b), (items n); first [done | apply H].
Qed.

Lemma do_saw_inline_table_typed s : good (tree s) -> res_typed (do_saw_inline_table s).
Proof.
  intros Hs. unfold do_saw_inline_table. apply with_context_typed. intros c n.
  destruct (map_items n) as [|l]; [done|]. destruct (dup_table _ _) as [|[]]; [done|exact Hs|].
  apply malloc_typed; [exact Hs|]. intros [] b Hb; [|exact Hb]. cbn [negb]. destruct (name b); try done.
  apply malloc_typed; [exact Hb|]. intros ok b' Hb'. apply add_to_context_typed; [done|exact Hb'|].
  intros s' Hs'. apply push_context_typed; [exact Hs'|]. done.
Qed.

Lemma run_act_typed x fc s : good (tree s) -> res_typed (run_act buf strtod x fc s).
Proof.
  intros Hs. destruct x; cbn [run_act]; try exact Hs; try (by apply add_node_typed);
    try (by apply put_typed); try (by apply fret_typed); try (by apply after_value_typed).
  - unfold number_more. by case_match.
  - by apply do_saw_key_typed.
  - unfold do_saw_float. destruct (precision _); [|done]. case_match; [exact Hs|]. by apply add_node_typed.
  - unfold do_saw_string. case_match; [done|]. apply malloc_typed; [exact Hs|]. intros [] b Hb; [|exact Hb]. by apply add_node_typed.
  - by apply do_start_list_typed.
  - by apply do_saw_inline_table_typed.
  - apply saw_header_typed; [apply SawTable_good|exact Hs].
  - apply saw_header_typed; [apply SawTableArray_good|exact Hs].
  - unfold do_saw_utf16. destruct (u_strToUTF8 _ _) as [[]|]; [|done]. case_match; [done|]. by apply fret_typed.
Qed.

Lemma run_acts_typed xs fc : forall s, good (tree s) -> res_typed (run_acts buf strtod xs fc s).
Proof.
  induction xs as [|x xs IH]; intros s Hs; [exact Hs|]. simpl. pose proof (run_act_typed x fc s Hs) as Hx.
  destruct (run_act _ _ x fc s); [by apply IH|done..].
Qed.

Lemma exec_typed pe fuel : forall s s', good (tree s) -> exec buf strtod fuel pe s = Some (inr s') -> good (tree s').
Proof.
  induction fuel as [|fuel IH]; intros s s' Hs; [done|]. simpl.
  assert (match step buf strtod pe s with SNext s1 | SStop s1 => good (tree s1) | SBad _ => True end) as H.
  { unfold step. destruct (char_at _ _) as [fc|]; [|done]. destruct (cs (ps_m s) ≫= _) as [|m ms]; [exact Hs|].
    pose proof (run_acts_typed (merge (m :: ms)) fc (upd_m (set_cs (targets (m :: ms))) s) Hs) as Hr.
    destruct (run_acts _ _ _ _ _) as [s1|s1|s1|]; cbn [res_typed] in Hr; cbv zeta; [destruct (_ =? pe); exact Hr..|exact Hr|exact I]. }
  destruct (step buf strtod pe s) as [s1|s1|]; [by apply IH|by intros [= <-]|done].
Qed.
End actions.

Lemma toml_parse_good strtod answers fuel root root' buf buflen code : typed root = true ->
  toml_parse strtod answers fuel root buf buflen = Some (inr (code, root')) -> good root'.
Proof.
  intros Hroot H. unfold toml_parse in H. pose proof (malloc_root (mk_build NameNull [] root answers false false)) as Hm.
  destruct (malloc _) as [[] b]; simpl in H, Hm; [|done]. destruct (bool_decide (n_type root = TOML_ROOT)) eqn:Et; [|done].
  apply bool_decide_eq_true in Et. destruct (exec _ _ fuel _ _) as [[|s]|] eqn:E; try done. injection H as _ <-.
  apply exec_typed in E; [done|]. unfold tree, good. simpl. by rewrite Hm.
Qed.

(** C29: the types of the tree are right.  Whatever the text and the answers of
    [malloc], and whether the text is accepted or refused, in the tree that
    [toml_parse] leaves every node holds a value of the kind of its type, if that
    was so before, and its root is a root; so [toml_get], [toml_free] and the
    printers read no list where none is. *)
Theorem toml_parse_typed (strtod : bytes -> Z) (answers : list bool) (fuel : nat) (root root' : toml_node) (buf : bytes)
  (buflen : nat) (code : Z) (Hroot : typed root = true)
  (H : toml_parse strtod answers fuel root buf buflen = Some (inr (code, root'))) :
  typed root' = true /\ n_type root' = TOML_ROOT.
Proof. by eapply toml_parse_good. Qed.

Lemma toml_parse_typed_witness :
  typed (mk_node TOML_ROOT None (VItems [mk_node TOML_LIST (Some (lit "a")) (VItems [mk_node TOML_BOOLEAN None (VInteger 1)])])) = true /\
  TOML_ROOT = TOML_ROOT.
Proof.
  apply (toml_parse_typed (fun _ => 0) [] 100 toml_init
    (mk_node TOML_ROOT None (VItems [mk_node TOML_LIST (Some (lit "a")) (VItems [mk_node TOML_BOOLEAN None (VInteger 1)])]))
    (lit "a=[true]" ++ [x0a; x00]) 9 0); vm_compute; reflexivity.
Defined.
