(* ===== verification/TomlQuirks.v ===== *)
(** * Texts the TOML parser mistakes

    What [toml_parse] does with some texts that a reader of the TOML format would
    not expect: undefined behaviour, values that are refused or lost, and text that
    should be refused. *)

From stdpp Require Import base option numbers strings list.
From Stdlib Require Import Strings.Byte ZArith Lia.
From S2P Require Import Prelude Utils Toml TomlParse TomlText TomlLookup TomlTree.
Import Rl.
Local Open Scope Z_scope.

(** ** Strings and keys *)



(** A key that is the beginning of an earlier key of its table is refused as a
    duplicate: the names are compared with [strncmp] over the length of the new
    key.  So [listen] must come before [listen_backlog]. *)
Theorem toml_prefix_key (strtod : bytes -> Z) (more : bytes) (k rest : bytes) (v w : scalar) (ty : toml_type) (x : toml_value toml_node)
  (Hk : forallb bare (k ++ rest) = true) (Hne : k <> []) (Hv : scalar_ok v = true) (Hw : scalar_ok w = true)
  (Hx : scalar_value v = inr (ty, x)) :
  let ls := [mk_line [] (Entry (k ++ rest) v); mk_line [] (Entry k w)] in
  exists rounds, forall fuel, (rounds <= fuel)%nat ->
    toml_parse strtod [] fuel toml_init (text_of ls ++ x00 :: more) (length (text_of ls)) =
      Some (inr (1, mk_node TOML_ROOT None (VItems [mk_node ty (Some (k ++ rest)) x]))).
Proof.
  intros ls. destruct (toml_parse_text strtod more ls) as [n Hn].
  { unfold ls, line_ok. cbn [forallb indent what content_ok]. rewrite Hk, Hv, Hw. rewrite forallb_app in Hk. apply andb_true_iff in Hk as [-> _].
    rewrite !bool_decide_false; [done|done|]. by intros [-> ->]%app_eq_nil. }
  exists n. intros fuel Hf. rewrite (Hn fuel Hf). unfold ls. cbn -[scalar_value]. rewrite Hx. cbn -[scalar_value].
  unfold map_items. cbn. replace (unset_name _) with false by (symmetry; apply (named_set _ (k ++ rest)); done).
  cbn. unfold begins. cbn. rewrite take_app_length. by rewrite bool_decide_true.
Qed.

Lemma toml_prefix_key_witness :
  let ls := [mk_line [] (Entry (lit "listen_backlog") (Num None (lit "128"))); mk_line [] (Entry (lit "listen") (Str (Raw <$> lit "p.sock")))] in
  exists rounds, forall fuel, (rounds <= fuel)%nat ->
    toml_parse (fun _ => 0) [] fuel toml_init (text_of ls ++ [x00]) (length (text_of ls)) =
      Some (inr (1, mk_node TOML_ROOT None (VItems [mk_node TOML_INT (Some (lit "listen_backlog")) (VInteger 128)]))).
Proof.
  apply (toml_prefix_key (fun _ => 0) [] (lit "listen") (lit "_backlog") (Num None (lit "128")) (Str (Raw <$> lit "p.sock")) TOML_INT (VInteger 128));
    first [reflexivity | discriminate].
Defined.

(** ** Single texts *)

(** The result for a text, followed by a zero. *)
Definition result (t : bytes) : option (fault + (Z * toml_node)) :=
  toml_parse (fun _ => 0) [] 500 toml_init (t ++ [x00]) (length t).
Definition root_of (l : list toml_node) : toml_node := mk_node TOML_ROOT None (VItems l).
Definition int_of (k : string) (z : Z) : toml_node := mk_node TOML_INT (Some (lit k)) (VInteger z).

(** A table's name in single quotes makes two tables; the keys go to the one with
    the quote in its name. *)
Example quoted_table : result (lit "['a']" ++ [NL] ++ lit "b = 1" ++ [NL]) =
  Some (inr (0, root_of [mk_node TOML_TABLE (Some (lit "a")) (VItems []); mk_node TOML_TABLE (Some (lit "a'")) (VItems [int_of "b" 1])])).
Proof. vm_compute. reflexivity. Qed.

(** A list in a list: the text is accepted, but the inner list's name is not set,
    and [toml_free] frees it. *)
Definition nested : toml_node :=
  root_of [mk_node TOML_LIST (Some (lit "a")) (VItems [mk_node TOML_LIST None (VItems [mk_node TOML_INT None (VInteger 1)])])].
Example nested_list : result (lit "a = [[1]]" ++ [NL]) = Some (inr (0, nested)) /\ toml_free nested = inl Indeterminate.
Proof. split; vm_compute; reflexivity. Qed.

(** A table in a list: [strcmp] with a name that is NULL, or [strdup] of it. *)
Example table_in_list : result (lit "a = [{ b = 1 }]" ++ [NL]) = Some (inl NullDeref).
Proof. vm_compute. reflexivity. Qed.

(** An exponent without a fraction: the precision was never set. *)
Example exponent_only : result (lit "a = 1e5" ++ [NL]) = Some (inl Indeterminate).
Proof. vm_compute. reflexivity. Qed.

(** A surrogate: [outLen] is not set when [u_strToUTF8] refuses it. *)
Example surrogate : result (lit "a = " ++ [DQ; BSL] ++ lit "uD800" ++ [DQ; NL]) = Some (inl Indeterminate).
Proof. vm_compute. reflexivity. Qed.

(** A number beyond 63 bits. *)
Example big_number : result (lit "a = 9223372036854775808" ++ [NL]) = Some (inl SignedOverflow).
Proof. vm_compute. reflexivity. Qed.

(** In a string over several lines the letter of an escape is skipped: of [\nb] the
    [n] is dropped and [b] is taken for the escape. *)
Example multi_line_escape : result (lit "a = " ++ [DQ; DQ; DQ; BSL] ++ lit "nb" ++ [DQ; DQ; DQ; NL]) =
  Some (inr (0, root_of [mk_node TOML_STRING (Some (lit "a")) (VString [x08])])).
Proof. vm_compute. reflexivity. Qed.

(** An offset of 330 minutes is kept in eight bits. *)
Example offset_cut : exists epoch, result (lit "a = 1979-05-27T07:32:00+05:30" ++ [NL]) =
  Some (inr (0, root_of [mk_node TOML_DATE (Some (lit "a")) (VTime epoch (-1) false 74 false)])).
Proof. eexists. vm_compute. reflexivity. Qed.

(** A sign alone is a number, and a line can hold two keys. *)
Example sign_only : result (lit "a = -" ++ [NL]) = Some (inr (0, root_of [int_of "a" 0])).
Proof. vm_compute. reflexivity. Qed.
Example two_keys : result (lit "a = 1 b = 2" ++ [NL]) = Some (inr (0, root_of [int_of "a" 1; int_of "b" 2])).
Proof. vm_compute. reflexivity. Qed.

(** The byte after the text is read: a text that fills its memory is read past the
    end. *)
Example byte_after : toml_parse (fun _ => 0) [] 500 toml_init (lit "a = 1" ++ [NL]) 6 = Some (inl OutOfBounds).
Proof. vm_compute. reflexivity. Qed.
