(* ===== verification/Config.v ===== *)
(** * The configuration: pmilter_config.c

    [pmilter_config] and how it is read from the TOML tree: the typed getters,
    the handler paths, [pmilter_config_parse], and [pmilter_toml_load] with
    the file system's answers as an argument.  The functions run in any state
    that has a [malloc] ([HasMalloc]). *)

From stdpp Require Import base option numbers strings list.
From Stdlib Require Import Strings.Byte ZArith Lia.
From S2P Require Import Prelude Mfdef Utils Toml TomlParse.
Local Open Scope cM_scope.
Local Open Scope Z_scope.

(** A state in which memory can be asked for. *)
Class HasMalloc (W : Type) := malloc : cM W bool.

#[global] Instance world_malloc {P S} : HasMalloc (world P S) := malloc_ok.

(** The phases a session handler can be set for, and those of the server. *)
Inductive hook :=
  | Hconnect | Hhelo | Henvfrom | Henvrcpt | Hheader | Heoh | Hbody | Heom
  | Habort | Hclose | Hunknown | Hdata.
Inductive server_hook := Hpostconfig | Hmaster_exit.

#[global] Instance hook_eq_dec : EqDecision hook.
Proof. solve_decision. Defined.

Definition hook_name (h : hook) : bytes :=
  lit match h with
      | Hconnect => "connect" | Hhelo => "helo" | Henvfrom => "envfrom" | Henvrcpt => "envrcpt"
      | Hheader => "header" | Heoh => "eoh" | Hbody => "body" | Heom => "eom"
      | Habort => "abort" | Hclose => "close" | Hunknown => "unknown" | Hdata => "data"
      end.

Definition all_hooks : list hook :=
  [Hconnect; Hhelo; Henvfrom; Henvrcpt; Hheader; Heoh; Hbody; Heom; Habort; Hclose; Hunknown; Hdata].

(** [struct pmilter_config_t], less the mruby state and code of the two server
    handlers, which the start-up code keeps. *)
Record pmilter_config := mk_config {
  log_level : Z;
  enable_mruby_handler : Z;
  timeout : Z;
  listen : bytes;
  listen_backlog : Z;
  debug : Z;
  min_worker : Z;
  server_handler_path : server_hook -> option bytes;
  handler_path : hook -> option bytes
}.

(** A value stored in the bit field [int enable_mruby_handler : 1]: the one
    bit is the sign. *)
Definition bit_field1 (v : Z) : Z := if Z.odd v then -1 else 0.

Section config.
Context {W : Type} {HM : HasMalloc W}.

Definition lift {A} (r : fault + A) : cM W A :=
  match r with inl f => undef f | inr a => ret a end.

Definition get_node (root : toml_node) (key : bytes) : cM W (option toml_node) :=
  let* dup := malloc in lift (toml_get dup root key).

(** [!toml_type(node) == type]: the negation is that of the type. *)
Definition not_type_is (t expected : toml_type) : bool :=
  (if type_num t =? 0 then 1 else 0) =? type_num expected.

(** [node->value.integer] and [node->value.string] *)
Definition value_integer (n : toml_node) : cM W Z :=
  match n_value n with VInteger z => ret z | _ => undef BadCast end.
Definition value_string (n : toml_node) : cM W bytes :=
  match n_value n with VString s => ret s | _ => undef BadCast end.

(** The common part of the three getters: the node, after the test of its type. *)
Definition get_typed (root : toml_node) (key : bytes) (expected : toml_type) : cM W toml_node :=
  let* node := get_node root key in
  let* t := lift (toml_type_of node) in
  if not_type_is t expected then exit 1
  else deref NullDeref node.

Definition pmilter_config_get_integer (root : toml_node) (key : bytes) : cM W Z :=
  let* node := get_typed root key TOML_INT in
  let* z := value_integer node in
  ret (s32 z).

Definition pmilter_config_get_string (root : toml_node) (key : bytes) : cM W bytes :=
  let* node := get_typed root key TOML_STRING in
  value_string node.

Definition pmilter_config_get_bool (root : toml_node) (key : bytes) : cM W Z :=
  let* node := get_typed root key TOML_BOOLEAN in
  let* z := value_integer node in
  ret (if z =? 0 then 0 else 1).

Definition pmilter_config_get_log_level (root : toml_node) : cM W Z :=
  let* node := get_node root (lit "server.log_level") in
  match node with
  | None => ret PMILTER_LOG_WARN
  | Some n => let* s := value_string n in ret (pmilter_get_log_level s)
  end.

(** The macros [PMILTER_CONFIG_HANDLER_CONFIG_VALUE] and
    [PMILTER_SESSION_HANDLER_CONFIG_VALUE]: the path under a key, or NULL. *)
Definition get_path (root : toml_node) (key : bytes) : cM W (option bytes) :=
  let* node := get_node root key in
  match node with
  | None => ret None
  | Some n => let* s := value_string n in ret (Some s)
  end.

Definition server_key (h : server_hook) : bytes :=
  lit match h with
      | Hpostconfig => "handler.config.mruby_postconfig_handler"
      | Hmaster_exit => "handler.config.mruby_master_exit_handler"
      end.
Definition session_key (h : hook) : bytes :=
  lit "handler.session.mruby_" ++ hook_name h ++ lit "_handler".

Definition upd {A} `{EqDecision A} {B} (f : A -> B) (a : A) (b : B) : A -> B :=
  fun x => if decide (x = a) then b else f x.

#[global] Instance server_hook_eq_dec : EqDecision server_hook.
Proof. solve_decision. Defined.

Definition set_server_path (c : pmilter_config) (h : server_hook) (p : option bytes) : pmilter_config :=
  mk_config (log_level c) (enable_mruby_handler c) (timeout c) (listen c) (listen_backlog c) (debug c)
    (min_worker c) (upd (server_handler_path c) h p) (handler_path c).
Definition set_path (c : pmilter_config) (h : hook) (p : option bytes) : pmilter_config :=
  mk_config (log_level c) (enable_mruby_handler c) (timeout c) (listen c) (listen_backlog c) (debug c)
    (min_worker c) (server_handler_path c) (upd (handler_path c) h p).

(** The session handlers one after the other. *)
Fixpoint session_paths (c : pmilter_config) (root : toml_node) (hs : list hook) : cM W pmilter_config :=
  match hs with
  | [] => ret c
  | h :: r => let* p := get_path root (session_key h) in session_paths (set_path c h p) root r
  end.

Definition pmilter_config_mruby_handler (c : pmilter_config) (root : toml_node) : cM W pmilter_config :=
  let* p := get_path root (server_key Hpostconfig) in
  let c := set_server_path c Hpostconfig p in
  let* p := get_path root (server_key Hmaster_exit) in
  let c := set_server_path c Hmaster_exit p in
  session_paths c root all_hooks.

(** [malloc] and the two fields that are set; the others have no value yet
    and are all written by [pmilter_config_parse] before they are read. *)
Definition pmilter_config_init : cM W (option pmilter_config) :=
  let* ok := malloc in
  if ok then ret (Some (mk_config PMILTER_LOG_WARN 0 0 [] 0 0 0 (fun _ => None) (fun _ => None)))
  else ret None.

Definition pmilter_config_parse (config : option pmilter_config) (root : toml_node) : cM W pmilter_config :=
  let* ll := pmilter_config_get_log_level root in
  let* c := deref NullDeref config in
  let* en := pmilter_config_get_bool root (lit "server.mruby_handler") in
  let* to := pmilter_config_get_integer root (lit "server.timeout") in
  let* ls := pmilter_config_get_string root (lit "server.listen") in
  let* bl := pmilter_config_get_integer root (lit "server.listen_backlog") in
  let* db := pmilter_config_get_integer root (lit "server.debug") in
  let* mw := pmilter_config_get_integer root (lit "server.min_worker") in
  pmilter_config_mruby_handler
    (mk_config ll (bit_field1 en) to ls bl db mw (server_handler_path c) (handler_path c)) root.

(** ** Loading the file *)

Definition EX_USAGE : Z := 64.
Definition EX_UNAVAILABLE : Z := 69.
Definition EX_SOFTWARE : Z := 70.
Definition EXIT_FAILURE : Z := 1.

(** What the kernel says about a path: [open] fails; [fstat] fails; or the
    file has this content, and [mmap] works or not.  [mmap] reports failure
    with [MAP_FAILED], which is not NULL, and always fails for an empty
    file. *)
Inductive file_state :=
  | NoOpen
  | NoStat
  | Content (text : bytes) (mmap_ok : bool).

(** What can be read at [toml_content]: the file's bytes and, up to the end of
    the page (4096 bytes), zeros; nothing at MAP_FAILED. *)
Definition toml_content (text : bytes) (mmap_ok : bool) : bytes :=
  if mmap_ok && negb (bool_decide (text = []))
  then text ++ replicate (Z.to_nat ((- Z.of_nat (length text)) mod 4096)) x00
  else [].

(** [strtod], and the answers of [malloc] inside [toml_parse].  Its machine is
    given rounds that are enough for it to stop ([toml_parse_total]), so that the
    case in which it is still running does not occur.  The size of the file is
    below 2^31. *)
Context (strtod : bytes -> Z) (answers : list bool).
Definition rounds_for (text : bytes) : nat := 6 * length text + 10.

Definition pmilter_toml_load (fs : bytes -> file_state) (file : option bytes) : cM W toml_node :=
  match file with
  | None => exit EX_USAGE
  | Some f =>
      match fs f with
      | NoOpen => exit 1
      | NoStat => exit EXIT_FAILURE
      | Content text mmap_ok =>
          (* toml_content is never NULL: the test after mmap does nothing *)
          let* ok := malloc in
          if negb ok then exit EXIT_FAILURE
          else
            match toml_parse strtod answers (rounds_for text) toml_init (toml_content text mmap_ok) (length text) with
            | None => fun w => Blocked w
            | Some (inl f) => undef f
            | Some (inr (code, root)) => if code =? 0 then ret root else exit EXIT_FAILURE
            end
      end
  end.

End config.

(** ** Properties *)

(** The value stored under a key. *)
Definition has (root : toml_node) (key : bytes) (v : toml_value toml_node) : Prop :=
  exists n, toml_get true root key = inr (Some n) /\ n_value n = v.

(** A string under a key that may be missing. *)
Definition opt_string (root : toml_node) (key : bytes) (s : option bytes) : Prop :=
  match s with None => toml_get true root key = inr None | Some s => has root key (VString s) end.

Section props.
Context {W : Type} {HM : HasMalloc W}.
Context (Hmem : forall w : W, malloc w = Done true w).

Lemma get_node_run root key n (w : W) :
  toml_get true root key = inr n -> get_node root key w = Done n w.
Proof. intros H. unfold get_node. rewrite (bind_run _ _ _ _ _ (Hmem w)), H. done. Qed.

(** The test of the type never fails: its left side is a truth value. *)
Lemma not_type_is_false t e : e <> TOML_ROOT -> not_type_is t e = false.
Proof. by destruct t, e. Qed.

Lemma get_typed_run root key e n (w : W) : e <> TOML_ROOT ->
  toml_get true root key = inr (Some n) -> get_typed root key e w = Done n w.
Proof.
  intros He H. unfold get_typed. rewrite (bind_run _ _ _ _ _ (get_node_run _ _ _ w H)). simpl.
  unfold bind, ret. by rewrite not_type_is_false.
Qed.

Lemma get_integer_run root key z (w : W) :
  has root key (VInteger z) -> pmilter_config_get_integer root key w = Done (s32 z) w.
Proof.
  intros (n & Hn & Hv). unfold pmilter_config_get_integer.
  rewrite (bind_run _ _ _ _ _ (get_typed_run root key TOML_INT n w ltac:(done) Hn)).
  unfold value_integer. by rewrite Hv.
Qed.

Lemma get_bool_run root key z (w : W) :
  has root key (VInteger z) -> pmilter_config_get_bool root key w = Done (if z =? 0 then 0 else 1) w.
Proof.
  intros (n & Hn & Hv). unfold pmilter_config_get_bool.
  rewrite (bind_run _ _ _ _ _ (get_typed_run root key TOML_BOOLEAN n w ltac:(done) Hn)).
  unfold value_integer. by rewrite Hv.
Qed.

Lemma get_string_run root key s (w : W) :
  has root key (VString s) -> pmilter_config_get_string root key w = Done s w.
Proof.
  intros (n & Hn & Hv). unfold pmilter_config_get_string.
  rewrite (bind_run _ _ _ _ _ (get_typed_run root key TOML_STRING n w ltac:(done) Hn)).
  unfold value_string. by rewrite Hv.
Qed.

Lemma get_path_run root key p (w : W) : opt_string root key p -> get_path root key w = Done p w.
Proof.
  unfold get_path. destruct p as [s|]; simpl.
  - intros (n & Hn & Hv). rewrite (bind_run _ _ _ _ _ (get_node_run _ _ _ w Hn)).
    unfold value_string. by rewrite Hv.
  - intros Hn. by rewrite (bind_run _ _ _ _ _ (get_node_run _ _ _ w Hn)).
Qed.

Lemma get_log_level_run root s (w : W) : opt_string root (lit "server.log_level") s ->
  pmilter_config_get_log_level root w =
    Done (match s with None => PMILTER_LOG_WARN | Some s => pmilter_get_log_level s end) w.
Proof.
  unfold pmilter_config_get_log_level. destruct s as [s|]; cbn [opt_string].
  - intros (n & Hn & Hv). rewrite (bind_run _ _ _ _ _ (get_node_run _ _ _ w Hn)).
    unfold value_string. by rewrite Hv.
  - intros Hn. by rewrite (bind_run _ _ _ _ _ (get_node_run _ _ _ w Hn)).
Qed.

Lemma session_paths_run root path hs : forall c (w : W),
  (forall h, opt_string root (session_key h) (path h)) ->
  exists c', session_paths c root hs w = Done c' w /\
    (forall h, (h ∈ hs -> handler_path c' h = path h) /\ (h ∉ hs -> handler_path c' h = handler_path c h)) /\
    server_handler_path c' = server_handler_path c /\
    (log_level c', enable_mruby_handler c', timeout c', listen c', listen_backlog c', debug c', min_worker c') =
    (log_level c, enable_mruby_handler c, timeout c, listen c, listen_backlog c, debug c, min_worker c).
Proof.
  induction hs as [|h r IH]; intros c w Hp; simpl.
  { exists c. split; [done|]. split; [|done]. intros x. split; [|done]. by intros ?%elem_of_nil. }
  rewrite (bind_run _ _ _ _ _ (get_path_run _ _ _ w (Hp h))).
  destruct (IH (set_path c h (path h)) w Hp) as (c' & Hrun & Hh & Hs & He). exists c'.
  split; [done|]. split; [|by rewrite Hs].
  intros x. destruct (Hh x) as [Hin Hout]. rewrite elem_of_cons. simpl in Hout. unfold upd in Hout.
  destruct (decide (x ∈ r)); [naive_solver|]. destruct (decide (x = h)); naive_solver.
Qed.

Lemma mruby_handler_run root spath path c (w : W) :
  (forall h, opt_string root (server_key h) (spath h)) ->
  (forall h, opt_string root (session_key h) (path h)) ->
  exists c', pmilter_config_mruby_handler c root w = Done c' w /\
    (forall h, server_handler_path c' h = spath h) /\ (forall h, handler_path c' h = path h) /\
    (log_level c', enable_mruby_handler c', timeout c', listen c', listen_backlog c', debug c', min_worker c') =
    (log_level c, enable_mruby_handler c, timeout c, listen c, listen_backlog c, debug c, min_worker c).
Proof.
  intros Hs Hp. unfold pmilter_config_mruby_handler.
  rewrite (bind_run _ _ _ _ _ (get_path_run _ _ _ w (Hs Hpostconfig))). cbv zeta.
  rewrite (bind_run _ _ _ _ _ (get_path_run _ _ _ w (Hs Hmaster_exit))).
  match goal with |- context [session_paths ?c0 _ _ _] =>
    destruct (session_paths_run root path all_hooks c0 w Hp) as (c' & -> & Hh & Hsv & He) end.
  exists c'. split; [done|]. split; [intros []; by rewrite Hsv|]. split; [|done].
  intros h. apply Hh. destruct h; repeat (apply list_elem_of_here || apply list_elem_of_further).
Qed.

End props.

(** With memory for the keys and a tree that holds values of the right
    kind, [pmilter_config_parse] gives exactly the configuration of the file:
    the numbers cut to [int], the level by name with [warn] as the default,
    the handler flag as a truth value, and for each of the two server and the
    twelve session phases the path set for it, or NULL. *)
Theorem config_parse_exact {W} {HM : HasMalloc W} (w : W) (root : toml_node) (c0 : pmilter_config)
  (level : option bytes) (enable to backlog dbg workers : Z) (sock : bytes)
  (spath : server_hook -> option bytes) (path : hook -> option bytes)
  (Hmem : forall w : W, malloc w = Done true w)
  (Hlevel : opt_string root (lit "server.log_level") level)
  (Henable : has root (lit "server.mruby_handler") (VInteger enable))
  (Hto : has root (lit "server.timeout") (VInteger to))
  (Hsock : has root (lit "server.listen") (VString sock))
  (Hbacklog : has root (lit "server.listen_backlog") (VInteger backlog))
  (Hdbg : has root (lit "server.debug") (VInteger dbg))
  (Hworkers : has root (lit "server.min_worker") (VInteger workers))
  (Hspath : forall h, opt_string root (server_key h) (spath h))
  (Hpath : forall h, opt_string root (session_key h) (path h)) :
  exists c, pmilter_config_parse (Some c0) root w = Done c w /\
    log_level c = match level with None => PMILTER_LOG_WARN | Some s => pmilter_get_log_level s end /\
    (enable_mruby_handler c <> 0 <-> enable <> 0) /\
    timeout c = s32 to /\ listen c = sock /\ listen_backlog c = s32 backlog /\ debug c = s32 dbg /\
    min_worker c = s32 workers /\
    (forall h, server_handler_path c h = spath h) /\ (forall h, handler_path c h = path h).
Proof.
  unfold pmilter_config_parse.
  rewrite (bind_run _ _ _ _ _ (get_log_level_run Hmem root level w Hlevel)).
  rewrite (bind_run (deref NullDeref (Some c0)) _ w c0 w eq_refl).
  rewrite (bind_run _ _ _ _ _ (get_bool_run Hmem _ _ _ w Henable)).
  rewrite (bind_run _ _ _ _ _ (get_integer_run Hmem _ _ _ w Hto)).
  rewrite (bind_run _ _ _ _ _ (get_string_run Hmem _ _ _ w Hsock)).
  rewrite (bind_run _ _ _ _ _ (get_integer_run Hmem _ _ _ w Hbacklog)).
  rewrite (bind_run _ _ _ _ _ (get_integer_run Hmem _ _ _ w Hdbg)).
  rewrite (bind_run _ _ _ _ _ (get_integer_run Hmem _ _ _ w Hworkers)).
  match goal with |- context [pmilter_config_mruby_handler ?c1 _ _] =>
    destruct (mruby_handler_run Hmem root spath path c1 w Hspath Hpath) as (c & -> & Hs & Hh & He) end.
  exists c. split; [done|]. injection He as -> -> -> -> -> -> ->. cbn.
  split; [done|]. split; [|done]. by destruct (Z.eqb_spec enable 0) as [->|].
Qed.

(** A state with nothing in it and memory at all times. *)
#[global] Instance unit_malloc : HasMalloc unit := ret true.

Definition str_node (k : string) (v : string) : toml_node := mk_node TOML_STRING (Some (lit k)) (VString (lit v)).
Definition int_node (k : string) (z : Z) : toml_node := mk_node TOML_INT (Some (lit k)) (VInteger z).
Definition table_node (k : string) (l : list toml_node) : toml_node := mk_node TOML_TABLE (Some (lit k)) (VItems l).

(** Part of the pmilter.conf of the repository. *)
Definition sample_conf : toml_node :=
  mk_node TOML_ROOT None (VItems [
    table_node "server" [str_node "listen" "pmilter.sock"; int_node "timeout" 7210; str_node "log_level" "notice";
      mk_node TOML_BOOLEAN (Some (lit "mruby_handler")) (VInteger 1);
      int_node "listen_backlog" 128; int_node "debug" 0; int_node "min_worker" 32];
    table_node "handler" [
      table_node "config" [str_node "mruby_postconfig_handler" "handler/postconfig.rb"];
      table_node "session" [str_node "mruby_helo_handler" "handler/helo.rb"]]]).

Definition sample_spath (h : server_hook) : option bytes :=
  match h with Hpostconfig => Some (lit "handler/postconfig.rb") | Hmaster_exit => None end.
Definition sample_path (h : hook) : option bytes :=
  match h with Hhelo => Some (lit "handler/helo.rb") | _ => None end.

Lemma config_parse_exact_witness :
  exists c, pmilter_config_parse (Some (mk_config 4 0 0 [] 0 0 0 (fun _ => None) (fun _ => None))) sample_conf tt = Done c tt /\
    log_level c = 5 /\ timeout c = 7210 /\ handler_path c Hhelo = Some (lit "handler/helo.rb").
Proof.
  destruct (config_parse_exact tt sample_conf (mk_config 4 0 0 [] 0 0 0 (fun _ => None) (fun _ => None))
              (Some (lit "notice")) 1 7210 128 0 32 (lit "pmilter.sock") sample_spath sample_path)
    as (c & Hr & Hl & _ & Ht & _ & _ & _ & _ & _ & Hp).
  - done.
  - eexists. split; reflexivity.
  - eexists. split; reflexivity.
  - eexists. split; reflexivity.
  - eexists. split; reflexivity.
  - eexists. split; reflexivity.
  - eexists. split; reflexivity.
  - eexists. split; reflexivity.
  - intros []; [eexists; split; reflexivity|reflexivity].
  - intros []; first [reflexivity | eexists; split; reflexivity].
  - exists c. split; [exact Hr|]. split; [exact Hl|]. split; [exact Ht|]. exact (Hp Hhelo).
Defined.

(** The getters' test of the type has no effect: no tree makes them stop
    with an error.  A key that is missing makes them read through NULL, and a
    value of another kind is taken for one of the kind they want. *)
Theorem config_types_unchecked {W} {HM : HasMalloc W} (w : W) (root : toml_node) (key : bytes)
  (Hmem : forall w : W, malloc w = Done true w) :
  (forall code w', pmilter_config_get_integer root key w <> Exited code w') /\
  (forall code w', pmilter_config_get_string root key w <> Exited code w') /\
  (forall code w', pmilter_config_get_bool root key w <> Exited code w') /\
  (toml_get true root key = inr None -> pmilter_config_get_integer root key w = Undef NullDeref w) /\
  (forall s, has root key (VString s) -> pmilter_config_get_integer root key w = Undef BadCast w) /\
  (forall z, has root key (VInteger z) -> pmilter_config_get_string root key w = Undef BadCast w).
Proof.
  assert (forall e, e <> TOML_ROOT -> match toml_get true root key with
    | inl f => get_typed root key e w = Undef f w
    | inr None => get_typed root key e w = Undef NullDeref w
    | inr (Some n) => get_typed root key e w = Done n w end) as Ht.
  { intros e He. destruct (toml_get true root key) as [f|[n|]] eqn:E.
    - unfold get_typed, get_node. unfold bind at 1. rewrite (bind_run _ _ _ _ _ (Hmem w)), E. done.
    - by apply (get_typed_run Hmem).
    - unfold get_typed. rewrite (bind_run _ _ _ _ _ (get_node_run Hmem _ _ _ w E)). done. }
  pose proof (Ht TOML_INT ltac:(done)) as Hi. pose proof (Ht TOML_STRING ltac:(done)) as Hs.
  pose proof (Ht TOML_BOOLEAN ltac:(done)) as Hb. clear Ht.
  unfold pmilter_config_get_integer, pmilter_config_get_string, pmilter_config_get_bool, bind,
    value_integer, value_string, has.
  destruct (toml_get true root key) as [f|[n|]]; rewrite Hi, Hs, Hb;
    repeat split; intros; try done; try (by destruct (n_value n)); try naive_solver.
  - destruct H as (m & [= <-] & ->). done.
  - destruct H as (m & [= <-] & ->). done.
Qed.

Lemma config_types_unchecked_witness :
  pmilter_config_get_integer sample_conf (lit "server.listen") tt = Undef BadCast tt.
Proof.
  destruct (config_types_unchecked tt sample_conf (lit "server.listen")) as (_ & _ & _ & _ & H & _); [done|].
  apply (H (lit "pmilter.sock")). eexists. split; reflexivity.
Defined.
