(* ===== verification/ConfigFile.v ===== *)
(** * From the text of the file to the configuration

    [pmilter_toml_load] with the parser of libtoml, and [pmilter_config_parse] on
    its tree: the configuration is the one the lines of the file say. *)

From stdpp Require Import base option numbers strings list.
From Stdlib Require Import Strings.Byte ZArith Lia.
From S2P Require Import Prelude Mfdef Utils Toml TomlParse TomlMachine TomlText TomlLookup Config.
Local Open Scope cM_scope.
Local Open Scope Z_scope.

(** The file, its tree, and the configuration made from it. *)
Definition read_config {W} {HM : HasMalloc W} (strtod : bytes -> Z) (fs : bytes -> file_state) (file : bytes)
    : cM W pmilter_config :=
  let* root := pmilter_toml_load strtod [] fs (Some file) in
  let* c := pmilter_config_init in
  pmilter_config_parse c root.

(** A line of the file has the dotted key, with that number (or truth value) or
    string. *)
Definition says (ls : list line) (key : bytes) (x : toml_value toml_node) : Prop :=
  exists k v ty, (key, (k, v)) ∈ entries None ls /\ scalar_value v = inr (ty, x).

(** A string that may be missing. *)
Definition may_say (ls : list line) (tree : toml_node) (key : bytes) (s : option bytes) : Prop :=
  match s with Some s => says ls key (VString s) | None => toml_get true tree key = inr None end.

Section props.
Context {W : Type} {HM : HasMalloc W} (ls : list line) (tree : toml_node).
Context (Hok : forallb line_ok ls = true) (Hacc : interp toml_init None ls = inr (0, tree)).

Lemma says_has key x : says ls key x -> has tree key x.
Proof. intros (k & v & ty & Hin & Hv). eexists. split; [by eapply entry_found|done]. Qed.

Lemma may_say_opt key s : may_say ls tree key s -> opt_string tree key s.
Proof. destruct s; [apply says_has|done]. Qed.

(** The mapped file: a byte of the last page follows the text. *)
Lemma toml_content_more text : (Z.of_nat (length text)) mod 4096 <> 0 ->
  exists more, toml_content text true = text ++ x00 :: more.
Proof.
  intros H. unfold toml_content. rewrite bool_decide_false by (by intros ->). simpl.
  pose proof (Z.mod_pos_bound (- Z.of_nat (length text)) 4096 ltac:(lia)).
  assert ((- Z.of_nat (length text)) mod 4096 <> 0) as Hne.
  { intros E. apply H. apply Z.mod_divide; [lia|]. apply Z.mod_divide in E; [|lia]. by apply Z.divide_opp_r. }
  destruct (Z.to_nat ((- Z.of_nat (length text)) mod 4096)) as [|n] eqn:En; [lia|]. by exists (replicate n x00).
Qed.

Lemma load_run strtod fs file w :
  (forall w : W, malloc w = Done true w) -> fs file = Content (text_of ls) true ->
  (Z.of_nat (length (text_of ls))) mod 4096 <> 0 ->
  pmilter_toml_load strtod [] fs (Some file) w = Done tree w.
Proof.
  intros Hmem Hfs Hpage. unfold pmilter_toml_load. rewrite Hfs.
  rewrite (bind_run _ _ _ _ _ (Hmem w)). simpl. destruct (toml_content_more _ Hpage) as [more ->].
  destruct (toml_parse_stops strtod [] toml_init (text_of ls ++ x00 :: more) (length (text_of ls)) (rounds_for (text_of ls))) as [r Hp]; [done|].
  pose proof (toml_parse_interp _ _ _ _ _ Hok Hp) as Hi. rewrite Hp, Hi, Hacc. done.
Qed.
End props.

(** C23: the file determines the configuration.  Let a file of lines, whose size is
    not a multiple of the page size, be accepted by the parser and name the
    required settings.  With memory, pmilter's start-up reads
    it to the end and makes the configuration the lines say: the numbers cut to
    [int], the log level by its name or [warn], and the path of each handler, or
    NULL. *)
Theorem config_of_file {W} {HM : HasMalloc W} (w : W) (strtod : bytes -> Z) (fs : bytes -> file_state) (file : bytes)
  (ls : list line) (tree : toml_node)
  (level : option bytes) (enable to backlog dbg workers : Z) (sock : bytes)
  (spath : server_hook -> option bytes) (path : hook -> option bytes)
  (Hmem : forall w : W, malloc w = Done true w)
  (Hfs : fs file = Content (text_of ls) true) (Hok : forallb line_ok ls = true)
  (Hpage : (Z.of_nat (length (text_of ls))) mod 4096 <> 0)
  (Hacc : interp toml_init None ls = inr (0, tree))
  (Hlevel : may_say ls tree (lit "server.log_level") level)
  (Henable : says ls (lit "server.mruby_handler") (VInteger enable))
  (Hto : says ls (lit "server.timeout") (VInteger to))
  (Hsock : says ls (lit "server.listen") (VString sock))
  (Hbacklog : says ls (lit "server.listen_backlog") (VInteger backlog))
  (Hdbg : says ls (lit "server.debug") (VInteger dbg))
  (Hworkers : says ls (lit "server.min_worker") (VInteger workers))
  (Hspath : forall h, may_say ls tree (server_key h) (spath h))
  (Hpath : forall h, may_say ls tree (session_key h) (path h)) :
  exists c, read_config strtod fs file w = Done c w /\
    log_level c = match level with None => PMILTER_LOG_WARN | Some s => pmilter_get_log_level s end /\
    (enable_mruby_handler c <> 0 <-> enable <> 0) /\
    timeout c = s32 to /\ listen c = sock /\ listen_backlog c = s32 backlog /\ debug c = s32 dbg /\
    min_worker c = s32 workers /\
    (forall h, server_handler_path c h = spath h) /\ (forall h, handler_path c h = path h).
Proof.
  unfold read_config. rewrite (bind_run _ _ _ _ _ (load_run ls tree Hok Hacc strtod fs file w Hmem Hfs Hpage)).
  assert (pmilter_config_init w = Done (Some (mk_config PMILTER_LOG_WARN 0 0 [] 0 0 0 (fun _ => None) (fun _ => None))) w) as Hinit
    by (unfold pmilter_config_init; by rewrite (bind_run _ _ _ _ _ (Hmem w))).
  rewrite (bind_run _ _ _ _ _ Hinit). eapply (config_parse_exact w tree); eauto using says_has, may_say_opt.
Qed.

(** ** The file of the repository *)

Definition sp (n : nat) : bytes := replicate n x20.
Definition DQ : byte := x22.

(** pmilter.conf *)
Definition pmilter_conf : list line :=
  [mk_line [] (Header (lit "server"));
   mk_line (sp 2) (Comment (lit " hoge.sock or ipaddree:port"));
   mk_line (sp 2) (Comment (lit "listen = " ++ [DQ] ++ lit "/var/spool/postfix/pmilter/pmilter.sock" ++ [DQ]));
   mk_line (sp 2) (Comment (lit "listen = " ++ [DQ] ++ lit "inet:127.0.0.1:12525" ++ [DQ]));
   mk_line (sp 2) (Entry (lit "listen") (Str (Raw <$> lit "pmilter.sock")));
   mk_line (sp 2) (Entry (lit "timeout") (Num None (lit "7210")));
   mk_line (sp 2) (Entry (lit "log_level") (Str (Raw <$> lit "notice")));
   mk_line (sp 2) (Entry (lit "mruby_handler") (Bool true));
   mk_line (sp 2) (Entry (lit "listen_backlog") (Num None (lit "128")));
   mk_line (sp 2) (Entry (lit "debug") (Num None (lit "0")));
   mk_line (sp 2) (Entry (lit "min_worker") (Num None (lit "32")));
   mk_line [] Blank;
   mk_line [] (Header (lit "handler"));
   mk_line (sp 2) (Header (lit "handler.config"));
   mk_line (sp 4) (Comment (lit " post config handler"));
   mk_line (sp 4) (Entry (lit "mruby_postconfig_handler") (Str (Raw <$> lit "handler/postconfig.rb")));
   mk_line [] Blank;
   mk_line (sp 4) (Comment (lit " master exit config handler"));
   mk_line (sp 4) (Entry (lit "mruby_master_exit_handler") (Str (Raw <$> lit "handler/master_exit.rb")));
   mk_line [] Blank;
   mk_line (sp 2) (Header (lit "handler.session"));
   mk_line (sp 4) (Comment (lit " connection filter handler"));
   mk_line (sp 4) (Entry (lit "mruby_connect_handler") (Str (Raw <$> lit "handler/connect.rb")));
   mk_line (sp 4) Blank;
   mk_line (sp 4) (Comment (lit " SMTP HELO command filter handler"));
   mk_line (sp 4) (Entry (lit "mruby_helo_handler") (Str (Raw <$> lit "handler/helo.rb")));
   mk_line (sp 4) Blank;
   mk_line (sp 4) (Comment (lit " envelope sender filter handler"));
   mk_line (sp 4) (Entry (lit "mruby_envfrom_handler") (Str (Raw <$> lit "handler/mail_from.rb")));
   mk_line (sp 4) Blank;
   mk_line (sp 4) (Comment (lit " envelope recipient filter handler"));
   mk_line (sp 4) (Entry (lit "mruby_envrcpt_handler") (Str (Raw <$> lit "handler/rcpt_to.rb")));
   mk_line (sp 4) Blank;
   mk_line (sp 4) (Comment (lit " header filter handler"));
   mk_line (sp 4) (Entry (lit "mruby_header_handler") (Str (Raw <$> lit "handler/header.rb")));
   mk_line (sp 4) Blank;
   mk_line (sp 4) (Comment (lit " end of header handler"));
   mk_line (sp 4) (Comment (lit "mruby_eoh_handler = " ++ [DQ] ++ lit "/path/to/handler.rb" ++ [DQ]));
   mk_line (sp 4) Blank;
   mk_line (sp 4) (Comment (lit " body block filter handler"));
   mk_line (sp 4) (Entry (lit "mruby_body_handler") (Str (Raw <$> lit "handler/body.rb")));
   mk_line (sp 4) Blank;
   mk_line (sp 4) (Comment (lit " end of message handler"));
   mk_line (sp 4) (Entry (lit "mruby_eom_handler") (Str (Raw <$> lit "handler/eom.rb")));
   mk_line (sp 4) Blank;
   mk_line (sp 4) (Comment (lit " message aborted handler"));
   mk_line (sp 4) (Comment (lit "mruby_abort_handler = " ++ [DQ] ++ lit "/path/to/handler.rb" ++ [DQ]));
   mk_line (sp 4) Blank;
   mk_line (sp 4) (Comment (lit " connection cleanup handler"));
   mk_line (sp 4) (Comment (lit "mruby_close_handler = " ++ [DQ] ++ lit "/path/to/handler.rb" ++ [DQ]));
   mk_line (sp 4) Blank;
   mk_line (sp 4) (Comment (lit " unknown SMTP commands handler"));
   mk_line (sp 4) (Comment (lit "mruby_unknown_handler = " ++ [DQ] ++ lit "/path/to/handler.rb" ++ [DQ]));
   mk_line (sp 4) Blank;
   mk_line (sp 4) (Comment (lit " DATA command handler"));
   mk_line (sp 4) (Comment (lit "mruby_data_handler = " ++ [DQ] ++ lit "/path/to/handler.rb" ++ [DQ]))].

Definition conf_tree : toml_node :=
  mk_node TOML_ROOT None (VItems [
    table_node "server" [str_node "listen" "pmilter.sock"; int_node "timeout" 7210; str_node "log_level" "notice";
      mk_node TOML_BOOLEAN (Some (lit "mruby_handler")) (VInteger 1);
      int_node "listen_backlog" 128; int_node "debug" 0; int_node "min_worker" 32];
    table_node "handler" [
      table_node "config" [str_node "mruby_postconfig_handler" "handler/postconfig.rb";
        str_node "mruby_master_exit_handler" "handler/master_exit.rb"];
      table_node "session" [str_node "mruby_connect_handler" "handler/connect.rb"; str_node "mruby_helo_handler" "handler/helo.rb";
        str_node "mruby_envfrom_handler" "handler/mail_from.rb"; str_node "mruby_envrcpt_handler" "handler/rcpt_to.rb";
        str_node "mruby_header_handler" "handler/header.rb"; str_node "mruby_body_handler" "handler/body.rb";
        str_node "mruby_eom_handler" "handler/eom.rb"]]]).

Definition conf_spath (h : server_hook) : option bytes :=
  Some (lit match h with Hpostconfig => "handler/postconfig.rb" | Hmaster_exit => "handler/master_exit.rb" end).
Definition conf_path (h : hook) : option bytes :=
  lit <$> match h with
          | Hconnect => Some "handler/connect.rb" | Hhelo => Some "handler/helo.rb" | Henvfrom => Some "handler/mail_from.rb"
          | Henvrcpt => Some "handler/rcpt_to.rb" | Hheader => Some "handler/header.rb" | Hbody => Some "handler/body.rb"
          | Heom => Some "handler/eom.rb" | _ => None
          end.

(** A line found by its place. *)
Lemma says_at ls i key k v ty x : entries None ls !! i = Some (key, (k, v)) -> scalar_value v = inr (ty, x) -> says ls key x.
Proof. intros Hi Hv. exists k, v, ty. split; [by eapply list_elem_of_lookup_2|done]. Qed.

Ltac conf_line n := eapply (says_at _ n); vm_compute; reflexivity.

Lemma config_of_file_witness :
  exists c, read_config (fun _ => 0) (fun _ => Content (text_of pmilter_conf) true) (lit "pmilter.conf") tt = Done c tt /\
    log_level c = 5 /\ timeout c = 7210 /\ listen c = lit "pmilter.sock" /\ listen_backlog c = 128 /\ min_worker c = 32 /\
    server_handler_path c Hmaster_exit = Some (lit "handler/master_exit.rb") /\
    handler_path c Hhelo = Some (lit "handler/helo.rb") /\ handler_path c Heoh = None.
Proof.
  destruct (config_of_file tt (fun _ => 0) (fun _ => Content (text_of pmilter_conf) true) (lit "pmilter.conf") pmilter_conf conf_tree
    (Some (lit "notice")) 1 7210 128 0 32 (lit "pmilter.sock") conf_spath conf_path)
    as (c & Hr & Hl & _ & Ht & Hs & Hb & _ & Hm & Hsp & Hp).
  - done.
  - done.
  - vm_compute. reflexivity.
  - vm_compute. discriminate.
  - vm_compute. reflexivity.
  - conf_line 2%nat.
  - conf_line 3%nat.
  - conf_line 1%nat.
  - conf_line 0%nat.
  - conf_line 4%nat.
  - conf_line 5%nat.
  - conf_line 6%nat.
  - intros []; [conf_line 7%nat|conf_line 8%nat].
  - intros []; first [vm_compute; reflexivity | conf_line 9%nat | conf_line 10%nat | conf_line 11%nat | conf_line 12%nat
      | conf_line 13%nat | conf_line 14%nat | conf_line 15%nat].
  - exists c. split; [exact Hr|]. split; [exact Hl|]. split; [exact Ht|]. split; [exact Hs|]. split; [exact Hb|]. split; [exact Hm|].
    split; [exact (Hsp Hmaster_exit)|]. split; [exact (Hp Hhelo)|exact (Hp Heoh)].
Defined.
