(* ===== verification/Session.v ===== *)
(** * The filter: pmilter.c, pmilter_config.c and pmilter_mruby_session.c

    The callbacks pmilter registers with libmilter, on an explicit heap.  A
    session's objects (state, command record, connection record, header
    record, strings, compiled handlers) are blocks of [a_heap]; an access
    through NULL, to a freed block or to a block of another kind is a fault.
    The private data of the context is either the server's configuration, as
    the listener sets it, or the state that [mrb_xxfi_connect] made: the C
    code casts the [void *] to either.

    Pointers kept into memory of the library: [header->key], [header->value]
    and [body_chunk] point into the command buffer of one callback, which the
    engine frees after it, so they carry the number of the callback that
    stored them.  [connect_daemon] and [envelope_to] point into the macro
    buffers; the model keeps the string they pointed to when they were stored
    and does not follow the lifetime of those buffers.

    mruby is not part of the program: the parameters are the machine state
    [vm0] a new interpreter starts with and what the handler files compile to
    ([mrb_load]).  A compiled handler is a [script]: it calls methods of
    [Pmilter] and [Pmilter::Session] one after the other, each call depending
    on the results so far, and ends normally or with an exception.  A handler
    that never ends is not represented. *)

From stdpp Require Import base option numbers strings gmap list.
From Stdlib Require Import Strings.Byte ZArith Lia.
From S2P Require Import Prelude Mfdef Comm Strl Stm Macros Smfi Inet Utils Toml Config.
Local Open Scope cM_scope.
Local Open Scope Z_scope.

Abbreviation ptr := nat (only parsing).

(** ** What a handler can do *)

(** The methods that read a macro. *)
Inductive symval :=
  | Client_daemon | Auth_type | Auth_authen | Auth_author | Cert_issuer | Cert_subject
  | Cipher_bits | Cipher | Tls_version | Myhostname | Message_id | Mail_addr | Rcpt_addr.

Definition symval_name (s : symval) : bytes :=
  lit match s with
      | Client_daemon => "{daemon_name}" | Auth_type => "{auth_type}" | Auth_authen => "{auth_authen}"
      | Auth_author => "{auth_author}" | Cert_issuer => "{cert_issuer}" | Cert_subject => "{cert_subject}"
      | Cipher_bits => "{cipher_bits}" | Cipher => "{cipher}" | Tls_version => "{tls_version}"
      | Myhostname => "{j}" | Message_id => "{i}" | Mail_addr => "{mail_addr}" | Rcpt_addr => "{rcpt_addr}"
      end.

(** The methods of [Pmilter], [Pmilter::Session] and its [Headers]. *)
Inductive meth :=
  | Get_name | Set_status (z : Z)
  | Client_ipaddr | Client_hostname | Phase_name | Helo_hostname | Envelope_from | Envelope_to
  | Receive_time | Body_chunk | Header | Symval (s : symval)
  | Add_header (key val : bytes)
  | Change_envelope_from (from : bytes) (arg : option bytes)
  | Add_rcpt_to (to : bytes) (arg : option bytes).

Inductive mrb_value :=
  | MStr (s : bytes)
  | MInt (z : Z)
  | MHash (key val : bytes).

(** A call returns a value or raises (a NUL in a C string argument). *)
Inductive mrb_res := MVal (v : mrb_value) | MRaise.

Inductive script (V : Type) :=
  | SEnd (exc : bool) (vm : V)
  | SCall (m : meth) (k : mrb_res -> script V).
Arguments SEnd {V} exc vm.
Arguments SCall {V} m k.

(** The result of parsing and generating code. *)
Inductive compiled (V : Type) :=
  | BadSyntax
  | Proc (p : V -> script V).
Arguments BadSyntax {V}.
Arguments Proc {V} p.

(** ** The data of a session *)

Inductive code_type := PMILTER_MRB_CODE_TYPE_FILE | PMILTER_MRB_CODE_TYPE_STRING.

#[global] Instance code_type_eq_dec : EqDecision code_type.
Proof. solve_decision. Defined.

Record pmilter_mrb_code (V : Type) := mk_code {
  code_text : bytes;                       (* the union code: a file name or a program *)
  code_kind : code_type;
  code_proc : option (V -> script V);
  code_ctx : bool
}.
Arguments mk_code {V} _ _ _ _.
Arguments code_text {V} _.
Arguments code_kind {V} _.
Arguments code_proc {V} _.
Arguments code_ctx {V} _.

Record connection_rec := mk_conn {
  hostname : option ptr;
  ipaddr : option ptr;
  hostaddr : option sockaddr
}.

(** A pointer into the buffer of a callback's command. *)
Record borrow := mk_borrow { b_call : nat; b_str : bytes }.

Record smtp_header := mk_header { h_key : option borrow; h_value : option borrow }.

Record command_rec := mk_cmd {
  conn : option ptr;
  connect_daemon : option bytes;
  envelope_from : option ptr;
  envelope_to : option bytes;
  helohost : option ptr;
  receive_time : Z;
  header : option ptr;
  body_chunk : option borrow;
  body_chunk_len : Z
}.

(** [struct pmilter_state_t]; [mrb] is the interpreter pointed to, [config]
    and [ctx] are the configuration and the context of the session. *)
Record pmilter_state (V : Type) := mk_state {
  mrb : option V;
  cmd : option ptr;
  status : Z;
  phase : bytes;
  handlers : hook -> option ptr
}.
Arguments mk_state {V} _ _ _ _ _.
Arguments mrb {V} _.
Arguments cmd {V} _.
Arguments status {V} _.
Arguments phase {V} _.
Arguments handlers {V} _ _.

Inductive block (V : Type) :=
  | BState (s : pmilter_state V)
  | BCmd (c : command_rec)
  | BConn (c : connection_rec)
  | BHeader (h : smtp_header)
  | BStr (s : bytes)
  | BCode (c : pmilter_mrb_code V).
Arguments BState {V} s.
Arguments BCmd {V} c.
Arguments BConn {V} c.
Arguments BHeader {V} h.
Arguments BStr {V} s.
Arguments BCode {V} c.

(** The filter's memory: the configuration, the heap with the next address,
    the number of the running callback, and the times [time] will return. *)
Record app (V : Type) := mk_app {
  a_config : pmilter_config;
  a_heap : gmap nat (block V);
  a_brk : nat;
  a_call : nat;
  a_clock : list Z
}.
Arguments mk_app {V} _ _ _ _ _.
Arguments a_config {V} _.
Arguments a_heap {V} _.
Arguments a_brk {V} _.
Arguments a_call {V} _.
Arguments a_clock {V} _.

(** The private data of the context. *)
Inductive priv := PrivConfig | PrivState (p : ptr).

Definition set_heap {V} (h : gmap nat (block V)) (a : app V) : app V :=
  mk_app (a_config a) h (a_brk a) (a_call a) (a_clock a).

Definition set_mrb {V} (v : option V) (s : pmilter_state V) := mk_state v (cmd s) (status s) (phase s) (handlers s).
Definition set_cmd {V} (v : option ptr) (s : pmilter_state V) := mk_state (mrb s) v (status s) (phase s) (handlers s).
Definition set_status {V} (v : Z) (s : pmilter_state V) := mk_state (mrb s) (cmd s) v (phase s) (handlers s).
Definition set_phase {V} (v : bytes) (s : pmilter_state V) := mk_state (mrb s) (cmd s) (status s) v (handlers s).
Definition set_handler {V} (h : hook) (v : option ptr) (s : pmilter_state V) :=
  mk_state (mrb s) (cmd s) (status s) (phase s) (upd (handlers s) h v).

Definition set_connect_daemon v c :=
  mk_cmd (conn c) v (envelope_from c) (envelope_to c) (helohost c) (receive_time c) (header c) (body_chunk c) (body_chunk_len c).
Definition set_envelope_from v c :=
  mk_cmd (conn c) (connect_daemon c) v (envelope_to c) (helohost c) (receive_time c) (header c) (body_chunk c) (body_chunk_len c).
Definition set_envelope_to v c :=
  mk_cmd (conn c) (connect_daemon c) (envelope_from c) v (helohost c) (receive_time c) (header c) (body_chunk c) (body_chunk_len c).
Definition set_helohost v c :=
  mk_cmd (conn c) (connect_daemon c) (envelope_from c) (envelope_to c) v (receive_time c) (header c) (body_chunk c) (body_chunk_len c).
Definition set_receive_time v c :=
  mk_cmd (conn c) (connect_daemon c) (envelope_from c) (envelope_to c) (helohost c) v (header c) (body_chunk c) (body_chunk_len c).
Definition set_body v l c :=
  mk_cmd (conn c) (connect_daemon c) (envelope_from c) (envelope_to c) (helohost c) (receive_time c) (header c) v l.

(** ** The heap *)

Section heap.
Context {V : Type}.
Abbreviation W := (world priv (app V)).

Definition as_state (b : block V) := match b with BState s => Some s | _ => None end.
Definition as_cmd (b : block V) := match b with BCmd c => Some c | _ => None end.
Definition as_conn (b : block V) := match b with BConn c => Some c | _ => None end.
Definition as_header (b : block V) := match b with BHeader h => Some h | _ => None end.
Definition as_str (b : block V) := match b with BStr s => Some s | _ => None end.
Definition as_code (b : block V) := match b with BCode c => Some c | _ => None end.

Definition heap_of (w : W) : gmap nat (block V) := a_heap (w_app w).
Definition set_w_heap (h : gmap nat (block V)) (w : W) : W := set_w_app (set_heap h (w_app w)) w.

(** A block that [malloc] gives, with its first contents. *)
Definition alloc (b : block V) : cM W (option ptr) :=
  let* ok := malloc_ok in
  if ok then fun w =>
    let a := w_app w in
    Done (Some (a_brk a))
      (set_w_app (mk_app (a_config a) (<[a_brk a := b]> (a_heap a)) (S (a_brk a)) (a_call a) (a_clock a)) w)
  else ret None.

Definition strdup (s : bytes) : cM W (option ptr) := alloc (BStr s).

(** A read through a pointer. *)
Definition load {A} (as_kind : block V -> option A) (p : option ptr) : cM W A :=
  match p with
  | None => undef NullDeref
  | Some p => fun w =>
      match heap_of w !! p with
      | None => Undef UseAfterFree w
      | Some b => match as_kind b with None => Undef BadCast w | Some a => Done a w end
      end
  end.

(** A change of a block: it is read, so it must be there. *)
Definition change {A} (as_kind : block V -> option A) (inj : A -> block V) (p : option ptr) (f : A -> A) : cM W unit :=
  let* a := load as_kind p in
  match p with
  | None => ret tt
  | Some p => modify (fun w => set_w_heap (<[p := inj (f a)]> (heap_of w)) w)
  end.

Definition free (p : option ptr) : cM W unit :=
  match p with
  | None => ret tt
  | Some p => fun w =>
      match heap_of w !! p with
      | None => Undef UseAfterFree w
      | Some _ => Done tt (set_w_heap (delete p (heap_of w)) w)
      end
  end.

Definition upd_state (p : ptr) (f : pmilter_state V -> pmilter_state V) := change as_state BState (Some p) f.

(** [pmilter->cmd->...] *)
Definition get_cmd (p : ptr) : cM W command_rec :=
  let* s := load as_state (Some p) in load as_cmd (cmd s).
Definition upd_cmd (p : ptr) (f : command_rec -> command_rec) : cM W unit :=
  let* s := load as_state (Some p) in change as_cmd BCmd (cmd s) f.

(** The private data taken as the configuration and as the state. *)
Definition priv_config (x : priv) : cM W pmilter_config :=
  match x with
  | PrivConfig => gets (fun w => a_config (w_app w))
  | PrivState _ => undef BadCast
  end.
Definition priv_state : cM W ptr :=
  let* x := smfi_getpriv in
  match x with
  | PrivState p => ret p
  | PrivConfig => undef BadCast
  end.

(** A callback starts: what was in the buffers of the calls before is gone. *)
Definition tick : cM W unit :=
  modify (fun w => let a := w_app w in
    set_w_app (mk_app (a_config a) (a_heap a) (a_brk a) (S (a_call a)) (a_clock a)) w).

Definition time : cM W Z := fun w =>
  let a := w_app w in
  match a_clock a with
  | [] => Done 0 w
  | t :: r => Done t (set_w_app (mk_app (a_config a) (a_heap a) (a_brk a) (a_call a) r) w)
  end.

(** A pointer into a command buffer. *)
Definition lend (s : option bytes) : cM W (option borrow) :=
  gets (fun w => mk_borrow (a_call (w_app w)) <$> s).

Definition read_borrow (b : borrow) : cM W bytes := fun w =>
  if decide (b_call b = a_call (w_app w)) then Done (b_str b) w else Undef UseAfterFree w.

End heap.

(** ** Compiled handlers and the interpreter: pmilter.c *)

Section pmilter.
Context {V : Type} (vm0 : V) (mrb_load : bytes -> option (compiled V)) (mrb_parse_string : bytes -> compiled V).
Abbreviation W := (world priv (app V)).

Definition pmilter_mrb_code_from_file (file_path : option bytes) : cM W (option ptr) :=
  match file_path with
  | None => ret None
  | Some f => alloc (BCode (mk_code f PMILTER_MRB_CODE_TYPE_FILE None false))
  end.

Definition pmilter_mrb_code_from_string (code_string : option bytes) : cM W (option ptr) :=
  match code_string with
  | None => ret None
  | Some s => alloc (BCode (mk_code s PMILTER_MRB_CODE_TYPE_STRING None false))
  end.

Definition set_proc (p : option (V -> script V)) (c : pmilter_mrb_code V) :=
  mk_code (code_text c) (code_kind c) p true.

(** True is [PMILTER_OK], false [PMILTER_ERROR]. *)
Definition pmilter_state_compile (code : option ptr) : cM W bool :=
  match code with
  | None => ret false
  | Some _ =>
      let* c := load as_code code in
      let parsed := match code_kind c with
                    | PMILTER_MRB_CODE_TYPE_FILE => mrb_load (code_text c)
                    | PMILTER_MRB_CODE_TYPE_STRING => Some (mrb_parse_string (code_text c))
                    end in
      match parsed with
      | None => ret false
      | Some BadSyntax => change as_code BCode code (set_proc None) ;;; ret false
      | Some (Proc p) => change as_code BCode code (set_proc (Some p)) ;;; ret true
      end
  end.

(** [mrb_str_new_cstr] of a pointer that may be NULL: NULL gives the empty string. *)
Definition mrb_str_ptr (p : option ptr) : cM W mrb_res :=
  match p with
  | None => ret (MVal (MStr []))
  | Some _ => let* s := load as_str p in ret (MVal (MStr s))
  end.
Definition mrb_str_opt (s : option bytes) : cM W mrb_res := ret (MVal (MStr (default [] s))).
Definition borrow_str (b : option borrow) : cM W bytes :=
  match b with None => ret [] | Some b => read_borrow b end.

(** ** The methods: pmilter_mruby_session.c and pmilter_mruby_core.c *)

(** [mrb->ud] is the state [p]. *)
Definition session_method (p : ptr) (m : meth) : cM W mrb_res :=
  match m with
  | Get_name => ret (MVal (MStr (lit "pmilter")))
  | Set_status z => upd_state p (set_status (s32 z)) ;;; ret (MVal (MInt z))
  | Client_ipaddr =>
      let* c := get_cmd p in let* cn := load as_conn (conn c) in mrb_str_ptr (ipaddr cn)
  | Client_hostname =>
      let* c := get_cmd p in let* cn := load as_conn (conn c) in mrb_str_ptr (hostname cn)
  | Phase_name => let* s := load as_state (Some p) in mrb_str_opt (Some (phase s))
  | Helo_hostname => let* c := get_cmd p in mrb_str_ptr (helohost c)
  | Envelope_from => let* c := get_cmd p in mrb_str_ptr (envelope_from c)
  | Envelope_to => let* c := get_cmd p in mrb_str_opt (envelope_to c)
  | Receive_time => let* c := get_cmd p in ret (MVal (MInt (receive_time c)))
  | Body_chunk =>
      let* c := get_cmd p in
      match body_chunk c with
      | None => ret (MVal (MStr (replicate (Z.to_nat (body_chunk_len c)) x00)))
      | Some b =>
          let* s := read_borrow b in
          if Z.of_nat (length s) <? body_chunk_len c then undef OutOfBounds
          else ret (MVal (MStr (take (Z.to_nat (body_chunk_len c)) s)))
      end
  | Header =>
      let* c := get_cmd p in
      let* h := load as_header (header c) in
      let* k := borrow_str (h_key h) in
      let* v := borrow_str (h_value h) in
      ret (MVal (MHash k v))
  | Symval s =>
      let* st := load as_state (Some p) in
      let* v := smfi_getsymval (symval_name s) in mrb_str_opt v
  | Add_header k v =>
      if negb (bool_decide (no_nul k)) || negb (bool_decide (no_nul v)) then ret MRaise
      else
        let* st := load as_state (Some p) in
        let* r := smfi_addheader (Some k) (Some v) in ret (MVal (MInt r))
  | Change_envelope_from from arg =>
      if negb (bool_decide (no_nul from)) || negb (bool_decide (no_nul (default [] arg))) then ret MRaise
      else
        let* st := load as_state (Some p) in
        let* r := smfi_chgfrom (Some from) arg in ret (MVal (MInt r))
  | Add_rcpt_to to arg =>
      if negb (bool_decide (no_nul to)) || negb (bool_decide (no_nul (default [] arg))) then ret MRaise
      else
        let* st := load as_state (Some p) in
        let* r := smfi_addrcpt_par (Some to) arg in ret (MVal (MInt r))
  end.

(** [mrb_run]: true when an exception is pending at the end. *)
Fixpoint mrb_run (p : ptr) (s : script V) : cM W bool :=
  match s with
  | SEnd exc vm => upd_state p (set_mrb (Some vm)) ;;; ret exc
  | SCall m k => let* r := session_method p m in mrb_run p (k r)
  end.

(** [pmilter_mruby_code_free] of a handler's slot. *)
Definition code_free (p : ptr) (h : hook) : cM W unit :=
  let* s := load as_state (Some p) in
  match handlers s h with
  | None => ret tt
  | Some c => free (Some c) ;;; upd_state p (set_handler h None)
  end.

(** [pmilter_connect_handler] and the eleven others: the macro
    [PMILTER_DEFINE_MRUBY_HADNLER]. *)
Definition run_handler (h : hook) (p : ptr) : cM W Z :=
  let* s := load as_state (Some p) in
  let* vm := deref NullDeref (mrb s) in
  upd_state p (fun s => set_phase (lit "mruby_" ++ hook_name h ++ lit "_handler") (set_status SMFIS_CONTINUE s)) ;;;
  let* c := load as_code (handlers s h) in
  let* proc := deref NullDeref (code_proc c) in
  let* exc := mrb_run p (proc vm) in
  (if exc then upd_state p (set_status SMFIS_TEMPFAIL) else ret tt) ;;;
  (* PMILTER_CODE_MRBC_CONTEXT_FREE *)
  let* s := load as_state (Some p) in
  match handlers s h with
  | None => ret tt
  | Some _ => change as_code BCode (handlers s h) (fun c => mk_code (code_text c) (code_kind c) (code_proc c) false)
  end ;;;
  code_free p h ;;;
  let* s := load as_state (Some p) in
  ret (status s).

(** [pmilter->mruby_..._handler = pmilter_mrb_code_from_file(config path)] *)
Definition install_hook (h : hook) (p : ptr) : cM W unit :=
  let* path := gets (fun w => handler_path (a_config (w_app w)) h) in
  let* c := pmilter_mrb_code_from_file path in
  upd_state p (set_handler h c).

(** What every callback after connect starts with: the status, and the slot of
    the handler. *)
Definition enter_hook (h : hook) (p : ptr) : cM W unit :=
  upd_state p (set_status SMFIS_CONTINUE) ;;;
  install_hook h p.

(** [pmilter->mrb != NULL] *)
Definition has_mrb (p : ptr) : cM W bool :=
  let* s := load as_state (Some p) in ret (bool_decide (is_Some (mrb s))).

(** The rest: compile and run the handler when there is one; false is the
    early return of [SMFIS_TEMPFAIL]. *)
Definition exec_hook (h : hook) (p : ptr) (ready : cM W unit) (after : cM W unit) : cM W bool :=
  let* s := load as_state (Some p) in
  if bool_decide (is_Some (handlers s h)) && bool_decide (is_Some (mrb s)) then
    ready ;;;
    let* ok := pmilter_state_compile (handlers s h) in
    if negb ok then ret false
    else
      let* r := run_handler h p in
      upd_state p (set_status r) ;;; after ;;; ret true
  else ret true.

Definition leave_hook (p : ptr) (ok : bool) : cM W Z :=
  if ok then let* s := load as_state (Some p) in ret (status s) else ret SMFIS_TEMPFAIL.

Definition nop : cM W unit := ret tt.

(** A statement under [if (pmilter->mrb != NULL)]. *)
Definition if_mrb (p : ptr) (m : cM W unit) : cM W unit :=
  let* b := has_mrb p in if b then m else ret tt.

(** ** Session state: pmilter_config.c *)

Definition pmilter_create_conf (config : priv) : cM W (option ptr) :=
  let* p := alloc (BState (mk_state None None 0 [] (fun _ => None))) in
  match p with
  | None => ret None
  | Some p =>
      let* c := priv_config config in
      if negb (enable_mruby_handler c =? 0) then
        let* ok := malloc_ok in
        if ok then upd_state p (set_mrb (Some vm0)) ;;; ret (Some p) else ret None
      else ret (Some p)
  end.

Definition pmilter_command_init : cM W (option ptr) :=
  let* c := alloc (BCmd (mk_cmd None None None None None 0 None None 0)) in
  match c with
  | None => ret None
  | Some _ =>
      let* cn := alloc (BConn (mk_conn None None None)) in
      match cn with
      | None => ret None
      | Some _ =>
          let* h := alloc (BHeader (mk_header None None)) in
          match h with
          | None => ret None
          | Some _ =>
              change as_cmd BCmd c (fun _ => mk_cmd cn None None None None 0 h None 0) ;;; ret c
          end
      end
  end.

Definition pmilter_command_rec_free (c : option ptr) : cM W unit :=
  let* r := load as_cmd c in
  free (envelope_from r) ;;;
  free (helohost r) ;;;
  let* cn := load as_conn (conn r) in
  free (ipaddr cn) ;;;
  free (hostname cn) ;;;
  free (conn r) ;;;
  free (header r) ;;;
  free c.

Fixpoint handler_free (p : ptr) (hs : list hook) : cM W unit :=
  match hs with
  | [] => ret tt
  | h :: r => code_free p h ;;; handler_free p r
  end.

Definition pmilter_config_mruby_handler_free (p : ptr) : cM W unit := handler_free p all_hooks.

Definition pmilter_delete_conf (p : ptr) : cM W unit :=
  let* s := load as_state (Some p) in
  pmilter_command_rec_free (cmd s) ;;;
  pmilter_config_mruby_handler_free p ;;;
  free (Some p).

Definition command_rec_free_per_session (c : option ptr) : cM W unit :=
  let* r := load as_cmd c in
  free (envelope_from r) ;;;
  change as_cmd BCmd c (fun r => set_envelope_from None (set_envelope_to None (set_receive_time 0 r))) ;;;
  change as_header BHeader (header r) (fun _ => mk_header None None).

(** [pmilter_ipaddrdup] *)
Definition pmilter_ipaddrdup (addr : option sockaddr) : cM W (option ptr) :=
  match pmilter_ipaddr addr with
  | inl f => undef f
  | inr None => ret None
  | inr (Some s) => strdup s
  end.

(** ** The callbacks: pmilter.c *)

(** The data of the connection; false when the address has no text form. *)
Definition record_conn (p : ptr) (host : bytes) (addr : option sockaddr) : cM W bool :=
  let* d := smfi_getsymval (lit "{daemon_name}") in
  upd_cmd p (set_connect_daemon d) ;;;
  let* c := get_cmd p in
  let* hn := strdup host in
  change as_conn BConn (conn c) (fun cn => mk_conn hn (ipaddr cn) addr) ;;;
  let* ip := pmilter_ipaddrdup addr in
  change as_conn BConn (conn c) (fun cn => mk_conn (hostname cn) ip (hostaddr cn)) ;;;
  ret (bool_decide (is_Some ip)).

Definition mrb_xxfi_connect (host : bytes) (addr : option sockaddr) : cM W Z :=
  tick ;;;
  let* config := smfi_getpriv in
  let* o := pmilter_create_conf config in
  let* p := deref NullDeref o in
  upd_state p (set_status SMFIS_CONTINUE) ;;;
  let* c := pmilter_command_init in
  upd_state p (set_cmd c) ;;;
  match c with
  | None => ret SMFIS_TEMPFAIL
  | Some _ =>
      install_hook Hconnect p ;;;
      let* b := has_mrb p in
      let* ok := if b then record_conn p host addr else ret true in
      if negb ok then ret SMFIS_TEMPFAIL
      else
        let* ok := exec_hook Hconnect p nop nop in
        if negb ok then ret SMFIS_TEMPFAIL
        else
          smfi_setpriv (PrivState p) ;;;
          let* s := load as_state (Some p) in
          ret (status s)
  end.

Definition mrb_xxfi_helo (host : bytes) : cM W Z :=
  tick ;;;
  let* p := priv_state in
  enter_hook Hhelo p ;;;
  if_mrb p (let* s := strdup host in upd_cmd p (set_helohost s)) ;;;
  let* ok := exec_hook Hhelo p nop nop in
  leave_hook p ok.

Definition mrb_xxfi_envfrom (argv : list bytes) : cM W Z :=
  tick ;;;
  let* p := priv_state in
  enter_hook Henvfrom p ;;;
  if_mrb p (let* a := deref NullDeref (head argv) in
            let* s := strdup a in upd_cmd p (set_envelope_from s)) ;;;
  let* ok := exec_hook Henvfrom p nop nop in
  leave_hook p ok.

Definition mrb_xxfi_envrcpt (argv : list bytes) : cM W Z :=
  tick ;;;
  let* p := priv_state in
  enter_hook Henvrcpt p ;;;
  if_mrb p (let* v := smfi_getsymval (lit "{rcpt_addr}") in upd_cmd p (set_envelope_to v)) ;;;
  let* ok := exec_hook Henvrcpt p nop nop in
  leave_hook p ok.

Definition mrb_xxfi_header (headerf headerv : bytes) : cM W Z :=
  tick ;;;
  let* p := priv_state in
  enter_hook Hheader p ;;;
  if_mrb p (let* c := get_cmd p in
            let* k := lend (Some headerf) in
            let* v := lend (Some headerv) in
            change as_header BHeader (header c) (fun _ => mk_header k v)) ;;;
  let* ok := exec_hook Hheader p nop nop in
  leave_hook p ok.

(** [mrb_xxfi_eoh], [mrb_xxfi_abort], [mrb_xxfi_unknown] and [mrb_xxfi_data]
    record nothing: they differ in the handler only. *)
Definition plain_callback (h : hook) : cM W Z :=
  tick ;;;
  let* p := priv_state in
  enter_hook h p ;;;
  let* ok := exec_hook h p nop nop in
  leave_hook p ok.

Definition mrb_xxfi_eoh : cM W Z := plain_callback Heoh.
Definition mrb_xxfi_abort : cM W Z := plain_callback Habort.
Definition mrb_xxfi_unknown (scmd : option bytes) : cM W Z := plain_callback Hunknown.
Definition mrb_xxfi_data : cM W Z := plain_callback Hdata.

Definition mrb_xxfi_body (bodyp : option bytes) (bodylen : Z) : cM W Z :=
  tick ;;;
  let* p := priv_state in
  enter_hook Hbody p ;;;
  let* ok := exec_hook Hbody p (let* b := lend bodyp in upd_cmd p (set_body b bodylen)) nop in
  leave_hook p ok.

Definition mrb_xxfi_eom : cM W Z :=
  tick ;;;
  let* p := priv_state in
  enter_hook Heom p ;;;
  if_mrb p (let* t := time in upd_cmd p (set_receive_time (s32 t))) ;;;
  let* ok := exec_hook Heom p nop
    (let* s := load as_state (Some p) in command_rec_free_per_session (cmd s)) in
  leave_hook p ok.

Definition mrb_xxfi_close : cM W Z :=
  tick ;;;
  let* p := priv_state in
  enter_hook Hclose p ;;;
  let* ok := exec_hook Hclose p nop nop in
  if negb ok then ret SMFIS_TEMPFAIL
  else
    let* b := has_mrb p in
    (if b then pmilter_delete_conf p else ret tt) ;;;
    smfi_setpriv PrivConfig ;;;
    let* s := load as_state (Some p) in
    ret (status s).

(** [*pf0] and [*pf1] keep the values they have. *)
Definition mrb_xxfi_negotiate (f0 f1 f2 f3 pf0 pf1 : Z) : cM W (Z * Z * Z) :=
  tick ;;;
  let* x := smfi_getpriv in
  let* c := priv_config x in
  ret (SMFIS_ALL_OPTS, pf0, pf1).

Definition smfilter : smfiDesc W :=
  mk_smfiDesc W (lit "pmilter") SMFI_VERSION (Z.lor SMFIF_ADDHDRS SMFIF_ADDRCPT)
    (Some mrb_xxfi_connect) (Some mrb_xxfi_helo) (Some mrb_xxfi_envfrom) (Some mrb_xxfi_envrcpt)
    (Some mrb_xxfi_header) (Some mrb_xxfi_eoh) (Some mrb_xxfi_body) (Some mrb_xxfi_eom)
    (Some mrb_xxfi_abort) (Some mrb_xxfi_close) (Some mrb_xxfi_unknown) (Some mrb_xxfi_data)
    (Some mrb_xxfi_negotiate).

End pmilter.
