(* ===== verification/MrbClass.v ===== *)
(** * The classes a handler sees (pmilter_init.c, pmilter_mruby_core.c,
      pmilter_mruby_session.c)

    [pmilter_mrb_class_init] defines the class Pmilter with its constants and
    class methods, and under it Session and Session::Headers with their
    methods.  The definitions are made in the order of the code, and a name
    that is defined again replaces the one before, as in Ruby.  A method is the
    C function that implements it; [implements] relates the functions to the
    calls [meth] that Session.v gives their effect. *)

From stdpp Require Import base option numbers strings list.
From Stdlib Require Import Strings.Byte ZArith Lia.
From S2P Require Import Prelude Mfdef Session.
Local Open Scope Z_scope.

Inductive mrb_class := Pmilter | Pmilter_Session | Pmilter_Session_Headers.
#[global] Instance mrb_class_eq_dec : EqDecision mrb_class.
Proof. solve_decision. Defined.

(** The C functions that are registered; the thirteen that only read a macro
    are [F_symval]. *)
Inductive mrb_func :=
  | F_get_name | F_set_status | F_client_ipaddr | F_client_hostname | F_phase_name | F_helo_hostname
  | F_envelope_from | F_envelope_to | F_receive_time | F_body_chunk | F_header | F_symval (s : symval)
  | F_add_header | F_change_envelope_from | F_add_rcpt_to.
#[global] Instance symval_eq_dec : EqDecision symval.
Proof. solve_decision. Defined.
#[global] Instance mrb_func_eq_dec : EqDecision mrb_func.
Proof. solve_decision. Defined.

(** What the class definitions leave: constants and methods by class and name. *)
Record classes := mk_classes {
  cl_const : list (mrb_class * bytes * Z);
  cl_method : list (mrb_class * bytes * mrb_func)
}.

(** [mrb_define_const], [mrb_define_method], [mrb_define_class_method]: the
    latest definition comes first. *)
Definition mrb_define_const (c : mrb_class) (name : string) (z : Z) (k : classes) : classes :=
  mk_classes ((c, lit name, z) :: cl_const k) (cl_method k).
Definition mrb_define_method (c : mrb_class) (name : string) (f : mrb_func) (k : classes) : classes :=
  mk_classes (cl_const k) ((c, lit name, f) :: cl_method k).

Definition lookup_def {A} (c : mrb_class) (name : bytes) (l : list (mrb_class * bytes * A)) : option A :=
  snd <$> list_find (fun d => fst d = (c, name)) l ≫= fun p => Some p.2.

Local Notation "f |> g" := (fun k => g (f k)) (at level 50, left associativity).

Definition pmilter_mrb_core_class_init : classes -> classes :=
  mrb_define_const Pmilter "SMFIS_CONTINUE" SMFIS_CONTINUE
  |> mrb_define_const Pmilter "SMFIS_REJECT" SMFIS_REJECT
  |> mrb_define_const Pmilter "SMFIS_DISCARD" SMFIS_DISCARD
  |> mrb_define_const Pmilter "SMFIS_ACCEPT" SMFIS_ACCEPT
  |> mrb_define_const Pmilter "SMFIS_TEMPFAIL" SMFIS_TEMPFAIL
  |> mrb_define_const Pmilter "SMFIS_NOREPLY" SMFIS_NOREPLY
  |> mrb_define_const Pmilter "SMFIS_SKIP" SMFIS_SKIP
  |> mrb_define_const Pmilter "SMFIS_ALL_OPTS" SMFIS_ALL_OPTS
  |> mrb_define_method Pmilter "name" F_get_name
  |> mrb_define_method Pmilter "status=" F_set_status.

Definition pmilter_mrb_session_class_init : classes -> classes :=
  mrb_define_method Pmilter_Session "change_envelope_from" F_change_envelope_from
  |> mrb_define_method Pmilter_Session "add_envelope_to" F_add_rcpt_to
  |> mrb_define_method Pmilter_Session "add_rcpt_to" F_add_rcpt_to
  |> mrb_define_method Pmilter_Session "client_ipaddr" F_client_ipaddr
  |> mrb_define_method Pmilter_Session "client_hostname" F_client_hostname
  |> mrb_define_method Pmilter_Session "client_daemon" (F_symval Client_daemon)
  |> mrb_define_method Pmilter_Session "handler_phase_name" F_phase_name
  |> mrb_define_method Pmilter_Session "helo_hostname" F_helo_hostname
  |> mrb_define_method Pmilter_Session "envelope_from" F_envelope_from
  |> mrb_define_method Pmilter_Session "envelope_to" F_envelope_to
  |> mrb_define_method Pmilter_Session "rcpt_to" F_envelope_to
  |> mrb_define_method Pmilter_Session "receive_time" F_receive_time
  |> mrb_define_method Pmilter_Session "mail_addr" (F_symval Mail_addr)
  |> mrb_define_method Pmilter_Session "rcpt_addr" (F_symval Rcpt_addr)
  |> mrb_define_method Pmilter_Session "body_chunk" F_body_chunk
  |> mrb_define_method Pmilter_Session "myhostname" (F_symval Myhostname)
  |> mrb_define_method Pmilter_Session "message_id" (F_symval Message_id)
  |> mrb_define_method Pmilter_Session "auth_type" (F_symval Auth_type)
  |> mrb_define_method Pmilter_Session "auth_authen" (F_symval Auth_authen)
  |> mrb_define_method Pmilter_Session "auth_author" (F_symval Auth_author)
  |> mrb_define_method Pmilter_Session "cert_issuer" (F_symval Cert_issuer)
  |> mrb_define_method Pmilter_Session "cert_subject" (F_symval Cert_subject)
  |> mrb_define_method Pmilter_Session "cipher_bits" (F_symval Cipher_bits)
  |> mrb_define_method Pmilter_Session "cipher" (F_symval Cipher)
  |> mrb_define_method Pmilter_Session "tls_version" (F_symval Tls_version)
  |> mrb_define_method Pmilter_Session_Headers "header" F_header
  |> mrb_define_method Pmilter_Session_Headers "[]=" F_add_header.

Definition pmilter_mrb_class_init : classes :=
  pmilter_mrb_session_class_init (pmilter_mrb_core_class_init (mk_classes [] [])).

(** The function that a call runs. *)
Definition implements (m : meth) : mrb_func :=
  match m with
  | Get_name => F_get_name | Set_status _ => F_set_status
  | Client_ipaddr => F_client_ipaddr | Client_hostname => F_client_hostname | Phase_name => F_phase_name
  | Helo_hostname => F_helo_hostname | Envelope_from => F_envelope_from | Envelope_to => F_envelope_to
  | Receive_time => F_receive_time | Body_chunk => F_body_chunk | Header => F_header
  | Symval s => F_symval s | Add_header _ _ => F_add_header
  | Change_envelope_from _ _ => F_change_envelope_from | Add_rcpt_to _ _ => F_add_rcpt_to
  end.

(** ** What the definitions amount to *)

(** No name is defined twice in a class, so that nothing is replaced. *)
Lemma names_distinct :
  NoDup (fst <$> cl_const pmilter_mrb_class_init) /\ NoDup (fst <$> cl_method pmilter_mrb_class_init).
Proof. split; by apply (bool_decide_unpack _). Qed.

(** The first definition of a function. *)
Definition named (f : mrb_func) : option (mrb_class * bytes) :=
  p ← list_find (fun d => d.2 = f) (cl_method pmilter_mrb_class_init); Some p.2.1.

(** Every call that Session.v models can be made: its function is found under
    the name it was registered with. *)
Lemma every_call_named (m : meth) :
  exists c name, named (implements m) = Some (c, name) /\
    lookup_def c name (cl_method pmilter_mrb_class_init) = Some (implements m).
Proof.
  assert (H : bool_decide (default None ('(c, name) ← named (implements m);
                Some (lookup_def c name (cl_method pmilter_mrb_class_init))) = Some (implements m)) = true).
  { destruct m as [| | | | | | | | | | |s| | |]; [..|destruct s| | |]; vm_compute; reflexivity. }
  apply bool_decide_eq_true in H. destruct (named (implements m)) as [[c name]|]; [|done]. by exists c, name.
Qed.

(** The constants are the verdicts a status can hold without being cut:
    assigning one is storing it. *)
Lemma status_const {V : Type} (name : bytes) (z : Z) (p : ptr) :
  lookup_def Pmilter name (cl_const pmilter_mrb_class_init) = Some z ->
  session_method (V := V) p (Set_status z) = (upd_state p (set_status z) ;;; ret (MVal (MInt z)))%cM.
Proof.
  intros H. enough (s32 z = z) as E by (simpl; by rewrite E).
  assert (Hz : Forall (fun d => s32 d.2 = d.2) (cl_const pmilter_mrb_class_init)) by by apply (bool_decide_unpack _).
  unfold lookup_def in H. destruct (list_find _ _) as [[i d]|] eqn:E; [|done]. injection H as <-.
  apply list_find_Some in E as (E & _ & _). rewrite Forall_lookup in Hz. exact (Hz i d E).
Qed.

(** The names the handlers shipped with the program use. *)
Definition handler_names : list (mrb_class * bytes) :=
  ((fun n => (Pmilter, lit n)) <$> ["name"; "status="]) ++
  ((fun n => (Pmilter_Session, lit n)) <$>
    ["body_chunk"; "client_ipaddr"; "client_hostname"; "client_daemon"; "handler_phase_name"; "myhostname"; "message_id";
     "receive_time"; "envelope_from"; "change_envelope_from"; "envelope_to"; "add_envelope_to"; "helo_hostname";
     "cert_issuer"; "cert_subject"; "cipher_bits"; "cipher"; "tls_version"; "mail_addr"; "auth_authen"; "auth_author";
     "auth_type"; "rcpt_addr"]) ++
  ((fun n => (Pmilter_Session_Headers, lit n)) <$> ["header"; "[]="]).

Example handlers_use_defined_names :
  forallb (fun n => bool_decide (is_Some (lookup_def n.1 n.2 (cl_method pmilter_mrb_class_init)))) handler_names = true.
Proof. vm_compute. reflexivity. Qed.
