(* ===== verification/MrbArgs.v ===== *)
(** * Calls from a handler: arguments (mruby/src/class.c, pmilter_mruby_core.c,
      pmilter_mruby_session.c)

    A handler calls a method by its name with Ruby values.  [mrb_call] finds
    the C function (MrbClass.v), which takes its arguments with [mrb_get_args],
    and has the effect that Session.v gives the call.  [mrb_get_args] is
    modelled on the specifiers o, z, i and |, which are the ones the program
    uses: with these, [i] and [arg_i] are the number of arguments taken, and
    [opt_skip] is true.  A conversion that needs a method of an object (to_str,
    to_int, to_i) or the range of a float is a parameter; the values of the core
    classes have no conversions but their own. *)

From stdpp Require Import base option numbers strings list.
From Stdlib Require Import Strings.Byte ZArith Lia.
From S2P Require Import Prelude Mfdef Session MrbClass.
Local Open Scope cM_scope.
Local Open Scope Z_scope.

(** The values a handler can pass: an object, symbol, array or the like is
    [RObject], with an identity. *)
Inductive rb_value :=
  | RNil | RTrue | RFalse
  | RFixnum (z : Z)
  | RFloat (bits : Z)
  | RString (s : bytes)
  | RObject (id : Z).

Inductive mrb_exc := E_ARGUMENT_ERROR | E_TYPE_ERROR | E_RANGE_ERROR.

(** What [mrb_get_args] stores through one of its pointers. *)
Inductive got := GObj (v : rb_value) | GStr (s : bytes) | GInt (z : Z).

Section args.
Context (obj_str : Z -> option bytes) (obj_int : Z -> option Z) (flo_int : Z -> option Z).

(** [to_str]: [check_type] with MRB_TT_STRING. *)
Definition to_str (v : rb_value) : mrb_exc + bytes :=
  match v with
  | RString s => inr s
  | RObject o => match obj_str o with Some s => inr s | None => inl E_TYPE_ERROR end
  | _ => inl E_TYPE_ERROR
  end.

(** [mrb_string_value_cstr] and [mrb_str_to_cstr] on a string: the test of
    [mrb_str_strlen]. *)
Definition string_cstr (s : bytes) : mrb_exc + bytes :=
  if decide (no_nul s) then inr s else inl E_ARGUMENT_ERROR.

(** [mrb_str_to_cstr] *)
Definition mrb_str_to_cstr (v : rb_value) : mrb_exc + bytes :=
  match v with RString s => string_cstr s | _ => inl E_TYPE_ERROR end.

(** One specifier on one argument. *)
Definition take_arg (c : byte) (v : rb_value) : mrb_exc + got :=
  match c with
  | "o"%byte => inr (GObj v)
  | "z"%byte =>
      match to_str v with
      | inl e => inl e
      | inr s => match string_cstr s with inl e => inl e | inr s => inr (GStr s) end
      end
  | "i"%byte =>
      match v with
      | RFixnum z => inr (GInt z)
      | RFloat f => match flo_int f with Some z => inr (GInt z) | None => inl E_RANGE_ERROR end
      | RObject o => match obj_int o with Some z => inr (GInt z) | None => inl E_TYPE_ERROR end
      | RString _ | RNil | RTrue | RFalse => inl E_TYPE_ERROR
      end
  | _ => inl E_ARGUMENT_ERROR
  end.

(** The loop over the format; an argument that is not given stores nothing. *)
Fixpoint get_args (format : bytes) (opt : bool) (args : list rb_value) : mrb_exc + list got :=
  match format with
  | [] => match args with [] => inr [] | _ :: _ => inl E_ARGUMENT_ERROR end
  | c :: format =>
      if decide (c = "|"%byte) then
        match args with [] => inr [] | _ :: _ => get_args format true args end
      else
        match args with
        | [] => if opt then get_args format opt [] else inl E_ARGUMENT_ERROR
        | v :: args =>
            match take_arg c v with
            | inl e => inl e
            | inr g => match get_args format opt args with inl e => inl e | inr l => inr (g :: l) end
            end
        end
  end.

Definition mrb_get_args (format : string) (args : list rb_value) : mrb_exc + list got :=
  get_args (lit format) false args.

(** The head of each function: the call it makes of its arguments; the shapes
    that end in an error here do not occur ([get_i], [get_oo], [get_zz]).  A function
    that has no [mrb_get_args] does not look at them. *)
Definition func_args (f : mrb_func) (args : list rb_value) : mrb_exc + meth :=
  match f with
  | F_get_name => inr Get_name
  | F_set_status =>
      match mrb_get_args "i" args with
      | inr [GInt z] => inr (Set_status z)
      | inl e => inl e
      | inr _ => inl E_ARGUMENT_ERROR
      end
  | F_client_ipaddr => inr Client_ipaddr
  | F_client_hostname => inr Client_hostname
  | F_phase_name => inr Phase_name
  | F_helo_hostname => inr Helo_hostname
  | F_envelope_from => inr Envelope_from
  | F_envelope_to => inr Envelope_to
  | F_receive_time => inr Receive_time
  | F_body_chunk => inr Body_chunk
  | F_header => inr Header
  | F_symval s => inr (Symval s)
  | F_add_header =>
      match mrb_get_args "oo" args with
      | inr [GObj key; GObj val] =>
          match mrb_str_to_cstr key, mrb_str_to_cstr val with
          | inr k, inr v => inr (Add_header k v)
          | inl e, _ | _, inl e => inl e
          end
      | inl e => inl e
      | inr _ => inl E_ARGUMENT_ERROR
      end
  | F_change_envelope_from =>
      match mrb_get_args "z|z" args with
      | inr [GStr from] => inr (Change_envelope_from from None)
      | inr [GStr from; GStr esmtp_arg] => inr (Change_envelope_from from (Some esmtp_arg))
      | inl e => inl e
      | inr _ => inl E_ARGUMENT_ERROR
      end
  | F_add_rcpt_to =>
      match mrb_get_args "z|z" args with
      | inr [GStr to] => inr (Add_rcpt_to to None)
      | inr [GStr to; GStr esmtp_arg] => inr (Add_rcpt_to to (Some esmtp_arg))
      | inl e => inl e
      | inr _ => inl E_ARGUMENT_ERROR
      end
  end.

(** A call of a method of these classes; [None] when the name is not one of
    theirs. *)
Definition mrb_call {V} (p : ptr) (c : mrb_class) (name : bytes) (args : list rb_value) : option (cM (world priv (app V)) mrb_res) :=
  f ← lookup_def c name (cl_method pmilter_mrb_class_init);
  Some match func_args f args with
       | inl _ => ret MRaise
       | inr m => session_method p m
       end.

(** ** What is accepted *)

(** A value that stands for a C string, and one that stands for an integer. *)
Definition as_cstring (v : rb_value) (s : bytes) : Prop :=
  no_nul s /\ (v = RString s \/ exists o, v = RObject o /\ obj_str o = Some s).
Definition as_integer (v : rb_value) (z : Z) : Prop :=
  v = RFixnum z \/ (exists f, v = RFloat f /\ flo_int f = Some z) \/ (exists o, v = RObject o /\ obj_int o = Some z).

Definition one_or_two (args : list rb_value) (a : bytes) (b : option bytes) : Prop :=
  match b with
  | None => exists v, args = [v] /\ as_cstring v a
  | Some b => exists v u, args = [v; u] /\ as_cstring v a /\ as_cstring u b
  end.

(** The arguments that make a function do a call. *)
Definition accepts (f : mrb_func) (args : list rb_value) (m : meth) : Prop :=
  f = implements m /\
  match m with
  | Set_status z => exists v, args = [v] /\ as_integer v z
  | Add_header k v => args = [RString k; RString v] /\ no_nul k /\ no_nul v
  | Change_envelope_from a b | Add_rcpt_to a b => one_or_two args a b
  | _ => True
  end.

Lemma take_z v g : take_arg "z"%byte v = inr g <-> exists s, g = GStr s /\ as_cstring v s.
Proof.
  unfold as_cstring. split.
  - destruct v; simpl; try done.
    + unfold string_cstr. case_decide; [|done]. intros [= <-]. eauto 10.
    + destruct (obj_str id) as [s|] eqn:E; [|done]. unfold string_cstr. case_decide; [|done]. intros [= <-]. eauto 10.
  - intros (s & -> & Hs & [->|(o & -> & E)]); simpl; [|rewrite E]; unfold string_cstr; by rewrite decide_True.
Qed.

Lemma take_i v g : take_arg "i"%byte v = inr g <-> exists z, g = GInt z /\ as_integer v z.
Proof.
  unfold as_integer. split.
  - destruct v; simpl; try done.
    + intros [= <-]. eauto 10.
    + destruct (flo_int bits) eqn:E; [|done]. intros [= <-]. eauto 10.
    + destruct (obj_int id) eqn:E; [|done]. intros [= <-]. eauto 10.
  - intros (z & -> & [->|[(f & -> & E)|(o & -> & E)]]); simpl; [done|by rewrite E..].
Qed.

(** One round of the loop. *)
Lemma get_args_cons c fmt opt args l : c ≠ "|"%byte ->
  get_args (c :: fmt) opt args = inr l <->
  (args = [] /\ opt = true /\ get_args fmt opt [] = inr l) \/
  (exists v r g k, args = v :: r /\ take_arg c v = inr g /\ get_args fmt opt r = inr k /\ l = g :: k).
Proof.
  intros Hc. cbn [get_args]. rewrite decide_False by done. split.
  - destruct args as [|v r]; [destruct opt; [auto|done]|].
    destruct (take_arg c v) as [|g] eqn:E; [done|]. destruct (get_args fmt opt r) as [|k] eqn:K; [done|].
    intros [= <-]. right. by exists v, r, g, k.
  - intros [(-> & -> & H)|(v & r & g & k & -> & -> & -> & ->)]; done.
Qed.

Lemma get_args_nil opt args l : get_args [] opt args = inr l <-> args = [] /\ l = [].
Proof. simpl. split; [destruct args; naive_solver|]. by intros [-> ->]. Qed.

(** The three formats. *)
Lemma get_i args l : mrb_get_args "i" args = inr l <-> exists v z, args = [v] /\ as_integer v z /\ l = [GInt z].
Proof.
  unfold mrb_get_args. change (lit "i") with ["i"%byte]. rewrite get_args_cons by done.
  setoid_rewrite take_i. setoid_rewrite get_args_nil. naive_solver.
Qed.

Lemma get_oo args l : mrb_get_args "oo" args = inr l <-> exists u v, args = [u; v] /\ l = [GObj u; GObj v].
Proof.
  unfold mrb_get_args. change (lit "oo") with ["o"; "o"]%byte. rewrite get_args_cons by done.
  pose proof (fun opt args l => get_args_cons "o"%byte [] opt args l ltac:(done)) as Hone.
  setoid_rewrite Hone. setoid_rewrite get_args_nil. cbn [take_arg]. naive_solver.
Qed.

Lemma get_zz args l : mrb_get_args "z|z" args = inr l <->
  exists a b, one_or_two args a b /\ l = GStr a :: match b with None => [] | Some b => [GStr b] end.
Proof.
  unfold mrb_get_args, one_or_two. change (lit "z|z") with ["z"; "|"; "z"]%byte. rewrite get_args_cons by done.
  assert (Hbar : forall r k, get_args ["|"; "z"]%byte false r = inr k <->
            (r = [] /\ k = []) \/ (exists u b, r = [u] /\ as_cstring u b /\ k = [GStr b])).
  { intros r k. destruct r as [|u r]; [simpl; naive_solver|].
    transitivity (get_args ["z"]%byte true (u :: r) = inr k); [done|].
    rewrite get_args_cons by done. setoid_rewrite take_z. setoid_rewrite get_args_nil. naive_solver. }
  setoid_rewrite take_z. setoid_rewrite Hbar. split.
  - intros [?|(v & r & g & k & -> & (s & -> & Hs) & [[-> ->]|(u & b & -> & Hu & ->)] & ->)]; [naive_solver| |].
    + exists s, None. eauto.
    + exists s, (Some b). eauto 10.
  - intros (a & [b|] & H & ->); right.
    + destruct H as (v & u & -> & Hv & Hu). do 4 eexists. eauto 12.
    + destruct H as (v & -> & Hv). do 4 eexists. eauto 12.
Qed.

Lemma mrb_str_to_cstr_ok v s : mrb_str_to_cstr v = inr s <-> v = RString s /\ no_nul s.
Proof.
  destruct v; simpl; try naive_solver. unfold string_cstr. case_decide; naive_solver.
Qed.

(** C38: a call of a method does what its function means exactly when the
    arguments are what the function takes: one value that is an integer for
    status=, two strings for a header, one or two C strings for the changes of
    the envelope, anything for the others; all else raises.  Whatever the
    arguments, the handler gets an exception or the call of Session.v, never
    an argument that was not checked. *)
Theorem func_args_exact (f : mrb_func) (args : list rb_value) (m : meth) :
  func_args f args = inr m <-> accepts f args m.
Proof.
  unfold accepts. split.
  - destruct f; cbn [func_args]; try (by intros [= <-]).
    + destruct (mrb_get_args "i" args) as [|l] eqn:E; [done|]. apply get_i in E as (v & z & -> & Hz & ->).
      intros [= <-]. eauto.
    + destruct (mrb_get_args "oo" args) as [|l] eqn:E; [done|]. apply get_oo in E as (u & v & -> & ->).
      destruct (mrb_str_to_cstr u) eqn:U; [done|]. destruct (mrb_str_to_cstr v) eqn:V; [done|].
      apply mrb_str_to_cstr_ok in U as [-> ?], V as [-> ?]. by intros [= <-].
    + destruct (mrb_get_args "z|z" args) as [|l] eqn:E; [done|]. apply get_zz in E as (a & [b|] & H & ->);
        by intros [= <-].
    + destruct (mrb_get_args "z|z" args) as [|l] eqn:E; [done|]. apply get_zz in E as (a & [b|] & H & ->);
        by intros [= <-].
  - intros [-> H]. destruct m; cbn [func_args implements]; try done.
    + destruct H as (v & -> & H). by rewrite (proj2 (get_i [v] [GInt z])) by eauto.
    + destruct H as (-> & Hk & Hv).
      rewrite (proj2 (get_oo _ [GObj (RString key); GObj (RString val)])) by eauto. cbn iota.
      by rewrite (proj2 (mrb_str_to_cstr_ok _ key)), (proj2 (mrb_str_to_cstr_ok _ val)) by eauto.
    + rewrite (proj2 (get_zz _ _)) by eauto. by destruct arg.
    + rewrite (proj2 (get_zz _ _)) by eauto. by destruct arg.
Qed.
End args.

(** The header that the shipped eom handler adds, and calls that raise: a
    header value that is not a string, a status that is one. *)
Example handler_calls :
  func_args (fun _ => None) (fun _ => None) (fun _ => None) F_add_header [RString (lit "X-Pmilter"); RString (lit "Enable")] =
    inr (Add_header (lit "X-Pmilter") (lit "Enable")) /\
  func_args (fun _ => None) (fun _ => None) (fun _ => None) F_add_header [RString (lit "X-Count"); RFixnum 3] = inl E_TYPE_ERROR /\
  func_args (fun _ => None) (fun _ => None) (fun _ => None) F_set_status [RString (lit "SMFIS_REJECT")] = inl E_TYPE_ERROR /\
  func_args (fun _ => None) (fun _ => None) (fun _ => None) F_change_envelope_from [] = inl E_ARGUMENT_ERROR /\
  func_args (fun _ => None) (fun _ => None) (fun _ => None) F_add_rcpt_to [RString (lit "<a@example.com>")] = inr (Add_rcpt_to (lit "<a@example.com>") None).
Proof. vm_compute. repeat split. Qed.
