(* ===== verification/SessionProps.v ===== *)
(** * pmilter keeps to the interface of libmilter

    Every part of a callback leaves the engine's side of the world alone
    ([inert]), and so do the functions of the library it calls ([lib]); hence
    pmilter's descriptor is an instance of [WellBehaved], and the engine's
    theorems hold of it. *)

From stdpp Require Import base option numbers strings gmap list.
From Stdlib Require Import Strings.Byte ZArith Lia.
From S2P Require Import Prelude Mfdef Comm Strl Stm Macros Smfi Inet Engine EngineProps EngineOrder Utils Toml Config Session.
Local Open Scope cM_scope.
Local Open Scope Z_scope.

(** ** The interface of the library *)

Section inert.
Context {V : Type}.
Abbreviation W := (world priv (app V)).
Implicit Types w : W.

(** A part of a callback that keeps to the interface. *)
Definition inert (F : Prop) {A} (m : cM W A) : Prop := forall w, ctx_good (w_ctx w) ->
  wp F m (fun _ w' => quiet w w' /\ ctx_good (w_ctx w')) w.

Lemma inert_ret F {A} (a : A) : inert F (ret a).
Proof. intros w H. by apply wp_ret. Qed.

Lemma inert_bind F {A B} (m : cM W A) (k : A -> cM W B) :
  inert F m -> (forall a, inert F (k a)) -> inert F (bind m k).
Proof.
  intros Hm Hk w Hg. eapply wp_seq; [by apply Hm|]. intros a w1 [Hq Hg1].
  eapply wp_mono; [by apply Hk|]. intros b w2 [Hq2 Hg2]. split; [by transitivity w1|done].
Qed.

Lemma inert_undef {A} f : inert True (@undef W A f).
Proof. done. Qed.

Lemma inert_gets F {A} (f : W -> A) : inert F (gets f).
Proof. intros w H. by split. Qed.

Lemma inert_getpriv F : inert F (@smfi_getpriv priv (app V)).
Proof. intros w H. by split. Qed.

Lemma inert_setpriv F x : inert F (@smfi_setpriv priv (app V) x).
Proof. intros w H. by split. Qed.

Lemma inert_deref {A} f (o : option A) : inert True (@deref W A f o).
Proof. destruct o; [apply inert_ret|apply inert_undef]. Qed.

Lemma inert_malloc F : inert F (@malloc_ok priv (app V)).
Proof. intros w H. apply wp_malloc. intros b l. by split. Qed.

(** A step that changes the filter's memory only. *)
Lemma inert_app F {A} (m : cM W A) :
  (forall w, wp F m (fun _ w' => exists a, w' = set_w_app a w) w) -> inert F m.
Proof. intros H w Hg. eapply wp_mono; [apply H|]. intros x w' [a ->]. by split. Qed.

Lemma set_w_app_id w : w = set_w_app (w_app w) w.
Proof. by destruct w. Qed.

Lemma inert_alloc F b : inert F (@alloc V b).
Proof.
  apply inert_bind; [apply inert_malloc|]. intros []; [|apply inert_ret].
  apply inert_app. intros w. by eexists.
Qed.

Lemma inert_strdup F s : inert F (@strdup V s).
Proof. apply inert_alloc. Qed.

Lemma inert_ipaddrdup a : inert True (@pmilter_ipaddrdup V a).
Proof.
  unfold pmilter_ipaddrdup. destruct (pmilter_ipaddr a) as [f|[s|]];
    [apply inert_undef|apply inert_strdup|apply inert_ret].
Qed.

Lemma inert_load {A} (k : block V -> option A) p : inert True (load k p).
Proof.
  destruct p as [p|]; [|apply inert_undef]. intros w Hg. unfold wp, load.
  destruct (heap_of w !! p) as [b|]; [|done]. by destruct (k b).
Qed.

Lemma inert_change {A} (k : block V -> option A) inj p f : inert True (change k inj p f).
Proof.
  apply inert_bind; [apply inert_load|]. intros a. destruct p; [|apply inert_ret].
  apply inert_app. intros w. by eexists.
Qed.

Lemma inert_free p : inert True (@free V p).
Proof.
  destruct p as [p|]; [|apply inert_ret]. apply inert_app. intros w. unfold wp, free.
  destruct (heap_of w !! p); [by eexists|done].
Qed.

Lemma inert_tick F : inert F (@tick V).
Proof. apply inert_app. intros w. by eexists. Qed.

Lemma inert_time F : inert F (@time V).
Proof.
  apply inert_app. intros w. unfold wp, time. destruct (a_clock (w_app w)); [|by eexists].
  eexists. apply set_w_app_id.
Qed.

Lemma inert_lend F s : inert F (@lend V s).
Proof. apply inert_gets. Qed.

Lemma inert_read_borrow b : inert True (@read_borrow V b).
Proof. intros w Hg. unfold wp, read_borrow. by case_decide. Qed.

Lemma inert_priv_config x : inert True (@priv_config V x).
Proof. destruct x; [apply inert_gets|apply inert_undef]. Qed.

Lemma inert_priv_state : inert True (@priv_state V).
Proof. apply inert_bind; [apply inert_getpriv|]. intros []; [apply inert_undef|apply inert_ret]. Qed.

(** A function of the library that leaves the context and the filter's memory
    alone. *)
Definition lib (F : Prop) {A} (m : cM W A) : Prop := forall w,
  wp F m (fun _ w' => quiet w w' /\ w_ctx w' = w_ctx w /\ w_app w' = w_app w) w.

Lemma lib_inert F {A} (m : cM W A) : lib F m -> inert F m.
Proof. intros H w Hg. eapply wp_mono; [apply H|]. intros a w' (Hq & -> & _). done. Qed.

Lemma lib_ret F {A} (a : A) : lib F (ret a).
Proof. intros w. by apply wp_ret. Qed.

Lemma lib_bind F {A B} (m : cM W A) (k : A -> cM W B) :
  lib F m -> (forall a, lib F (k a)) -> lib F (bind m k).
Proof.
  intros Hm Hk w. eapply wp_seq; [apply Hm|]. intros a w1 (Hq & Hc & Ha).
  eapply wp_mono; [apply Hk|]. intros b w2 (Hq2 & Hc2 & Ha2). split; [by transitivity w1|]. split; congruence.
Qed.

Lemma lib_malloc F : lib F (@malloc_ok priv (app V)).
Proof. intros w. apply wp_malloc. intros b l. by split. Qed.

(** [smfi_getsymval] reads only; with names and values in pairs it makes no
    invalid access. *)
Lemma lib_getsymval s : lib True (@smfi_getsymval priv (app V) s).
Proof.
  intros w.
  assert (forall b l w, wp True (@sym_scan priv (app V) s b l) (fun _ w' => w' = w) w) as Hscan.
  { intros b l. remember (length l) as n eqn:Hn. revert l Hn.
    induction (lt_wf n) as [n _ IH]. intros l Hn w0. destruct l as [|[p|] l]; [done| |done]. cbn [sym_scan].
    apply wp_bind, wp_deref. destruct (cstr_at b p) as [t|]; [|done].
    destruct (sym_match s t).
    - destruct l as [|[q|] l]; [done| |done]. apply wp_bind, wp_deref. by destruct (cstr_at b q).
    - destruct l as [|q l]; [done|]. subst n. eapply IH; [|done]. simpl. lia. }
  assert (forall n ptr buf w, wp True (@sym_search priv (app V) s ptr buf n) (fun _ w' => w' = w) w) as Hsearch.
  { induction n as [|n IH]; intros pt buf w0; [done|]. cbn [sym_search].
    destruct (pt !! n) as [[sv|]|]; [|apply IH|apply IH].
    destruct (buf !! n) as [[b|]|]; [|apply IH|apply IH].
    eapply wp_seq; [apply Hscan|]. intros o w1 ->. destruct o; [done|apply IH]. }
  unfold smfi_getsymval. case_decide; [done|]. apply wp_bind, wp_getc.
  eapply wp_mono; [apply Hsearch|]. by intros a w' ->.
Qed.

Definition macros_ok w : Prop := exists env, mac_env (w_ctx w) env /\ paired env.

Lemma getsymval_ok s w : s <> [] -> macros_ok w -> exists v, smfi_getsymval s w = Done v w.
Proof. intros Hs (env & He & Hp). eexists. by apply (smfi_getsymval_run s env). Qed.

(** The requests. *)
Lemma wr_app c b len w : wp True (@mi_wr_cmd priv (app V) c b len) (fun _ w' => w_app w' = w_app w) w.
Proof.
  unfold mi_wr_cmd. apply wp_bind. unfold wp at 1, gets. destruct (_ || _); [done|].
  apply wp_bind. eapply (wp_mono _ _ (fun _ w' => w' = w)).
  { destruct b as [b|]; [|done]. by destruct (_ <? _). }
  intros iov w' ->. apply wp_bind, wp_liftn. unfold wp at 1.
  destruct (retry_writev _ _ _ _); [|done..]. by destruct (_ =? _).
Qed.

Lemma lib_wr F c b len : (F \/ len <= Z.of_nat (length b)) -> lib F (@mi_wr_cmd priv (app V) c (Some b) len).
Proof.
  intros Hb w. eapply wp_mono; [apply wp_and_partial; [by apply mi_wr_cmd_quiet|apply wr_app]|].
  intros r w' [(Hq & Hc & _) Ha]. done.
Qed.

Lemma lib_sendok F f : lib F (@mi_sendok priv (app V) f).
Proof. unfold mi_sendok. apply lib_bind; [by intros w|]. intros c. destruct (_ && _); apply lib_ret. Qed.

Lemma lib_addheader F k v : lib F (@smfi_addheader priv (app V) k v).
Proof.
  apply lib_bind; [apply lib_sendok|]. intros []; cbn [negb]; [|apply lib_ret].
  unfold smfi_header. destruct (_ || _); [apply lib_ret|]. cbv zeta.
  apply lib_bind; [apply lib_malloc|]. intros []; cbn [negb]; [|apply lib_ret].
  apply lib_wr. right. rewrite !length_app, !length_c_str. simpl. lia.
Qed.

Lemma lib_send2 F c a b : lib F (@send2 priv (app V) c a b).
Proof.
  unfold send2. destruct (negb _); [apply lib_ret|]. cbv zeta. destruct b as [x|].
  - rewrite (proj2 (Nat.leb_gt _ _)) by lia.
    apply lib_bind; [apply lib_malloc|]. intros []; cbn [negb]; [|apply lib_ret].
    rewrite (proj2 (Nat.leb_gt _ _)) by lia. rewrite (proj2 (Nat.ltb_ge _ _)) by lia. cbn [orb].
    apply lib_wr. right. rewrite length_app, !length_c_str. lia.
  - apply lib_bind; [apply lib_malloc|]. intros []; cbn [negb]; [|apply lib_ret].
    apply lib_wr. right. rewrite length_app, !length_c_str. simpl. lia.
Qed.

Lemma lib_chgfrom F a b : lib F (@smfi_chgfrom priv (app V) a b).
Proof.
  unfold smfi_chgfrom. destruct (negb _); [apply lib_ret|].
  apply lib_bind; [apply lib_sendok|]. intros []; cbn [negb]; [apply lib_send2|apply lib_ret].
Qed.

Lemma lib_addrcpt_par F a b : lib F (@smfi_addrcpt_par priv (app V) a b).
Proof.
  unfold smfi_addrcpt_par. destruct (negb _); [apply lib_ret|].
  apply lib_bind; [apply lib_sendok|]. intros []; cbn [negb]; [apply lib_send2|apply lib_ret].
Qed.

End inert.

Create HintDb inert.
#[export] Hint Resolve inert_ret inert_undef inert_gets inert_getpriv inert_setpriv inert_deref inert_malloc
  inert_alloc inert_strdup inert_ipaddrdup inert_load inert_change inert_free inert_tick inert_time inert_lend inert_read_borrow
  inert_priv_config inert_priv_state lib_inert lib_getsymval lib_addheader lib_chgfrom lib_addrcpt_par : inert.

(** Goes through a function along its statements. *)
Ltac inert_step :=
  first
    [ progress cbv beta iota
    | progress auto with inert nocore
    | apply inert_bind; [|intros ?]
    | match goal with |- inert _ (match ?x with _ => _ end) => destruct x end
    | match goal with |- inert _ (if ?x then _ else _) => destruct x end ].

Ltac inert := repeat inert_step.

Section interface.
Context {V : Type} (vm0 : V) (mrb_load : bytes -> option (compiled V)) (mrb_parse_string : bytes -> compiled V).
Abbreviation W := (world priv (app V)).

Lemma inert_compile c : inert True (@pmilter_state_compile V mrb_load mrb_parse_string c).
Proof. unfold pmilter_state_compile. inert. Qed.

Lemma inert_method p m : inert True (@session_method V p m).
Proof.
  unfold session_method, upd_state, get_cmd, mrb_str_ptr, mrb_str_opt, borrow_str. destruct m; inert.
Qed.

Lemma inert_run p s : inert True (@mrb_run V p s).
Proof.
  induction s as [exc vm|m k IH]; cbn [mrb_run]; [unfold upd_state; inert|].
  apply inert_bind; [apply inert_method|done].
Qed.

Lemma inert_code_free p h : inert True (@code_free V p h).
Proof. unfold code_free, upd_state. inert. Qed.

Hint Resolve inert_compile inert_run inert_code_free : inert.

Lemma inert_run_handler h p : inert True (@run_handler V h p).
Proof. unfold run_handler, upd_state. inert. Qed.

Lemma inert_install h p : inert True (@install_hook V h p).
Proof. unfold install_hook, upd_state, pmilter_mrb_code_from_file. inert. Qed.

Lemma inert_enter h p : inert True (@enter_hook V h p).
Proof. apply inert_bind; [unfold upd_state; inert|]. intros _. apply inert_install. Qed.

Hint Resolve inert_run_handler inert_install inert_enter : inert.

Lemma inert_exec h p m1 m2 : inert True m1 -> inert True m2 ->
  inert True (@exec_hook V mrb_load mrb_parse_string h p m1 m2).
Proof. intros H1 H2. unfold exec_hook, upd_state. inert. Qed.

Lemma inert_leave p b : inert True (@leave_hook V p b).
Proof. unfold leave_hook. inert. Qed.

Hint Resolve inert_exec inert_leave : inert.

Lemma inert_handler_free p hs : inert True (@handler_free V p hs).
Proof. induction hs; cbn [handler_free]; inert. Qed.

Hint Resolve inert_handler_free : inert.

Lemma inert_delete p : inert True (@pmilter_delete_conf V p).
Proof.
  unfold pmilter_delete_conf, pmilter_command_rec_free, pmilter_config_mruby_handler_free. inert.
Qed.

Lemma inert_connect h a : inert True (@mrb_xxfi_connect V vm0 mrb_load mrb_parse_string h a).
Proof.
  unfold mrb_xxfi_connect, pmilter_create_conf, pmilter_command_init, record_conn, has_mrb, nop, upd_state, upd_cmd,
    get_cmd. inert.
Qed.

Hint Resolve inert_delete inert_connect : inert.

(** pmilter keeps to the interface of the library, whatever its handlers do. *)
#[global] Instance smfilter_wb : WellBehaved True (@smfilter V vm0 mrb_load mrb_parse_string).
Proof.
  split; intros; simplify_eq/=;
    match goal with Hg : ctx_good (w_ctx ?w) |- wp _ ?m _ ?w => assert (inert True m) as Hi; [|exact (Hi w Hg)] end;
    auto with inert nocore;
    unfold mrb_xxfi_helo, mrb_xxfi_envfrom, mrb_xxfi_envrcpt, mrb_xxfi_header, mrb_xxfi_eoh, mrb_xxfi_body,
      mrb_xxfi_eom, mrb_xxfi_abort, mrb_xxfi_close, mrb_xxfi_unknown, mrb_xxfi_data, mrb_xxfi_negotiate,
      plain_callback, if_mrb, has_mrb, nop, upd_state, upd_cmd, get_cmd, command_rec_free_per_session;
    repeat first [apply inert_exec | inert_step].
Qed.

Lemma smfilter_envelope : full_envelope (@smfilter V vm0 mrb_load mrb_parse_string).
Proof. repeat split; discriminate || (vm_compute; reflexivity). Qed.

Lemma smfilter_steps : keeps_steps (@smfilter V vm0 mrb_load mrb_parse_string).
Proof.
  intros f a b c d e g w [= <-]. unfold mrb_xxfi_negotiate.
  apply wp_bind. unfold wp at 1, tick, modify. apply wp_bind, wp_getc, wp_bind.
  unfold priv_config, wp at 1. destruct (ctx_privdata _); [|exact I]. apply wp_ret. discriminate.
Qed.

End interface.
