(* ===== verification/SessionSafe.v ===== *)
(** * Memory safety of pmilter's callbacks

    The invariant of a session's heap that [mrb_xxfi_connect] sets up
    ([sess]): the state, its records and every string and compiled handler it
    points to are there, and no two pointers own the same block.  Every step
    of the message callbacks keeps it, so they make no access through NULL, to
    freed memory or to an object of another kind, whatever the handlers do -
    as long as a handler reads the header in the header phase and the body
    chunk in the body phase only. *)

From stdpp Require Import base option numbers strings gmap list.
From Stdlib Require Import Strings.Byte ZArith Lia.
From S2P Require Import Prelude Mfdef Comm Strl Stm Macros Smfi Inet Engine EngineProps EngineOrder Utils Toml Config Session SessionProps.
Local Open Scope cM_scope.
Local Open Scope Z_scope.

Section invariant.
Context {V : Type}.
Abbreviation W := (world priv (app V)).
Abbreviation heap := (gmap nat (block V)).
Implicit Types (w : W) (H : heap).

(** The pointers to strings of a session. *)
Definition strings_of (c : command_rec) (cn : connection_rec) : list (option ptr) :=
  [envelope_from c; helohost c; ipaddr cn; hostname cn].

Definition is_str H (o : option ptr) : Prop :=
  match o with None => True | Some q => exists s, H !! q = Some (BStr s) end.

(** A handler made from the file [path]. *)
Definition is_code H (path : option bytes) (o : option ptr) : Prop :=
  match o with
  | None => True
  | Some q => exists c, H !! q = Some (BCode c) /\ code_kind c = PMILTER_MRB_CODE_TYPE_FILE /\ path = Some (code_text c)
  end.

(** No two fields own the same block. *)
Definition apart (l : list (option ptr)) : Prop := NoDup (omap id l).
Definition codes_apart (f : hook -> option ptr) : Prop :=
  forall h h' q, f h = Some q -> f h' = Some q -> h = h'.

Record sess (paths : hook -> option bytes) H (brk p : nat) (st : pmilter_state V) (pc : nat) (c : command_rec) (pn : nat) (cn : connection_rec)
    (ph : nat) (hd : smtp_header) : Prop := mk_sess {
  s_state : H !! p = Some (BState st);
  s_pc : cmd st = Some pc;
  s_cmd : H !! pc = Some (BCmd c);
  s_pn : conn c = Some pn;
  s_conn : H !! pn = Some (BConn cn);
  s_ph : header c = Some ph;
  s_header : H !! ph = Some (BHeader hd);
  s_strs : Forall (is_str H) (strings_of c cn);
  s_apart : apart (strings_of c cn);
  s_codes : forall h, is_code H (paths h) (handlers st h);
  s_capart : codes_apart (handlers st);
  s_fresh : forall q b, H !! q = Some b -> (q < brk)%nat
}.

(** Pointers into the buffer of the running callback. *)
Definition fresh_borrow (call : nat) (o : option borrow) : Prop :=
  match o with None => True | Some b => b_call b = call end.
Definition header_now (call : nat) (hd : smtp_header) : Prop :=
  fresh_borrow call (h_key hd) /\ fresh_borrow call (h_value hd).
Definition body_now (call : nat) (c : command_rec) : Prop :=
  match body_chunk c with
  | None => True
  | Some b => b_call b = call /\ body_chunk_len c <= Z.of_nat (length (b_str b))
  end.

(** The session [p] is intact; [hf] and [bf]: its header and its body chunk
    can be read. *)
Definition live (hf bf : bool) (p : nat) w : Prop := exists st pc c pn cn ph hd,
  sess (handler_path (a_config (w_app w))) (heap_of w) (a_brk (w_app w)) p st pc c pn cn ph hd /\
  (hf = true -> header_now (a_call (w_app w)) hd) /\ (bf = true -> body_now (a_call (w_app w)) c).

(** What the steps of a callback leave alone. *)
Definition steady w w' : Prop :=
  w_ctx w' = w_ctx w /\ a_config (w_app w') = a_config (w_app w) /\ a_call (w_app w') = a_call (w_app w).

#[global] Instance steady_preorder : PreOrder steady.
Proof. split; [by intros w|]. intros w1 w2 w3 (? & ? & ?) (? & ? & ?). repeat split; congruence. Qed.

Lemma steady_macros w w' : steady w w' -> macros_ok w -> macros_ok w'.
Proof. intros (Hc & _). unfold macros_ok. by rewrite Hc. Qed.

(** ** Changes of the heap that keep the invariant *)

Lemma is_str_insert H q b o : is_str H o -> (forall s, H !! q <> Some (BStr s)) -> is_str (<[q := b]> H) o.
Proof.
  destruct o as [x|]; [|done]. intros [s Hs] Hq. exists s. rewrite lookup_insert_ne; [done|].
  intros ->. by apply (Hq s).
Qed.

Lemma is_code_insert H q b f o : is_code H f o -> (forall s, H !! q <> Some (BCode s)) -> is_code (<[q := b]> H) f o.
Proof.
  destruct o as [x|]; [|done]. intros (s & Hs & Hk) Hq. exists s. rewrite lookup_insert_ne; [done|].
  intros ->. by apply (Hq s).
Qed.

Lemma strs_insert H q b l : Forall (is_str H) l -> (forall s, H !! q <> Some (BStr s)) ->
  Forall (is_str (<[q := b]> H)) l.
Proof. intros Hl Hq. eapply Forall_impl; [exact Hl|]. intros o Ho. by apply is_str_insert. Qed.

Lemma fresh_insert H brk q b b' : H !! q = Some b ->
  (forall q b, H !! q = Some b -> (q < brk)%nat) ->
  (forall x y, <[q := b']> H !! x = Some y -> (x < brk)%nat).
Proof.
  intros Hq Hf x y Hx. destruct (decide (x = q)) as [->|Hne]; [by eapply Hf|].
  rewrite lookup_insert_ne in Hx by done. by eapply Hf.
Qed.

(** A lookup of an owned block after a change of another one. *)
Ltac other := rewrite lookup_insert_ne; [done|congruence].

Lemma sess_state paths H brk p st pc c pn cn ph hd st' :
  sess paths H brk p st pc c pn cn ph hd -> cmd st' = cmd st ->
  (forall h, is_code H (paths h) (handlers st' h)) -> codes_apart (handlers st') ->
  sess paths (<[p := BState st']> H) brk p st' pc c pn cn ph hd.
Proof.
  intros [] Hc Hk Ha. split; try done; try congruence; try other.
  - apply lookup_insert_eq.
  - apply strs_insert; [done|]. congruence.
  - intros h. apply is_code_insert; [done|]. congruence.
  - by eapply fresh_insert.
Qed.

Lemma sess_cmd paths H brk p st pc c pn cn ph hd c' :
  sess paths H brk p st pc c pn cn ph hd -> conn c' = conn c -> header c' = header c ->
  Forall (is_str H) (strings_of c' cn) -> apart (strings_of c' cn) ->
  sess paths (<[pc := BCmd c']> H) brk p st pc c' pn cn ph hd.
Proof.
  intros [] Hc Hh Hs Ha. split; try done; try congruence; try other.
  - apply lookup_insert_eq.
  - apply strs_insert; [done|]. congruence.
  - intros h. apply is_code_insert; [done|]. congruence.
  - by eapply fresh_insert.
Qed.

Lemma sess_conn paths H brk p st pc c pn cn ph hd cn' :
  sess paths H brk p st pc c pn cn ph hd ->
  Forall (is_str H) (strings_of c cn') -> apart (strings_of c cn') ->
  sess paths (<[pn := BConn cn']> H) brk p st pc c pn cn' ph hd.
Proof.
  intros [] Hs Ha. split; try done; try congruence; try other.
  - apply lookup_insert_eq.
  - apply strs_insert; [done|]. congruence.
  - intros h. apply is_code_insert; [done|]. congruence.
  - by eapply fresh_insert.
Qed.

Lemma sess_header paths H brk p st pc c pn cn ph hd hd' :
  sess paths H brk p st pc c pn cn ph hd -> sess paths (<[ph := BHeader hd']> H) brk p st pc c pn cn ph hd'.
Proof.
  intros []. split; try done; try congruence; try other.
  - apply lookup_insert_eq.
  - apply strs_insert; [done|]. congruence.
  - intros h. apply is_code_insert; [done|]. congruence.
  - by eapply fresh_insert.
Qed.

Lemma sess_code paths H brk p st pc c pn cn ph hd q k k' :
  sess paths H brk p st pc c pn cn ph hd -> H !! q = Some (BCode k) ->
  code_kind k' = code_kind k -> code_text k' = code_text k ->
  sess paths (<[q := BCode k']> H) brk p st pc c pn cn ph hd.
Proof.
  intros [] Hq Hk Ht. split; try done; try congruence; try other.
  - apply strs_insert; [done|]. congruence.
  - intros h. specialize (s_codes0 h). destruct (handlers st h) as [x|]; [|done].
    destruct s_codes0 as (y & Hy & ? & ?). destruct (decide (x = q)) as [->|Hne].
    + exists k'. split; [apply lookup_insert_eq|]. replace y with k in * by congruence. split; congruence.
    + exists y. by rewrite lookup_insert_ne.
  - by eapply fresh_insert.
Qed.

(** A new block, which nothing of the session points to. *)
Lemma sess_alloc paths H brk p st pc c pn cn ph hd b :
  sess paths H brk p st pc c pn cn ph hd -> sess paths (<[brk := b]> H) (S brk) p st pc c pn cn ph hd.
Proof.
  intros []. assert (H !! brk = None) as Hn.
  { destruct (H !! brk) as [x|] eqn:E; [|done]. apply s_fresh0 in E. lia. }
  split; try done; try congruence; try other.
  - apply strs_insert; [done|]. congruence.
  - intros h. apply is_code_insert; [done|]. congruence.
  - intros q x Hq. destruct (decide (q = brk)) as [->|Hne]; [lia|].
    rewrite lookup_insert_ne in Hq by done. apply s_fresh0 in Hq. lia.
Qed.

(** ** Steps *)

Lemma wp_load F {A} (k : block V -> option A) q b a (Q : A -> W -> Prop) w :
  heap_of w !! q = Some b -> k b = Some a -> Q a w -> wp F (load k (Some q)) Q w.
Proof. intros Hb Ha HQ. unfold wp, load. by rewrite Hb, Ha. Qed.

Lemma wp_change F {A} (k : block V -> option A) inj q b a f (Q : unit -> W -> Prop) w :
  heap_of w !! q = Some b -> k b = Some a -> Q tt (set_w_heap (<[q := inj (f a)]> (heap_of w)) w) ->
  wp F (change k inj (Some q) f) Q w.
Proof. intros Hb Ha HQ. apply wp_bind. eapply wp_load; [exact Hb|exact Ha|done]. Qed.

Lemma wp_free F q b (Q : unit -> W -> Prop) w :
  heap_of w !! q = Some b -> Q tt (set_w_heap (delete q (heap_of w)) w) -> wp F (free (Some q)) Q w.
Proof. intros Hb HQ. unfold wp, free. by rewrite Hb. Qed.

(** The world after an allocation. *)
Definition grown (b : block V) w : W :=
  let a := w_app w in
  set_w_app (mk_app (a_config a) (<[a_brk a := b]> (a_heap a)) (S (a_brk a)) (a_call a) (a_clock a)) w.

Lemma wp_alloc F b (Q : option ptr -> W -> Prop) w :
  (forall l, Q None (set_w_oom l w)) ->
  (forall l, Q (Some (a_brk (w_app w))) (grown b (set_w_oom l w))) -> wp F (alloc b) Q w.
Proof. intros Hn Hs. apply wp_bind, wp_malloc. intros [] l; [apply Hs|apply Hn]. Qed.

Lemma steady_heap w h : steady w (set_w_heap h w).
Proof. done. Qed.

Lemma steady_grown w b l : steady w (grown b (set_w_oom l w)).
Proof. done. Qed.

Lemma live_weaken hf bf p w : live hf bf p w -> live false false p w.
Proof. intros (st & pc & c & pn & cn & ph & hd & Hs & _). by exists st, pc, c, pn, cn, ph, hd. Qed.

(** A part of a callback that keeps the session intact. *)
Definition keeps (hf bf : bool) (p : nat) {A} (m : cM W A) : Prop := forall w,
  live hf bf p w -> macros_ok w -> wp False m (fun _ w' => live hf bf p w' /\ steady w w') w.

Lemma keeps_ret hf bf p {A} (a : A) : keeps hf bf p (ret a).
Proof. intros w Hl Hm. by apply wp_ret. Qed.

Lemma keeps_bind hf bf p {A B} (m : cM W A) (k : A -> cM W B) :
  keeps hf bf p m -> (forall a, keeps hf bf p (k a)) -> keeps hf bf p (bind m k).
Proof.
  intros Hm Hk w Hl Hok. eapply wp_seq; [by apply Hm|]. intros a w1 [Hl1 Hs1].
  eapply wp_mono; [apply Hk; [done|by eapply steady_macros]|]. intros b w2 [Hl2 Hs2].
  split; [done|by transitivity w1].
Qed.

Lemma keeps_gets hf bf p {A} (f : W -> A) : keeps hf bf p (gets f).
Proof. intros w Hl Hm. by split. Qed.

Lemma keeps_lib hf bf p {A} (m : cM W A) : lib False m -> keeps hf bf p m.
Proof.
  intros H w Hl Hok. eapply wp_mono; [apply H|]. intros a w' (_ & Hc & Ha).
  unfold live, steady, heap_of. rewrite Hc, Ha. done.
Qed.

Lemma keeps_getsymval hf bf p s : s <> [] -> keeps hf bf p (smfi_getsymval s).
Proof. intros Hs w Hl Hok. unfold wp. destruct (getsymval_ok s w Hs Hok) as [v ->]. done. Qed.

(** A change of the state that keeps its pointers. *)
Lemma keeps_upd_state hf bf p f :
  (forall st, cmd (f st) = cmd st /\ handlers (f st) = handlers st) -> keeps hf bf p (upd_state p f).
Proof.
  intros Hf w (st & pc & c & pn & cn & ph & hd & Hs & Hh & Hb) Hok.
  destruct (Hf st) as [Hc Hk]. eapply wp_change; [exact (s_state _ _ _ _ _ _ _ _ _ _ _ Hs)|done|].
  split; [|done]. exists (f st), pc, c, pn, cn, ph, hd. split; [|done].
  apply (sess_state _ _ _ _ st); [done|done| |]; rewrite Hk; by destruct Hs.
Qed.

Lemma live_cmd hf bf p w : live hf bf p w -> exists st pc c pn cn ph hd,
  sess (handler_path (a_config (w_app w))) (heap_of w) (a_brk (w_app w)) p st pc c pn cn ph hd /\
  (hf = true -> header_now (a_call (w_app w)) hd) /\ (bf = true -> body_now (a_call (w_app w)) c) /\
  load as_state (Some p) w = Done st w /\ get_cmd p w = Done c w.
Proof.
  intros (st & pc & c & pn & cn & ph & hd & Hs & Hh & Hb). exists st, pc, c, pn, cn, ph, hd.
  split; [done|]. split; [done|]. split; [done|]. destruct Hs.
  unfold get_cmd, load, bind. rewrite s_state0. simpl. rewrite s_pc0. simpl. by rewrite s_cmd0.
Qed.

(** Reading. *)
Lemma keeps_load_state hf bf p : keeps hf bf p (load as_state (Some p)).
Proof. intros w Hl Hok. destruct (live_cmd _ _ _ _ Hl) as (st & _ & _ & _ & _ & _ & _ & _ & _ & _ & E & _). unfold wp. by rewrite E. Qed.

(** A read-only step with a known result. *)
Lemma keeps_read hf bf p {A} (m : cM W A) :
  (forall w, live hf bf p w -> exists a, m w = Done a w) -> keeps hf bf p m.
Proof. intros H w Hl Hok. unfold wp. destruct (H w Hl) as [a ->]. done. Qed.

Lemma is_str_read H o w : heap_of w = H -> is_str H o -> exists r, mrb_str_ptr o w = Done r w.
Proof.
  intros <- Ho. unfold mrb_str_ptr. destruct o as [q|]; [|by eexists]. destruct Ho as [s Hq].
  unfold load, bind. rewrite Hq. by eexists.
Qed.

Lemma borrow_read o w : fresh_borrow (a_call (w_app w)) o -> exists s, borrow_str o w = Done s w.
Proof.
  unfold borrow_str, fresh_borrow, read_borrow. destruct o as [b|]; [|by eexists]. intros ->.
  rewrite decide_True by done. by eexists.
Qed.

(** ** Handlers *)

(** A script that reads the header and the body chunk only where it may. *)
Fixpoint tame (hf bf : bool) (s : script V) : Prop :=
  match s with
  | SEnd _ _ => True
  | SCall m k =>
      match m with Header => hf = true | Body_chunk => bf = true | _ => True end /\ forall r, tame hf bf (k r)
  end.

Lemma keeps_method hf bf p m :
  match m with Header => hf = true | Body_chunk => bf = true | _ => True end ->
  keeps hf bf p (@session_method V p m).
Proof.
  intros Hm. destruct m; cbn [session_method]; try apply keeps_ret;
    try (apply keeps_bind; [by apply keeps_upd_state|intros; apply keeps_ret]);
    try (destruct (_ || _); [apply keeps_ret|]; apply keeps_bind; [apply keeps_load_state|]; intros _;
         apply keeps_bind; [apply keeps_lib; auto using lib_addheader, lib_chgfrom, lib_addrcpt_par|]; intros; apply keeps_ret);
    try (apply keeps_bind; [apply keeps_load_state|]; intros ?;
         (apply keeps_ret || (apply keeps_bind; [apply keeps_getsymval; by destruct s|]; intros; apply keeps_ret)));
    apply keeps_read; intros w Hl; destruct (live_cmd _ _ _ _ Hl) as (st & pc & c & pn & cn & ph & hd & Hs & Hh & Hb & _ & E);
    rewrite (bind_run _ _ _ _ _ E); destruct Hs; apply Forall_cons_iff in s_strs0 as [H1 H2];
    apply Forall_cons_iff in H2 as [H2 H3]; apply Forall_cons_iff in H3 as [H3 H4]; apply Forall_cons_iff in H4 as [H4 _].
  - rewrite s_pn0. unfold load, bind. rewrite s_conn0. by eapply is_str_read.
  - rewrite s_pn0. unfold load, bind. rewrite s_conn0. by eapply is_str_read.
  - by eapply is_str_read.
  - by eapply is_str_read.
  - by eexists.
  - by eexists.
  - specialize (Hb Hm). unfold body_now in Hb. destruct (body_chunk c) as [b|]; [|by eexists].
    destruct Hb as [Hc Hlen]. unfold bind, read_borrow. rewrite decide_True by done.
    rewrite (proj2 (Z.ltb_ge _ _)) by done. by eexists.
  - destruct (Hh Hm) as [Hk Hv]. rewrite s_ph0. unfold load, bind. rewrite s_header0.
    destruct (borrow_read _ _ Hk) as [sk Ek]. destruct (borrow_read _ _ Hv) as [sv Ev].
    simpl. rewrite Ek, Ev. by eexists.
Qed.

Lemma keeps_run hf bf p s : tame hf bf s -> keeps hf bf p (mrb_run p s).
Proof.
  induction s as [exc vm|m k IH]; cbn [tame mrb_run]; intros Ht.
  - apply keeps_bind; [by apply keeps_upd_state|intros; apply keeps_ret].
  - destruct Ht as [Hm Hk]. apply keeps_bind; [by apply keeps_method|]. intros r. by apply IH.
Qed.

(** A handler's slot is set to a new block or NULL. *)
Lemma keeps_new_code hf bf p h :
  keeps hf bf p (install_hook h p).
Proof.
  intros w (st & pc & c & pn & cn & ph & hd & Hs & Hh & Hb) Hok.
  assert (forall w' o, sess (handler_path (a_config (w_app w))) (heap_of w') (a_brk (w_app w')) p st pc c pn cn ph hd ->
    steady w w' -> is_code (heap_of w') (handler_path (a_config (w_app w)) h) o -> (forall q, o = Some q -> forall h', handlers st h' <> Some q) ->
    wp False (upd_state p (set_handler h o)) (fun _ w' => live hf bf p w' /\ steady w w') w') as Hset.
  { intros w' o Hs' Hst Ho Hnew. eapply wp_change; [exact (s_state _ _ _ _ _ _ _ _ _ _ _ Hs')|done|].
    split; [|by transitivity w']. exists (set_handler h o st), pc, c, pn, cn, ph, hd. split.
    - cbn [w_app set_w_heap set_w_app set_heap a_config a_brk]. destruct Hst as (_ & -> & _).
      apply (sess_state _ _ _ _ st); [done|done| |].
      + intros h'. unfold set_handler, upd. cbn [handlers]. case_decide; [by subst|]. by destruct Hs'.
      + intros h1 h2 q. unfold set_handler, upd. cbn [handlers].
        pose proof (s_capart _ _ _ _ _ _ _ _ _ _ _ Hs' h1 h2 q) as Hca.
        do 2 case_decide; intros E1 E2; subst; try done; [exfalso|exfalso|by apply Hca].
        * by apply (Hnew q eq_refl h2).
        * by apply (Hnew q eq_refl h1).
    - destruct Hst as (_ & _ & Hcall). rewrite <- Hcall in Hh, Hb. done. }
  apply wp_bind. unfold wp at 1, gets. apply wp_bind. unfold pmilter_mrb_code_from_file.
  destruct (handler_path _ h) as [f|] eqn:Ef; [|by apply wp_ret, Hset].
  apply wp_alloc; intros l; [by apply (Hset (set_w_oom l w))|].
  apply Hset; [by apply sess_alloc|done|by eexists; split; [apply lookup_insert_eq|]|].
  intros q [= <-] h' Eq. destruct Hs. specialize (s_codes0 h'). rewrite Eq in s_codes0.
  destruct s_codes0 as (k & Hk & _). apply s_fresh0 in Hk. lia.
Qed.

Lemma keeps_enter hf bf h p : keeps hf bf p (enter_hook h p).
Proof.
  apply keeps_bind; [by apply keeps_upd_state|]. intros _. apply keeps_new_code.
Qed.

Lemma sess_drop_code paths H brk p st pc c pn cn ph hd h q :
  sess paths H brk p st pc c pn cn ph hd -> handlers st h = Some q ->
  sess paths (<[p := BState (set_handler h None st)]> (delete q H)) brk p (set_handler h None st) pc c pn cn ph hd.
Proof.
  intros [] Hq. pose proof (s_codes0 h) as Hc. rewrite Hq in Hc. destruct Hc as (k & Hk & _).
  split; try done; try (rewrite lookup_insert_ne, lookup_delete_ne; congruence).
  - apply lookup_insert_eq.
  - eapply Forall_impl; [exact s_strs0|]. intros [x|]; [|done]. intros [y Hy]. exists y.
    rewrite lookup_insert_ne, lookup_delete_ne; congruence.
  - intros h'. unfold set_handler, upd. cbn [handlers]. case_decide as Hh; [done|].
    specialize (s_codes0 h'). destruct (handlers st h') as [x|] eqn:Ex; [|done].
    destruct s_codes0 as (y & Hy & Hr). exists y. split; [|done].
    assert (x <> q) by (intros ->; apply Hh; by eapply s_capart0).
    rewrite lookup_insert_ne, lookup_delete_ne; congruence.
  - intros h1 h2 x. unfold set_handler, upd. cbn [handlers]. do 2 case_decide; try done. apply s_capart0.
  - intros x y Hx. destruct (decide (x = p)) as [->|Hne]; [by eapply s_fresh0|].
    rewrite lookup_insert_ne in Hx by done. apply lookup_delete_Some in Hx as [_ Hx]. by eapply s_fresh0.
Qed.

Lemma keeps_code_free hf bf p h : keeps hf bf p (code_free p h).
Proof.
  intros w Hl Hok. destruct (live_cmd _ _ _ _ Hl) as (st & pc & c & pn & cn & ph & hd & Hs & Hh & Hb & E & _).
  unfold code_free. apply wp_bind. unfold wp at 1. rewrite E.
  destruct (handlers st h) as [q|] eqn:Eq; [|by apply wp_ret].
  pose proof (s_codes _ _ _ _ _ _ _ _ _ _ _ Hs h) as Hc. rewrite Eq in Hc. destruct Hc as (k & Hk & _).
  apply wp_bind. eapply wp_free; [exact Hk|].
  eapply (wp_change _ _ _ p (BState st) st); [|done|].
  { unfold heap_of, set_w_heap. simpl. rewrite lookup_delete_ne; [by destruct Hs|]. destruct Hs. unfold heap_of in *. congruence. }
  split; [|done]. exists (set_handler h None st), pc, c, pn, cn, ph, hd. split; [|done].
  by apply (sess_drop_code _ _ _ _ st _ _ _ _ _ _ h q).
Qed.

Context (mrb_load : bytes -> option (compiled V)) (mrb_parse_string : bytes -> compiled V).

(** What compiling a session's handler gives. *)
Lemma compile_live hf bf p h st q w : live hf bf p w ->
  heap_of w !! p = Some (BState st) -> handlers st h = Some q ->
  wp False (pmilter_state_compile mrb_load mrb_parse_string (Some q))
     (fun ok w' => live hf bf p w' /\ steady w w' /\ heap_of w' !! p = Some (BState st) /\
        match (f ← handler_path (a_config (w_app w)) h; mrb_load f) with
        | Some (Proc prog) => ok = true /\ exists k, heap_of w' !! q = Some (BCode k) /\ code_proc k = Some prog
        | _ => ok = false
        end) w.
Proof.
  intros (st' & pc & c & pn & cn & ph & hd & Hs & Hh & Hb) Hst Hq.
  assert (st' = st) as -> by (destruct Hs; congruence).
  pose proof (s_codes _ _ _ _ _ _ _ _ _ _ _ Hs h) as Hc. rewrite Hq in Hc. destruct Hc as (k & Hk & Hkind & Hpath).
  unfold pmilter_state_compile. apply wp_bind. eapply wp_load; [exact Hk|done|]. cbv zeta.
  rewrite Hkind, Hpath. cbn [mbind option_bind].
  assert (forall w', steady w w' -> sess (handler_path (a_config (w_app w))) (heap_of w') (a_brk (w_app w')) p st pc c pn cn ph hd ->
            live hf bf p w' /\ heap_of w' !! p = Some (BState st)) as Hlive.
  { intros w' (_ & Hcfg & Hcall) Hs'. split; [|by destruct Hs'].
    exists st, pc, c, pn, cn, ph, hd. by rewrite Hcfg, Hcall. }
  destruct (mrb_load (code_text k)) as [[|prog]|].
  - apply wp_bind. eapply wp_change; [exact Hk|done|]. apply wp_ret.
    edestruct Hlive as [Hl' Hp']; [apply steady_heap| |split; [exact Hl'|split; [done|split; [exact Hp'|done]]]].
    by apply (sess_code _ _ _ _ _ _ _ _ _ _ _ _ k).
  - apply wp_bind. eapply wp_change; [exact Hk|done|]. apply wp_ret.
    edestruct Hlive as [Hl' Hp']; [apply steady_heap| |split; [exact Hl'|split; [done|split; [exact Hp'|]]]].
    + by apply (sess_code _ _ _ _ _ _ _ _ _ _ _ _ k).
    + split; [done|]. eexists. split; [apply lookup_insert_eq|done].
  - apply wp_ret. destruct (Hlive w) as [Hl' Hp']; [done|done|]. split; [done|]. split; [done|]. done.
Qed.

Lemma keeps_run_handler hf bf p h st q k prog vm w : live hf bf p w -> macros_ok w ->
  heap_of w !! p = Some (BState st) -> handlers st h = Some q -> heap_of w !! q = Some (BCode k) ->
  code_proc k = Some prog -> mrb st = Some vm -> tame hf bf (prog vm) ->
  wp False (run_handler h p) (fun _ w' => live hf bf p w' /\ steady w w') w.
Proof.
  intros Hl Hok Hst Hq Hk Hproc Hvm Ht. unfold run_handler. apply wp_bind.
  eapply wp_load; [exact Hst|done|]. rewrite Hvm. apply wp_bind, wp_deref.
  apply wp_bind. eapply wp_change; [exact Hst|done|]. set (w1 := set_w_heap _ w).
  assert (live hf bf p w1 /\ steady w w1) as [Hl1 Hs1].
  { pose proof (keeps_upd_state hf bf p (fun s => set_phase (lit "mruby_" ++ hook_name h ++ lit "_handler")
      (set_status SMFIS_CONTINUE s)) ltac:(done) w Hl Hok) as Hu.
    unfold wp, upd_state, change, bind, load in Hu. rewrite Hst in Hu. done. }
  rewrite Hq. apply wp_bind. eapply (wp_load _ _ q (BCode k)); [|done|].
  { unfold w1, heap_of, set_w_heap. simpl. rewrite lookup_insert_ne; [done|]. unfold heap_of in *. congruence. }
  rewrite Hproc. apply wp_bind, wp_deref.
  eapply (wp_mono _ _ (fun _ w' => live hf bf p w' /\ steady w1 w')); [|intros ? w' [Hl' Hs']; split; [exact Hl'|by transitivity w1]].
  eapply keeps_bind; [by apply keeps_run| |done|by eapply steady_macros].
  intros exc. apply keeps_bind; [destruct exc; [by apply keeps_upd_state|apply keeps_ret]|]. intros _.
  intros w2 Hl2 Hok2. destruct (live_cmd _ _ _ _ Hl2) as (st2 & pc & c & pn & cn & ph & hd & Hs2 & Hh & Hb & E & _).
  apply wp_bind. unfold wp at 1. rewrite E.
  apply (wp_seq _ _ _ (fun _ w' => live hf bf p w' /\ steady w2 w')).
  - pose proof (s_codes _ _ _ _ _ _ _ _ _ _ _ Hs2 h) as Hc. destruct (handlers st2 h) as [q2|]; [|by apply wp_ret].
    destruct Hc as (k2 & Hk2 & _). eapply wp_change; [exact Hk2|done|]. split; [|done].
    exists st2, pc, c, pn, cn, ph, hd. split; [|done]. by apply (sess_code _ _ _ _ _ _ _ _ _ _ _ _ k2).
  - intros _ w3 [Hl3 Hs3]. eapply (wp_mono _ _ (fun _ w' => live hf bf p w' /\ steady w3 w'));
      [|intros ? w' [Hl' Hs']; split; [exact Hl'|by transitivity w3]].
    apply keeps_bind; [apply keeps_code_free| |done|by eapply steady_macros]. intros _.
    apply keeps_bind; [apply keeps_load_state|]. intros ?. apply keeps_ret.
Qed.

(** The programs of a phase read the header and the body where they may. *)
Definition tame_hook (cfg : pmilter_config) (h : hook) (hf bf : bool) : Prop := forall f prog v,
  handler_path cfg h = Some f -> mrb_load f = Some (Proc prog) -> tame hf bf (prog v).

(** The step before compiling may make more of the session readable. *)
Lemma exec_live h p hf0 bf0 hf bf ready after w :
  (forall w, live hf0 bf0 p w -> macros_ok w ->
     wp False ready (fun _ w' => live hf bf p w' /\ steady w w' /\ heap_of w' !! p = heap_of w !! p) w) ->
  keeps false false p after -> tame_hook (a_config (w_app w)) h hf bf -> live hf0 bf0 p w -> macros_ok w ->
  wp False (exec_hook mrb_load mrb_parse_string h p ready after)
     (fun _ w' => live false false p w' /\ steady w w') w.
Proof.
  intros Hready Hafter Htame Hl Hok. destruct (live_cmd _ _ _ _ Hl) as (st & pc & c & pn & cn & ph & hd & Hs & _ & _ & E & _).
  unfold exec_hook. apply wp_bind. unfold wp at 1. rewrite E.
  destruct (handlers st h) as [q|] eqn:Eq; [|split; [by eapply live_weaken|done]].
  destruct (mrb st) as [vm|] eqn:Evm; [|split; [by eapply live_weaken|done]]. cbn [is_Some].
  rewrite !bool_decide_eq_true_2 by eauto. cbn [andb].
  eapply wp_seq; [by apply Hready|]. intros _ w1 (Hl1 & Hs1 & Hp1).
  assert (heap_of w1 !! p = Some (BState st)) as Hst1 by (rewrite Hp1; by destruct Hs).
  eapply wp_seq; [by apply (compile_live hf bf p h st q)|]. intros ok w2 (Hl2 & Hs2 & Hst2 & Hc).
  assert (steady w w2) as Hs02 by (by transitivity w1).
  assert (macros_ok w2) as Hok2 by (by eapply steady_macros).
  destruct ok; cbn [negb]; [|split; [by eapply live_weaken|done]].
  destruct (handler_path (a_config (w_app w1)) h) as [f|] eqn:Ef; cbn [mbind option_bind] in Hc; [|done].
  destruct (mrb_load f) as [[|prog]|] eqn:El; [done| |done]. destruct Hc as (_ & k & Hk & Hproc).
  assert (tame hf bf (prog vm)) as Ht.
  { destruct Hs1 as (_ & Hcfg & _). rewrite Hcfg in Ef. by eapply Htame. }
  eapply wp_seq; [by apply (keeps_run_handler hf bf p h st q k prog vm)|].
  intros r w3 [Hl3 Hs3]. assert (steady w w3) as Hs03 by (by transitivity w2).
  eapply (wp_mono _ _ (fun _ w' => live false false p w' /\ steady w3 w'));
    [|intros ? w' [Hl' Hs']; split; [exact Hl'|by transitivity w3]].
  apply keeps_bind; [by apply keeps_upd_state| |by eapply live_weaken|by eapply steady_macros].
  intros _. apply keeps_bind; [done|]. intros _. apply keeps_ret.
Qed.

(** ** What the callbacks record *)

Lemma apart_insert_fresh l i q : apart l -> Some q ∉ l -> apart (<[i := Some q]> l).
Proof.
  unfold apart. revert i. induction l as [|x l IH]; intros i Hl Hq; [done|].
  rewrite elem_of_cons in Hq. destruct i as [|i]; simpl in Hl |- *.
  - constructor; [|by destruct x; [inversion Hl|]].
    rewrite list_elem_of_omap. intros (o & Ho & Eo). simpl in Eo. unfold id in Eo. subst o. naive_solver.
  - assert (forall j, apart l -> apart (<[j := Some q]> l)) as IH' by (unfold apart; naive_solver).
    destruct x as [x|]; simpl in *; [|by apply IH; naive_solver].
    apply NoDup_cons in Hl as [Hx Hl]. constructor; [|by apply IH'].
    rewrite list_elem_of_omap. intros (o & Ho & Eo). unfold id in Eo. subst o.
    apply list_elem_of_lookup in Ho as [j Hj]. destruct (decide (j = i)) as [->|Hne].
    + rewrite list_lookup_insert_eq in Hj; [naive_solver|]. apply lookup_lt_Some in Hj. by rewrite length_insert in Hj.
    + rewrite list_lookup_insert_ne in Hj by done. apply Hx. apply list_elem_of_omap. exists (Some x).
      split; [by eapply list_elem_of_lookup_2|done].
Qed.

Lemma omap_insert_None (l : list (option nat)) i : sublist (omap id (<[i := None]> l)) (omap id l).
Proof.
  revert i. induction l as [|x l IH]; intros [|i]; simpl; try done.
  - destruct x; [by constructor|done].
  - destruct x; simpl; [by constructor|done].
Qed.

Lemma apart_insert_None l i : apart l -> apart (<[i := None]> l).
Proof. unfold apart. intros H. eapply sublist_NoDup; [done|apply omap_insert_None]. Qed.

(** A change of the command record that leaves its pointers. *)
Lemma keeps_upd_cmd hf bf p f :
  (forall c, conn (f c) = conn c /\ header (f c) = header c /\ envelope_from (f c) = envelope_from c /\
     helohost (f c) = helohost c /\ body_chunk (f c) = body_chunk c /\ body_chunk_len (f c) = body_chunk_len c) ->
  keeps hf bf p (upd_cmd p f).
Proof.
  intros Hf w Hl Hok. destruct (live_cmd _ _ _ _ Hl) as (st & pc & c & pn & cn & ph & hd & Hs & Hh & Hb & E & _).
  destruct (Hf c) as (E1 & E2 & E3 & E4 & E5 & E6).
  unfold upd_cmd. apply wp_bind. unfold wp at 1. rewrite E, (s_pc _ _ _ _ _ _ _ _ _ _ _ Hs).
  eapply wp_change; [exact (s_cmd _ _ _ _ _ _ _ _ _ _ _ Hs)|done|]. split; [|done].
  exists st, pc, (f c), pn, cn, ph, hd. split; [|split; [done|]].
  - apply (sess_cmd _ _ _ _ _ _ c); [done..| |]; unfold strings_of; rewrite E3, E4; by destruct Hs.
  - unfold body_now in *. by rewrite E5, E6.
Qed.

(** A new string in one of the two string fields of the record. *)
Lemma keeps_new_string p x g (i : nat) :
  (forall o c cn, strings_of (g o c) cn = <[i := o]> (strings_of c cn) /\ conn (g o c) = conn c /\ header (g o c) = header c) ->
  (i < 2)%nat -> keeps false false p (let* s := strdup x in upd_cmd p (g s)).
Proof.
  intros Hg Hi w Hl Hok. destruct (live_cmd _ _ _ _ Hl) as (st & pc & c & pn & cn & ph & hd & Hs & _ & _ & _ & _).
  assert (forall w' o, sess (handler_path (a_config (w_app w))) (heap_of w') (a_brk (w_app w')) p st pc c pn cn ph hd ->
    steady w w' -> is_str (heap_of w') o -> apart (<[i := o]> (strings_of c cn)) ->
    wp False (upd_cmd p (g o)) (fun _ w' => live false false p w' /\ steady w w') w') as Hset.
  { intros w' o Hs' Hst Ho Hap. destruct (Hg o c cn) as (G1 & G2 & G3). unfold upd_cmd.
    apply wp_bind. eapply wp_load; [exact (s_state _ _ _ _ _ _ _ _ _ _ _ Hs')|done|].
    rewrite (s_pc _ _ _ _ _ _ _ _ _ _ _ Hs').
    eapply wp_change; [exact (s_cmd _ _ _ _ _ _ _ _ _ _ _ Hs')|done|].
    split; [|by transitivity w']. exists st, pc, (g o c), pn, cn, ph, hd. split; [|done].
    cbn [w_app set_w_heap set_w_app set_heap a_config a_brk]. destruct Hst as (_ & -> & _).
    apply (sess_cmd _ _ _ _ _ _ c); [done..| |]; rewrite G1; [|done].
    apply Forall_insert; [by destruct Hs'|done]. }
  apply wp_bind, wp_alloc; intros l.
  - apply (Hset (set_w_oom l w)); [done..|]. destruct Hs as [_ _ _ _ _ _ _ _ Ha _ _ _].
    by apply apart_insert_None.
  - apply Hset; [by apply sess_alloc|done|eexists; apply lookup_insert_eq|].
    destruct Hs. apply apart_insert_fresh; [done|]. intros Hin. rewrite Forall_forall in s_strs0.
    apply s_strs0 in Hin. destruct Hin as [y Hy]. apply s_fresh0 in Hy. lia.
Qed.

Lemma header_recorded p headerf headerv w : live false false p w -> macros_ok w ->
  wp False (let* c := get_cmd p in
            let* k := lend (Some headerf) in
            let* v := lend (Some headerv) in
            change as_header BHeader (header c) (fun _ => mk_header k v))
     (fun _ w' => live true false p w' /\ steady w w') w.
Proof.
  intros Hl Hok. destruct (live_cmd _ _ _ _ Hl) as (st & pc & c & pn & cn & ph & hd & Hs & _ & _ & _ & E).
  apply wp_bind. unfold wp at 1. rewrite E. apply wp_bind. unfold wp at 1, lend, gets.
  apply wp_bind. unfold wp at 1, gets. rewrite (s_ph _ _ _ _ _ _ _ _ _ _ _ Hs).
  eapply wp_change; [exact (s_header _ _ _ _ _ _ _ _ _ _ _ Hs)|done|]. split; [|done].
  eexists st, pc, c, pn, cn, ph, _. split; [by eapply sess_header|]. by split.
Qed.

Lemma body_recorded p bodyp bodylen w :
  match bodyp with None => True | Some b => bodylen <= Z.of_nat (length b) end ->
  live false false p w -> macros_ok w ->
  wp False (let* b := lend bodyp in upd_cmd p (set_body b bodylen))
     (fun _ w' => live false true p w' /\ steady w w' /\ heap_of w' !! p = heap_of w !! p) w.
Proof.
  intros Hb Hl Hok. destruct (live_cmd _ _ _ _ Hl) as (st & pc & c & pn & cn & ph & hd & Hs & _ & _ & E & _).
  apply wp_bind. unfold wp at 1, lend, gets. unfold upd_cmd. apply wp_bind. unfold wp at 1. rewrite E.
  rewrite (s_pc _ _ _ _ _ _ _ _ _ _ _ Hs). eapply wp_change; [exact (s_cmd _ _ _ _ _ _ _ _ _ _ _ Hs)|done|].
  split; [|split; [done|]].
  - eexists st, pc, _, pn, cn, ph, hd. split; [apply (sess_cmd _ _ _ _ _ _ c); [done..| |]; by destruct Hs|].
    split; [done|]. intros _. unfold body_now. simpl. by destruct bodyp.
  - unfold heap_of, set_w_heap. simpl. rewrite lookup_insert_ne; [done|]. destruct Hs. unfold heap_of in *. congruence.
Qed.

(** The envelope sender is freed with its field. *)
Lemma sess_drop_from paths H brk p st pc c pn cn ph hd q c' :
  sess paths H brk p st pc c pn cn ph hd -> envelope_from c = Some q ->
  c' = set_envelope_from None (set_envelope_to None (set_receive_time 0 c)) ->
  sess paths (<[pc := BCmd c']> (delete q H)) brk p st pc c' pn cn ph hd.
Proof.
  intros [] Hq ->. unfold strings_of in s_strs0, s_apart0. rewrite Hq in s_strs0, s_apart0.
  apply Forall_cons_iff in s_strs0 as [[y Hy] Hrest]. apply NoDup_cons in s_apart0 as [Hn Hap].
  change (q ∉ omap id [helohost c; ipaddr cn; hostname cn]) in Hn.
  split; try done; try (rewrite lookup_insert_ne, lookup_delete_ne; congruence).
  - apply lookup_insert_eq.
  - constructor; [done|]. rewrite Forall_forall in Hrest |- *. intros [x|] Hin; [|done].
    destruct (Hrest _ Hin) as [z Hz]. exists z.
    assert (x <> q). { intros ->. apply Hn, list_elem_of_omap. by exists (Some q). }
    rewrite lookup_insert_ne, lookup_delete_ne; congruence.
  - intros h. specialize (s_codes0 h). destruct (handlers st h) as [x|]; [|done].
    destruct s_codes0 as (z & Hz & Hr). exists z. split; [|done]. rewrite lookup_insert_ne, lookup_delete_ne; congruence.
  - intros x z Hx. destruct (decide (x = pc)) as [->|Hne]; [by eapply s_fresh0|].
    rewrite lookup_insert_ne in Hx by done. apply lookup_delete_Some in Hx as [_ Hx]. by eapply s_fresh0.
Qed.

Lemma keeps_free_per_session p :
  keeps false false p (let* s := load as_state (Some p) in command_rec_free_per_session (cmd s)).
Proof.
  intros w Hl Hok. destruct (live_cmd _ _ _ _ Hl) as (st & pc & c & pn & cn & ph & hd & Hs & _ & _ & E & _).
  apply wp_bind. unfold wp at 1. rewrite E, (s_pc _ _ _ _ _ _ _ _ _ _ _ Hs).
  unfold command_rec_free_per_session. apply wp_bind.
  eapply wp_load; [exact (s_cmd _ _ _ _ _ _ _ _ _ _ _ Hs)|done|]. apply wp_bind.
  set (c' := set_envelope_from None (set_envelope_to None (set_receive_time 0 c))).
  assert (forall w', steady w w' -> heap_of w' !! pc = Some (BCmd c) ->
     sess (handler_path (a_config (w_app w))) (<[pc := BCmd c']> (heap_of w')) (a_brk (w_app w')) p st pc c' pn cn ph hd ->
     wp False (change as_cmd BCmd (Some pc) (fun r => set_envelope_from None (set_envelope_to None (set_receive_time 0 r))) ;;;
               change as_header BHeader (header c) (fun _ => mk_header None None))
        (fun _ w' => live false false p w' /\ steady w w') w') as Hrest.
  { intros w' Hst Hpc Hs'. apply wp_bind. eapply wp_change; [exact Hpc|done|].
    rewrite (s_ph _ _ _ _ _ _ _ _ _ _ _ Hs). eapply wp_change; [exact (s_header _ _ _ _ _ _ _ _ _ _ _ Hs')|done|].
    split; [|by transitivity w']. eexists st, pc, c', pn, cn, ph, _. split; [|done].
    cbn [w_app set_w_heap set_w_app set_heap a_config a_brk]. destruct Hst as (_ & -> & _). by eapply sess_header. }
  destruct (envelope_from c) as [q|] eqn:Eq.
  - assert (exists y, heap_of w !! q = Some (BStr y)) as [y Hy].
    { destruct Hs. unfold strings_of in s_strs0. rewrite Eq in s_strs0. by apply Forall_cons_iff in s_strs0 as [? _]. }
    eapply wp_free; [exact Hy|]. apply Hrest; [done|..].
    + unfold heap_of, set_w_heap. simpl. rewrite lookup_delete_ne; [by destruct Hs|]. destruct Hs. unfold heap_of in *. congruence.
    + by eapply sess_drop_from.
  - apply wp_ret, Hrest; [done|by destruct Hs|].
    apply (sess_cmd _ _ _ _ _ _ c); [done..| |].
    + destruct Hs. unfold strings_of in s_strs0 |- *. rewrite Eq in s_strs0. done.
    + destruct Hs. unfold strings_of in s_apart0 |- *. rewrite Eq in s_apart0. done.
Qed.

(** ** The callbacks *)

(** The callbacks between connect and close, with their arguments. *)
Inductive event :=
  | EvHelo (host : bytes) | EvEnvfrom (argv : list bytes) | EvEnvrcpt (argv : list bytes)
  | EvHeader (headerf headerv : bytes) | EvEoh | EvBody (bodyp : option bytes) (bodylen : Z) | EvEom
  | EvAbort | EvUnknown (scmd : option bytes) | EvData.

Definition run_event (e : event) : cM W Z :=
  match e with
  | EvHelo host => mrb_xxfi_helo mrb_load mrb_parse_string host
  | EvEnvfrom argv => mrb_xxfi_envfrom mrb_load mrb_parse_string argv
  | EvEnvrcpt argv => mrb_xxfi_envrcpt mrb_load mrb_parse_string argv
  | EvHeader f v => mrb_xxfi_header mrb_load mrb_parse_string f v
  | EvEoh => mrb_xxfi_eoh mrb_load mrb_parse_string
  | EvBody b n => mrb_xxfi_body mrb_load mrb_parse_string b n
  | EvEom => mrb_xxfi_eom mrb_load mrb_parse_string
  | EvAbort => mrb_xxfi_abort mrb_load mrb_parse_string
  | EvUnknown c => mrb_xxfi_unknown mrb_load mrb_parse_string c
  | EvData => mrb_xxfi_data mrb_load mrb_parse_string
  end.

Definition event_hook (e : event) : hook :=
  match e with
  | EvHelo _ => Hhelo | EvEnvfrom _ => Henvfrom | EvEnvrcpt _ => Henvrcpt | EvHeader _ _ => Hheader
  | EvEoh => Heoh | EvBody _ _ => Hbody | EvEom => Heom | EvAbort => Habort | EvUnknown _ => Hunknown | EvData => Hdata
  end.

(** The arguments as the library passes them: a sender, and as many bytes of
    body as announced. *)
Definition event_ok (e : event) : Prop :=
  match e with
  | EvEnvfrom argv => argv <> []
  | EvBody (Some b) n => n <= Z.of_nat (length b)
  | _ => True
  end.

Definition reads_header (e : event) : bool := match e with EvHeader _ _ => true | _ => false end.
Definition reads_body (e : event) : bool := match e with EvBody _ _ => true | _ => false end.

Lemma tick_live p w : live false false p w -> live false false p (final (tick w)).
Proof. intros (st & pc & c & pn & cn & ph & hd & Hs & _). by exists st, pc, c, pn, cn, ph, hd. Qed.

Lemma leave_live p ok : keeps false false p (leave_hook p ok).
Proof.
  unfold leave_hook. destruct ok; [|apply keeps_ret].
  apply keeps_bind; [apply keeps_load_state|intros; apply keeps_ret].
Qed.

Lemma keeps_if_mrb p m : keeps false false p m -> keeps false false p (if_mrb p m).
Proof.
  intros Hm. apply keeps_bind.
  - apply keeps_bind; [apply keeps_load_state|intros; apply keeps_ret].
  - intros []; [done|apply keeps_ret].
Qed.

(** The end of a callback. *)
Lemma tail_live h p hf0 bf0 hf bf ready after w :
  (forall w, live hf0 bf0 p w -> macros_ok w ->
     wp False ready (fun _ w' => live hf bf p w' /\ steady w w' /\ heap_of w' !! p = heap_of w !! p) w) ->
  keeps false false p after -> tame_hook (a_config (w_app w)) h hf bf -> live hf0 bf0 p w -> macros_ok w ->
  wp False (let* ok := exec_hook mrb_load mrb_parse_string h p ready after in leave_hook p ok)
     (fun _ w' => live false false p w' /\ steady w w') w.
Proof.
  intros Hr Ha Ht Hl Hok. eapply wp_seq; [by eapply exec_live|]. intros ok w1 [Hl1 Hs1].
  eapply wp_mono; [apply leave_live; [done|by eapply steady_macros]|]. intros r w2 [Hl2 Hs2].
  split; [done|by transitivity w1].
Qed.

(** The start of a callback, up to what it records. *)
Lemma front_live h p (m : nat -> cM W Z) w :
  ctx_privdata (w_ctx w) = PrivState p -> live false false p w -> macros_ok w ->
  (forall w1, live false false p w1 -> macros_ok w1 -> w_ctx w1 = w_ctx w -> a_config (w_app w1) = a_config (w_app w) ->
     wp False (m p) (fun _ w' => live false false p w' /\ steady w1 w') w1) ->
  wp False (tick ;;; let* p := priv_state in enter_hook h p ;;; m p)
     (fun _ w' => live false false p w' /\ w_ctx w' = w_ctx w /\ a_config (w_app w') = a_config (w_app w)) w.
Proof.
  intros Hp Hl Hok Hm. apply wp_bind. unfold wp at 1, tick, modify.
  pose proof (tick_live p w Hl) as Hl0. unfold tick, modify in Hl0. simpl in Hl0.
  apply wp_bind. unfold priv_state. apply wp_bind, wp_getc. simpl. rewrite Hp. apply wp_ret.
  eapply wp_seq; [by apply keeps_enter|]. intros _ w1 [Hl1 (Hc1 & Hcfg1 & _)].
  eapply wp_mono; [apply Hm; [done| |done|done]|].
  { unfold macros_ok in *. by rewrite Hc1. }
  intros r w2 [Hl2 (Hc2 & Hcfg2 & _)]. split; [done|]. split; [by rewrite Hc2|by rewrite Hcfg2].
Qed.

Lemma nop_ready p hf bf w : live hf bf p w -> macros_ok w ->
  wp False nop (fun _ w' => live hf bf p w' /\ steady w w' /\ heap_of w' !! p = heap_of w !! p) w.
Proof. intros Hl Hok. by apply wp_ret. Qed.

Lemma keeps_time hf bf p : keeps hf bf p time.
Proof.
  intros w Hl Hok. unfold wp, time. destruct (a_clock (w_app w)); [done|]. split; [|done].
  destruct Hl as (st & pc & c & pn & cn & ph & hd & Hs & Hh). by exists st, pc, c, pn, cn, ph, hd.
Qed.

(** A record step followed by the end of the callback. *)
Lemma record_tail h p (rec after : cM W unit) w : keeps false false p rec -> keeps false false p after ->
  tame_hook (a_config (w_app w)) h false false -> live false false p w -> macros_ok w ->
  wp False (rec ;;; let* ok := exec_hook mrb_load mrb_parse_string h p nop after in leave_hook p ok)
     (fun _ w' => live false false p w' /\ steady w w') w.
Proof.
  intros Hrec Ha Ht Hl Hok. eapply wp_seq; [by apply Hrec|]. intros _ w1 [Hl1 Hs1].
  eapply wp_mono; [eapply (tail_live h p false false false false); [intros; by apply nop_ready|done| |done|by eapply steady_macros]|].
  - by destruct Hs1 as (_ & -> & _).
  - intros r w2 [Hl2 Hs2]. split; [done|by transitivity w1].
Qed.

Lemma event_live e p w : event_ok e -> ctx_privdata (w_ctx w) = PrivState p -> live false false p w -> macros_ok w ->
  tame_hook (a_config (w_app w)) (event_hook e) (reads_header e) (reads_body e) ->
  wp False (run_event e)
     (fun _ w' => live false false p w' /\ w_ctx w' = w_ctx w /\ a_config (w_app w') = a_config (w_app w)) w.
Proof.
  intros He Hp Hl Hok Ht.
  assert (keeps false false p nop) as Hnop by apply keeps_ret.
  assert (forall h, tame_hook (a_config (w_app w)) h false false -> wp False (plain_callback mrb_load mrb_parse_string h)
     (fun _ w' => live false false p w' /\ w_ctx w' = w_ctx w /\ a_config (w_app w') = a_config (w_app w)) w) as Hplain.
  { intros h Hth. apply (front_live h p (fun p => let* ok := exec_hook mrb_load mrb_parse_string h p nop nop in leave_hook p ok)); [done..|].
    intros w1 Hl1 Hok1 _ Hcfg. apply (tail_live h p false false false false); [intros; by apply nop_ready|done| |done|done]. by rewrite Hcfg. }
  destruct e as [host|argv|argv|hf hv| |b n| | |sc|]; cbn [run_event event_hook reads_header reads_body event_ok] in *; try by apply Hplain.
  - eapply (front_live Hhelo p); [done..|]. intros w1 Hl1 Hok1 _ Hcfg. rewrite <- Hcfg in Ht.
    apply record_tail; [|done..]. by apply keeps_if_mrb, (keeps_new_string p host set_helohost 1); [|lia].
  - eapply (front_live Henvfrom p); [done..|]. intros w1 Hl1 Hok1 _ Hcfg. rewrite <- Hcfg in Ht.
    apply record_tail; [|done..]. destruct argv as [|a argv]; [done|]. simpl.
    by apply keeps_if_mrb, (keeps_new_string p a set_envelope_from 0); [|lia].
  - eapply (front_live Henvrcpt p); [done..|]. intros w1 Hl1 Hok1 _ Hcfg. rewrite <- Hcfg in Ht.
    apply record_tail; [|done..]. apply keeps_if_mrb, keeps_bind; [by apply keeps_getsymval|].
    intros v. by apply keeps_upd_cmd.
  - eapply (front_live Hheader p); [done..|]. intros w1 Hl1 Hok1 _ Hcfg. rewrite <- Hcfg in Ht.
    unfold if_mrb, has_mrb. apply wp_bind, wp_bind, wp_bind. destruct (live_cmd _ _ _ _ Hl1) as (st & ? & ? & ? & ? & ? & ? & Hs & _ & _ & E & _).
    unfold wp at 1. rewrite E. apply wp_ret. destruct (mrb st) as [vm|] eqn:Evm.
    + rewrite bool_decide_eq_true_2 by eauto. eapply wp_mono; [by apply header_recorded|]. intros _ w2 [Hl2 Hs2].
      eapply wp_mono; [eapply (tail_live Hheader p true false true false);
        [intros; by apply nop_ready|done|by destruct Hs2 as (_ & -> & _)|done|by eapply steady_macros]|].
      intros r w3 [Hl3 Hs3]. split; [done|by transitivity w2].
    + rewrite bool_decide_eq_false_2 by (by intros [? ?]). apply wp_ret. unfold exec_hook.
      apply wp_bind, wp_bind. unfold wp at 1. rewrite E, Evm, andb_false_r. apply wp_ret. by apply leave_live.
  - eapply (front_live Hbody p); [done..|]. intros w1 Hl1 Hok1 _ Hcfg. rewrite <- Hcfg in Ht.
    apply (tail_live Hbody p false false false true); [|done..]. intros. apply body_recorded; [by destruct b|done..].
  - eapply (front_live Heom p); [done..|]. intros w1 Hl1 Hok1 _ Hcfg. rewrite <- Hcfg in Ht.
    apply record_tail; [|apply keeps_free_per_session|done..].
    apply keeps_if_mrb, keeps_bind; [apply keeps_time|]. intros t. by apply keeps_upd_cmd.
Qed.

(** ** Connect *)

Lemma wp_alloc_ok F b (Q : option ptr -> W -> Prop) w : w_oom w = [] ->
  Q (Some (a_brk (w_app w))) (grown b w) -> wp F (alloc b) Q w.
Proof. intros Ho HQ. unfold wp, alloc, bind, malloc_ok. by rewrite Ho. Qed.

(** A new string in the connection record. *)
Lemma keeps_conn_string p (alloc_str : cM W (option ptr)) g (i : nat) :
  (alloc_str = ret None \/ exists x, alloc_str = strdup x) ->
  (forall o c cn, strings_of c (g o cn) = <[i := o]> (strings_of c cn)) -> (2 <= i < 4)%nat ->
  forall c0 w, live false false p w -> macros_ok w -> get_cmd p w = Done c0 w ->
  wp False alloc_str (fun o w1 => wp False (change as_conn BConn (conn c0) (g o))
     (fun _ w' => live false false p w' /\ steady w w' /\ get_cmd p w' = Done c0 w') w1) w.
Proof.
  intros Hal Hg Hi c0 w Hl Hok Hc0.
  destruct (live_cmd _ _ _ _ Hl) as (st & pc & c & pn & cn & ph & hd & Hs & _ & _ & _ & Ec).
  assert (c0 = c) as -> by congruence.
  assert (forall w' o, sess (handler_path (a_config (w_app w))) (heap_of w') (a_brk (w_app w')) p st pc c pn cn ph hd ->
    steady w w' -> is_str (heap_of w') o -> apart (<[i := o]> (strings_of c cn)) ->
    wp False (change as_conn BConn (conn c) (g o))
      (fun _ w' => live false false p w' /\ steady w w' /\ get_cmd p w' = Done c w') w') as Hset.
  { intros w' o Hs' Hst Ho Hap. rewrite (s_pn _ _ _ _ _ _ _ _ _ _ _ Hs').
    eapply wp_change; [exact (s_conn _ _ _ _ _ _ _ _ _ _ _ Hs')|done|].
    set (w'' := set_w_heap _ w').
    assert (sess (handler_path (a_config (w_app w''))) (heap_of w'') (a_brk (w_app w'')) p st pc c pn (g o cn) ph hd) as Hs''.
    { cbn [w'' w_app set_w_heap set_w_app set_heap a_config a_brk]. destruct Hst as (_ & -> & _).
      apply (sess_conn _ _ _ _ _ _ _ _ cn); [done| |]; rewrite Hg; [|done].
      apply Forall_insert; [by destruct Hs'|done]. }
    split; [by exists st, pc, c, pn, (g o cn), ph, hd|]. split; [by transitivity w'|].
    unfold get_cmd, load, bind. rewrite (s_state _ _ _ _ _ _ _ _ _ _ _ Hs''). simpl.
    rewrite (s_pc _ _ _ _ _ _ _ _ _ _ _ Hs''). by rewrite (s_cmd _ _ _ _ _ _ _ _ _ _ _ Hs''). }
  assert (apart (<[i := None]> (strings_of c cn))) as HapN by (destruct Hs; by apply apart_insert_None).
  destruct Hal as [->|[x ->]]; [by apply wp_ret, Hset|]. apply wp_alloc; intros l.
  - by apply (Hset (set_w_oom l w)).
  - apply Hset; [by apply sess_alloc|done|eexists; apply lookup_insert_eq|].
    destruct Hs. apply apart_insert_fresh; [done|]. intros Hin. rewrite Forall_forall in s_strs0.
    apply s_strs0 in Hin. destruct Hin as [y Hy]. apply s_fresh0 in Hy. lia.
Qed.

Lemma record_conn_live p host a : (forall f, pmilter_ipaddr a <> inl f) ->
  keeps false false p (record_conn p host a).
Proof.
  intros Ha. apply keeps_bind; [by apply keeps_getsymval|]. intros d.
  apply keeps_bind; [by apply keeps_upd_cmd|]. intros _ w Hl Hok.
  destruct (live_cmd _ _ _ _ Hl) as (st & pc & c & pn & cn & ph & hd & Hs & _ & _ & _ & E).
  apply wp_bind. unfold wp at 1. rewrite E. apply wp_bind.
  eapply wp_mono; [apply (keeps_conn_string p (strdup host) (fun o cn => mk_conn o (ipaddr cn) a) 3); [by right; eexists|done|lia|exact Hl|done|exact E]|].
  intros o w1 H1. apply wp_bind. eapply wp_mono; [exact H1|]. intros _ w2 (Hl2 & Hs2 & E2).
  apply wp_bind. eapply wp_mono;
    [apply (keeps_conn_string p (pmilter_ipaddrdup a) (fun o cn => mk_conn (hostname cn) o (hostaddr cn)) 2); [|done|lia|exact Hl2|by eapply steady_macros|exact E2]|].
  { unfold pmilter_ipaddrdup. destruct (pmilter_ipaddr a) as [f|[s|]] eqn:Ef; [by destruct (Ha f)|right; by eexists|by left]. }
  intros ip w3 H3. apply wp_bind. eapply wp_mono; [exact H3|]. intros _ w4 (Hl4 & Hs4 & _). apply wp_ret.
  split; [done|by transitivity w2].
Qed.

Context (vm0 : V).

(** The heap holds nothing at or above the next address. *)
Definition heap_fresh w : Prop := forall q b, heap_of w !! q = Some b -> (q < a_brk (w_app w))%nat.

Ltac look := repeat first [rewrite lookup_insert_eq | rewrite lookup_insert_ne by lia].

(** The session's objects, once all five allocations were made. *)
Lemma fresh_sess paths H brk m st : (forall q b, H !! q = Some b -> (q < brk)%nat) ->
  st = mk_state m (Some (S brk)) SMFIS_CONTINUE [] (fun _ => None) ->
  forall H',
  H' !! brk = Some (BState st) ->
  H' !! S brk = Some (BCmd (mk_cmd (Some (S (S brk))) None None None None 0 (Some (S (S (S brk)))) None 0)) ->
  H' !! S (S brk) = Some (BConn (mk_conn None None None)) ->
  H' !! S (S (S brk)) = Some (BHeader (mk_header None None)) ->
  (forall q b, H' !! q = Some b -> (q < S (S (S (S brk))))%nat) ->
  sess paths H' (S (S (S (S brk)))) brk st (S brk)
    (mk_cmd (Some (S (S brk))) None None None None 0 (Some (S (S (S brk)))) None 0)
    (S (S brk)) (mk_conn None None None) (S (S (S brk))) (mk_header None None).
Proof.
  intros Hf -> H' H0 H1 H2 H3 Hf'. split; try done; [by repeat constructor|apply NoDup_nil_2].
Qed.

(** The state and its records are set up. *)
Lemma setup_live {A} (k : nat -> option nat -> cM W A) (Q : A -> W -> Prop) w :
  w_oom w = [] -> heap_fresh w ->
  (forall p c w', live false false p w' -> steady w w' -> wp False (k p (Some c)) Q w') ->
  wp False (let* o := pmilter_create_conf vm0 PrivConfig in
            let* p := deref NullDeref o in
            upd_state p (set_status SMFIS_CONTINUE) ;;;
            let* c := pmilter_command_init in
            upd_state p (set_cmd c) ;;; k p c) Q w.
Proof.
  intros Ho Hf Hk. unfold pmilter_create_conf. apply wp_bind, wp_bind. apply wp_alloc_ok; [done|].
  set (brk := a_brk (w_app w)) in *. set (w1 := grown _ w).
  apply wp_bind. unfold priv_config, wp at 1, gets.
  assert (forall w2 m, w_oom w2 = [] -> a_brk (w_app w2) = S brk -> steady w w2 ->
     heap_of w2 !! brk = Some (BState (mk_state m None 0 [] (fun _ => None))) ->
     (forall q b, heap_of w2 !! q = Some b -> (q < S brk)%nat) ->
     wp False (let* p := deref NullDeref (Some brk) in
            upd_state p (set_status SMFIS_CONTINUE) ;;;
            let* c := pmilter_command_init in
            upd_state p (set_cmd c) ;;; k p c) Q w2) as Hrest.
  { intros w2 m Ho2 Hb2 Hs2 Hst Hf2. apply wp_bind, wp_deref. cbv beta.
    apply wp_bind. eapply wp_change; [exact Hst|done|]. apply wp_bind. unfold pmilter_command_init.
    apply wp_bind, wp_alloc_ok; [done|]. apply wp_bind, wp_alloc_ok; [done|]. apply wp_bind, wp_alloc_ok; [done|].
    cbn [w_app set_w_heap set_heap grown set_w_app a_brk]. rewrite Hb2.
    apply wp_bind. eapply wp_change; [unfold heap_of; cbn; rewrite !Hb2; look; reflexivity|done|]. apply wp_ret.
    apply wp_bind. eapply wp_change; [unfold heap_of; cbn; rewrite !Hb2; look; reflexivity|done|].
    apply Hk; [|done].
    eexists _, _, _, _, _, _, _. split; [|split; done].
    unfold heap_of. cbn [w_app set_w_heap set_heap grown set_w_app a_brk a_config a_heap]. rewrite !Hb2.
    apply (fresh_sess _ (heap_of w) brk m); [done|done|cbn; look; reflexivity..|].
    intros q b. cbn. rewrite !lookup_insert_Some. fold (heap_of w2). intros Hq.
    decompose [and or] Hq; try lia. match goal with E : _ !! q = Some b |- _ => apply Hf2 in E end. lia. }
  assert (forall q b, heap_of w1 !! q = Some b -> (q < S brk)%nat) as Hf1.
  { intros q b Hq. unfold w1, heap_of, grown in Hq. cbn in Hq. apply lookup_insert_Some in Hq as [[<- _]|[_ Hq]]; [lia|].
    apply Hf in Hq. unfold brk. lia. }
  destruct (enable_mruby_handler _ =? 0); cbn [negb].
  - apply wp_ret. apply (Hrest w1 None); [done..| |done]. apply lookup_insert_eq.
  - apply wp_bind. unfold wp at 1, malloc_ok. change (w_oom w1) with (w_oom w). rewrite Ho. cbv iota beta.
    apply wp_bind. eapply wp_change; [apply lookup_insert_eq|done|]. apply wp_ret.
    apply (Hrest _ (Some vm0)); [done..| |].
    + apply lookup_insert_eq.
    + intros q b Hq. unfold heap_of, set_w_heap in Hq. cbn in Hq.
      apply lookup_insert_Some in Hq as [[<- _]|[_ Hq]]; [lia|]. by apply (Hf1 q b).
Qed.

(** After connect the private data is an intact session, or still the
    configuration and the result a temporary failure. *)
Lemma connect_live host a w : w_oom w = [] -> heap_fresh w -> macros_ok w ->
  ctx_privdata (w_ctx w) = PrivConfig -> (forall f, pmilter_ipaddr a <> inl f) ->
  tame_hook (a_config (w_app w)) Hconnect false false ->
  wp False (mrb_xxfi_connect vm0 mrb_load mrb_parse_string host a)
     (fun r w' => a_config (w_app w') = a_config (w_app w) /\
        match ctx_privdata (w_ctx w') with
        | PrivState p => live false false p w' /\ macros_ok w'
        | PrivConfig => r = SMFIS_TEMPFAIL /\ w_ctx w' = w_ctx w
        end) w.
Proof.
  intros Ho Hf Hok Hp Ha Ht. unfold mrb_xxfi_connect. apply wp_bind. unfold wp at 1, tick, modify.
  set (w0 := set_w_app _ w). apply wp_bind, wp_getc. change (w_ctx w0) with (w_ctx w). rewrite Hp.
  apply (setup_live (fun p c => match c with None => ret SMFIS_TEMPFAIL | Some _ => _ end)); [done|exact Hf|].
  intros p c w1 Hl1 Hs1. assert (macros_ok w1) as Hok1 by (by apply (steady_macros w0)).
  assert (forall w', steady w0 w' -> a_config (w_app w') = a_config (w_app w) /\ w_ctx w' = w_ctx w) as Hst.
  { intros w' (Hc & Hcfg & _). by rewrite Hc, Hcfg. }
  eapply wp_seq; [by apply keeps_new_code|]. intros _ w2 [Hl2 Hs2].
  assert (steady w0 w2) as Hs02 by (by transitivity w1).
  apply (wp_seq _ _ _ (fun _ w' => live false false p w' /\ steady w0 w')).
  { eapply wp_seq; [apply keeps_load_state; [done|by eapply steady_macros]|]. intros s w3 [Hl3 Hs3].
    apply wp_ret. split; [done|by transitivity w2]. }
  intros b w3 [Hl3 Hs3].
  apply (wp_seq _ _ _ (fun _ w' => live false false p w' /\ steady w0 w')).
  { destruct b; [|by apply wp_ret]. eapply wp_mono; [apply record_conn_live; [done|done|by eapply steady_macros]|].
    intros x w4 [Hl4 Hs4]. split; [done|by transitivity w3]. }
  intros ok w4 [Hl4 Hs4]. destruct (Hst w4 Hs4) as [Hcfg4 Hc4].
  destruct ok; cbn [negb]; [|apply wp_ret; rewrite Hc4, Hp; done].
  eapply wp_seq.
  { apply (exec_live Hconnect p false false false false); [intros; by apply nop_ready|apply keeps_ret| |done|by eapply steady_macros].
    by rewrite Hcfg4. }
  intros ok w5 [Hl5 Hs5]. assert (steady w0 w5) as Hs05 by (by transitivity w4).
  destruct (Hst w5 Hs05) as [Hcfg5 Hc5].
  destruct ok; cbn [negb]; [|apply wp_ret; rewrite Hc5, Hp; done].
  apply wp_bind. unfold smfi_setpriv. apply wp_bind, wp_modc, wp_ret. set (w6 := set_w_ctx _ w5).
  assert (live false false p w6) as Hl6 by exact Hl5.
  destruct (live_cmd _ _ _ _ Hl6) as (st & _ & _ & _ & _ & _ & _ & _ & _ & _ & E & _).
  apply wp_bind. unfold wp at 1. rewrite E. apply wp_ret. split; [done|]. cbn [w6 w_ctx set_w_ctx ctx_privdata set_ctx_privdata].
  split; [done|]. unfold macros_ok, w6. cbn. rewrite Hc5. exact Hok.
Qed.

End invariant.
