(* ===== verification/SessionVerdict.v ===== *)
(** * The verdicts of pmilter's handlers

    What a callback answers: [replay] is the meaning of a handler script as a
    function of the results of its calls - the last status it set, and whether
    it ended with an exception - and the theorems show that the callbacks
    return exactly that, [SMFIS_TEMPFAIL] for an exception or a handler that
    does not compile, and [SMFIS_CONTINUE] when there is no handler. *)

From stdpp Require Import base option numbers strings gmap list.
From Stdlib Require Import Strings.Byte ZArith Lia.
From S2P Require Import Prelude Mfdef Comm Strl Stm Macros Smfi Inet Engine EngineProps EngineOrder Utils Toml Config Session SessionProps SessionSafe.
Local Open Scope cM_scope.
Local Open Scope Z_scope.

(** The run of a script whose calls give [answers], from the status [st]: the
    exception flag, the status and the interpreter at the end. *)
Fixpoint replay {V} (s : script V) (answers : list mrb_res) (st : Z) : option (bool * Z * V) :=
  match s, answers with
  | SEnd exc vm, [] => Some (exc, st, vm)
  | SCall m k, r :: rs => replay (k r) rs (match m with Set_status z => s32 z | _ => st end)
  | _, _ => None
  end.

Section verdict.
Context {V : Type}.
Abbreviation W := (world priv (app V)).
Implicit Types w : W.

(** ** Methods *)

Definition app_same {A} (m : cM W A) : Prop := forall w, wp True m (fun _ w' => w_app w' = w_app w) w.

Lemma app_same_ret {A} (a : A) : app_same (ret a).
Proof. done. Qed.

Lemma app_same_bind {A B} (m : cM W A) (k : A -> cM W B) :
  app_same m -> (forall a, app_same (k a)) -> app_same (bind m k).
Proof.
  intros Hm Hk w. eapply wp_seq; [apply Hm|]. intros a w1 H1. eapply wp_mono; [apply Hk|].
  intros b w2 H2. congruence.
Qed.

Lemma app_same_load {A} (k : block V -> option A) p : app_same (load k p).
Proof.
  intros w. destruct p as [p|]; [|done]. unfold wp, load. destruct (heap_of w !! p) as [b|]; [|done].
  by destruct (k b).
Qed.

Lemma app_same_lib {A} (m : cM W A) : lib True m -> app_same m.
Proof. intros H w. eapply wp_mono; [apply H|]. by intros a w' (_ & _ & ?). Qed.

Lemma app_same_borrow b : app_same (read_borrow b).
Proof. intros w. unfold wp, read_borrow. by case_decide. Qed.

Lemma app_same_undef {A} f : app_same (@undef W A f).
Proof. done. Qed.

Create HintDb app_same.
Hint Resolve app_same_ret app_same_load app_same_borrow app_same_undef : app_same.
Hint Resolve app_same_lib lib_addheader lib_chgfrom lib_addrcpt_par lib_getsymval : app_same.

Lemma method_app p m : (forall z, m <> Set_status z) -> app_same (session_method p m).
Proof.
  intros Hm. destruct m; cbn [session_method]; try (by destruct (Hm z));
    unfold get_cmd, mrb_str_ptr, mrb_str_opt, borrow_str;
    repeat first
      [ progress cbv beta iota
      | progress auto with app_same nocore
      | apply app_same_bind; [|intros ?]
      | match goal with |- app_same (match ?x with _ => _ end) => destruct x end ].
Qed.

(** The state block of the session. *)
Definition tracked (p : nat) (st : pmilter_state V) w : Prop := heap_of w !! p = Some (BState st).

(** All blocks but the state stay as they are. *)
Definition stay (p : nat) w w' : Prop := forall q b, q <> p -> heap_of w !! q = Some b -> heap_of w' !! q = Some b.

Lemma stay_trans p w1 w2 w3 : stay p w1 w2 -> stay p w2 w3 -> stay p w1 w3.
Proof. intros H1 H2 q b Hne Hq. by apply H2, H1. Qed.

Lemma tracked_upd p st f w : tracked p st w ->
  upd_state p f w = Done tt (set_w_heap (<[p := BState (f st)]> (heap_of w)) w).
Proof. intros H. unfold upd_state, change, bind, load. by rewrite H. Qed.

Lemma wp_upd F p st f (Q : unit -> W -> Prop) w : tracked p st w ->
  (forall w', tracked p (f st) w' -> stay p w w' -> Q tt w') -> wp F (upd_state p f) Q w.
Proof.
  intros H HQ. unfold wp. rewrite (tracked_upd p st) by done. apply HQ.
  - apply lookup_insert_eq.
  - intros q c Hne Hq. unfold heap_of, set_w_heap. simpl. by rewrite lookup_insert_ne.
Qed.

Lemma run_verdict p s : forall w st, tracked p st w ->
  wp True (mrb_run p s) (fun exc w' => exists answers st' vm,
     replay s answers (status st) = Some (exc, status st', vm) /\ tracked p st' w' /\
     handlers st' = handlers st /\ cmd st' = cmd st /\ stay p w w') w.
Proof.
  induction s as [exc vm|m k IH]; intros w st Ht; cbn [mrb_run].
  - apply wp_bind. eapply wp_upd; [exact Ht|]. intros w' Ht' Hc. apply wp_ret.
    by exists [], (set_mrb (Some vm) st), vm.
  - assert (wp True (session_method p m) (fun _ w' => exists st', tracked p st' w' /\ handlers st' = handlers st /\ cmd st' = cmd st /\
       status st' = (match m with Set_status z => s32 z | _ => status st end) /\ stay p w w') w) as Hm.
    { assert ((exists z, m = Set_status z) \/ (forall z, m <> Set_status z)) as [[z ->]|Hno]
        by (destruct m; eauto; right; discriminate).
      - apply wp_bind. eapply wp_upd; [exact Ht|]. intros w' Ht' Hc. apply wp_ret. by exists (set_status (s32 z) st).
      - eapply wp_mono; [by apply method_app|]. intros r w' Ha. exists st.
        unfold tracked, stay, heap_of. rewrite Ha. split; [done|]. split; [done|]. split; [done|]. split; [|done].
        destruct m; try done. by destruct (Hno z). }
    eapply wp_seq; [exact Hm|]. intros r w1 (st1 & Ht1 & Hh1 & Hm1 & Hs1 & Hc1).
    eapply wp_mono; [by apply (IH r w1 st1)|]. intros exc w2 (ans & st2 & vm & Hr & Ht2 & Hh2 & Hm2 & Hc2).
    exists (r :: ans), st2, vm. cbn [replay]. rewrite <- Hs1. split; [done|]. split; [done|]. split; [congruence|].
    split; [congruence|]. by eapply stay_trans.
Qed.

(** The blocks of a session that the handlers leave alone: the record and the
    string of the sender. *)
Definition from_ok (pc : nat) w : Prop := exists c, heap_of w !! pc = Some (BCmd c) /\ is_str (heap_of w) (envelope_from c).

Lemma stay_from_ok p pc w w' st : tracked p st w -> stay p w w' -> from_ok pc w -> from_ok pc w'.
Proof.
  intros Ht Hs (c & Hc & Hf). exists c. unfold tracked in Ht.
  split; [apply Hs; [intros ->; congruence|done]|]. destruct (envelope_from c) as [q|]; [|done].
  destruct Hf as [s Hq]. exists s. apply Hs; [intros ->; congruence|done].
Qed.

Lemma run_handler_verdict h p pc st q k prog vm w : tracked p st w -> handlers st h = Some q ->
  heap_of w !! q = Some (BCode k) -> code_proc k = Some prog -> mrb st = Some vm -> from_ok pc w ->
  wp True (run_handler h p) (fun r w' => exists answers exc z vm',
     replay (prog vm) answers SMFIS_CONTINUE = Some (exc, z, vm') /\
     r = (if exc then SMFIS_TEMPFAIL else z) /\ (exists st', tracked p st' w' /\ cmd st' = cmd st) /\ from_ok pc w') w.
Proof.
  intros Ht Hq Hk Hp Hvm Hfrom. unfold run_handler. apply wp_bind. eapply wp_load; [exact Ht|done|]. rewrite Hvm.
  assert (p <> q) as Hpq by (intros ->; unfold tracked in Ht; congruence).
  apply wp_bind, wp_deref. apply wp_bind. eapply wp_upd; [exact Ht|]. intros w1 Ht1 Hc1.
  rewrite Hq. apply wp_bind. eapply wp_load; [by apply Hc1|done|]. rewrite Hp. apply wp_bind, wp_deref.
  eapply wp_seq; [exact (run_verdict p (prog vm) w1 _ Ht1)|]. intros exc w2 (ans & st2 & vm2 & Hr & Ht2 & Hh2 & Hm2 & Hc2).
  cbn [handlers cmd set_phase set_status] in Hh2, Hm2.
  eapply (wp_seq _ _ _ (fun _ w' => exists st3, tracked p st3 w' /\ handlers st3 = handlers st /\ cmd st3 = cmd st /\
      stay p w2 w' /\ status st3 = if exc then SMFIS_TEMPFAIL else status st2)).
  { destruct exc.
    - eapply wp_upd; [exact Ht2|]. intros w' Ht' Hc'. by exists (set_status SMFIS_TEMPFAIL st2).
    - apply wp_ret. exists st2. split; [exact Ht2|]. split; [exact Hh2|]. split; [exact Hm2|]. by split; [intros ? ?|]. }
  intros _ w3 (st3 & Ht3 & Hh3 & Hm3 & Hc3 & Hs3). apply wp_bind. eapply wp_load; [exact Ht3|done|].
  assert (stay p w w3) as Hc03 by (eapply stay_trans; [exact Hc1|by eapply stay_trans]).
  assert (heap_of w3 !! q = Some (BCode k)) as Hk3 by (by apply Hc03).
  assert (from_ok pc w3) as (c & Hpc & Hstr) by (by apply (stay_from_ok p pc w w3 st)).
  rewrite Hh3, Hq. apply wp_bind. eapply wp_change; [exact Hk3|done|]. set (w4 := set_w_heap _ w3).
  assert (tracked p st3 w4) as Ht4.
  { unfold tracked, w4, heap_of, set_w_heap. simpl. by rewrite lookup_insert_ne. }
  unfold code_free. apply wp_bind, wp_bind. eapply wp_load; [exact Ht4|done|]. rewrite Hh3, Hq.
  apply wp_bind. eapply wp_free; [apply lookup_insert_eq|]. set (w5 := set_w_heap _ w4).
  assert (forall x b, x <> q -> heap_of w3 !! x = Some b -> heap_of w5 !! x = Some b) as H35.
  { intros x b Hne Hx. unfold w5, w4, heap_of, set_w_heap in *. simpl. by rewrite lookup_delete_ne, lookup_insert_ne. }
  assert (tracked p st3 w5) as Ht5 by (by apply H35).
  eapply (wp_upd _ _ st3); [exact Ht5|].
  intros w6 Ht6 Hst6. apply wp_bind. eapply wp_load; [exact Ht6|done|]. apply wp_ret.
  exists ans, exc, (status st2), vm2. split; [exact Hr|]. split; [exact Hs3|]. split; [by eexists|].
  apply (stay_from_ok p pc w5 w6 st3 Ht5 Hst6). exists c. split; [apply H35; [congruence|done]|].
  destruct (envelope_from c) as [y|]; [|done]. destruct Hstr as [s Hy]. exists s. apply H35; [congruence|done].
Qed.

(** ** From the start of a callback to its verdict *)

Context (mrb_load : bytes -> option (compiled V)) (mrb_parse_string : bytes -> compiled V).

(** The answer of a phase: [vm] is the interpreter, if there is one. *)
Definition hook_verdict (cfg : pmilter_config) (h : hook) (vm : option V) (r : Z) : Prop :=
  match vm, handler_path cfg h with
  | Some v, Some f =>
      match mrb_load f with
      | Some (Proc prog) => exists answers exc z vm',
          replay (prog v) answers SMFIS_CONTINUE = Some (exc, z, vm') /\ r = if exc then SMFIS_TEMPFAIL else z
      | _ => r = SMFIS_TEMPFAIL
      end
  | _, _ => r = SMFIS_CONTINUE
  end.

(** A callback of phase [h] whose handler is in its slot. *)
Record entered (cfg : pmilter_config) (h : hook) (p pc : nat) (st : pmilter_state V) w : Prop := mk_entered {
  e_state : tracked p st w;
  e_status : status st = SMFIS_CONTINUE;
  e_cmd : cmd st = Some pc;
  e_from : from_ok pc w;
  e_slot : match handler_path cfg h with
           | None => handlers st h = None
           | Some f => exists q, handlers st h = Some q /\
               heap_of w !! q = Some (BCode (mk_code f PMILTER_MRB_CODE_TYPE_FILE None false))
           end;
  e_fresh : heap_fresh w
}.

(** What may follow: steps that change records or make strings. *)
Definition passes (cfg : pmilter_config) (h : hook) (p pc : nat) {A} (m : cM W A) : Prop := forall w st,
  entered cfg h p pc st w -> wp True m (fun _ w' => entered cfg h p pc st w') w.

Section passes.
Context (cfg : pmilter_config) (h : hook) (p pc : nat).

Lemma passes_ret {A} (a : A) : passes cfg h p pc (ret a).
Proof. by intros w st He. Qed.

Lemma passes_bind {A B} (m : cM W A) (k : A -> cM W B) :
  passes cfg h p pc m -> (forall a, passes cfg h p pc (k a)) -> passes cfg h p pc (bind m k).
Proof. intros Hm Hk w st He. eapply wp_seq; [by apply Hm|]. intros a w1 H1. by apply Hk. Qed.

Lemma entered_app w w' st : a_heap (w_app w') = a_heap (w_app w) -> a_brk (w_app w') = a_brk (w_app w) ->
  entered cfg h p pc st w -> entered cfg h p pc st w'.
Proof.
  intros Eh Eb [H1 H2 H3 H4 H5 H6]. unfold tracked, from_ok, heap_fresh, heap_of in *.
  split; unfold tracked, from_ok, heap_fresh, heap_of; rewrite ?Eh, ?Eb; done.
Qed.

Lemma passes_lib {A} (m : cM W A) : lib True m -> passes cfg h p pc m.
Proof.
  intros Hm w st He. eapply wp_mono; [apply Hm|]. intros a w' (_ & _ & Ha). by apply (entered_app w); [rewrite Ha..|].
Qed.

Lemma passes_time : passes cfg h p pc time.
Proof.
  intros w st He. unfold wp, time. destruct (a_clock (w_app w)); [done|]. by apply (entered_app w).
Qed.

Lemma passes_gets {A} (f : W -> A) : passes cfg h p pc (gets f).
Proof. by intros w st He. Qed.

Lemma passes_load {A} (k : block V -> option A) q : passes cfg h p pc (load k q).
Proof.
  intros w st He. destruct q as [q|]; [|done]. unfold wp, load. destruct (heap_of w !! q) as [b|]; [|done].
  by destruct (k b).
Qed.

Lemma passes_deref {A} f (o : option A) : passes cfg h p pc (deref f o).
Proof. by destruct o; intros w st He. Qed.

(** A change of a block of another kind. *)
Lemma entered_insert w st q b : entered cfg h p pc st w -> is_Some (heap_of w !! q) ->
  (forall s, heap_of w !! q <> Some (BState s)) -> (forall s, heap_of w !! q <> Some (BCmd s)) ->
  (forall s, heap_of w !! q <> Some (BStr s)) -> (forall s, heap_of w !! q <> Some (BCode s)) ->
  entered cfg h p pc st (set_w_heap (<[q := b]> (heap_of w)) w).
Proof.
  intros [H1 H2 H3 (c & Hc & Hs) H5 H6] [b0 Hb0] N1 N2 N3 N4.
  split; try done; unfold tracked, from_ok, heap_fresh in *; unfold heap_of at 1, set_w_heap; cbn [w_app set_w_app set_heap a_heap].
  - rewrite lookup_insert_ne; [done|]. intros ->. by apply (N1 st).
  - exists c. split; [rewrite lookup_insert_ne; [done|]; intros ->; by apply (N2 c)|]. by apply is_str_insert.
  - destruct (handler_path cfg h) as [f|]; [|done]. destruct H5 as (x & Hx & Hq). exists x. split; [done|].
    unfold heap_of at 1. cbn. rewrite lookup_insert_ne; [done|]. intros ->. by eapply N4.
  - cbn. by eapply fresh_insert.
Qed.

Lemma passes_header q f : passes cfg h p pc (change as_header BHeader q f).
Proof.
  intros w st He. destruct q as [q|]; [|done]. unfold wp, change, bind, load.
  destruct (heap_of w !! q) as [b|] eqn:E; [|done]. destruct b; try done. simpl.
  apply entered_insert; try done; congruence || (by eexists).
Qed.

Lemma passes_cmd f :
  (forall c, envelope_from (f c) = envelope_from c) -> passes cfg h p pc (upd_cmd p f).
Proof.
  intros Hf w st [H1 H2 H3 (c & Hc & Hs) H5 H6]. unfold upd_cmd. apply wp_bind. eapply wp_load; [exact H1|done|]. rewrite H3.
  eapply wp_change; [exact Hc|done|].
  split; try done; unfold tracked, from_ok, heap_fresh in *; unfold heap_of at 1, set_w_heap; cbn [w_app set_w_app set_heap a_heap].
  - rewrite lookup_insert_ne; [done|]. intros ->. congruence.
  - exists (f c). split; [apply lookup_insert_eq|]. rewrite Hf. apply is_str_insert; [done|]. congruence.
  - destruct (handler_path cfg h) as [x|]; [|done]. destruct H5 as (q & Hx & Hq). exists q. split; [done|].
    unfold heap_of at 1. cbn. rewrite lookup_insert_ne; [done|]. intros ->. congruence.
  - cbn. by eapply fresh_insert.
Qed.

(** A new string, stored in the record. *)
Lemma passes_new_string x g : (forall o c, envelope_from (g o c) = envelope_from c \/ envelope_from (g o c) = o) ->
  passes cfg h p pc (let* s := strdup x in upd_cmd p (g s)).
Proof.
  intros Hg w st He. apply wp_bind.
  assert (forall w' o, entered cfg h p pc st w' -> is_str (heap_of w') o ->
            wp True (upd_cmd p (g o)) (fun _ w'' => entered cfg h p pc st w'') w') as Hset.
  { clear w He. intros w o [H1 H2 H3 (c & Hc & Hs) H5 H6] Ho. unfold upd_cmd. apply wp_bind. eapply wp_load; [exact H1|done|]. rewrite H3.
    eapply wp_change; [exact Hc|done|].
    split; try done; unfold tracked, from_ok, heap_fresh in *; unfold heap_of at 1, set_w_heap; cbn [w_app set_w_app set_heap a_heap].
    - rewrite lookup_insert_ne; [done|]. intros ->. congruence.
    - exists (g o c). split; [apply lookup_insert_eq|]. apply is_str_insert; [|congruence]. by destruct (Hg o c) as [->| ->].
    - destruct (handler_path cfg h) as [y|]; [|done]. destruct H5 as (q & Hx & Hq). exists q. split; [done|].
      unfold heap_of at 1. cbn. rewrite lookup_insert_ne; [done|]. intros ->. congruence.
    - cbn. by eapply fresh_insert. }
  apply wp_alloc; intros l; [by apply Hset; [apply (entered_app w)|]|].
  apply Hset; [|eexists; apply lookup_insert_eq]. destruct He as [H1 H2 H3 (c & Hc & Hs) H5 H6].
  assert (forall q b, heap_of w !! q = Some b -> heap_of (grown (BStr x) (set_w_oom l w)) !! q = Some b) as Hold.
  { intros q b Hq. unfold heap_of, grown. cbn. rewrite lookup_insert_ne; [done|]. apply H6 in Hq. lia. }
  split; try done.
  - by apply Hold.
  - exists c. split; [by apply Hold|]. destruct (envelope_from c) as [q|]; [|done]. destruct Hs as [y Hy]. exists y. by apply Hold.
  - destruct (handler_path cfg h) as [f|]; [|done]. destruct H5 as (q & Hx & Hq). exists q. split; [done|]. by apply Hold.
  - intros q b Hq. unfold heap_of, grown in Hq. cbn in Hq |- *. apply lookup_insert_Some in Hq as [[<- _]|[_ Hq]]; [lia|].
    apply H6 in Hq. lia.
Qed.

End passes.


(** ** The steps of a callback *)

Definition keeps_tracked (p pc : nat) (m : cM W unit) : Prop := forall w st, tracked p st w -> cmd st = Some pc ->
  from_ok pc w -> wp True m (fun _ w' => tracked p st w') w.

Lemma keeps_tracked_nop p pc : keeps_tracked p pc nop.
Proof. by intros w st Ht. Qed.

(** At the end of a message the sender is freed, not the state. *)
Lemma keeps_tracked_eom p pc :
  keeps_tracked p pc (let* s := load as_state (Some p) in command_rec_free_per_session (cmd s)).
Proof.
  intros w st Ht Hc (c & Hpc & Hf). unfold tracked in *. apply wp_bind. eapply wp_load; [exact Ht|done|]. rewrite Hc.
  unfold command_rec_free_per_session. apply wp_bind. eapply wp_load; [exact Hpc|done|].
  assert (pc <> p) as Hne by congruence.
  assert (forall q f w', tracked p st w' -> wp True (change as_header BHeader q f) (fun _ w' => tracked p st w') w') as Hhd.
  { intros q f w' Ht'. destruct q as [q|]; [|done]. unfold wp, change, bind, load, tracked in *.
    destruct (heap_of w' !! q) as [b|] eqn:E; [|done]. destruct b; try done. simpl.
    unfold heap_of, set_w_heap. simpl. rewrite lookup_insert_ne; [done|]. unfold heap_of in *. congruence. }
  assert (forall w' f, tracked p st w' -> heap_of w' !! pc = Some (BCmd c) ->
     wp True (change as_cmd BCmd (Some pc) f ;;; change as_header BHeader (header c) (fun _ => mk_header None None))
       (fun _ w' => tracked p st w') w') as Hrest.
  { intros w' f Ht' Hpc'. apply wp_bind. eapply wp_change; [exact Hpc'|done|]. apply Hhd.
    unfold tracked, heap_of, set_w_heap. simpl. by rewrite lookup_insert_ne. }
  apply wp_bind. destruct (envelope_from c) as [q|]; [|by apply wp_ret, Hrest]. destruct Hf as [s Hq].
  eapply wp_free; [exact Hq|]. apply Hrest; unfold tracked, heap_of, set_w_heap; simpl; rewrite lookup_delete_ne; try done;
    unfold heap_of in *; congruence.
Qed.

(** From the slot to the answer. *)
Lemma tail_verdict cfg h p pc ready after st w : entered cfg h p pc st w -> passes cfg h p pc ready ->
  keeps_tracked p pc after ->
  wp True (let* ok := exec_hook mrb_load mrb_parse_string h p ready after in leave_hook p ok)
     (fun r _ => hook_verdict cfg h (mrb st) r) w.
Proof.
  intros He Hr Ha. unfold exec_hook, hook_verdict. apply wp_bind, wp_bind.
  eapply wp_load; [exact (e_state _ _ _ _ _ _ He)|done|].
  assert (wp True (leave_hook p true) (fun r _ => r = SMFIS_CONTINUE) w) as Hskip.
  { apply wp_bind. eapply wp_load; [exact (e_state _ _ _ _ _ _ He)|done|]. by destruct He. }
  pose proof (e_slot _ _ _ _ _ _ He) as Hslot. destruct (handler_path cfg h) as [f|] eqn:Ef; [|].
  2: { rewrite Hslot, bool_decide_eq_false_2 by (by intros [? ?]). apply wp_ret. by destruct (mrb st). }
  destruct Hslot as (q & Hq & _). rewrite Hq, bool_decide_eq_true_2 by eauto. cbn [andb].
  destruct (mrb st) as [vm|] eqn:Evm; [|by apply wp_ret]. rewrite bool_decide_eq_true_2 by eauto.
  eapply wp_seq; [by apply Hr|]. intros _ w1 [Ht1 _ Hc1 Hf1 Hslot1 _]. rewrite Ef in Hslot1.
  destruct Hslot1 as (q' & Hq' & Hk). assert (q' = q) as -> by congruence.
  unfold pmilter_state_compile. apply wp_bind, wp_bind. eapply wp_load; [exact Hk|done|]. cbn [code_kind code_text].
  destruct (mrb_load f) as [[|prog]|]; [| |by apply wp_ret].
  { apply wp_bind. eapply wp_change; [exact Hk|done|]. by apply wp_ret. }
  apply wp_bind. eapply wp_change; [exact Hk|done|]. apply wp_ret. cbn [negb]. set (w2 := set_w_heap _ w1).
  assert (p <> q) as Hpq by (intros ->; unfold tracked in Ht1; congruence).
  assert (forall x b, x <> q -> heap_of w1 !! x = Some b -> heap_of w2 !! x = Some b) as Hold.
  { intros x b Hne Hx. unfold w2, heap_of, set_w_heap. simpl. by rewrite lookup_insert_ne. }
  eapply wp_seq.
  { eapply (run_handler_verdict h p pc st q _ prog vm); [by apply Hold|done|apply lookup_insert_eq|done|done|].
    destruct Hf1 as (c & Hpc & Hs). exists c. split; [apply Hold; [congruence|done]|].
    destruct (envelope_from c) as [y|]; [|done]. destruct Hs as [s Hy]. exists s. apply Hold; [congruence|done]. }
  intros r w3 (ans & exc & z & vm' & Hrep & -> & (st3 & Ht3 & Hc3) & Hf3).
  apply wp_bind. eapply wp_upd; [exact Ht3|]. intros w4 Ht4 Hst4.
  eapply wp_seq; [apply (Ha w4 _ Ht4); [cbn; congruence|by apply (stay_from_ok p pc w3 w4 st3)]|]. intros ? w5 Ht5; cbv beta in Ht5. apply wp_ret.
  apply wp_bind. eapply wp_load; [exact Ht5|done|]. apply wp_ret. by eexists _, _, _, _.
Qed.

(** The slot is filled. *)
Lemma enter_entered h p st w : live false false p w -> tracked p st w -> w_oom w = [] ->
  wp True (enter_hook h p) (fun _ w' => exists pc st', entered (a_config (w_app w)) h p pc st' w' /\ mrb st' = mrb st) w.
Proof.
  intros (st0 & pc & c & pn & cn & ph & hd & Hs & _) Ht Ho. assert (st0 = st) as -> by (destruct Hs; unfold tracked in Ht; congruence).
  assert (from_ok pc w) as Hfrom.
  { exists c. split; [by destruct Hs|]. pose proof (s_strs _ _ _ _ _ _ _ _ _ _ _ Hs) as Hstr.
    by apply Forall_cons_iff in Hstr as [? _]. }
  pose proof (s_fresh _ _ _ _ _ _ _ _ _ _ _ Hs) as Hfresh. pose proof (s_pc _ _ _ _ _ _ _ _ _ _ _ Hs) as Hpc. clear Hs.
  unfold enter_hook, install_hook. apply wp_bind. eapply wp_change; [exact Ht|done|]. set (w1 := set_w_heap _ w).
  assert (tracked p (set_status SMFIS_CONTINUE st) w1) as Ht1 by apply lookup_insert_eq.
  assert (stay p w w1) as Hst1.
  { intros q b Hne Hq. unfold w1, heap_of, set_w_heap. simpl. by rewrite lookup_insert_ne. }
  assert (heap_fresh w1) as Hf1 by exact (fresh_insert _ _ _ _ _ Ht Hfresh).
  apply wp_bind. unfold wp at 1, gets. change (a_config (w_app w1)) with (a_config (w_app w)).
  apply wp_bind. unfold pmilter_mrb_code_from_file. destruct (handler_path _ h) as [f|] eqn:Ef.
  - apply wp_alloc_ok; [done|]. set (w2 := grown _ w1).
    assert (forall q b, heap_of w1 !! q = Some b -> heap_of w2 !! q = Some b) as H12.
    { intros q b Hq. unfold w2, grown, heap_of at 1. cbn [w_app set_w_app a_heap].
      rewrite lookup_insert_ne; [exact Hq|]. apply Hf1 in Hq. lia. }
    eapply wp_change; [by apply H12|done|]. set (w3 := set_w_heap _ w2).
    assert (forall q b, q <> p -> heap_of w2 !! q = Some b -> heap_of w3 !! q = Some b) as H23.
    { intros q b Hne Hq. unfold w3, heap_of, set_w_heap. simpl. by rewrite lookup_insert_ne. }
    exists pc, (set_handler h (Some (a_brk (w_app w1))) (set_status SMFIS_CONTINUE st)).
    split; [split; [apply lookup_insert_eq|done|done|..]|done].
    + apply (stay_from_ok p pc w w3 st); [done| |done]. intros q b Hne Hq. by apply H23, H12, Hst1.
    + rewrite Ef. exists (a_brk (w_app w1)). split; [unfold set_handler, upd; cbn; by rewrite decide_True|].
      apply H23; [|apply lookup_insert_eq]. intros E. apply Hf1 in Ht1. lia.
    + refine (fresh_insert _ _ _ _ _ (H12 _ _ Ht1) _). change (heap_fresh w2). intros q b Hq.
      unfold w2, grown, heap_of in Hq. cbn [w_app set_w_app a_heap] in Hq.
      apply lookup_insert_Some in Hq as [[<- _]|[_ Hq]]; [cbn; lia|]. apply Hf1 in Hq. cbn in *. lia.
  - apply wp_ret. eapply wp_change; [exact Ht1|done|].
    exists pc, (set_handler h None (set_status SMFIS_CONTINUE st)).
    split; [split; [apply lookup_insert_eq|done|done|..]|done].
    + apply (stay_from_ok p pc w _ st); [done| |done]. intros q b Hne Hq. unfold heap_of, set_w_heap. simpl.
      rewrite lookup_insert_ne by done. by apply Hst1.
    + rewrite Ef. unfold set_handler, upd. cbn. by rewrite decide_True.
    + exact (fresh_insert _ _ _ _ _ Ht1 Hf1).
Qed.

(** A whole callback: what it records and what it does before and after the
    handler may be any step that passes. *)
Lemma callback_front h p st (m : nat -> cM W Z) w : ctx_privdata (w_ctx w) = PrivState p -> live false false p w ->
  tracked p st w -> w_oom w = [] ->
  (forall pc st' w', entered (a_config (w_app w)) h p pc st' w' -> mrb st' = mrb st ->
     wp True (m p) (fun r _ => hook_verdict (a_config (w_app w)) h (mrb st) r) w') ->
  wp True (tick ;;; let* p := priv_state in enter_hook h p ;;; m p)
     (fun r _ => hook_verdict (a_config (w_app w)) h (mrb st) r) w.
Proof.
  intros Hp Hl Ht Ho Hm. apply wp_bind. unfold wp at 1, tick, modify. set (w0 := set_w_app _ w).
  assert (live false false p w0) as Hl0 by (destruct Hl as (? & ? & ? & ? & ? & ? & ? & ? & _); by eexists _, _, _, _, _, _, _).
  apply wp_bind. unfold priv_state. apply wp_bind, wp_getc. change (w_ctx w0) with (w_ctx w). rewrite Hp. apply wp_ret.
  eapply wp_seq; [by apply (enter_entered h p st w0)|]. intros _ w1 (pc & st' & He & Hv). by eapply Hm.
Qed.

Lemma passes_if_mrb cfg h p pc m : passes cfg h p pc m -> passes cfg h p pc (if_mrb p m).
Proof.
  intros Hm. apply passes_bind; [|intros []; [done|apply passes_ret]].
  apply passes_bind; [apply passes_load|]. intros ?. apply passes_ret.
Qed.

(** A record step and the end. *)
Lemma rec_verdict cfg h p pc (rec : cM W unit) after st w : entered cfg h p pc st w -> passes cfg h p pc rec ->
  keeps_tracked p pc after ->
  wp True (rec ;;; let* ok := exec_hook mrb_load mrb_parse_string h p nop after in leave_hook p ok)
     (fun r _ => hook_verdict cfg h (mrb st) r) w.
Proof.
  intros He Hr Ha. eapply wp_seq; [by apply Hr|]. intros ? w1 He1; cbv beta in He1. eapply tail_verdict; [exact He1|apply passes_ret|done].
Qed.

Lemma event_verdict e p st w : ctx_privdata (w_ctx w) = PrivState p -> live false false p w -> tracked p st w -> w_oom w = [] ->
  wp True (run_event mrb_load mrb_parse_string e)
     (fun r _ => hook_verdict (a_config (w_app w)) (event_hook e) (mrb st) r) w.
Proof.
  intros Hp Hl Ht Ho.
  assert (forall h, wp True (plain_callback mrb_load mrb_parse_string h)
     (fun r _ => hook_verdict (a_config (w_app w)) h (mrb st) r) w) as Hplain.
  { intros h. apply (callback_front h p st (fun p => let* ok := exec_hook mrb_load mrb_parse_string h p nop nop in leave_hook p ok)); [done..|].
    intros pc st' w' He <-. eapply tail_verdict; [exact He|apply passes_ret|apply keeps_tracked_nop]. }
  destruct e as [host|argv|argv|hf hv| |b n| | |sc|]; cbn [run_event event_hook]; try by apply Hplain.
  - eapply (callback_front Hhelo p); [done..|]. intros pc st' w' He <-.
    eapply rec_verdict; [exact He| |apply keeps_tracked_nop]. apply passes_if_mrb, passes_new_string. by left.
  - eapply (callback_front Henvfrom p); [done..|]. intros pc st' w' He <-.
    eapply rec_verdict; [exact He| |apply keeps_tracked_nop]. apply passes_if_mrb, passes_bind; [apply passes_deref|].
    intros a. apply passes_new_string. by right.
  - eapply (callback_front Henvrcpt p); [done..|]. intros pc st' w' He <-.
    eapply rec_verdict; [exact He| |apply keeps_tracked_nop]. apply passes_if_mrb, passes_bind; [apply passes_lib, lib_getsymval|].
    intros v. by apply passes_cmd.
  - eapply (callback_front Hheader p); [done..|]. intros pc st' w' He <-.
    eapply rec_verdict; [exact He| |apply keeps_tracked_nop]. apply passes_if_mrb.
    apply passes_bind; [apply passes_bind; [apply passes_load|intros; apply passes_load]|]. intros c.
    apply passes_bind; [apply passes_gets|]. intros k. apply passes_bind; [apply passes_gets|]. intros v. apply passes_header.
  - eapply (callback_front Hbody p); [done..|]. intros pc st' w' He <-.
    eapply tail_verdict; [exact He| |apply keeps_tracked_nop]. apply passes_bind; [apply passes_gets|].
    intros v. by apply passes_cmd.
  - eapply (callback_front Heom p); [done..|]. intros pc st' w' He <-.
    eapply rec_verdict; [exact He| |apply keeps_tracked_eom]. apply passes_if_mrb, passes_bind; [apply passes_time|].
    intros t. by apply passes_cmd.
Qed.

End verdict.
