(* ===== verification/SessionTheorems.v ===== *)
(** * What pmilter promises, and where it does not keep it

    The theorems on pmilter's sessions: a callback answers with the verdict of
    its handler and returns; a session set up by [mrb_xxfi_connect] makes no
    invalid access in any sequence of message callbacks; [pmilter_delete_conf]
    frees the session's objects, each once; the order of the callbacks that
    the engine guarantees holds of pmilter.  Then the places where memory
    safety ends: the close callback reads the state it has freed, a refused
    connection leaves the private data of the wrong type, and the body chunk
    is kept beyond its callback. *)

From stdpp Require Import base option numbers strings gmap list.
From Stdlib Require Import Strings.Byte ZArith Lia.
From S2P Require Import Prelude Mfdef Comm Strl Stm Macros Smfi Inet Engine EngineProps EngineOrder Utils Toml Config Session SessionProps SessionSafe SessionVerdict.
Local Open Scope cM_scope.
Local Open Scope Z_scope.

(** ** Callbacks return *)

Section prompt.
Context {V : Type}.
Abbreviation W := (world priv (app V)).
Implicit Types w : W.

(** A script that makes no request to the MTA, which would wait for the socket. *)
Fixpoint mute (s : script V) : Prop :=
  match s with
  | SEnd _ _ => True
  | SCall m k =>
      match m with Add_header _ _ | Change_envelope_from _ _ | Add_rcpt_to _ _ => False | _ => True end /\ forall r, mute (k r)
  end.

(** The compiled handlers in memory are such scripts, made from files; the
    states have an interpreter if [enabled]. *)
Definition benign (enabled : bool) (b : block V) : Prop :=
  match b with
  | BState st => is_Some (mrb st) <-> enabled = true
  | BCode k => code_kind k = PMILTER_MRB_CODE_TYPE_FILE /\ forall prog v, code_proc k = Some prog -> mute (prog v)
  | _ => True
  end.
Definition mute_heap (enabled : bool) w : Prop := map_Forall (fun _ => benign enabled) (heap_of w).

Context (enabled : bool).

(** A part of a callback that neither waits nor exits. *)
Definition prompt {A} (m : cM W A) : Prop := forall w, mute_heap enabled w ->
  match m w with Done _ w' => mute_heap enabled w' | Undef _ _ => True | Blocked _ | Exited _ _ => False end.

Lemma prompt_bind {A B} (m : cM W A) (k : A -> cM W B) : prompt m -> (forall a, prompt (k a)) -> prompt (bind m k).
Proof. intros Hm Hk w Hw. specialize (Hm w Hw). unfold bind. destruct (m w); try done. by apply Hk. Qed.

Lemma prompt_ret {A} (a : A) : prompt (ret a).
Proof. by intros w Hw. Qed.

Lemma prompt_undef {A} f : prompt (@undef W A f).
Proof. done. Qed.

Lemma prompt_gets {A} (f : W -> A) : prompt (gets f).
Proof. by intros w Hw. Qed.

Lemma prompt_getc {A} (f : smfi_str priv -> A) : prompt (@getc priv (app V) A f).
Proof. by intros w Hw. Qed.

Lemma prompt_tick : prompt (@tick V).
Proof. by intros w Hw. Qed.

Lemma prompt_priv_state : prompt (@priv_state V).
Proof. apply prompt_bind; [by intros w Hw|]. intros []; [done|apply prompt_ret]. Qed.

Lemma prompt_deref {A} f (o : option A) : prompt (@deref W A f o).
Proof. destruct o; [apply prompt_ret|done]. Qed.

Lemma prompt_alloc b : benign enabled b -> prompt (@alloc V b).
Proof.
  intros Hb. apply prompt_bind.
  - intros w Hw. unfold malloc_ok. by destruct (w_oom w).
  - intros []; [|apply prompt_ret]. intros w Hw. unfold mute_heap, heap_of. cbn. by apply map_Forall_insert_2.
Qed.

Lemma prompt_strdup s : prompt (@strdup V s).
Proof. by apply prompt_alloc. Qed.

Lemma prompt_load {A} (k : block V -> option A) q : prompt (load k q).
Proof.
  destruct q as [q|]; [|done]. intros w Hw. unfold load. destruct (_ !! q) as [b|]; [by destruct (k b)|done].
Qed.

(** A read of compiled code gives a mute script. *)
Lemma prompt_load_code {B} q (k : pmilter_mrb_code V -> cM W B) :
  (forall c, benign enabled (BCode c) -> prompt (k c)) -> prompt (bind (load as_code q) k).
Proof.
  intros Hk w Hw. unfold bind, load. destruct q as [q|]; [|done].
  destruct (heap_of w !! q) as [b|] eqn:E; [|done]. destruct b; try done. simpl.
  apply Hk; [|done]. exact (map_Forall_lookup_1 _ _ _ _ Hw E).
Qed.

Lemma prompt_change {A} (k : block V -> option A) inj q f :
  (forall b a, benign enabled b -> k b = Some a -> benign enabled (inj (f a))) -> prompt (change k inj q f).
Proof.
  intros Hf w Hw. destruct q as [q|]; [|done]. unfold change, bind, load.
  destruct (heap_of w !! q) as [b|] eqn:E; [|done]. destruct (k b) as [a|] eqn:Ek; [|done].
  unfold modify, mute_heap, heap_of, set_w_heap. cbn. apply map_Forall_insert_2; [|done].
  eapply Hf; [|done]. exact (map_Forall_lookup_1 _ _ _ _ Hw E).
Qed.

Lemma prompt_change_code q f : (forall k, benign enabled (BCode k) -> benign enabled (BCode (f k))) -> prompt (@change V _ as_code BCode q f).
Proof. intros Hf. apply prompt_change. intros b a Hb Ha. destruct b; try done. injection Ha as <-. by apply Hf. Qed.

(** A read of the state tells whether there is an interpreter. *)
Lemma prompt_load_state {B} q (k : pmilter_state V -> cM W B) :
  (forall st, benign enabled (BState st) -> prompt (k st)) -> prompt (bind (load as_state q) k).
Proof.
  intros Hk w Hw. unfold bind, load. destruct q as [q|]; [|done].
  destruct (heap_of w !! q) as [b|] eqn:E; [|done]. destruct b; try done. simpl.
  apply Hk; [|done]. exact (map_Forall_lookup_1 _ _ _ _ Hw E).
Qed.

Lemma prompt_upd_state p f : (forall st, mrb (f st) = mrb st) -> prompt (@upd_state V p f).
Proof.
  intros Hf. apply prompt_change. intros b a Hb Ha. destruct b; try done. injection Ha as <-. cbn. by rewrite Hf.
Qed.

Lemma prompt_free q : prompt (@free V q).
Proof.
  destruct q as [q|]; [|apply prompt_ret]. intros w Hw. unfold free. destruct (_ !! q); [|done].
  unfold mute_heap, heap_of, set_w_heap. cbn. by apply map_Forall_delete.
Qed.

Lemma prompt_time : prompt (@time V).
Proof. intros w Hw. unfold time. by destruct (a_clock _). Qed.

Lemma prompt_borrow b : prompt (@read_borrow V b).
Proof. intros w Hw. unfold read_borrow. by case_decide. Qed.

End prompt.

Create HintDb prompt.
Hint Resolve prompt_ret prompt_undef prompt_gets prompt_getc prompt_tick prompt_priv_state prompt_deref prompt_strdup
  prompt_load prompt_free prompt_time prompt_borrow : prompt.
Hint Extern 1 (prompt _ (upd_state _ _)) => (by apply prompt_upd_state) : prompt.
Hint Extern 1 (prompt _ (change _ _ _ _)) => (by apply prompt_change) : prompt.

Ltac prompt_step :=
  first
    [ progress cbv beta iota
    | progress auto with prompt nocore
    | apply prompt_bind; [|intros ?]
    | match goal with |- prompt _ (match ?x with _ => _ end) => destruct x end ].
Ltac prompt := repeat prompt_step.

Section returns.
Context {V : Type} (mrb_load : bytes -> option (compiled V)) (mrb_parse_string : bytes -> compiled V) (enabled : bool).
Abbreviation W := (world priv (app V)).

Lemma prompt_scan s b l : prompt enabled (@sym_scan priv (app V) s b l).
Proof.
  remember (length l) as n eqn:Hn. revert l Hn. induction (lt_wf n) as [n _ IH]. intros l Hn.
  destruct l as [|[q|] l]; cbn [sym_scan]; auto with prompt. prompt.
  eapply IH; [|done]. subst n. simpl. lia.
Qed.

Lemma prompt_getsymval s : prompt enabled (@smfi_getsymval priv (app V) s).
Proof.
  assert (forall n pt buf, prompt enabled (@sym_search priv (app V) s pt buf n)) as H.
  { induction n as [|n IH]; intros pt buf; cbn [sym_search]; prompt. apply prompt_scan. }
  unfold smfi_getsymval. prompt.
Qed.

Hint Resolve prompt_getsymval : prompt.

Lemma prompt_run p s : enabled = true -> mute s -> prompt enabled (@mrb_run V p s).
Proof.
  intros Hen. induction s as [exc vm|m k IH]; cbn [mute mrb_run]; intros Hm.
  { apply prompt_bind; [|intros; apply prompt_ret]. apply prompt_change. intros b a Hb Ha. cbn.
    split; [by intros _|intros _; by eexists]. }
  destruct Hm as [Hm Hk]. apply prompt_bind; [|intros r; by apply IH].
  unfold session_method, get_cmd, mrb_str_ptr, mrb_str_opt, borrow_str. destruct m; try done; prompt.
Qed.

Hint Extern 2 (prompt _ (change as_code _ _ _)) =>
  (by apply prompt_change_code) : prompt.

Lemma prompt_code_free p h : prompt enabled (@code_free V p h).
Proof. unfold code_free. prompt. Qed.

Hint Resolve prompt_code_free : prompt.

Lemma prompt_known {A B} f (a : A) (k : A -> cM W B) : prompt enabled (k a) -> prompt enabled (bind (deref f (Some a)) k).
Proof. exact id. Qed.

Lemma prompt_run_handler h p : prompt enabled (@run_handler V h p).
Proof.
  unfold run_handler. apply prompt_load_state. intros s Hs. destruct (mrb s) as [vm|] eqn:Evm; [|done].
  assert (enabled = true) as Hen by (apply Hs; by rewrite Evm). apply prompt_known.
  apply prompt_bind; [prompt|]. intros _. apply prompt_load_code. intros c [_ Hc].
  destruct (code_proc c) as [prog|]; [|done]. apply prompt_known.
  apply prompt_bind; [by apply prompt_run, Hc|]. intros exc. prompt.
Qed.

(** No handler file makes requests. *)
Definition mute_files : Prop := forall f prog v, mrb_load f = Some (Proc prog) -> mute (prog v).

Hypothesis Hmute : mute_files.

Lemma prompt_compile q : prompt enabled (pmilter_state_compile mrb_load mrb_parse_string q).
Proof.
  unfold pmilter_state_compile. destruct q as [q|]; [|apply prompt_ret]. apply prompt_load_code. intros c [Hk _].
  rewrite Hk. cbv zeta. destruct (mrb_load (code_text c)) as [[|prog]|] eqn:E; [| |apply prompt_ret].
  - apply prompt_bind; [|intros; apply prompt_ret]. apply prompt_change_code. by intros k [? ?].
  - apply prompt_bind; [|intros; apply prompt_ret]. apply prompt_change_code. intros k [? ?].
    split; [done|]. intros x v [= <-]. by eapply Hmute.
Qed.

Hint Resolve prompt_compile prompt_run_handler : prompt.

Lemma prompt_enter h p : prompt enabled (@enter_hook V h p).
Proof.
  assert (forall f, prompt enabled (@alloc V (BCode (mk_code f PMILTER_MRB_CODE_TYPE_FILE None false)))) by (intros; by apply prompt_alloc).
  unfold enter_hook, install_hook, pmilter_mrb_code_from_file. prompt.
Qed.

Lemma prompt_exec h p ready after : prompt enabled ready -> prompt enabled after ->
  prompt enabled (exec_hook mrb_load mrb_parse_string h p ready after).
Proof. intros Hr Ha. unfold exec_hook. prompt. Qed.

Lemma prompt_tail h p ready after : prompt enabled ready -> prompt enabled after ->
  prompt enabled (let* ok := exec_hook mrb_load mrb_parse_string h p ready after in leave_hook p ok).
Proof. intros Hr Ha. apply prompt_bind; [by apply prompt_exec|]. intros ok. unfold leave_hook. prompt. Qed.

Hint Resolve prompt_enter prompt_tail : prompt.

Lemma event_prompt e : prompt enabled (run_event mrb_load mrb_parse_string e).
Proof.
  destruct e; cbn [run_event]; unfold mrb_xxfi_helo, mrb_xxfi_envfrom, mrb_xxfi_envrcpt, mrb_xxfi_header, mrb_xxfi_eoh,
    mrb_xxfi_body, mrb_xxfi_eom, mrb_xxfi_abort, mrb_xxfi_unknown, mrb_xxfi_data, plain_callback, if_mrb, has_mrb, nop,
    upd_cmd, get_cmd, lend, command_rec_free_per_session;
    repeat first [apply prompt_tail | prompt_step].
Qed.

Lemma prompt_setpriv x : prompt enabled (@smfi_setpriv priv (app V) x).
Proof. by intros w Hw. Qed.

Lemma prompt_alloc_records :
  prompt enabled (@alloc V (BCmd (mk_cmd None None None None None 0 None None 0))) /\
  prompt enabled (@alloc V (BConn (mk_conn None None None))) /\
  prompt enabled (@alloc V (BHeader (mk_header None None))).
Proof. by repeat split; apply prompt_alloc. Qed.

Lemma prompt_install h p : prompt enabled (@install_hook V h p).
Proof.
  assert (forall f, prompt enabled (@alloc V (BCode (mk_code f PMILTER_MRB_CODE_TYPE_FILE None false)))) by (intros; by apply prompt_alloc).
  unfold install_hook, pmilter_mrb_code_from_file. prompt.
Qed.

(** Connect, once the state is made. *)
Lemma connect_prompt vm0 host a w : mute_heap enabled w -> w_oom w = [] -> ctx_privdata (w_ctx w) = PrivConfig ->
  enabled = negb (enable_mruby_handler (a_config (w_app w)) =? 0) ->
  match mrb_xxfi_connect vm0 mrb_load mrb_parse_string host a w with
  | Done _ w' => mute_heap enabled w' | Undef _ _ => True | Blocked _ | Exited _ _ => False
  end.
Proof.
  intros Hw Ho Hp Hen. unfold mrb_xxfi_connect.
  rewrite (bind_run tick _ w tt (final (tick w))) by done. set (w0 := final (tick w)).
  rewrite (bind_run smfi_getpriv _ w0 PrivConfig w0) by (unfold smfi_getpriv, getc, gets; by rewrite <- Hp).
  assert (exists q w1, pmilter_create_conf vm0 PrivConfig w0 = Done (Some q) w1 /\ mute_heap enabled w1) as (q & w1 & E & Hw1).
  { unfold pmilter_create_conf, alloc, bind, malloc_ok, priv_config, gets. change (w_oom w0) with (w_oom w). rewrite Ho. cbn.
    rewrite <- Hen. unfold mute_heap in *. destruct enabled.
    - cbn. unfold malloc_ok. cbn. change (w_oom w0) with (w_oom w). rewrite Ho. unfold upd_state, change, bind, load, heap_of. cbn.
      rewrite lookup_insert_eq. cbn. eexists _, _. split; [done|].
      unfold heap_of. cbn. rewrite insert_insert_eq. apply map_Forall_insert_2; [|done]. cbn. by eauto.
    - eexists _, _. split; [done|]. unfold heap_of. cbn. apply map_Forall_insert_2; [|done]. by split; [intros [? ?]|]. }
  rewrite (bind_run _ _ _ _ _ E). revert Hw1. generalize w1. clear -Hmute.
  match goal with |- forall w, _ -> match ?m w with _ => _ end => change (prompt enabled m) end.
  pose proof prompt_alloc_records as (? & ? & ?). pose proof prompt_install. pose proof prompt_setpriv.
  unfold pmilter_command_init, record_conn, has_mrb, upd_cmd, get_cmd, pmilter_ipaddrdup.
  repeat first [apply prompt_exec; apply prompt_ret | prompt_step].
Qed.

End returns.

(** ** Sessions *)

Section sessions.
Context {V : Type} (vm0 : V) (mrb_load : bytes -> option (compiled V)) (mrb_parse_string : bytes -> compiled V).
Context (cfg : pmilter_config).
Abbreviation W := (world priv (app V)).
Implicit Types w : W.

(** Before connect: the listener's private data, memory not exhausted, macros
    in pairs. *)
Record idle w : Prop := mk_idle {
  i_config : a_config (w_app w) = cfg;
  i_priv : ctx_privdata (w_ctx w) = PrivConfig;
  i_oom : w_oom w = [];
  i_fresh : heap_fresh w;
  i_heap : mute_heap (negb (enable_mruby_handler cfg =? 0)) w;
  i_macros : macros_ok w
}.

(** Handlers read the header in the header phase only, and the body chunk in
    the body phase only. *)
Definition tame_handlers : Prop := forall h,
  tame_hook mrb_load cfg h (bool_decide (h = Hheader)) (bool_decide (h = Hbody)).

(** The worlds a session that connect has set up goes through: its message
    callbacks, with the library at work in between. *)
Inductive serving (p : nat) : W -> Prop :=
  | serving_connect host a w r w' : idle w -> (forall f, pmilter_ipaddr a <> inl f) ->
      mrb_xxfi_connect vm0 mrb_load mrb_parse_string host a w = Done r w' ->
      ctx_privdata (w_ctx w') = PrivState p -> serving p w'
  | serving_library w w' : serving p w -> w_app w' = w_app w ->
      ctx_privdata (w_ctx w') = ctx_privdata (w_ctx w) -> macros_ok w' -> serving p w'
  | serving_event e w r w' : serving p w -> event_ok e ->
      run_event mrb_load mrb_parse_string e w = Done r w' -> serving p w'.

Lemma tame_event e : tame_handlers -> tame_hook mrb_load cfg (event_hook e) (reads_header e) (reads_body e).
Proof. intros H. specialize (H (event_hook e)). by destruct e. Qed.

Lemma serving_live p w : tame_handlers -> serving p w ->
  live false false p w /\ macros_ok w /\ ctx_privdata (w_ctx w) = PrivState p /\ a_config (w_app w) = cfg.
Proof.
  intros Ht. induction 1 as [host a w r w' [Hcfg Hp Ho Hf _ Hm] Ha Hrun Hp'|w w' _ (Hl & Hm & Hp & Hcfg) Happ Hc Hm'|
    e w r w' _ (Hl & Hm & Hp & Hcfg) He Hrun].
  - pose proof (connect_live mrb_load mrb_parse_string vm0 host a w Ho Hf Hm Hp Ha) as H. rewrite Hcfg in H.
    specialize (H (Ht Hconnect)). eapply wp_Done in H; [|exact Hrun]. rewrite Hp' in H.
    destruct H as (Hcfg' & Hl & Hm'). done.
  - unfold live, heap_of. rewrite Happ, Hc. done.
  - pose proof (event_live mrb_load mrb_parse_string e p w He Hp Hl Hm) as H. rewrite Hcfg in H.
    specialize (H (tame_event e Ht)). eapply wp_Done in H; [|exact Hrun].
    destruct H as (Hl' & Hc & Hcfg'). unfold macros_ok. by rewrite Hc.
Qed.

Lemma serving_mute p w : mute_files mrb_load -> serving p w -> mute_heap (negb (enable_mruby_handler cfg =? 0)) w.
Proof.
  intros Hm. induction 1 as [host a w r w' [Hcfg Hp Ho _ Hh _] Ha Hrun _|w w' _ IH Happ _ _|e w r w' _ IH _ Hrun].
  - rewrite <- Hcfg in Hh |- *.
    pose proof (connect_prompt mrb_load mrb_parse_string _ Hm vm0 host a w Hh Ho Hp eq_refl) as H. by rewrite Hrun in H.
  - unfold mute_heap, heap_of. by rewrite Happ.
  - pose proof (event_prompt mrb_load mrb_parse_string _ Hm e w IH) as H. by rewrite Hrun in H.
Qed.

End sessions.

(** ** The end of a session *)

Section delete.
Context {V : Type}.
Abbreviation W := (world priv (app V)).
Implicit Types w : W.

(** Of the heap [H0] the blocks [L] are gone; the state [p] may have changed. *)
Definition gone (H0 : gmap nat (block V)) (p : nat) (L : list (option nat)) w : Prop := forall q, q <> p ->
  heap_of w !! q = if decide (Some q ∈ L) then None else H0 !! q.

Lemma gone_free H0 p L o w st : gone H0 p L w -> tracked p st w ->
  (forall q, o = Some q -> (Some q ∉ L) /\ is_Some (H0 !! q) /\ q <> p) ->
  wp False (free o) (fun _ w' => gone H0 p (o :: L) w' /\ tracked p st w' /\ w_ctx w' = w_ctx w) w.
Proof.
  intros Hg Ht Ho. destruct o as [q|].
  - destruct (Ho q eq_refl) as (HL & [b Hb] & Hne). eapply wp_free; [by rewrite (Hg q Hne), decide_False|].
    unfold tracked, gone, heap_of, set_w_heap in *. cbn. split; [|split; [by rewrite lookup_delete_ne|done]].
    intros x Hx. destruct (decide (x = q)) as [->|Hxq].
    + rewrite lookup_delete_eq, decide_True; [done|]. by left.
    + rewrite lookup_delete_ne by done. rewrite (Hg x Hx).
      assert (Some x ∈ Some q :: L <-> Some x ∈ L) as Hiff by (rewrite elem_of_cons; naive_solver).
      do 2 case_decide; tauto.
  - apply wp_ret. split; [|done]. intros x Hx. rewrite (Hg x Hx).
    assert (Some x ∈ None :: L <-> Some x ∈ L) as Hiff by (rewrite elem_of_cons; naive_solver). do 2 case_decide; tauto.
Qed.

Lemma gone_state H0 p L w f st : gone H0 p L w -> tracked p st w ->
  wp False (upd_state p f) (fun _ w' => gone H0 p L w' /\ tracked p (f st) w' /\ w_ctx w' = w_ctx w) w.
Proof.
  intros Hg Ht. eapply wp_change; [exact Ht|done|]. split; [|split; [apply lookup_insert_eq|done]].
  intros q Hq. unfold heap_of, set_w_heap. cbn. rewrite lookup_insert_ne by done. by apply Hg.
Qed.

(** The handlers' code blocks. *)
Lemma gone_handlers H0 p hs : NoDup hs -> forall L w st, gone H0 p L w -> tracked p st w -> codes_apart (handlers st) ->
  (forall h q, h ∈ hs -> handlers st h = Some q -> (Some q ∉ L) /\ is_Some (H0 !! q) /\ q <> p) ->
  wp False (handler_free p hs)
    (fun _ w' => gone H0 p (reverse ((handlers st) <$> hs) ++ L) w' /\ (exists st', tracked p st' w') /\ w_ctx w' = w_ctx w) w.
Proof.
  induction 1 as [|h hs Hh Hnd IH]; intros L w st Hg Ht Hap Hok; [apply wp_ret; eauto|]. cbn [handler_free].
  apply (wp_seq _ _ _ (fun _ w' => gone H0 p (handlers st h :: L) w' /\ w_ctx w' = w_ctx w /\
     tracked p (match handlers st h with None => st | Some _ => set_handler h None st end) w')).
  - unfold code_free. apply wp_bind. eapply wp_load; [exact Ht|done|].
    assert (wp False (free (handlers st h)) (fun _ w' => gone H0 p (handlers st h :: L) w' /\ tracked p st w' /\ w_ctx w' = w_ctx w) w) as Hf.
    { apply gone_free; [done..|]. intros q Hq. apply (Hok h); [by left|done]. }
    destruct (handlers st h) as [q|]; [|eapply wp_mono; [exact Hf|]; by intros _ w' (? & ? & ?)].
    eapply wp_seq; [exact Hf|]. intros _ w1 (Hg1 & Ht1 & Hc1). eapply wp_mono; [by eapply gone_state|].
    intros _ w2 (Hg2 & Ht2 & Hc2). split; [done|]. split; [congruence|done].
  - intros _ w1 (Hg1 & Hc1 & Ht1). set (st1 := match handlers st h with None => st | Some _ => set_handler h None st end) in *.
    assert (forall h', h' <> h -> handlers st1 h' = handlers st h') as Hsame.
    { intros h' Hne. unfold st1. destruct (handlers st h); [|done]. unfold set_handler, upd. cbn. by rewrite decide_False. }
    assert (handlers st1 h = None) as Hnone.
    { unfold st1. destruct (handlers st h) eqn:E; [|done]. unfold set_handler, upd. cbn. by rewrite decide_True. }
    assert ((handlers st) <$> hs = (handlers st1) <$> hs) as Hmap.
    { apply list_fmap_ext. intros i x Hx. symmetry. apply Hsame. intros ->. by apply Hh, (list_elem_of_lookup_2 _ i). }
    rewrite fmap_cons, reverse_cons, <- app_assoc, Hmap. eapply wp_mono; [eapply (IH _ w1 st1 Hg1 Ht1)|].
    + intros h1 h2 q E1 E2. destruct (decide (h1 = h)) as [->|N1]; [congruence|]. destruct (decide (h2 = h)) as [->|N2]; [congruence|].
      rewrite Hsame in E1, E2 by done. by eapply Hap.
    + intros h' q Hin E. assert (h' <> h) as Hne by (by intros ->). rewrite Hsame in E by done.
      destruct (Hok h' q) as (Hn & Hb & Hp); [by right|done|]. split; [|done]. rewrite not_elem_of_cons. split; [|done].
      intros E'. apply Hne. by apply (Hap h' h q).
    + intros _ w2 (Hg2 & Ht2 & Hc2). split; [exact Hg2|]. split; [done|congruence].
Qed.

(** The blocks a session owns. *)
Definition owned (p : nat) (st : pmilter_state V) (pc : nat) (c : command_rec) (pn : nat) (cn : connection_rec) (ph : nat) : list (option nat) :=
  Some p :: reverse ((handlers st) <$> all_hooks) ++
  [Some pc; Some ph; Some pn; hostname cn; ipaddr cn; helohost c; envelope_from c].

Lemma apart_strings a b c d : apart [a; b; c; d] -> forall q,
  (b = Some q -> a <> Some q) /\ (c = Some q -> a <> Some q /\ b <> Some q) /\
  (d = Some q -> a <> Some q /\ b <> Some q /\ c <> Some q).
Proof.
  unfold apart. intros H q. destruct a, b, c, d; simpl in H; unfold id in H;
    rewrite ?NoDup_cons, ?not_elem_of_cons in H; naive_solver.
Qed.

Ltac free_next H := eapply wp_seq; [eapply gone_free; [exact H|done|]|].

(** The command record and what hangs on it. *)
Lemma gone_cmd paths brk p st pc c pn cn ph hd w : sess paths (heap_of w) brk p st pc c pn cn ph hd ->
  wp False (pmilter_command_rec_free (Some pc)) (fun _ w' =>
    gone (heap_of w) p [Some pc; Some ph; Some pn; hostname cn; ipaddr cn; helohost c; envelope_from c] w' /\
    tracked p st w' /\ w_ctx w' = w_ctx w) w.
Proof.
  intros Hs. destruct Hs as [Hst Hpc Hc Hpn Hn Hph Hh Hstr Hap _ _ _].
  apply Forall_cons_iff in Hstr as [F1 Hstr]. apply Forall_cons_iff in Hstr as [F2 Hstr].
  apply Forall_cons_iff in Hstr as [F3 Hstr]. apply Forall_cons_iff in Hstr as [F4 _].
  pose proof (apart_strings _ _ _ _ Hap) as Hne.
  assert (forall o, is_str (heap_of w) o -> o <> Some p /\ o <> Some pc /\ o <> Some pn /\ o <> Some ph /\
            forall q, o = Some q -> is_Some (heap_of w !! q)) as Hstr.
  { intros [q|] Ho; [|done]. destruct Ho as [s Hq]. repeat split; try congruence. intros ? [= <-]. by eexists. }
  assert (gone (heap_of w) p [] w) as Hg by done.
  destruct (Hstr _ F1) as (? & ? & ? & ? & ?), (Hstr _ F2) as (? & ? & ? & ? & ?).
  destruct (Hstr _ F3) as (? & ? & ? & ? & ?), (Hstr _ F4) as (? & ? & ? & ? & ?).
  unfold pmilter_command_rec_free. apply wp_bind. eapply wp_load; [exact Hc|done|].
  free_next Hg. { intros q E. split; [apply not_elem_of_nil|]. split; [by auto|congruence]. }
  intros _ w1 (Hg1 & Ht1 & Hx1). free_next Hg1.
  { intros q E. destruct (Hne q) as (N & _). rewrite !not_elem_of_cons. split; [|split; [by auto|congruence]].
    split; [specialize (N E); congruence|apply not_elem_of_nil]. }
  intros _ w2 (Hg2 & Ht2 & Hx2). apply wp_bind. rewrite Hpn.
  eapply (wp_load _ _ pn (BConn cn)); [|reflexivity|].
  { rewrite Hg2 by congruence. rewrite decide_False; [done|]. rewrite !not_elem_of_cons.
    repeat split; try congruence. apply not_elem_of_nil. }
  free_next Hg2.
  { intros q E. destruct (Hne q) as (_ & N & _). destruct (N E). rewrite !not_elem_of_cons. split; [|split; [by auto|congruence]].
    repeat split; try congruence. apply not_elem_of_nil. }
  intros _ w3 (Hg3 & Ht3 & Hx3). free_next Hg3.
  { intros q E. destruct (Hne q) as (_ & _ & N). destruct (N E) as (? & ? & ?). rewrite !not_elem_of_cons.
    split; [|split; [by auto|congruence]]. repeat split; try congruence. apply not_elem_of_nil. }
  intros _ w4 (Hg4 & Ht4 & Hx4). free_next Hg4.
  { intros q [= <-]. rewrite !not_elem_of_cons. split; [|split; [by eexists|congruence]].
    repeat split; try congruence. apply not_elem_of_nil. }
  intros _ w5 (Hg5 & Ht5 & Hx5). rewrite Hph. free_next Hg5.
  { intros q [= <-]. rewrite !not_elem_of_cons. split; [|split; [by eexists|congruence]].
    repeat split; try congruence. apply not_elem_of_nil. }
  intros _ w6 (Hg6 & Ht6 & Hx6). eapply wp_mono; [eapply gone_free; [exact Hg6|done|]|].
  { intros q [= <-]. rewrite !not_elem_of_cons. split; [|split; [by eexists|congruence]].
    repeat split; try congruence. apply not_elem_of_nil. }
  intros _ w7 (Hg7 & Ht7 & Hx7). split; [exact Hg7|]. split; [done|congruence].
Qed.

(** The whole session: what it owns is gone, nothing else has changed. *)
Lemma delete_gone paths brk p st pc c pn cn ph hd w : sess paths (heap_of w) brk p st pc c pn cn ph hd ->
  wp False (pmilter_delete_conf p) (fun _ w' => w_ctx w' = w_ctx w /\ forall q,
    heap_of w' !! q = if decide (Some q ∈ owned p st pc c pn cn ph) then None else heap_of w !! q) w.
Proof.
  intros Hs. unfold pmilter_delete_conf. apply wp_bind. eapply wp_load; [exact (s_state _ _ _ _ _ _ _ _ _ _ _ Hs)|done|].
  rewrite (s_pc _ _ _ _ _ _ _ _ _ _ _ Hs). eapply wp_seq; [by eapply gone_cmd|]. intros _ w1 (Hg1 & Ht1 & Hc1).
  destruct Hs as [Hst _ Hpc Hpn Hn Hph Hh Hstr _ Hco Hap _].
  eapply wp_seq.
  { apply (gone_handlers (heap_of w) p all_hooks); [|exact Hg1|exact Ht1|done|].
    - apply (bool_decide_eq_true (NoDup all_hooks)). reflexivity.
    - intros h q _ Hq. specialize (Hco h). rewrite Hq in Hco. destruct Hco as (k & Hk & _).
      split; [|split; [by eexists|congruence]]. rewrite !not_elem_of_cons.
      apply Forall_cons_iff in Hstr as [F1 Hstr]. apply Forall_cons_iff in Hstr as [F2 Hstr].
      apply Forall_cons_iff in Hstr as [F3 Hstr]. apply Forall_cons_iff in Hstr as [F4 _].
      assert (forall o, is_str (heap_of w) o -> Some q <> o) as Hs by (intros o Ho <-; destruct Ho; congruence).
      repeat split; try congruence; try (by apply Hs). apply not_elem_of_nil. }
  intros _ w2 (Hg2 & (st2 & Ht2) & Hc2). eapply wp_free; [exact Ht2|]. split; [cbn; congruence|].
  intros q. unfold heap_of at 1, set_w_heap. cbn [w_app set_w_app set_heap a_heap]. unfold owned.
  destruct (decide (q = p)) as [->|Hne]; [rewrite lookup_delete_eq, decide_True; [done|by left]|].
  rewrite lookup_delete_ne, (Hg2 q Hne) by done. set (L := reverse _ ++ _).
  assert (Some q ∈ Some p :: L <-> Some q ∈ L) as Hiff by (rewrite elem_of_cons; naive_solver). do 2 case_decide; tauto.
Qed.

End delete.

(** ** Theorems *)

Section theorems.
Context {V : Type} (vm0 : V) (mrb_load : bytes -> option (compiled V)) (mrb_parse_string : bytes -> compiled V).
Abbreviation W := (world priv (app V)).

(** A step that faults not and waits not returns. *)
Lemma returns_of (enabled : bool) {A} (m : cM W A) Q w : wp False m Q w -> prompt enabled m -> mute_heap enabled w ->
  exists a w', m w = Done a w' /\ Q a w' /\ mute_heap enabled w'.
Proof. intros Hq Hp Hw. specialize (Hp w Hw). unfold wp in Hq. destruct (m w); try done. eauto. Qed.





Lemma prompt_delete (enabled : bool) p : prompt enabled (@pmilter_delete_conf V p).
Proof.
  assert (forall hs, prompt enabled (@handler_free V p hs)) as Hf.
  { induction hs; cbn [handler_free]; unfold code_free; prompt. }
  unfold pmilter_delete_conf, pmilter_command_rec_free, pmilter_config_mruby_handler_free. prompt.
Qed.




End theorems.

(** ** A server with two handlers *)

(** [helo.rb] rejects; [chunk.rb] reads the body chunk. *)
Definition reject_script (v : unit) : script unit :=
  SCall (Set_status SMFIS_REJECT) (fun _ => SEnd false tt).
Definition chunk_script (v : unit) : script unit := SCall Body_chunk (fun _ => SEnd false tt).

Definition demo_load (f : bytes) : option (compiled unit) :=
  if decide (f = lit "helo.rb") then Some (Proc reject_script)
  else if decide (f = lit "chunk.rb") then Some (Proc chunk_script) else None.
Definition demo_parse (s : bytes) : compiled unit := BadSyntax.

(** [helo.rb] for HELO, and [chunk.rb] for the phases [hs]. *)
Definition demo_config (enable : Z) (hs : list hook) : pmilter_config :=
  mk_config PMILTER_LOG_WARN enable 7210 (lit "/tmp/pmilter.sock") 128 0 8 (fun _ => None)
    (fun x => if decide (x = Hhelo) then Some (lit "helo.rb") else if decide (x ∈ hs) then Some (lit "chunk.rb") else None).

Abbreviation DW := (world priv (app unit)).

Definition demo_start (enable : Z) (hs : list hook) (rx : bytes) : DW :=
  mk_world (zero_ctx PrivConfig)
    (mk_net rx [] (replicate 40 (PReady true false)) (replicate 40 (RAvail 100)) (replicate 40 (WAccept 100)))
    next_states MILTER_MAX_DATA_SIZE [] [] (mk_app (demo_config enable hs) ∅ 0 0 []) [].

Lemma demo_idle rx : idle (demo_config (-1) [Hbody]) (demo_start (-1) [Hbody] rx).
Proof.
  split; try done.
  - exists (fun _ => []). split; [|by intros i]. intros i Hi. exists None, None.
    unfold demo_start, zero_ctx. cbn [w_ctx ctx_mac_ptr ctx_mac_buf].
    rewrite !lookup_replicate_2 by done. split; [done|]. split; [done|]. constructor.
Qed.

Lemma demo_tame : tame_handlers demo_load (demo_config (-1) [Hbody]).
Proof.
  intros h f prog v Hf Hl. cbn [demo_config handler_path] in Hf.
  destruct (decide (h = Hhelo)) as [->|Hh]; [injection Hf as <-; by injection Hl as <-|].
  destruct (decide (h ∈ [Hbody])) as [Hb|]; [|done]. apply list_elem_of_singleton in Hb as ->.
  injection Hf as <-. by injection Hl as <-.
Qed.

Lemma demo_mute : mute_files demo_load.
Proof. intros f prog v. unfold demo_load. repeat case_decide; intros [= <-]; by repeat split. Qed.

Definition demo_connected : DW :=
  final (mrb_xxfi_connect tt demo_load demo_parse (lit "mx") (Some (SA_INET [xc0; x00; x02; x01] 25)) (demo_start (-1) [Hbody] [])).

Lemma demo_serving : serving tt demo_load demo_parse (demo_config (-1) [Hbody]) 0 demo_connected.
Proof.
  apply (serving_connect tt demo_load demo_parse _ 0 (lit "mx") (Some (SA_INET [xc0; x00; x02; x01] 25))
           (demo_start (-1) [Hbody] []) SMFIS_CONTINUE); [apply demo_idle|done|vm_compute; reflexivity|reflexivity].
Qed.







(** *** Whole sessions of the server, run by the engine *)

Definition demo_pmilter : smfiDesc DW := smfilter tt demo_load demo_parse.

Lemma demo_pmilter_run : mi_engine demo_pmilter (demo_start 0 [Hbody] demo_bytes) =
  Done MI_SUCCESS (final (mi_engine demo_pmilter (demo_start 0 [Hbody] demo_bytes))).
Proof. vm_compute. reflexivity. Qed.


(** A client on a local socket. *)
Definition unix_bytes : bytes :=
  frame SMFIC_OPTNEG (be32 6 ++ be32 0x1ff ++ be32 0x1fffff) ++
  frame SMFIC_CONNECT (lit "localhost" ++ [x00] ++ lit "L" ++ [x00; x00] ++ lit "/var/run/smtp" ++ [x00]) ++
  frame SMFIC_QUIT [].

(** A client without an IP address is refused with [SMFIS_TEMPFAIL] before
    the private data of the context is set; at the end of that connection the
    close callback takes the server's configuration for a session. *)
Theorem refused_client_confuses : exists w',
  mi_engine demo_pmilter (demo_start (-1) [Hbody] unix_bytes) = Undef BadCast w' /\
  w_trace w' = [CbNegotiate; CbConnect; CbClose].
Proof. eexists. split; vm_compute; reflexivity. Qed.

(** A message with a body. *)
Definition body_bytes : bytes :=
  frame SMFIC_OPTNEG (be32 6 ++ be32 0x1ff ++ be32 0x1fffff) ++
  frame SMFIC_CONNECT (lit "mx" ++ [x00] ++ lit "4" ++ [x00; x19] ++ lit "192.0.2.1" ++ [x00]) ++
  frame SMFIC_MAIL (lit "<a@b.c>" ++ [x00]) ++
  frame SMFIC_RCPT (lit "<d@e.f>" ++ [x00]) ++
  frame SMFIC_BODY (lit "hi") ++ frame SMFIC_BODYEOB [].

(** A body handler makes the filter keep a pointer to the body chunk; an
    end-of-message handler that reads [body_chunk] then reads the buffer of
    the BODY command, which the engine has freed. *)
Theorem stale_body_chunk : exists w',
  mi_engine demo_pmilter (demo_start (-1) [Hbody; Heom] body_bytes) = Undef UseAfterFree w' /\
  w_trace w' = [CbNegotiate; CbConnect; CbEnvfrom; CbEnvrcpt; CbBody; CbEom].
Proof. eexists. split; vm_compute; reflexivity. Qed.
