(* ===== verification/Worker.v ===== *)
(** * The pool of worker threads: libmilter/worker.c

    Sessions wait for the MTA without a thread of their own: the controller
    polls their sockets and hands a session with input to a worker, which runs
    [mi_engine] on it until it has to wait again.

    The model is a transition system.  The code between TASKMGR_LOCK and
    TASKMGR_UNLOCK is one step, and so is each part of a thread outside the
    lock that touches only what the thread owns.  Steps of the listener, the
    controller and the workers interleave freely.  [exec] is executable: an
    action names the thread and carries what the environment decides in the
    step (whether a system call succeeds, what poll reports, the time, the
    result of [mi_engine]).  A wait on the condition variable can end at any
    time, since it has a timeout.

    [p_ok] is ghost: no call to create or detach a thread, to write to the pipe
    or to extend the poll array has failed.  [keep] says whether the variable
    [nfd], declared in the body of the controller's loop, is found unchanged in
    the next round, as compilers tend to have it; the language gives no such
    promise. *)

From stdpp Require Import base option numbers gmap list.
From Stdlib Require Import ZArith Lia.
From S2P Require Import Prelude Mfdef.
Local Open Scope Z_scope.

(** ** Data *)

Definition WKST_INIT : Z := 0.
Definition WKST_READY_TO_RUN : Z := 1.
Definition WKST_RUNNING : Z := 2.
Definition WKST_READY_TO_WAIT : Z := 3.
Definition WKST_WAITING : Z := 4.
Definition WKST_CLOSING : Z := 5.

Definition TM_SIGNATURE : Z := 0x23021957.
Definition MIN_WORKERS : Z := 2.
Definition MAX_WORKERS : Z := 2048.
Definition MIN_IDLE : Z := 1.
Definition PFD_STEP : nat := 256.
Definition DT_CHECK_OLD_SESSIONS : Z := 600.
Definition MAX_FAILS_S : Z := 16.

(** [struct taskmgr_S]: contexts are named by their addresses; [tm_p] is the
    number of bytes in the event pipe. *)
Record taskmgr := mk_tm {
  tm_signature : Z;
  tm_ctx_head : list nat;
  tm_nb_workers : Z;
  tm_nb_idle : Z;
  tm_p : nat
}.

(** Where a worker is; the argument is its variable [ctx]. *)
Inductive wpc :=
  | WNew (arg : option nat)        (* created *)
  | WStart (arg : option nat)      (* detached, not yet counted *)
  | WTop (arg : option nat)        (* at the head of the loop *)
  | WEngine (c : nat)              (* in mi_engine *)
  | WDone (c : nat) (res : Z)      (* mi_engine has returned *)
  | WSearch                        (* about to look for a task *)
  | WIdle                          (* waiting for the condition *)
  | WQuit                          (* left: enough idle workers *)
  | WStopped                       (* left: the milter stops *)
  | WDead.                         (* could not be detached *)

(** What poll reports for a descriptor. *)
Inductive revent := RevNone | RevRead | RevOther.

#[global] Instance revent_eq_dec : EqDecision revent.
Proof. solve_decision. Defined.

Inductive poll_ans := PollTimeout | PollEintr | PollError | PollReady (revents : list revent).

(** Where the controller is. *)
Inductive kpc :=
  | KNew                                        (* created *)
  | KTop                                        (* at the head of the loop *)
  | KPoll                                       (* about to poll *)
  | KEvents (i : nat) (revents : list revent)   (* at pfd[i] *)
  | KGone                                       (* could not start *)
  | KEnd.                                       (* past [err]: the lock is destroyed *)

#[global] Instance kpc_eq_dec : EqDecision kpc.
Proof. solve_decision. Defined.

(** The controller's variables; [k_nfd] is [None] when it was not set in this
    round. *)
Record controller := mk_ctl {
  k_pc : kpc;
  k_pfd : list Z;
  k_nfd : option nat;
  k_dim : nat;
  k_rebuild : bool;
  k_pcnt : Z;
  k_lastcheck : Z
}.

Section pool.
Context {P : Type}.

(** The descriptor RD_PIPE; whether [nfd] survives a round. *)
Variable rd_pipe : Z.
Variable keep : bool.

(** All threads and what they share. *)
Record pool := mk_pool {
  p_tm : taskmgr;
  p_mem : gmap nat (smfi_str P);   (* contexts that are allocated *)
  p_workers : list wpc;
  p_ctl : controller;
  p_stop : Z;                      (* MilterStop *)
  p_id : Z;                        (* the next session id *)
  p_min : Z;                       (* min_worker *)
  p_ok : bool
}.

Definition set_tm v p := mk_pool v (p_mem p) (p_workers p) (p_ctl p) (p_stop p) (p_id p) (p_min p) (p_ok p).
Definition set_mem v p := mk_pool (p_tm p) v (p_workers p) (p_ctl p) (p_stop p) (p_id p) (p_min p) (p_ok p).
Definition set_workers v p := mk_pool (p_tm p) (p_mem p) v (p_ctl p) (p_stop p) (p_id p) (p_min p) (p_ok p).
Definition set_ctl v p := mk_pool (p_tm p) (p_mem p) (p_workers p) v (p_stop p) (p_id p) (p_min p) (p_ok p).
Definition set_stop v p := mk_pool (p_tm p) (p_mem p) (p_workers p) (p_ctl p) v (p_id p) (p_min p) (p_ok p).
Definition set_id v p := mk_pool (p_tm p) (p_mem p) (p_workers p) (p_ctl p) (p_stop p) v (p_min p) (p_ok p).
Definition set_min v p := mk_pool (p_tm p) (p_mem p) (p_workers p) (p_ctl p) (p_stop p) (p_id p) v (p_ok p).
Definition set_ok v p := mk_pool (p_tm p) (p_mem p) (p_workers p) (p_ctl p) (p_stop p) (p_id p) (p_min p) v.

Definition set_head v t := mk_tm (tm_signature t) v (tm_nb_workers t) (tm_nb_idle t) (tm_p t).
Definition add_workers n t := mk_tm (tm_signature t) (tm_ctx_head t) (tm_nb_workers t + n) (tm_nb_idle t) (tm_p t).
Definition add_idle n t := mk_tm (tm_signature t) (tm_ctx_head t) (tm_nb_workers t) (tm_nb_idle t + n) (tm_p t).
Definition set_pipe v t := mk_tm (tm_signature t) (tm_ctx_head t) (tm_nb_workers t) (tm_nb_idle t) v.
Definition set_sig v t := mk_tm v (tm_ctx_head t) (tm_nb_workers t) (tm_nb_idle t) (tm_p t).

Definition set_pc v k := mk_ctl v (k_pfd k) (k_nfd k) (k_dim k) (k_rebuild k) (k_pcnt k) (k_lastcheck k).

(** The result of a step: the next state, or not possible now, or undefined. *)
Inductive result :=
  | Next (p : pool)
  | Disabled
  | Fault (f : fault).

(** An access to a context. *)
Definition with_ctx (c : nat) (p : pool) (k : smfi_str P -> result) : result :=
  match p_mem p !! c with None => Fault UseAfterFree | Some x => k x end.

(** TASKMGR_LOCK. *)
Definition locked (p : pool) (k : result) : result :=
  if decide (k_pc (p_ctl p) = KEnd) then Fault DestroyedLock else k.

Definition put_ctx (c : nat) (x : smfi_str P) (p : pool) : pool := set_mem (<[c := x]> (p_mem p)) p.

(** ** Starting and closing sessions *)

(** LAUNCH_WORKER; [created]: the thread could be created. *)
Definition launch (created : bool) (c : nat) (p : pool) : pool :=
  if created then set_workers (p_workers p ++ [WNew (Some c)]) p else set_ok false p.

(** An idle worker is signalled, otherwise a new one is started. *)
Definition dispatch (created : bool) (c : nat) (x : smfi_str P) (p : pool) : pool :=
  if 0 <? tm_nb_idle (p_tm p) then put_ctx c (set_ctx_wstate WKST_READY_TO_RUN x) p
  else launch created c (put_ctx c (set_ctx_wstate WKST_RUNNING x) p).

Definition mi_list_add_ctx (c : nat) (p : pool) : pool :=
  set_tm (set_head (tm_ctx_head (p_tm p) ++ [c]) (p_tm p)) p.

Definition mi_list_del_ctx (c : nat) (p : pool) : pool :=
  set_tm (set_head (filter (fun d => d <> c) (tm_ctx_head (p_tm p))) (p_tm p)) p.

(** The listener starts the session of a new context [x] at [c]: false is
    MI_FAILURE. *)
Definition mi_start_session (created : bool) (c : nat) (x : smfi_str P) (p : pool) : bool * result :=
  if negb (tm_signature (p_tm p) =? TM_SIGNATURE) then (false, Next p)
  else
    (true, locked p
      (let p := mi_list_add_ctx c p in
       let x := set_ctx_sid (p_id p) x in
       let p := set_id (p_id p + 1) p in
       Next (dispatch created c x p))).

(** [mi_clr_ctx] frees the context. *)
Definition mi_close_session (c : nat) (p : pool) : pool :=
  let p := mi_list_del_ctx c p in
  set_mem (delete c (p_mem p)) p.

(** ** Workers *)

(** GET_TASK_READY_TO_RUN: the first such context of the list; [None] is an
    access to one that is gone. *)
Fixpoint get_task (mem : gmap nat (smfi_str P)) (l : list nat) : option (option (nat * smfi_str P)) :=
  match l with
  | [] => Some None
  | c :: r =>
      match mem !! c with
      | None => None
      | Some x => if ctx_wstate x =? WKST_READY_TO_RUN then Some (Some (c, x)) else get_task mem r
      end
  end.

Definition set_worker (t : nat) (w : wpc) (p : pool) : pool := set_workers (<[t := w]> (p_workers p)) p.

(** The task that was found is set running and becomes [ctx]. *)
Definition take_task (t : nat) (c : nat) (x : smfi_str P) (p : pool) : pool :=
  set_worker t (WTop (Some c)) (put_ctx c (set_ctx_wstate WKST_RUNNING x) p).

(** The steps of [mi_worker] but for [mi_engine] itself; [ok]: the call that
    can fail in the step succeeds. *)
Definition mi_worker (t : nat) (ok : bool) (p : pool) : result :=
  match p_workers p !! t with
  | Some (WNew arg) =>
      let next := set_worker t (if ok then WStart arg else WDead) (set_ok (ok && p_ok p) p) in
      match arg with
      | None => Next next
      | Some c => with_ctx c p (fun x =>
          Next (put_ctx c (set_ctx_wstate (if ok then WKST_RUNNING else WKST_READY_TO_RUN) x) next))
      end
  | Some (WStart arg) => locked p (Next (set_worker t (WTop arg) (set_tm (add_workers 1 (p_tm p)) p)))
  | Some (WTop arg) =>
      if negb (p_stop p =? MILTER_CONT) then Next (set_worker t WStopped p)
      else match arg with
           | Some c => Next (set_worker t (WEngine c) p)
           | None => Next (set_worker t WSearch p)
           end
  | Some (WDone c res) => locked p (with_ctx c p (fun x =>
      let p := set_worker t WSearch p in
      if negb (res =? MI_CONTINUE)
      then Next (mi_close_session c (put_ctx c (set_ctx_wstate WKST_CLOSING x) p))
      else
        let p := put_ctx c (set_ctx_wstate WKST_READY_TO_WAIT x) p in
        Next (if ok then set_tm (set_pipe (S (tm_p (p_tm p))) (p_tm p)) p else set_ok false p)))
  | Some WSearch => locked p
      match get_task (p_mem p) (tm_ctx_head (p_tm p)) with
      | None => Fault UseAfterFree
      | Some (Some (c, x)) => Next (take_task t c x p)
      | Some None =>
          if (p_min p <? tm_nb_workers (p_tm p)) && (MIN_IDLE <? tm_nb_idle (p_tm p))
          then Next (set_worker t WQuit (set_tm (add_workers (-1) (p_tm p)) p))
          else Next (set_worker t WIdle (set_tm (add_idle 1 (p_tm p)) p))
      end
  | Some WIdle => locked p
      (let p := set_tm (add_idle (-1) (p_tm p)) p in
      match get_task (p_mem p) (tm_ctx_head (p_tm p)) with
      | None => Fault UseAfterFree
      | Some (Some (c, x)) => Next (take_task t c x p)
      | Some None => Next (set_worker t (WTop None) p)
      end)
  | Some (WEngine _ | WQuit | WStopped | WDead) | None => Disabled
  end.

(** What the pool reads of a context, which [mi_engine] leaves alone. *)
Definition same_pool_fields (x y : smfi_str P) : Prop :=
  ctx_wstate y = ctx_wstate x /\ ctx_sd y = ctx_sd x /\ ctx_wait y = ctx_wait x /\ ctx_timeout y = ctx_timeout x.

#[global] Instance same_pool_fields_dec x y : Decision (same_pool_fields x y).
Proof. unfold same_pool_fields. apply _. Defined.

(** [mi_engine] returns [res] and leaves the context as [y]. *)
Definition engine_returns (t : nat) (res : Z) (y : smfi_str P) (p : pool) : result :=
  match p_workers p !! t with
  | Some (WEngine c) => with_ctx c p (fun x =>
      if decide (same_pool_fields x y) then Next (set_worker t (WDone c res) (put_ctx c y p)) else Disabled)
  | _ => Disabled
  end.

(** ** The controller *)

(** The sessions that have waited too long are closed, in the order of the
    list; the filter's close callback, which is called first, sees only the
    session. *)
Fixpoint check_old (now : Z) (l : list nat) (p : pool) : option pool :=
  match l with
  | [] => Some p
  | c :: r =>
      match p_mem p !! c with
      | None => None
      | Some x =>
          check_old now r
            (if ctx_wstate x =? WKST_WAITING then
               if ctx_wait x =? 0 then put_ctx c (set_ctx_wait now x) p
               else if ctx_wait x + ctx_timeout x <? now then mi_close_session c p else p
             else p)
      end
  end.

(** The array and the list while the poll set is built. *)
Record pollset := mk_set { s_mem : gmap nat (smfi_str P); s_pfd : list Z; s_dim : nat; s_ok : bool }.

(** One session: [fits]: realloc succeeds if it is called. *)
Definition add_fd (now : Z) (fits : bool) (c : nat) (x : smfi_str P) (s : pollset) : pollset :=
  let x := if ctx_wstate x =? WKST_READY_TO_WAIT then set_ctx_wait now x else x in
  let s := mk_set (<[c := x]> (s_mem s)) (s_pfd s) (s_dim s) (s_ok s) in
  if (ctx_wstate x =? WKST_READY_TO_WAIT) || (ctx_wstate x =? WKST_WAITING) then
    let s :=
      if (s_dim s <=? length (s_pfd s))%nat then
        if fits then mk_set (s_mem s) (s_pfd s) (s_dim s + PFD_STEP) (s_ok s)
        else mk_set (s_mem s) (s_pfd s) (s_dim s) false
      else s in
    if (length (s_pfd s) <? s_dim s)%nat then
      mk_set (<[c := set_ctx_wstate WKST_WAITING x]> (s_mem s)) (s_pfd s ++ [ctx_sd x]) (s_dim s) (s_ok s)
    else s
  else s.

Fixpoint add_fds (now : Z) (fits : list bool) (l : list nat) (s : pollset) : option pollset :=
  match l with
  | [] => Some s
  | c :: r =>
      match s_mem s !! c with
      | None => None
      | Some x => add_fds now (tail fits) r (add_fd now (hd true fits) c x s)
      end
  end.

(** The controller starts: [ok]: it can be detached and the array allocated. *)
Definition ctl_start (ok : bool) (now : Z) (p : pool) : result :=
  let k := p_ctl p in
  match k_pc k with
  | KNew => Next (if ok then set_ctl (mk_ctl KTop [] None PFD_STEP true 0 now) p
                  else set_ok false (set_ctl (set_pc KGone k) p))
  | _ => Disabled
  end.

(** The code at [err]. *)
Definition ctl_err (p : pool) : pool :=
  set_tm (set_sig 0 (p_tm p)) (set_ctl (set_pc KEnd (p_ctl p)) p).

(** A round up to poll. *)
Definition ctl_round (now : Z) (fits : list bool) (p : pool) : result :=
  match k_pc (p_ctl p) with
  | KTop =>
      if negb (p_stop p =? MILTER_CONT) then Next (ctl_err p)
      else
        let k := p_ctl p in
        let nfd := if keep then k_nfd k else None in
        let old := k_lastcheck k + DT_CHECK_OLD_SESSIONS <? now in
        match (if old then check_old now (tm_ctx_head (p_tm p)) p else Some p) with
        | None => Fault UseAfterFree
        | Some p =>
            let last := if old then now else k_lastcheck k in
            if k_rebuild k then
              match add_fds now fits (tm_ctx_head (p_tm p)) (mk_set (p_mem p) [rd_pipe] (k_dim k) (p_ok p)) with
              | None => Fault UseAfterFree
              | Some s => Next (set_ok (s_ok s) (set_mem (s_mem s)
                  (set_ctl (mk_ctl KPoll (s_pfd s) (Some (length (s_pfd s))) (s_dim s) false (k_pcnt k) last) p)))
              end
            else Next (set_ctl (mk_ctl KPoll (k_pfd k) nfd (k_dim k) false (k_pcnt k) last) p)
        end
  | _ => Disabled
  end.

(** poll returns. *)
Definition ctl_poll (ans : poll_ans) (p : pool) : result :=
  let k := p_ctl p in
  match k_pc k with
  | KPoll =>
      match k_nfd k with
      | None => Fault Indeterminate
      | Some nfd =>
          let back b n pc := set_ctl (mk_ctl pc (k_pfd k) (Some nfd) (k_dim k) b n (k_lastcheck k)) p in
          match ans with
          | PollTimeout => Next (back (k_rebuild k) (k_pcnt k) KTop)
          | PollEintr => Next (back true (k_pcnt k) KTop)
          | PollError =>
              let p := back true (k_pcnt k + 1) KTop in
              if MAX_FAILS_S <=? k_pcnt k + 1 then Next (ctl_err p) else Next p
          | PollReady revents =>
              if decide (length revents = nfd) then Next (back true 0 (KEvents 0 revents)) else Disabled
          end
      end
  | _ => Disabled
  end.

(** The first session of the list that waits on [fd]. *)
Fixpoint find_waiting (fd : Z) (mem : gmap nat (smfi_str P)) (l : list nat) : option (option (nat * smfi_str P)) :=
  match l with
  | [] => Some None
  | c :: r =>
      match mem !! c with
      | None => None
      | Some x =>
          if (ctx_wstate x =? WKST_WAITING) && (ctx_sd x =? fd) then Some (Some (c, x)) else find_waiting fd mem r
      end
  end.

(** What is done for [pfd[i]]; at the end of the array a new round begins. *)
Definition ctl_event (created : bool) (p : pool) : result :=
  let k := p_ctl p in
  match k_pc k with
  | KEvents i revents =>
      match revents !! i with
      | None => Next (set_ctl (set_pc KTop k) p)
      | Some rev =>
          match k_pfd k !! i with
          | None => Fault OutOfBounds
          | Some fd =>
              let p := set_ctl (set_pc (KEvents (S i) revents) k) p in
              if decide (rev = RevNone) then Next p
              else if fd =? rd_pipe then
                Next (if decide (rev = RevRead) then set_tm (set_pipe 0 (p_tm p)) p else p)
              else locked p
                match find_waiting fd (p_mem p) (tm_ctx_head (p_tm p)) with
                | None => Fault UseAfterFree
                | Some None => Next p
                | Some (Some (c, x)) => Next (dispatch created c x p)
                end
          end
      end
  | _ => Disabled
  end.

(** The test of [mi_stop_milters]. *)
Definition raise_stop (v : Z) (p : pool) : pool := if p_stop p <? v then set_stop v p else p.

(** [nonblocking]: two calls of fcntl. *)
Definition nonblocking (getfl setfl : bool) : Z :=
  if negb getfl then MI_FAILURE else if negb setfl then MI_FAILURE else MI_SUCCESS.

(** The crew of [n] workers; [crew] tells which threads can be created. *)
Fixpoint start_crew (n : nat) (crew : list bool) (p : pool) : Z * pool :=
  match n with
  | O => (MI_SUCCESS, p)
  | S n =>
      if hd true crew then start_crew n (tail crew) (set_workers (p_workers p ++ [WNew None]) p)
      else (MI_FAILURE, p)
  end.

(** The booleans say which calls succeed.  [max_worker] is only stored in the
    source, so that [max] has no effect. *)
Definition mi_pool_controller_init (pipe wr_get wr_set rd_get rd_set created : bool) (crew : list bool)
    (max min : Z) (p : pool) : Z * pool :=
  let p := set_min min p in
  if tm_signature (p_tm p) =? TM_SIGNATURE then (MI_SUCCESS, p)
  else
    let p := set_tm (mk_tm (tm_signature (p_tm p)) [] 0 0 (tm_p (p_tm p))) p in
    if negb pipe then (MI_FAILURE, p)
    else
      let p := set_tm (set_pipe 0 (p_tm p)) p in
      let r := nonblocking wr_get wr_set in
      if negb (r =? MI_SUCCESS) then (r, p)
      else
        let r := nonblocking rd_get rd_set in
        if negb (r =? MI_SUCCESS) then (r, p)
        else if negb created then (MI_FAILURE, p)
        else
          let p := set_ctl (mk_ctl KNew [] None 0 true 0 0) p in
          let p := set_tm (set_sig TM_SIGNATURE (p_tm p)) p in
          let p := if p_min p =? 0 then set_min MIN_WORKERS p else p in
          start_crew (Z.to_nat (p_min p)) crew p.

(** The static data before any call. *)
Definition pool0 : pool := mk_pool (mk_tm 0 [] 0 0 0) empty [] (mk_ctl KGone [] None 0 true 0 0) MILTER_CONT 0 0 true.

(** The pool after a start without failures. *)
Definition pool_start (min : Z) : pool :=
  (mi_pool_controller_init true true true true true true [] 0 min pool0).2.

(** ** Runs *)

Inductive action :=
  | AStart (created : bool) (c : nat) (x : smfi_str P)
  | AWorker (t : nat) (ok : bool)
  | AEngine (t : nat) (res : Z) (y : smfi_str P)
  | ACtlStart (ok : bool) (now : Z)
  | ACtlRound (now : Z) (fits : list bool)
  | ACtlPoll (ans : poll_ans)
  | ACtlEvent (created : bool)
  | AStop (v : Z).

(** A context is allocated for the session where there is none yet. *)
Definition exec (a : action) (p : pool) : result :=
  match a with
  | AStart created c x => if decide (p_mem p !! c = None) then (mi_start_session created c x p).2 else Disabled
  | AWorker t ok => mi_worker t ok p
  | AEngine t res y => engine_returns t res y p
  | ACtlStart ok now => ctl_start ok now p
  | ACtlRound now fits => ctl_round now fits p
  | ACtlPoll ans => ctl_poll ans p
  | ACtlEvent created => ctl_event created p
  | AStop v => Next (raise_stop v p)
  end.

(** What can come of a pool started with [min] workers. *)
Inductive reachable (min : Z) : pool -> Prop :=
  | reach_init : reachable min (pool_start min)
  | reach_step p a p' : reachable min p -> exec a p = Next p' -> reachable min p'.

Fixpoint run (l : list action) (p : pool) : result :=
  match l with
  | [] => Next p
  | a :: r => match exec a p with Next p' => run r p' | e => e end
  end.

End pool.
