(* ===== verification/WorkerProps.v ===== *)
(** * Invariants of the worker pool

    What every reachable state of [Worker] satisfies: the list of sessions and
    the allocated contexts agree, a session is in the hands of at most one
    worker, and the counters of the task manager are exact.  The primitive
    changes of the state (a worker moves, a session changes its state, is taken,
    added or removed) each have a lemma; the steps combine them. *)

From stdpp Require Import base option numbers gmap list.
From Stdlib Require Import ZArith Lia.
From S2P Require Import Prelude Mfdef Worker.
Local Open Scope Z_scope.

(** ** Workers *)

(** The session a worker has in hand. *)
Definition holds (w : wpc) : option nat :=
  match w with
  | WNew arg | WStart arg | WTop arg => arg
  | WEngine c | WDone c _ => Some c
  | WSearch | WIdle | WQuit | WStopped | WDead => None
  end.

(** Workers that [tm_nb_workers] and [tm_nb_idle] count. *)
Definition counted (w : wpc) : bool :=
  match w with
  | WTop _ | WEngine _ | WDone _ _ | WSearch | WIdle | WStopped => true
  | WNew _ | WStart _ | WQuit | WDead => false
  end.

Definition idle (w : wpc) : bool := match w with WIdle => true | _ => false end.

(** Workers that will still look for a task. *)
Definition active (w : wpc) : bool :=
  match w with WQuit | WStopped | WDead => false | _ => true end.

Definition weight (f : wpc -> bool) (w : wpc) : Z := if f w then 1 else 0.

Fixpoint count (f : wpc -> bool) (ws : list wpc) : Z :=
  match ws with [] => 0 | w :: r => weight f w + count f r end.

Definition unheld (ws : list wpc) (c : nat) : Prop := forall t w, ws !! t = Some w -> holds w <> Some c.

Lemma weight_range f w : 0 <= weight f w <= 1.
Proof. unfold weight. destruct (f w); lia. Qed.

Lemma count_app f l r : count f (l ++ r) = count f l + count f r.
Proof. induction l; simpl; lia. Qed.

Lemma count_insert f ws t w w' :
  ws !! t = Some w -> count f (<[t := w']> ws) = count f ws - weight f w + weight f w'.
Proof.
  revert t. induction ws as [|v ws IH]; intros [|t] H; simpl in *; simplify_eq; [lia|].
  rewrite (IH _ H). lia.
Qed.

Lemma count_nonneg f ws : 0 <= count f ws.
Proof. induction ws; simpl; [lia|]. pose proof (weight_range f a). lia. Qed.

Lemma count_pos f ws : 0 < count f ws -> exists t w, ws !! t = Some w /\ f w = true.
Proof.
  induction ws as [|v ws IH]; simpl; [lia|]. intros H. destruct (f v) eqn:E.
  - exists 0%nat, v. done.
  - unfold weight in H. rewrite E in H. destruct IH as (t & w & ? & ?); [lia|]. exists (S t), w. done.
Qed.

Lemma count_replicate f n w : count f (replicate n w) = Z.of_nat n * weight f w.
Proof. induction n; simpl; lia. Qed.

Lemma lookup_insert_worker (ws : list wpc) t t' w w' v :
  ws !! t = Some w -> <[t := w']> ws !! t' = Some v ->
  (t' = t /\ v = w') \/ (t' <> t /\ ws !! t' = Some v).
Proof.
  intros Ht H. destruct (decide (t' = t)) as [->|N].
  - rewrite list_lookup_insert_eq in H by (by eapply lookup_lt_Some). left. by simplify_eq.
  - rewrite list_lookup_insert_ne in H by done. by right.
Qed.

Lemma lookup_snoc_worker (ws : list wpc) t w v :
  (ws ++ [w]) !! t = Some v -> (t = length ws /\ v = w) \/ ws !! t = Some v.
Proof.
  intros [H|[? H]]%lookup_app_Some; [by right|].
  destruct (t - length ws)%nat eqn:E; simpl in H; simplify_eq. left. split; [lia|done].
Qed.

(** ** The core invariant *)

Section core.
Context {P : Type}.
Implicit Types (x y : smfi_str P) (mem : gmap nat (smfi_str P)).

(** The session of a context: all but what the pool writes. *)
Definition sess (x : smfi_str P) : smfi_str P := set_ctx_sid 0 (set_ctx_wstate 0 (set_ctx_wait 0 x)).

Lemma sess_sd x y : sess y = sess x -> ctx_sd y = ctx_sd x.
Proof. intros H. exact (f_equal ctx_sd H). Qed.

Definition pool_state (x : smfi_str P) : Prop := WKST_READY_TO_RUN <= ctx_wstate x <= WKST_WAITING.

Record core (h : list nat) mem (ws : list wpc) (nw ni : Z) : Prop := mk_core {
  core_nodup : NoDup h;
  core_mem : forall c, c ∈ h <-> is_Some (mem !! c);
  core_state : forall c x, mem !! c = Some x -> pool_state x;
  core_held : forall t w c, ws !! t = Some w -> holds w = Some c ->
    exists x, mem !! c = Some x /\ ctx_wstate x = WKST_RUNNING;
  core_uniq : forall t t' w w' c, ws !! t = Some w -> ws !! t' = Some w' ->
    holds w = Some c -> holds w' = Some c -> t = t';
  core_workers : nw = count counted ws;
  core_idle : ni = count idle ws
}.

Lemma core_unheld h mem ws nw ni c x :
  core h mem ws nw ni -> mem !! c = Some x -> ctx_wstate x <> WKST_RUNNING -> unheld ws c.
Proof. intros I Hc N t w Ht Hh. destruct (core_held _ _ _ _ _ I _ _ _ Ht Hh) as (y & ? & ?). congruence. Qed.

Lemma core_absent h mem ws nw ni c : core h mem ws nw ni -> mem !! c = None -> unheld ws c.
Proof. intros I Hc t w Ht Hh. destruct (core_held _ _ _ _ _ I _ _ _ Ht Hh) as (y & ? & ?). congruence. Qed.

Lemma core_counts h mem ws nw ni nw' ni' :
  core h mem ws nw ni -> nw' = nw -> ni' = ni -> core h mem ws nw' ni'.
Proof. by intros ? -> ->. Qed.

(** A worker moves and keeps its session or lets go of it. *)
Lemma core_move h mem ws nw ni t w w' :
  core h mem ws nw ni -> ws !! t = Some w -> (holds w' = holds w \/ holds w' = None) ->
  core h mem (<[t := w']> ws) (nw - weight counted w + weight counted w') (ni - weight idle w + weight idle w').
Proof.
  intros I Ht Hh. destruct I as [I1 I2 I3 I4 I5 I6 I7].
  assert (K : forall u v c, <[t := w']> ws !! u = Some v -> holds v = Some c ->
    exists v', ws !! u = Some v' /\ holds v' = Some c).
  { intros u v c Hu Hv. destruct (lookup_insert_worker _ _ _ _ _ _ Ht Hu) as [[-> ->]|[_ ?]]; [|eauto].
    exists w. split; [done|]. destruct Hh; congruence. }
  split; try done.
  - intros u v c Hu Hv. destruct (K _ _ _ Hu Hv) as (? & ? & ?). eauto.
  - intros u u' v v' c Hu Hu' Hv Hv'. destruct (K _ _ _ Hu Hv) as (? & ? & ?), (K _ _ _ Hu' Hv') as (? & ? & ?). eauto.
  - rewrite (count_insert _ _ _ _ _ Ht). lia.
  - rewrite (count_insert _ _ _ _ _ Ht). lia.
Qed.

(** After that move nobody has the session. *)
Lemma core_released h mem ws nw ni t w w' c :
  core h mem ws nw ni -> ws !! t = Some w -> holds w = Some c -> holds w' = None ->
  unheld (<[t := w']> ws) c.
Proof.
  intros I Ht Hh Hn u v Hu Hv. destruct (lookup_insert_worker _ _ _ _ _ _ Ht Hu) as [[-> ->]|[N ?]]; [congruence|].
  apply N. by eapply (core_uniq _ _ _ _ _ I u t).
Qed.

(** A context changes. *)
Lemma core_put h mem ws nw ni c x y :
  core h mem ws nw ni -> mem !! c = Some x -> pool_state y ->
  (ctx_wstate y = WKST_RUNNING \/ unheld ws c) -> core h (<[c := y]> mem) ws nw ni.
Proof.
  intros [I1 I2 I3 I4 I5 I6 I7] Hc Hy Hu. split; try done.
  - intros d. rewrite lookup_insert_is_Some'. rewrite I2. split; [by right|]. intros [<-|?]; [by eexists|done].
  - intros d z. destruct (decide (d = c)) as [->|N]; [rewrite lookup_insert_eq|rewrite lookup_insert_ne by done].
    + by intros [= ->]. + apply I3.
  - intros t w d Ht Hd. destruct (decide (d = c)) as [->|N].
    + rewrite lookup_insert_eq. destruct Hu as [?|Hu]; [by eexists|]. destruct (Hu _ _ Ht Hd).
    + rewrite lookup_insert_ne by done. eauto.
Qed.

(** A worker without a session takes one that runs and that nobody has. *)
Lemma core_hold h mem ws nw ni t w w' c x :
  core h mem ws nw ni -> ws !! t = Some w -> holds w' = Some c -> unheld ws c ->
  mem !! c = Some x -> ctx_wstate x = WKST_RUNNING ->
  core h mem (<[t := w']> ws) (nw - weight counted w + weight counted w') (ni - weight idle w + weight idle w').
Proof.
  intros I Ht Hh Hu Hc Hx. destruct I as [I1 I2 I3 I4 I5 I6 I7]. split; try done.
  - intros u v d Hl Hv. destruct (lookup_insert_worker _ _ _ _ _ _ Ht Hl) as [[-> ->]|[_ ?]]; [|eauto].
    simplify_eq. eauto.
  - intros u u' v v' d Hl Hl' Hv Hv'.
    destruct (lookup_insert_worker _ _ _ _ _ _ Ht Hl) as [[-> ->]|[_ ?]],
      (lookup_insert_worker _ _ _ _ _ _ Ht Hl') as [[-> ->]|[_ ?]]; simplify_eq; eauto; exfalso; eapply Hu; eauto.
  - rewrite (count_insert _ _ _ _ _ Ht). lia.
  - rewrite (count_insert _ _ _ _ _ Ht). lia.
Qed.

(** A thread is created. *)
Lemma core_spawn h mem ws nw ni arg :
  core h mem ws nw ni ->
  (forall c, arg = Some c -> unheld ws c /\ exists x, mem !! c = Some x /\ ctx_wstate x = WKST_RUNNING) ->
  core h mem (ws ++ [WNew arg]) nw ni.
Proof.
  intros [I1 I2 I3 I4 I5 I6 I7] Ha. split; try done.
  - intros t w c [[-> ->]|?]%lookup_snoc_worker Hh; [by apply Ha|eauto].
  - intros t t' w w' c [[-> ->]|?]%lookup_snoc_worker [[-> ->]|?]%lookup_snoc_worker Hh Hh'; eauto;
      exfalso; eapply Ha; eauto.
  - rewrite count_app, I6. simpl. change (weight counted (WNew arg)) with 0. lia.
  - rewrite count_app, I7. simpl. change (weight idle (WNew arg)) with 0. lia.
Qed.

(** A session that nobody has is closed. *)
Lemma core_del h mem ws nw ni c :
  core h mem ws nw ni -> unheld ws c -> core (filter (fun d => d <> c) h) (delete c mem) ws nw ni.
Proof.
  intros [I1 I2 I3 I4 I5 I6 I7] Hu. split; try done.
  - by apply NoDup_filter.
  - intros d. rewrite list_elem_of_filter, I2. destruct (decide (d = c)) as [->|N].
    + rewrite lookup_delete_eq. split; [tauto|]. by intros [? ?].
    + rewrite lookup_delete_ne by done. tauto.
  - intros d x [_ ?]%lookup_delete_Some. eauto.
  - intros t w d Ht Hd. rewrite lookup_delete_ne; [eauto|]. intros ->. by eapply Hu.
Qed.

(** A new session. *)
Lemma core_add h mem ws nw ni c y :
  core h mem ws nw ni -> mem !! c = None -> pool_state y -> core (h ++ [c]) (<[c := y]> mem) ws nw ni.
Proof.
  intros [I1 I2 I3 I4 I5 I6 I7] Hc Hy. split; try done.
  - apply NoDup_app. split; [done|]. split; [|apply NoDup_singleton].
    intros d Hd ->%list_elem_of_singleton. apply I2 in Hd as [? ?]. congruence.
  - intros d. rewrite elem_of_app, list_elem_of_singleton, lookup_insert_is_Some', I2. intuition congruence.
  - intros d z. destruct (decide (d = c)) as [->|N]; [rewrite lookup_insert_eq|rewrite lookup_insert_ne by done].
    + by intros [= ->]. + apply I3.
  - intros t w d Ht Hd. destruct (I4 _ _ _ Ht Hd) as (x & ? & ?). exists x.
    rewrite lookup_insert_ne by congruence. done.
Qed.

End core.

(** ** No session is forgotten *)

Section live.
Context {P : Type}.
Implicit Types (x y : smfi_str P) (mem : gmap nat (smfi_str P)).

(** Who looks after a session, in each of its states. *)
Record attended (ws : list wpc) (pipe : nat) (rebuild : bool) (pfd : list Z) (c : nat) x : Prop := mk_attended {
  att_running : ctx_wstate x = WKST_RUNNING -> exists t w, ws !! t = Some w /\ holds w = Some c;
  att_ready : ctx_wstate x = WKST_READY_TO_RUN -> exists t w, ws !! t = Some w /\ active w = true;
  att_done : ctx_wstate x = WKST_READY_TO_WAIT -> (0 < pipe)%nat \/ rebuild = true;
  att_waiting : ctx_wstate x = WKST_WAITING -> ctx_sd x ∈ pfd
}.

Lemma attended_move ws pipe reb pfd c x t w w' :
  ws !! t = Some w -> (holds w = Some c -> holds w' = Some c) ->
  (ctx_wstate x = WKST_READY_TO_RUN -> active w' = true) ->
  attended ws pipe reb pfd c x -> attended (<[t := w']> ws) pipe reb pfd c x.
Proof.
  intros Ht Hh Ha [I1 I2 I3 I4]. pose proof (lookup_lt_Some _ _ _ Ht) as L.
  split; try done; intros Hx; [destruct (I1 Hx) as (u & v & Hu & Hv)|destruct (I2 Hx) as (u & v & Hu & Hv)];
    (destruct (decide (u = t)) as [->|N];
      [exists t, w'; rewrite list_lookup_insert_eq by done; simplify_eq; auto
      |exists u, v; rewrite list_lookup_insert_ne by done; done]).
Qed.

Lemma attended_spawn ws pipe reb pfd c x w :
  attended ws pipe reb pfd c x -> attended (ws ++ [w]) pipe reb pfd c x.
Proof.
  intros [I1 I2 I3 I4]. split; try done; intros Hx;
    [destruct (I1 Hx) as (u & v & Hu & Hv)|destruct (I2 Hx) as (u & v & Hu & Hv)];
    exists u, v; split; try done; by apply lookup_app_l_Some.
Qed.

(** More bytes in the pipe, a rebuild that is due: nothing is lost. *)
Lemma attended_mono ws pipe pipe' reb reb' pfd c x :
  ((0 < pipe)%nat \/ reb = true -> (0 < pipe')%nat \/ reb' = true) ->
  attended ws pipe reb pfd c x -> attended ws pipe' reb' pfd c x.
Proof. intros H [I1 I2 I3 I4]. split; auto. Qed.

(** The time a session waits since does not matter. *)
Lemma attended_ext ws pipe reb pfd c x y :
  ctx_wstate y = ctx_wstate x -> ctx_sd y = ctx_sd x ->
  attended ws pipe reb pfd c x -> attended ws pipe reb pfd c y.
Proof. intros E1 E2 [I1 I2 I3 I4]. split; rewrite E1, ?E2; auto. Qed.

End live.

(** ** The invariant of the pool *)

Section inv.
Context {P : Type} (rd_pipe : Z) (keep : bool).
Implicit Types (x y : smfi_str P) (p : @pool P).

Definition pcore p : Prop :=
  core (tm_ctx_head (p_tm p)) (p_mem p) (p_workers p) (tm_nb_workers (p_tm p)) (tm_nb_idle (p_tm p)).

Definition palive p : Prop :=
  p_ok p = true -> p_stop p = MILTER_CONT ->
  map_Forall (attended (p_workers p) (tm_p (p_tm p)) (k_rebuild (p_ctl p)) (k_pfd (p_ctl p))) (p_mem p).

Definition looping (pc : kpc) : Prop := match pc with KTop | KPoll | KEvents _ _ => True | _ => False end.

(** The controller's variables. *)
Record pctl p : Prop := mk_pctl {
  pctl_nfd : forall n, k_nfd (p_ctl p) = Some n -> n = length (k_pfd (p_ctl p));
  pctl_set : keep = true -> k_rebuild (p_ctl p) = false -> k_nfd (p_ctl p) <> None;
  pctl_poll : k_pc (p_ctl p) = KPoll -> k_rebuild (p_ctl p) = false;
  pctl_events : forall i revents, k_pc (p_ctl p) = KEvents i revents ->
    length revents = length (k_pfd (p_ctl p)) /\ k_rebuild (p_ctl p) = true;
  pctl_new : k_pc (p_ctl p) = KNew -> k_pfd (p_ctl p) = [] /\ k_rebuild (p_ctl p) = true;
  pctl_dim : looping (k_pc (p_ctl p)) -> (1 <= k_dim (p_ctl p))%nat;
  pctl_end : k_pc (p_ctl p) = KEnd ->
    tm_signature (p_tm p) = 0 /\ (p_stop p <> MILTER_CONT \/ MAX_FAILS_S <= k_pcnt (p_ctl p));
  pctl_stop : MILTER_CONT <= p_stop p
}.

Record inv p : Prop := mk_inv { inv_core : pcore p; inv_ctl : pctl p; inv_alive : palive p }.

(** *** What the loops over the list find *)

Lemma get_task_spec (mem : gmap nat (smfi_str P)) l :
  (forall c, c ∈ l -> is_Some (mem !! c)) ->
  (exists c x, get_task mem l = Some (Some (c, x)) /\ c ∈ l /\ mem !! c = Some x /\ ctx_wstate x = WKST_READY_TO_RUN) \/
  (get_task mem l = Some None /\ forall c x, c ∈ l -> mem !! c = Some x -> ctx_wstate x <> WKST_READY_TO_RUN).
Proof.
  induction l as [|c l IH]; intros H; simpl.
  - right. split; [done|]. intros c x. by rewrite elem_of_nil.
  - destruct (H c) as [x E]; [left|]. rewrite E. destruct (Z.eqb_spec (ctx_wstate x) WKST_READY_TO_RUN) as [Ew|Ew].
    + left. exists c, x. repeat split; auto. left.
    + destruct IH as [(d & y & ? & ? & ? & ?)|[? Hn]]; [by intros; apply H; right|left|right].
      * exists d, y. repeat split; auto. by right.
      * split; [done|]. intros d y [->|Hd]%elem_of_cons Hy; [congruence|eauto].
Qed.

Lemma find_waiting_spec fd (mem : gmap nat (smfi_str P)) l :
  (forall c, c ∈ l -> is_Some (mem !! c)) ->
  find_waiting fd mem l = Some None \/
  exists c x, find_waiting fd mem l = Some (Some (c, x)) /\ mem !! c = Some x /\ ctx_wstate x = WKST_WAITING.
Proof.
  induction l as [|c l IH]; intros H; simpl; [by left|].
  destruct (H c) as [x E]; [left|]. rewrite E.
  destruct (_ && _) eqn:B; [|apply IH; intros; apply H; by right].
  apply andb_prop in B as [B _]. apply Z.eqb_eq in B. right. eauto.
Qed.

Lemma core_head_mem p : pcore p -> forall c, c ∈ tm_ctx_head (p_tm p) -> is_Some (p_mem p !! c).
Proof. intros I c. apply (core_mem _ _ _ _ _ I). Qed.

(** *** Dispatching a session *)

Lemma dispatch_core created c x p :
  (forall y, pool_state y -> core (tm_ctx_head (p_tm p)) (<[c := y]> (p_mem p)) (p_workers p)
     (tm_nb_workers (p_tm p)) (tm_nb_idle (p_tm p))) ->
  unheld (p_workers p) c -> pcore (dispatch created c x p).
Proof.
  intros H U. unfold dispatch, launch, pcore. destruct (0 <? _); simpl; [apply H; done|].
  destruct created; simpl; [|by apply H]. apply core_spawn; [by apply H|].
  intros d [= <-]. split; [done|]. eexists. rewrite lookup_insert_eq. done.
Qed.

Lemma dispatch_alive created c x p :
  tm_nb_idle (p_tm p) = count idle (p_workers p) -> palive p ->
  palive (dispatch created c x p).
Proof.
  intros Hi A. unfold dispatch, launch, palive in *. destruct (Z.ltb_spec 0 (tm_nb_idle (p_tm p))) as [L|L]; simpl.
  - intros Ho Hs. apply map_Forall_insert_2; [|auto]. split; simpl; try done. intros _.
    rewrite Hi in L. apply count_pos in L as (t & w & ? & Hw). exists t, w. split; [done|]. by destruct w.
  - destruct created; simpl; [|done]. intros Ho Hs. apply map_Forall_insert_2.
    + split; simpl; try done. intros _. exists (length (p_workers p)), (WNew (Some c)).
      split; [|done]. by apply lookup_snoc_Some; right.
    + eapply map_Forall_impl; [by apply A|]. intros d y. apply attended_spawn.
Qed.

Lemma dispatch_ctl created c x p : p_ctl (dispatch created c x p) = p_ctl p /\
  p_stop (dispatch created c x p) = p_stop p /\ tm_signature (p_tm (dispatch created c x p)) = tm_signature (p_tm p).
Proof. unfold dispatch, launch. destruct (0 <? _), created; done. Qed.

Lemma pctl_ext p p' :
  p_ctl p' = p_ctl p -> p_stop p' = p_stop p -> tm_signature (p_tm p') = tm_signature (p_tm p) ->
  pctl p -> pctl p'.
Proof. intros E1 E2 E3 [I1 I2 I3 I4 I5 I6 I7 I8]. split; rewrite ?E1, ?E2, ?E3; auto. Qed.

(** *** The steps of a worker *)

(** The counters as they are after a worker has moved from [w] to [w']. *)
Record counts_move (w w' : wpc) (tm tm' : taskmgr) : Prop := mk_cm {
  cm_sig : tm_signature tm' = tm_signature tm;
  cm_head : tm_ctx_head tm' = tm_ctx_head tm;
  cm_pipe : tm_p tm' = tm_p tm;
  cm_workers : tm_nb_workers tm' = tm_nb_workers tm - weight counted w + weight counted w';
  cm_idle : tm_nb_idle tm' = tm_nb_idle tm - weight idle w + weight idle w'
}.

(** A worker moves on with the session it has. *)
Lemma step_move t w w' p tm' :
  inv p -> p_workers p !! t = Some w -> holds w' = holds w ->
  (active w' = true \/ p_stop p <> MILTER_CONT \/
    forall c x, p_mem p !! c = Some x -> ctx_wstate x <> WKST_READY_TO_RUN) ->
  counts_move w w' (p_tm p) tm' -> inv (set_worker t w' (set_tm tm' p)).
Proof.
  intros [I C A] Ht Hh Ha [E1 E2 E3 E4 E5]. split.
  - unfold pcore. simpl. rewrite E2, E4, E5. by apply (core_move _ _ _ _ _ _ _ w' I Ht (or_introl Hh)).
  - by eapply pctl_ext; [..|exact C].
  - intros Ho Hs. simpl in *. rewrite E3. intros c x Hx.
    eapply attended_move; [done|congruence| |by apply (A Ho Hs c x)].
    intros Hr. destruct Ha as [?|[?|Hn]]; [done|done|]. by destruct (Hn _ _ Hx).
Qed.

Lemma set_tm_same p : set_tm (p_tm p) p = p.
Proof. by destruct p. Qed.

(** The same where the counters do not change. *)
Lemma step_move_same t w w' p :
  inv p -> p_workers p !! t = Some w -> holds w' = holds w ->
  (active w' = true \/ p_stop p <> MILTER_CONT) ->
  counted w' = counted w -> idle w' = idle w -> inv (set_worker t w' p).
Proof.
  intros I Ht Hh Ha E1 E2. rewrite <- (set_tm_same p). eapply step_move; try done; [tauto|].
  split; try done; unfold weight; rewrite ?E1, ?E2; lia.
Qed.

(** A worker without a session takes a ready one. *)
Lemma step_take t w c x p tm' :
  inv p -> p_workers p !! t = Some w -> holds w = None -> 
  p_mem p !! c = Some x -> ctx_wstate x = WKST_READY_TO_RUN -> counts_move w (WTop (Some c)) (p_tm p) tm' ->
  inv (take_task t c x (set_tm tm' p)).
Proof.
  intros [I C A] Ht Hh Hc Hx [E1 E2 E3 E4 E5].
  pose proof (core_unheld _ _ _ _ _ _ _ I Hc ltac:(by rewrite Hx)) as U. split.
  - pose proof (core_put _ _ _ _ _ _ _ (set_ctx_wstate WKST_RUNNING x) I Hc ltac:(done) ltac:(by left)) as K.
    unfold pcore. simpl. rewrite E2, E4, E5.
    apply (core_hold _ _ _ _ _ t w (WTop (Some c)) c (set_ctx_wstate WKST_RUNNING x) K); try done. apply lookup_insert_eq.
  - by eapply pctl_ext; [..|exact C].
  - intros Ho Hs. simpl in *. rewrite E3. apply map_Forall_insert_2.
    + split; simpl; try done. intros _. exists t, (WTop (Some c)). split; [|done].
      apply list_lookup_insert_eq. by eapply lookup_lt_Some.
    + intros d y Hy. eapply attended_move; [done|congruence|done|]. by apply (A Ho Hs).
Qed.

(** A worker that is done lets go of its session, which is closed ... *)
Lemma step_close t c res y p :
  inv p -> p_workers p !! t = Some (WDone c res) ->
  inv (mi_close_session c (put_ctx c y (set_worker t WSearch p))).
Proof.
  intros [I C A] Ht. split.
  - unfold pcore. simpl. rewrite delete_insert_eq. apply core_del; [|by eapply core_released].
    eapply core_counts; [apply (core_move _ _ _ _ _ _ _ WSearch I Ht); by right|unfold weight; simpl; lia..].
  - by eapply pctl_ext; [..|exact C].
  - intros Ho Hs. simpl in *. rewrite delete_insert_eq. intros d z [N Hd]%lookup_delete_Some.
    eapply attended_move; [done|simpl; congruence|done|by apply (A Ho Hs)].
Qed.

(** ... or goes back to the controller. *)
Lemma step_done t c res x p (ok : bool) :
  inv p -> p_workers p !! t = Some (WDone c res) -> p_mem p !! c = Some x ->
  let q := put_ctx c (set_ctx_wstate WKST_READY_TO_WAIT x) (set_worker t WSearch p) in
  inv (if ok then set_tm (set_pipe (S (tm_p (p_tm q))) (p_tm q)) q else set_ok false q).
Proof.
  intros [I C A] Ht Hc q. split.
  - assert (K : pcore q); [|by destruct ok]. unfold pcore. simpl.
    eapply core_put; [|done|done|right; by eapply core_released].
    eapply core_counts; [apply (core_move _ _ _ _ _ _ _ WSearch I Ht); by right|unfold weight; simpl; lia..].
  - by destruct ok; (eapply pctl_ext; [..|exact C]).
  - destruct ok; [|done]. intros Ho Hs. simpl in *. intros d z.
    destruct (decide (d = c)) as [->|N]; [rewrite lookup_insert_eq|rewrite lookup_insert_ne by done].
    + intros [= <-]. split; simpl; try done. intros _. left. lia.
    + intros Hd. apply attended_mono with (pipe := tm_p (p_tm p)) (reb := k_rebuild (p_ctl p)); [lia|].
      eapply attended_move; [done|simpl; congruence|done|by apply (A Ho Hs)].
Qed.

(** A worker leaves its session behind, when the milter stops or a call fails. *)
Lemma step_drop t w w' p :
  inv p -> p_workers p !! t = Some w -> holds w' = None -> counted w' = counted w -> idle w' = idle w ->
  (p_ok p = false \/ p_stop p <> MILTER_CONT) -> inv (set_worker t w' p).
Proof.
  intros [I C A] Ht Hh E1 E2 F. split; [|by eapply pctl_ext; [..|exact C]|].
  - eapply core_counts; [apply (core_move _ _ _ _ _ _ _ w' I Ht); by right|unfold weight; rewrite ?E1, ?E2; simpl; lia..].
  - intros Ho Hs. simpl in *. destruct F; congruence.
Qed.

Lemma inv_set_ok (b : bool) p : inv p -> inv (set_ok (b && p_ok p) p).
Proof.
  intros [I C A]. split; [done|by eapply pctl_ext; [..|exact C]|].
  intros [_ Ho]%andb_prop Hs. by apply A.
Qed.

(** A context changes in what the pool does not read, or while a worker has it. *)
Lemma inv_put c x y p :
  inv p -> p_mem p !! c = Some x -> ctx_wstate y = ctx_wstate x -> ctx_sd y = ctx_sd x -> inv (put_ctx c y p).
Proof.
  intros [I C A] Hc E1 E2. split; [|by eapply pctl_ext; [..|exact C]|].
  - eapply core_put; [done|done|unfold pool_state; rewrite E1; by apply (core_state _ _ _ _ _ I c)|].
    destruct (decide (ctx_wstate x = WKST_RUNNING)) as [E|N]; [left; congruence|right]. by eapply core_unheld.
  - intros Ho Hs. apply map_Forall_insert_2; [|by apply A].
    eapply attended_ext; [done|done|by apply (A Ho Hs)].
Qed.

Lemma held_ctx t w c p : inv p -> p_workers p !! t = Some w -> holds w = Some c ->
  exists x, p_mem p !! c = Some x /\ ctx_wstate x = WKST_RUNNING.
Proof. intros [I _ _]. apply (core_held _ _ _ _ _ I). Qed.

Lemma inv_worker_new t arg ok p p' :
  inv p -> p_workers p !! t = Some (WNew arg) -> mi_worker t ok p = Next p' -> inv p'.
Proof.
  intros I Ht. unfold mi_worker, with_ctx. rewrite Ht.
  assert (K : inv (set_worker t (if ok then WStart arg else WDead) (set_ok (ok && p_ok p) p))).
  { destruct ok; [|eapply step_drop; [by apply inv_set_ok|exact Ht|done..|by left]]. eapply step_move_same; [by apply inv_set_ok|exact Ht|done|by left|done..]. }
  destruct arg as [c|]; [|by intros [= <-]].
  destruct (held_ctx _ _ c _ I Ht) as (x & Hc & Hx); [done|]. rewrite Hc. intros [= <-].
  destruct ok; [eapply inv_put; [exact K|exact Hc|by simpl..]|].
  destruct K as [K C A]. split; [|by eapply pctl_ext; [..|exact C]|done].
  eapply core_put; [exact K|done|done|right].
  by eapply (core_released _ _ _ _ _ t (WNew (Some c)) WDead); [apply I|..].
Qed.

Lemma no_ready p : pcore p ->
  (forall c x, c ∈ tm_ctx_head (p_tm p) -> p_mem p !! c = Some x -> ctx_wstate x <> WKST_READY_TO_RUN) ->
  forall c x, p_mem p !! c = Some x -> ctx_wstate x <> WKST_READY_TO_RUN.
Proof. intros I H c x Hx. apply (H c x); [|done]. apply (core_mem _ _ _ _ _ I). by eexists. Qed.

Lemma inv_worker_search t ok p p' :
  inv p -> p_workers p !! t = Some WSearch -> mi_worker t ok p = Next p' -> inv p'.
Proof.
  intros I Ht. unfold mi_worker, locked. rewrite Ht. destruct (decide _); [done|].
  destruct (get_task_spec (p_mem p) (tm_ctx_head (p_tm p))) as [(c & x & -> & _ & Hc & Hx)|[-> Hn]];
    [by apply core_head_mem, I| |].
  - intros [= <-]. rewrite <- (set_tm_same p). eapply step_take; try done. split; unfold weight; simpl; lia || done.
  - pose proof (no_ready p (inv_core _ I) Hn). destruct (_ && _); intros [= <-];
      (eapply step_move; [done..|by right; right|split; unfold weight; simpl; lia || done]).
Qed.

Lemma inv_worker_idle t ok p p' :
  inv p -> p_workers p !! t = Some WIdle -> mi_worker t ok p = Next p' -> inv p'.
Proof.
  intros I Ht. unfold mi_worker, locked. rewrite Ht. destruct (decide _); [done|]. simpl.
  destruct (get_task_spec (p_mem p) (tm_ctx_head (p_tm p))) as [(c & x & -> & _ & Hc & Hx)|[-> Hn]];
    [by apply core_head_mem, I| |]; intros [= <-].
  - eapply step_take; try done. split; unfold weight; simpl; lia || done.
  - eapply step_move; [done..|by left|split; unfold weight; simpl; lia || done].
Qed.

Lemma inv_worker_done t c res ok p p' :
  inv p -> p_workers p !! t = Some (WDone c res) -> mi_worker t ok p = Next p' -> inv p'.
Proof.
  intros I Ht. unfold mi_worker, locked, with_ctx. rewrite Ht. destruct (decide _); [done|].
  destruct (held_ctx _ _ c _ I Ht) as (x & Hc & Hx); [done|]. rewrite Hc.
  destruct (negb _); intros [= <-]; [by eapply step_close|by eapply step_done].
Qed.

Lemma inv_mi_worker t ok p p' : inv p -> mi_worker t ok p = Next p' -> inv p'.
Proof.
  intros I H. destruct (p_workers p !! t) as [w|] eqn:Ht; [|unfold mi_worker in H; by rewrite Ht in H].
  destruct w; try (unfold mi_worker in H; rewrite Ht in H; done).
  - by eapply inv_worker_new.
  - unfold mi_worker, locked in H. rewrite Ht in H. destruct (decide _); [done|]. simplify_eq.
    eapply step_move; [done..|by left|split; unfold weight; simpl; lia || done].
  - unfold mi_worker in H. rewrite Ht in H.
    destruct (Z.eqb_spec (p_stop p) MILTER_CONT) as [E|N]; simpl in H.
    + destruct arg; simplify_eq; (eapply step_move_same; [done..|by left|done|done]).
    + simplify_eq. eapply step_drop; [done..|by right].
  - by eapply inv_worker_done.
  - by eapply inv_worker_search.
  - by eapply inv_worker_idle.
Qed.

Lemma inv_engine_returns t res y p p' : inv p -> engine_returns t res y p = Next p' -> inv p'.
Proof.
  intros I. unfold engine_returns, with_ctx. destruct (p_workers p !! t) as [[]|] eqn:Ht; try done.
  destruct (p_mem p !! c) as [x|] eqn:Hc; [|done]. destruct (decide _) as [(E1 & E2 & _)|]; [|done]. intros [= <-].
  eapply step_move_same; [by eapply inv_put|exact Ht|done|by left|done..].
Qed.

Lemma inv_start created c x p p' :
  inv p -> exec rd_pipe keep (AStart created c x) p = Next p' -> inv p'.
Proof.
  intros I. simpl. destruct (decide _) as [Hc|]; [|done]. unfold mi_start_session, locked.
  destruct (negb _); simpl; [by intros [= <-]|]. destruct (decide _); [done|]. intros [= <-].
  destruct (dispatch_ctl created c (set_ctx_sid (p_id p) x) (set_id (p_id p + 1) (mi_list_add_ctx c p))) as (E1 & E2 & E3).
  split.
  - apply dispatch_core; [|by eapply core_absent; [apply I|]]. intros y Hy. simpl. by apply core_add; [apply I|..].
  - eapply pctl_ext; [exact E1|exact E2|exact E3|]. by eapply pctl_ext; [..|apply I].
  - apply dispatch_alive; [apply (core_idle _ _ _ _ _ (inv_core _ I))|apply I].
Qed.

Lemma inv_stop v p : inv p -> inv (raise_stop v p).
Proof.
  intros [I C A]. unfold raise_stop. destruct (Z.ltb_spec (p_stop p) v) as [L|]; [|done].
  destruct C as [C1 C2 C3 C4 C5 C6 C7 C8]. assert (N : v <> MILTER_CONT) by lia. split; [done|..].
  - split; simpl; try done; [|lia]. intros E. split; [by apply C7|by left].
  - intros _ E. simpl in E. congruence.
Qed.


(** *** The steps of the controller *)

Lemma inv_close c p : inv p -> unheld (p_workers p) c -> inv (mi_close_session c p).
Proof.
  intros [I C A] U. split; [by apply core_del|by eapply pctl_ext; [..|exact C]|].
  intros Ho Hs. apply map_Forall_delete. by apply A.
Qed.

(** What the check for old sessions leaves alone. *)
Record checked p p' : Prop := mk_checked {
  ch_ctl : p_ctl p' = p_ctl p;
  ch_stop : p_stop p' = p_stop p;
  ch_ok : p_ok p' = p_ok p;
  ch_workers : p_workers p' = p_workers p;
  ch_tm : set_head (tm_ctx_head (p_tm p)) (p_tm p') = p_tm p;
  ch_mem : forall c x, p_mem p !! c = Some x -> ctx_wstate x <> WKST_WAITING -> p_mem p' !! c = Some x;
  ch_sess : forall c y, p_mem p' !! c = Some y -> exists x, p_mem p !! c = Some x /\ sess y = sess x
}.

Lemma checked_refl p : checked p p.
Proof. split; try done; [by destruct p as [[]]|eauto]. Qed.

Lemma checked_trans p q r : checked p q -> checked q r -> checked p r.
Proof.
  intros [A1 A2 A3 A4 A5 A6 A7] [B1 B2 B3 B4 B5 B6 B7]. split; try congruence; [|eauto|].
  - rewrite <- A5, <- B5. by destruct p as [[]], q as [[]], r as [[]].
  - intros c z Hz. destruct (B7 _ _ Hz) as (y & Hy & Ey), (A7 _ _ Hy) as (x & Hx & Ex). exists x. split; [done|congruence].
Qed.

Lemma check_old_spec now l p :
  inv p -> NoDup l -> (forall c, c ∈ l -> is_Some (p_mem p !! c)) ->
  exists p', check_old now l p = Some p' /\ inv p' /\ checked p p'.
Proof.
  revert p. induction l as [|c l IH]; intros p I N H; simpl; [eauto using checked_refl|].
  destruct (H c) as [x Hc]; [left|]. rewrite Hc. apply NoDup_cons in N as [Nc N].
  assert (K : forall q, inv q -> checked p q -> (forall d, d <> c -> is_Some (p_mem p !! d) -> is_Some (p_mem q !! d)) ->
    exists p', check_old now l q = Some p' /\ inv p' /\ checked p p').
  { intros q Iq Cq Hq. destruct (IH q Iq N) as (p' & ? & ? & ?).
    - intros d Hd. apply Hq; [by intros ->|]. apply H. by right.
    - exists p'. eauto using checked_trans. }
  destruct (Z.eqb_spec (ctx_wstate x) WKST_WAITING) as [W|]; [|apply K; auto using checked_refl].
  destruct (_ =? 0); [|destruct (_ <? _); [|apply K; auto using checked_refl]]; apply K.
  - by eapply inv_put.
  - split; try done; [by destruct p as [[]]| |].
    + intros d y Hd Hy. simpl. rewrite lookup_insert_ne; congruence.
    + intros d y. simpl. intros [[<- <-]|[_ Hd]]%lookup_insert_Some; eauto.
  - intros d Hd. simpl. by rewrite lookup_insert_ne.
  - apply inv_close; [done|]. eapply core_unheld; [apply I|exact Hc|]. by rewrite W.
  - split; try done; [by destruct p as [[]]| |].
    + intros d y Hd Hy. simpl. rewrite lookup_delete_ne; congruence.
    + intros d y. simpl. intros [_ Hd]%lookup_delete_Some; eauto.
  - intros d Hd. simpl. by rewrite lookup_delete_ne.
Qed.

(** How a context is after the poll set was built. *)
Definition polled x y : Prop :=
  sess y = sess x /\
  (ctx_wstate y = ctx_wstate x \/ ctx_wstate x = WKST_READY_TO_WAIT /\ ctx_wstate y = WKST_WAITING) /\
  (ctx_wstate x <> WKST_READY_TO_WAIT -> ctx_wstate x <> WKST_WAITING -> y = x).

(** One session is added to the poll set. *)
Lemma add_fd_spec now fits c x s :
  (length (s_pfd s) <= s_dim s)%nat ->
  let s' := add_fd now fits c x s in
  (length (s_pfd s') <= s_dim s')%nat /\ (s_dim s <= s_dim s')%nat /\ s_pfd s `prefix_of` s_pfd s' /\
  exists y, s_mem s' = <[c := y]> (s_mem s) /\ polled x y /\
    (s_ok s' = true -> s_ok s = true /\ ctx_wstate y <> WKST_READY_TO_WAIT /\
       (ctx_wstate y = WKST_WAITING -> ctx_sd y ∈ s_pfd s')).
Proof.
  intros L. unfold add_fd. set (x' := if _ : bool then set_ctx_wait now x else x).
  assert (E : ctx_wstate x' = ctx_wstate x /\ sess x' = sess x /\ (ctx_wstate x <> WKST_READY_TO_WAIT -> x' = x))
    by (unfold x'; by destruct (Z.eqb_spec (ctx_wstate x) WKST_READY_TO_WAIT)).
  clearbody x'. destruct E as (E1 & E2 & E3). unfold polled. simpl.
  destruct (Z.eqb_spec (ctx_wstate x') WKST_READY_TO_WAIT) as [R|R], (Z.eqb_spec (ctx_wstate x') WKST_WAITING) as [W|W];
    simpl; [rewrite R in W; done|..].
  3: { split; [done|]. split; [done|]. split; [done|]. exists x'. split_and!; auto; intros; split_and!; done. }
  all: destruct (Nat.leb_spec (s_dim s) (length (s_pfd s))) as [F|F]; [destruct fits|]; simpl.
  all: match goal with |- context [(?a <? ?b)%nat] => destruct (Nat.ltb_spec a b) as [G|G] end; simpl; try (unfold PFD_STEP in *; lia).
  all: rewrite ?length_app; simpl; (split; [unfold PFD_STEP in *; lia|]); (split; [unfold PFD_STEP in *; lia|]).
  all: (split; [apply prefix_app_r || idtac; done|]).
  all: first [ exists (set_ctx_wstate WKST_WAITING x'); rewrite insert_insert_eq
             | exists x' ].
  all: split_and!; simpl; try done; try (left; congruence); try (right; split; congruence).
  all: try (intros; exfalso; congruence).
  all: intros; split_and!; try done; set_solver.
Qed.
Lemma core_polled h mem ws nw ni c x y :
  core h mem ws nw ni -> mem !! c = Some x -> polled x y -> core h (<[c := y]> mem) ws nw ni.
Proof.
  intros I Hc (_ & H & _). pose proof (core_state _ _ _ _ _ I _ _ Hc) as S. eapply core_put; [done|done|..].
  - destruct H as [H|[_ H]]; unfold pool_state; rewrite H; [done|unfold WKST_READY_TO_RUN, WKST_WAITING; lia].
  - destruct (decide (ctx_wstate x = WKST_RUNNING)) as [E|N]; [|right; by eapply core_unheld].
    left. destruct H as [H|[H _]]; [congruence|]. by rewrite E in H.
Qed.

Lemma add_fds_spec now l h ws nw ni : forall fits s,
  core h (s_mem s) ws nw ni -> NoDup l -> (forall c, c ∈ l -> is_Some (s_mem s !! c)) ->
  (length (s_pfd s) <= s_dim s)%nat ->
  exists s', add_fds now fits l s = Some s' /\ core h (s_mem s') ws nw ni /\
    (s_dim s <= s_dim s')%nat /\ s_pfd s `prefix_of` s_pfd s' /\
    (forall c, c ∉ l -> s_mem s' !! c = s_mem s !! c) /\
    (forall c x, s_mem s !! c = Some x -> exists y, s_mem s' !! c = Some y /\ polled x y) /\
    (s_ok s' = true -> s_ok s = true /\ forall c y, c ∈ l -> s_mem s' !! c = Some y ->
       ctx_wstate y <> WKST_READY_TO_WAIT /\ (ctx_wstate y = WKST_WAITING -> ctx_sd y ∈ s_pfd s')).
Proof.
  induction l as [|c l IH]; intros fits s I N H L; simpl.
  { exists s. split_and!; auto; [|intros ?; split; [done|intros c y; by rewrite elem_of_nil]].
    intros c x Hx. exists x. unfold polled. auto. }
  destruct (H c) as [x Hc]; [left|]. rewrite Hc. apply NoDup_cons in N as [Nc N].
  destruct (add_fd_spec now (hd true fits) c x s L) as (L1 & L2 & Hp & y & Em & Ew & Eo).
  set (s1 := add_fd _ _ _ _ _) in *.
  assert (I1 : core h (s_mem s1) ws nw ni) by (rewrite Em; by eapply core_polled).
  destruct (IH (tail fits) s1 I1 N) as (s' & E & I' & L' & Hp' & Hn & Hy & Ho); [|done|].
  { intros d Hd. rewrite Em, lookup_insert_ne by (by intros ->). apply H. by right. }
  assert (Hc' : s_mem s' !! c = Some y) by (rewrite Hn, Em by done; apply lookup_insert_eq).
  exists s'. split; [done|]. split; [done|]. split; [lia|]. split; [by transitivity (s_pfd s1)|]. split_and!.
  - intros d [Nd ?]%not_elem_of_cons. rewrite Hn, Em by done. by rewrite lookup_insert_ne.
  - intros d z Hz. destruct (decide (d = c)) as [->|Nd]; [rewrite Hc in Hz; injection Hz as <-; by exists y|].
    apply Hy. by rewrite Em, lookup_insert_ne.
  - intros Ok. destruct (Ho Ok) as [Ok1 Hl]. destruct (Eo Ok1) as (Ok0 & Hr & Hw). split; [done|].
    intros d z [->|Hd]%elem_of_cons Hz; [|by eapply Hl]. simplify_eq. split; [done|].
    intros W. destruct Hp' as [r ->]. apply elem_of_app. auto.
Qed.

Lemma inv_set_ctl k p :
  inv p -> pctl (set_ctl k p) -> k_pfd k = k_pfd (p_ctl p) ->
  (k_rebuild (p_ctl p) = true -> k_rebuild k = true) -> inv (set_ctl k p).
Proof.
  intros [I C A] C' E R. split; [done|done|]. intros Ho Hs c x Hx. simpl. rewrite E.
  eapply attended_mono; [|by apply (A Ho Hs)]. tauto.
Qed.

Lemma inv_err p : inv p -> (p_stop p <> MILTER_CONT \/ MAX_FAILS_S <= k_pcnt (p_ctl p)) -> inv (ctl_err p).
Proof.
  intros [I C A] H. destruct C as [C1 C2 C3 C4 C5 C6 C7 C8]. split; [done|by split; simpl|]. intros Ho Hs. by apply A.
Qed.

(** The poll set is built anew. *)
Lemma inv_rebuild now fits last p :
  inv p -> k_pc (p_ctl p) = KTop -> 
  exists s, add_fds now fits (tm_ctx_head (p_tm p)) (mk_set (p_mem p) [rd_pipe] (k_dim (p_ctl p)) (p_ok p)) = Some s /\
    inv (set_ok (s_ok s) (set_mem (s_mem s)
      (set_ctl (mk_ctl KPoll (s_pfd s) (Some (length (s_pfd s))) (s_dim s) false (k_pcnt (p_ctl p)) last) p))) /\
    (forall c x, p_mem p !! c = Some x -> exists y, s_mem s !! c = Some y /\ polled x y) /\
    (s_ok s = true -> p_ok p = true).
Proof.
  intros [I C A] Pc. pose proof (pctl_dim _ C) as D. rewrite Pc in D.
  destruct (add_fds_spec now (tm_ctx_head (p_tm p)) _ _ _ _ fits
    (mk_set (p_mem p) [rd_pipe] (k_dim (p_ctl p)) (p_ok p)) I) as (s & E & I' & L' & Hp & Hn & Hy & Ho).
  { apply (core_nodup _ _ _ _ _ I). } { by apply core_head_mem. } { by apply D. }
  exists s. split; [done|]. split; [|split; [done|intros E'; by destruct (Ho E')]]. split; [done|..].
  - destruct C as [C1 C2 C3 C4 C5 C6 C7 C8]. simpl in *. split; simpl; try done; [congruence|]. intros _. specialize (D Logic.I). lia.
  - intros Ok St c y Hc. simpl in *. destruct (Ho Ok) as [Ok0 Hl].
    assert (Hm : c ∈ tm_ctx_head (p_tm p)) by (apply (core_mem _ _ _ _ _ I'); by eexists).
    destruct (Hl _ _ Hm Hc) as [H1 H2]. destruct (core_head_mem p I c Hm) as [x Hx].
    destruct (Hy _ _ Hx) as (y' & Hc' & _ & W & _). simplify_eq.
    destruct (A Ok0 St c x Hx) as [A1 A2 A3 A4].
    split; try done; intros Hw; (destruct W as [W|[_ W]]; [|by rewrite Hw in W]); rewrite Hw in W; auto.
Qed.

Lemma round_checked now p : inv p ->
  exists q, (if k_lastcheck (p_ctl p) + DT_CHECK_OLD_SESSIONS <? now
    then check_old now (tm_ctx_head (p_tm p)) p else Some p) = Some q /\ inv q /\ checked p q.
Proof.
  intros I. destruct (_ <? _); [|eauto using checked_refl].
  apply check_old_spec; [done|apply (core_nodup _ _ _ _ _ (inv_core _ I))|apply core_head_mem, I].
Qed.

Lemma inv_ctl_round now fits p p' : inv p -> ctl_round rd_pipe keep now fits p = Next p' -> inv p'.
Proof.
  intros I. unfold ctl_round. destruct (k_pc (p_ctl p)) eqn:Pc; try done.
  destruct (Z.eqb_spec (p_stop p) MILTER_CONT) as [St|St]; simpl; [|intros [= <-]; apply inv_err; auto].
  destruct (round_checked now p I) as (q & -> & Iq & Cq). clear I. destruct Cq as [E1 E2 E3 E4 E5 E6 _]. rewrite <- E1 in *.
  set (last := if _ <? _ then now else _). destruct (k_rebuild (p_ctl q)) eqn:R.
  - destruct (inv_rebuild now fits last q Iq Pc) as (s & -> & I' & _ & _). by intros [= <-].
  - intros [= <-]. apply inv_set_ctl; simpl; try done; [|congruence].
    destruct (inv_ctl _ Iq) as [C1 C2 C3 C4 C5 C6 C7 C8]. rewrite Pc in *.
    split; simpl; try done; destruct keep; auto; done.
Qed.

Lemma inv_ctl_start ok now p p' : inv p -> ctl_start ok now p = Next p' -> inv p'.
Proof.
  intros I. unfold ctl_start. destruct (k_pc (p_ctl p)) eqn:Pc; try done. intros [= <-].
  destruct (inv_ctl _ I) as [C1 C2 C3 C4 C5 C6 C7 C8]. destruct (C5 Pc) as [Ep Er]. destruct ok.
  - apply inv_set_ctl; simpl; try done. split; simpl; try done. unfold PFD_STEP. lia.
  - apply (inv_set_ok false (set_ctl (set_pc KGone (p_ctl p)) p)). by apply inv_set_ctl; simpl.
Qed.

Lemma inv_ctl_poll ans p p' : inv p -> ctl_poll ans p = Next p' -> inv p'.
Proof.
  intros I. unfold ctl_poll. destruct (k_pc (p_ctl p)) eqn:Pc; try done.
  destruct (k_nfd (p_ctl p)) as [n|] eqn:En; [|done].
  destruct (inv_ctl _ I) as [C1 C2 C3 C4 C5 C6 C7 C8]. pose proof (C1 _ En) as L. rewrite Pc in C6.
  assert (K : forall b c pc, (pc = KTop \/ exists revents, pc = KEvents 0 revents /\ length revents = n /\ b = true) ->
    (k_rebuild (p_ctl p) = true -> b = true) ->
    inv (set_ctl (mk_ctl pc (k_pfd (p_ctl p)) (Some n) (k_dim (p_ctl p)) b c (k_lastcheck (p_ctl p))) p)).
  { intros b c pc Hpc Hb. apply inv_set_ctl; simpl; try done. split; simpl; try done.
    all: destruct Hpc as [->|(rs & -> & ? & ->)]; try done; intros; simplify_eq; auto. }
  destruct ans as [| | |rs]; [intros [= <-]; apply K; auto..| |].
  - destruct (Z.leb_spec MAX_FAILS_S (k_pcnt (p_ctl p) + 1)); intros [= <-]; [|apply K; auto].
    apply inv_err; [apply K; auto|]. by right.
  - destruct (decide _); [|done]. intros [= <-]. apply K; [|done]. right. eauto.
Qed.

Lemma inv_ctl_event created p p' : inv p -> ctl_event rd_pipe created p = Next p' -> inv p'.
Proof.
  intros I. unfold ctl_event, locked. destruct (k_pc (p_ctl p)) as [| | |i rs| |] eqn:Pc; try done.
  destruct (inv_ctl _ I) as [C1 C2 C3 C4 C5 C6 C7 C8]. destruct (C4 _ _ Pc) as [L R]. rewrite Pc in *.
  assert (K : forall pc, (pc = KTop \/ pc = KEvents (S i) rs) -> inv (set_ctl (set_pc pc (p_ctl p)) p)).
  { intros pc Hpc. apply inv_set_ctl; simpl; try done. split; simpl; try done.
    all: destruct Hpc as [-> | ->]; try done; intros; simplify_eq; auto. }
  destruct (rs !! i) as [rev|]; [|intros [= <-]; apply K; auto].
  destruct (k_pfd (p_ctl p) !! i) as [fd|]; [|done]. specialize (K (KEvents (S i) rs) (or_intror eq_refl)).
  destruct (decide (rev = RevNone)); [by intros [= <-]|].
  destruct (fd =? rd_pipe).
  - intros [= <-]. destruct (decide (rev = RevRead)); [|done].
    destruct K as [I' C' A']. split; [done|by eapply pctl_ext; [..|exact C']|].
    intros Ho Hs c x Hx. simpl. rewrite R. eapply attended_mono; [|by apply (A' Ho Hs)]. auto.
  - rewrite decide_False by done. simpl.
    destruct (find_waiting_spec fd (p_mem p) (tm_ctx_head (p_tm p))) as [-> |(c & x & -> & Hc & Hx)];
      [by apply core_head_mem, I|by intros [= <-]|]. intros [= <-].
    set (q := set_ctl _ p) in *. destruct (dispatch_ctl created c x q) as (E1 & E2 & E3). split.
    + assert (U : unheld (p_workers q) c) by (eapply core_unheld; [apply K|exact Hc|by rewrite Hx]).
      apply dispatch_core; [|done]. intros y Hy. eapply core_put; [apply K|exact Hc|done|by right].
    + eapply pctl_ext; [exact E1|exact E2|exact E3|apply K].
    + apply dispatch_alive; [apply (core_idle _ _ _ _ _ (inv_core _ K))|apply K].
Qed.

Lemma inv_exec a p p' : inv p -> exec rd_pipe keep a p = Next p' -> inv p'.
Proof.
  intros I H. destruct a; simpl in H.
  - by eapply inv_start.
  - by eapply inv_mi_worker.
  - by eapply inv_engine_returns.
  - by eapply inv_ctl_start.
  - by eapply inv_ctl_round.
  - by eapply inv_ctl_poll.
  - by eapply inv_ctl_event.
  - simplify_eq. by apply inv_stop.
Qed.

Lemma start_crew_spec n : forall p, start_crew n [] p = (MI_SUCCESS, set_workers (p_workers p ++ replicate n (WNew None)) p).
Proof.
  induction n as [|n IH]; intros p; simpl.
  - rewrite app_nil_r. by destruct p.
  - rewrite IH. simpl. by rewrite <- app_assoc.
Qed.

Lemma pool_start_eq min : 
  @pool_start P min = mk_pool (mk_tm TM_SIGNATURE [] 0 0 0) empty
    (replicate (Z.to_nat (if min =? 0 then MIN_WORKERS else min)) (WNew None))
    (mk_ctl KNew [] None 0 true 0 0) MILTER_CONT 0 (if min =? 0 then MIN_WORKERS else min) true.
Proof.
  unfold pool_start, mi_pool_controller_init.
  cbn -[start_crew Z.to_nat]. destruct (Z.eqb_spec min 0); rewrite start_crew_spec; done.
Qed.

Lemma inv_init min : inv (@pool_start P min).
Proof.
  rewrite pool_start_eq. set (m := if _ : bool then _ else _). split.
  - split; simpl; try done.
    + apply NoDup_nil_2.
    + intros c. rewrite lookup_empty, elem_of_nil. by split; [|intros [? ?]].
    + intros t w c [-> ?]%lookup_replicate. done.
    + intros t t' w w' c [-> ?]%lookup_replicate. done.
    + rewrite count_replicate. change (weight counted (WNew None)) with 0. lia.
    + rewrite count_replicate. change (weight idle (WNew None)) with 0. lia.
  - split; simpl; done.
  - intros _ _. simpl. apply map_Forall_empty.
Qed.

Lemma reachable_inv min p : reachable rd_pipe keep min p -> inv p.
Proof. induction 1; [apply inv_init|by eapply inv_exec]. Qed.

End inv.
