(* ===== verification/WorkerTheorems.v ===== *)
(** * Theorems on the worker pool

    No two threads use a session at once and no step touches a context that is
    gone; no session is forgotten; the counters are exact; a session that is
    ready is taken up by any worker that keeps taking steps.  Two theorems show
    where the code falls short: the poll after a timeout, and a thread that
    cannot be created. *)

From stdpp Require Import base option numbers gmap list.
From Stdlib Require Import ZArith Lia.
From S2P Require Import Prelude Mfdef Worker WorkerProps.
Local Open Scope Z_scope.

Section faults.
Context {P : Type} (rd_pipe : Z) (keep : bool).
Implicit Types (x y : smfi_str P) (p : @pool P).

Lemma get_task_in_memory p : inv keep p -> get_task (p_mem p) (tm_ctx_head (p_tm p)) <> None.
Proof.
  intros I. destruct (get_task_spec (p_mem p) (tm_ctx_head (p_tm p))) as [(? & ? & -> & _)|[-> _]]; try done.
  apply core_head_mem, I.
Qed.

Lemma fault_mi_worker t ok p f :
  inv keep p -> mi_worker t ok p = Fault f -> f = DestroyedLock /\ k_pc (p_ctl p) = KEnd.
Proof.
  intros I H. unfold mi_worker, locked in H. pose proof (get_task_in_memory _ I) as G.
  destruct (p_workers p !! t) as [w|] eqn:Ht; [|done].
  assert (W : forall c k, holds w = Some c -> with_ctx c p k = Fault f -> exists x, k x = Fault f).
  { intros c k Hc. destruct (held_ctx keep _ _ c _ I Ht Hc) as (x & Hx & _). unfold with_ctx. rewrite Hx. eauto. }
  destruct w; try done; repeat (case_decide || case_match); simplify_eq; try done; try tauto;
    try (apply W in H as [? H]; [|done]); repeat case_match; try done; simpl in *; congruence.
Qed.

Lemma fault_engine t res y p f : inv keep p -> engine_returns t res y p <> Fault f.
Proof.
  intros I H. unfold engine_returns, with_ctx in H. destruct (p_workers p !! t) as [[]|] eqn:Ht; try done.
  destruct (held_ctx keep _ _ c _ I Ht) as (x & Hx & _); [done|]. rewrite Hx in H. by case_decide.
Qed.

Lemma fault_start created c x p f : inv keep p -> exec rd_pipe keep (AStart created c x) p <> Fault f.
Proof.
  intros I. simpl. case_decide; [|done]. unfold mi_start_session, locked.
  destruct (Z.eqb_spec (tm_signature (p_tm p)) TM_SIGNATURE) as [E|]; simpl; [|done].
  case_decide as K; [|done]. destruct (pctl_end _ _ (inv_ctl _ _ I) K) as [E' _]. by rewrite E in E'.
Qed.

Lemma fault_round now fits p f : inv keep p -> ctl_round rd_pipe keep now fits p <> Fault f.
Proof.
  intros I. unfold ctl_round. destruct (k_pc (p_ctl p)) eqn:Pc; try done. destruct (negb _); [done|].
  destruct (round_checked keep now p I) as (q & -> & Iq & Cq).
  destruct (k_rebuild _); [|done]. rewrite <- (ch_ctl _ _ Cq) in *.
  by destruct (inv_rebuild rd_pipe keep now fits 0 q Iq Pc) as (s & -> & _).
Qed.

Lemma fault_poll ans p f : inv keep p -> ctl_poll ans p = Fault f -> f = Indeterminate /\ keep = false.
Proof.
  intros I. unfold ctl_poll. destruct (k_pc (p_ctl p)) eqn:Pc; try done.
  destruct (k_nfd (p_ctl p)) eqn:En; [by destruct ans; repeat (case_decide || case_match)|]. intros [= <-].
  split; [done|]. destruct keep; [|done]. pose proof (inv_ctl _ _ I) as C.
  destruct (pctl_set _ _ C eq_refl (pctl_poll _ _ C Pc) En).
Qed.

Lemma fault_event created p f : inv keep p -> ctl_event rd_pipe created p <> Fault f.
Proof.
  intros I. unfold ctl_event, locked. destruct (k_pc (p_ctl p)) as [| | |i rs| |] eqn:Pc; try done.
  destruct (pctl_events _ _ (inv_ctl _ _ I) _ _ Pc) as [L _].
  destruct (rs !! i) as [rev|] eqn:Er; [|done].
  destruct (lookup_lt_is_Some_2 (k_pfd (p_ctl p)) i) as [fd ->]; [rewrite <- L; by eapply lookup_lt_Some|].
  case_decide; [done|]. destruct (fd =? rd_pipe); [done|]. rewrite decide_False by done. simpl.
  destruct (find_waiting_spec fd (p_mem p) (tm_ctx_head (p_tm p))) as [-> |(? & ? & -> & _)]; try done.
  apply core_head_mem, I.
Qed.

Lemma fault_exec a p f : inv keep p -> exec rd_pipe keep a p = Fault f ->
  (f = Indeterminate /\ keep = false /\ exists ans, a = ACtlPoll ans) \/
  (f = DestroyedLock /\ k_pc (p_ctl p) = KEnd).
Proof.
  intros I H. destruct a.
  - by eapply fault_start in H.
  - right. by eapply fault_mi_worker.
  - by eapply fault_engine in H.
  - simpl in H. unfold ctl_start in H. by destruct (k_pc _).
  - by eapply fault_round in H.
  - left. eapply fault_poll in H as [-> ->]; eauto.
  - by eapply fault_event in H.
  - done.
Qed.

End faults.

(** ** Progress *)

Section progress.
Context {P : Type} (rd_pipe : Z) (keep : bool).
Implicit Types (x y : smfi_str P) (p q : @pool P).

(** The steps of its own a worker takes until it has looked for a task. *)
Definition budget (w : wpc) : nat :=
  match w with
  | WNew _ => 6
  | WStart _ => 5
  | WTop (Some _) => 4
  | WEngine _ => 3
  | WDone _ _ => 2
  | WTop None => 2
  | WSearch | WIdle => 1
  | WQuit | WStopped | WDead => 0
  end.

(** The actions of worker [t]. *)
Definition acts (t : nat) (a : @action P) : bool :=
  match a with
  | AWorker u _ | AEngine u _ _ => bool_decide (u = t)
  | _ => false
  end.

Definition ready p (c : nat) : Prop := exists x, p_mem p !! c = Some x /\ ctx_wstate x = WKST_READY_TO_RUN.

(** In the step from [p] to [q] a worker took up a session that was ready. *)
Definition taken p q : Prop := exists c t w, ready p c /\ p_workers q !! t = Some w /\ holds w = Some c.

(** What a step leaves of the waiting session [c] and of worker [t]. *)
Definition onward (a : @action P) (t : nat) (w : wpc) (c : nat) q : Prop :=
  ready q c /\ exists w', p_workers q !! t = Some w' /\ active w' = true /\
    (budget w' + (if acts t a then 1 else 0) <= budget w)%nat.

(** Steps that leave the workers as they are, but for new ones. *)
Lemma onward_same a t w c p q r :
  p_workers q = p_workers p ++ r -> acts t a = false ->
  ready q c -> p_workers p !! t = Some w -> active w = true -> onward a t w c q.
Proof.
  intros E Ha Hr Ht Hw. split; [done|]. exists w. rewrite E, Ha. split; [by apply lookup_app_l_Some|]. split; [done|lia].
Qed.

(** Steps of worker [u]. *)
Lemma onward_insert a t u w v v' c p q :
  p_workers q = <[u := v']> (p_workers p) -> acts t a = bool_decide (u = t) -> p_workers p !! u = Some v ->
  active v' = true -> (S (budget v') <= budget v)%nat ->
  ready q c -> p_workers p !! t = Some w -> active w = true -> onward a t w c q.
Proof.
  intros E Ha Hu Hv Hb Hr Ht Hw. split; [done|]. rewrite E, Ha. destruct (decide (u = t)) as [->|N].
  - rewrite bool_decide_true by done. simplify_eq. exists v'.
    rewrite list_lookup_insert_eq by (by eapply lookup_lt_Some). split; [done|]. split; [done|lia].
  - rewrite bool_decide_false by done. exists w. rewrite list_lookup_insert_ne by done. split; [done|]. split; [done|lia].
Qed.

Lemma ready_put p c d y : ready p c -> c <> d -> ready (put_ctx d y p) c.
Proof. intros (x & Hx & E) N. exists x. simpl. by rewrite lookup_insert_ne. Qed.

Lemma ready_other p c d x : ready p c -> p_mem p !! d = Some x -> ctx_wstate x <> WKST_READY_TO_RUN -> c <> d.
Proof. intros (y & Hy & E) Hx N ->. congruence. Qed.

Lemma dispatch_workers created d x p : exists r, p_workers (dispatch created d x p) = p_workers p ++ r.
Proof.
  unfold dispatch, launch. destruct (0 <? _); [exists []; by rewrite app_nil_r|].
  destruct created; [by eexists|]. exists []. simpl. by rewrite app_nil_r.
Qed.

Lemma dispatch_ready created c d x p : ready p c -> c <> d -> ready (dispatch created d x p) c.
Proof.
  intros R N. apply (ready_put p c d) with (y := set_ctx_wstate
    (if 0 <? tm_nb_idle (p_tm p) then WKST_READY_TO_RUN else WKST_RUNNING) x) in R; [|done].
  unfold dispatch, launch. by destruct (0 <? _), created.
Qed.

Lemma taken_take t d x p q :
  p_mem p !! d = Some x -> ctx_wstate x = WKST_READY_TO_RUN -> is_Some (p_workers p !! t) ->
  p_workers q = <[t := WTop (Some d)]> (p_workers p) -> taken p q.
Proof.
  intros Hd Hx [v Hv] E. exists d, t, (WTop (Some d)). rewrite E. split; [by exists x|].
  split; [|done]. apply list_lookup_insert_eq. by eapply lookup_lt_Some.
Qed.

Lemma progress_worker u ok p q t w c :
  inv keep p -> mi_worker u ok p = Next q -> p_ok q = true -> p_stop q = MILTER_CONT ->
  ready p c -> p_workers p !! t = Some w -> active w = true ->
  taken p q \/ onward (AWorker u ok) t w c q.
Proof.
  intros I H Ho Hs R Ht Hw. unfold mi_worker, locked in H. destruct (p_workers p !! u) as [v|] eqn:Hu; [|done].
  assert (K : forall v', active v' = true -> (S (budget v') <= budget v)%nat ->
     p_workers q = <[u := v']> (p_workers p) -> 
     (p_mem q = p_mem p \/ exists d, holds v = Some d /\ ((exists y, p_mem q = <[d := y]> (p_mem p)) \/ p_mem q = delete d (p_mem p))) ->
     onward (AWorker u ok) t w c q).
  { intros v' Hv Hb E Hm. eapply (onward_insert _ t u w v v'); eauto.
    destruct R as (x & Hx & Ex). exists x. split; [|done].
    destruct Hm as [-> |(d & Hd & Hm)]; [done|]. destruct (held_ctx keep _ _ d _ I Hu Hd) as (z & Hz & Ez).
    assert (d <> c) by (intros ->; simplify_eq; rewrite Ez in Ex; done).
    destruct Hm as [[y ->] | ->]; [by rewrite lookup_insert_ne|by rewrite lookup_delete_ne]. }
  assert (N : forall d x, get_task (p_mem p) (tm_ctx_head (p_tm p)) = Some (Some (d, x)) ->
    p_workers q = <[u := WTop (Some d)]> (p_workers p) -> taken p q).
  { intros d x G E. destruct (get_task_spec (p_mem p) (tm_ctx_head (p_tm p))) as [(d' & x' & G' & _ & Hd & Hx)|[G' _]];
      [by apply core_head_mem, I| |congruence].
    rewrite G' in G. simplify_eq. eapply taken_take; [exact Hd|exact Hx| |exact E]. by eexists. }
  assert (G : exists d x, get_task (p_mem p) (tm_ctx_head (p_tm p)) = Some (Some (d, x))).
  { destruct (get_task_spec (p_mem p) (tm_ctx_head (p_tm p))) as [(d & x & G & _)|[_ G]];
      [by apply core_head_mem, I|eauto|]. destruct R as (x & Hx & Ex). by destruct (no_ready p (inv_core _ _ I) G c x). }
  destruct v; try done.
  - destruct ok; [|by destruct arg; unfold with_ctx in H; repeat case_match; simplify_eq].
    right. destruct arg as [d|]; [|simplify_eq; eapply (K (WStart None)); simpl; auto].
    unfold with_ctx in H. destruct (p_mem p !! d) as [z|] eqn:Hd; [|done]. simplify_eq.
    eapply (K (WStart (Some d))); simpl; eauto 6.
  - case_decide; [done|]. simplify_eq. right. eapply (K (WTop arg)); simpl; eauto 6. destruct arg; lia.
  - right. destruct (Z.eqb_spec (p_stop p) MILTER_CONT); simpl in H; [|simplify_eq; done].
    destruct arg as [d|]; simplify_eq; [eapply (K (WEngine d))|eapply (K WSearch)]; simpl; eauto 6.
  - case_decide; [done|]. unfold with_ctx in H. destruct (p_mem p !! c0) as [z|] eqn:Hd; [|done]. right.
    destruct (negb _); simplify_eq; [|destruct ok; [|done]]; eapply (K WSearch); simpl; eauto 6.
    right. exists c0. split; [done|]. right. apply delete_insert_eq.
  - case_decide; [done|]. destruct G as (d & x & G). rewrite G in H. simplify_eq. left. by eapply N.
  - case_decide; [done|]. simpl in H. destruct G as (d & x & G). rewrite G in H. simplify_eq. left. by eapply N.
Qed.

Lemma round_effect now fits p q :
  inv keep p -> ctl_round rd_pipe keep now fits p = Next q ->
  p_workers q = p_workers p /\ p_stop q = p_stop p /\ (p_ok q = true -> p_ok p = true) /\
  forall c x, p_mem p !! c = Some x -> ctx_wstate x <> WKST_READY_TO_WAIT -> ctx_wstate x <> WKST_WAITING ->
    p_mem q !! c = Some x.
Proof.
  intros I. unfold ctl_round. destruct (k_pc (p_ctl p)) eqn:Pc; try done.
  destruct (negb _); [intros [= <-]; split_and!; eauto|]. destruct (round_checked keep now p I) as (r & -> & Ir & Cr).
  pose proof (ch_workers _ _ Cr) as Ew. pose proof (ch_stop _ _ Cr) as Es. pose proof (ch_ok _ _ Cr) as Eo.
  pose proof (ch_mem _ _ Cr) as Em. rewrite <- (ch_ctl _ _ Cr) in *.
  destruct (k_rebuild _); [|intros [= <-]; simpl; split_and!; try done; [by rewrite Eo|eauto]].
  set (last := if _ <? _ then now else _).
  destruct (inv_rebuild rd_pipe keep now fits last r Ir Pc) as (s & -> & _ & Hs & Ho). intros [= <-].
  split_and!; try done; [by rewrite <- Eo|]. intros c x Hx N1 N2.
  destruct (Hs _ _ (Em _ _ Hx N2)) as (y & Hy & _ & _ & Hw). simpl. by rewrite Hy, Hw.
Qed.

Lemma event_effect created p q :
  inv keep p -> ctl_event rd_pipe created p = Next q ->
  p_stop q = p_stop p /\ (p_ok q = true -> p_ok p = true) /\ (exists r, p_workers q = p_workers p ++ r) /\ forall c, ready p c -> ready q c.
Proof.
  intros I. unfold ctl_event, locked. destruct (k_pc (p_ctl p)) as [| | |i rs| |] eqn:Pc; try done.
  assert (K : forall q, p_workers q = p_workers p -> exists r, p_workers q = p_workers p ++ r).
  { intros r ->. exists []. by rewrite app_nil_r. }
  destruct (rs !! i) as [rev|]; [|intros [= <-]; split_and!; auto].
  destruct (k_pfd (p_ctl p) !! i) as [fd|]; [|done]. case_decide; [intros [= <-]; split_and!; auto|].
  destruct (fd =? rd_pipe); [intros [= <-]; case_decide; split_and!; auto|]. rewrite decide_False by done. simpl.
  destruct (find_waiting_spec fd (p_mem p) (tm_ctx_head (p_tm p))) as [-> |(d & x & -> & Hd & Hx)];
    [apply core_head_mem, I|intros [= <-]; split_and!; auto|].
  intros [= <-]. split; [by unfold dispatch, launch; destruct (0 <? _), created|].
  split; [by unfold dispatch, launch; destruct (0 <? _), created|]. split; [apply (dispatch_workers created d x (set_ctl (set_pc (KEvents (S i) rs) (p_ctl p)) p))|].
  intros c R. apply dispatch_ready; [done|]. eapply ready_other; [done|done|by rewrite Hx].
Qed.

Lemma poll_effect ans p q : ctl_poll ans p = Next q ->
  p_workers q = p_workers p /\ p_mem q = p_mem p /\ p_stop q = p_stop p /\ p_ok q = p_ok p.
Proof.
  unfold ctl_poll. destruct (k_pc _); try done. destruct (k_nfd _); [|done].
  destruct ans; repeat (case_match || case_decide); intros [= <-]; done.
Qed.

Lemma progress_exec a p q t w c :
  inv keep p -> exec rd_pipe keep a p = Next q -> p_ok q = true -> p_stop q = MILTER_CONT ->
  ready p c -> p_workers p !! t = Some w -> active w = true ->
  taken p q \/ onward a t w c q.
Proof.
  intros I H Ho Hs R Ht Hw. destruct a; simpl in H.
  - right. case_decide as Hn; [|done]. unfold mi_start_session, locked in H.
    destruct (negb _); simpl in H; [simplify_eq; by eapply (onward_same _ _ _ _ q q []); [rewrite app_nil_r|..]|].
    case_decide; [done|]. simplify_eq. 
    destruct (dispatch_workers created c0 (set_ctx_sid (p_id p) x) (set_id (p_id p + 1) (mi_list_add_ctx c0 p))) as [r E].
    eapply onward_same; [exact E|done| |done|done]. apply dispatch_ready; [done|].
    intros ->. destruct R as (z & Hz & _). congruence.
  - by eapply progress_worker.
  - right. unfold engine_returns, with_ctx in H. destruct (p_workers p !! t0) as [[]|] eqn:Hu; try done.
    destruct (p_mem p !! c0) as [z|] eqn:Hz; [|done]. case_decide; [|done]. simplify_eq.
    eapply (onward_insert _ t t0 w _ (WDone c0 res)); simpl; eauto.
    destruct (held_ctx keep _ _ c0 _ I Hu eq_refl) as (z' & Hz' & Ez). simplify_eq.
    eapply ready_put; [done|]. eapply ready_other; [done|done|by rewrite Ez].
  - right. unfold ctl_start in H. destruct (k_pc _); try done. simplify_eq.
    eapply (onward_same _ _ _ _ p _ []); [by destruct ok; simpl; rewrite app_nil_r|..]; try done. by destruct ok.
  - right. destruct (round_effect _ _ _ _ I H) as (E & _ & _ & Hr).
    eapply (onward_same _ _ _ _ p _ []); [by rewrite app_nil_r|auto..]. destruct R as (x & Hx & Ex).
    exists x. split; [|done]. apply Hr; [done|by rewrite Ex..].
  - right. destruct (poll_effect _ _ _ H) as (E & Em & _).
    eapply (onward_same _ _ _ _ p _ []); [by rewrite app_nil_r|auto..]. unfold ready. by rewrite Em.
  - right. destruct (event_effect _ _ _ I H) as (_ & _ & (r & E) & Hr). eapply onward_same; [exact E|auto..].
  - right. simplify_eq. unfold raise_stop. 
    eapply (onward_same _ _ _ _ p _ []); [by destruct (_ <? _); rewrite app_nil_r|auto..]. by destruct (_ <? _).
Qed.

Lemma inv_run l : forall p q, inv keep p -> run rd_pipe keep l p = Next q -> inv keep q.
Proof.
  induction l as [|a l IH]; intros p q I H; [by simplify_eq/=|].
  simpl in H. destruct (exec _ _ a p) as [r| |] eqn:E; try done. eapply IH; [|exact H]. by eapply inv_exec.
Qed.

(** Only a request to stop changes [MilterStop]. *)
Lemma exec_stop a p q : inv keep p -> exec rd_pipe keep a p = Next q ->
  p_stop q = p_stop p \/ exists n, a = AStop n /\ q = raise_stop n p.
Proof.
  intros I H. destruct a; simpl in H; [left..|right; simplify_eq; eauto].
  - case_decide; [|done]. unfold mi_start_session, locked in H. destruct (negb _); simpl in H; [by simplify_eq|].
    case_decide; [done|]. simplify_eq. unfold dispatch, launch. by destruct (0 <? _), created.
  - unfold mi_worker, locked, with_ctx in H. by repeat (case_match || case_decide); simplify_eq.
  - unfold engine_returns, with_ctx in H. by repeat (case_match || case_decide); simplify_eq.
  - unfold ctl_start in H. destruct (k_pc _); try done. simplify_eq. by destruct ok.
  - by destruct (round_effect _ _ _ _ I H) as (_ & -> & _).
  - by destruct (poll_effect _ _ _ H) as (_ & _ & -> & _).
  - by destruct (event_effect _ _ _ I H) as (-> & _).
Qed.

(** What has failed stays failed. *)
Lemma exec_ok a p q : inv keep p -> exec rd_pipe keep a p = Next q -> p_ok q = true -> p_ok p = true.
Proof.
  intros I H. destruct a; simpl in H.
  - case_decide; [|done]. unfold mi_start_session, locked in H. destruct (negb _); simpl in H; [by simplify_eq|].
    case_decide; [done|]. simplify_eq. unfold dispatch, launch. by destruct (0 <? _), created.
  - unfold mi_worker, locked, with_ctx in H.
    repeat (case_match || case_decide); simplify_eq; simpl; try done; by intros [_ ?]%andb_prop.
  - unfold engine_returns, with_ctx in H. by repeat (case_match || case_decide); simplify_eq.
  - unfold ctl_start in H. destruct (k_pc _); try done. simplify_eq. by destruct ok.
  - by destruct (round_effect _ _ _ _ I H) as (_ & _ & ? & _).
  - by destruct (poll_effect _ _ _ H) as (_ & _ & _ & ->).
  - by destruct (event_effect _ _ _ I H) as (_ & ? & _).
  - simplify_eq. unfold raise_stop. by destruct (_ <? _).
Qed.

(** ... and a stop is final. *)
Lemma exec_monotone a p q :
  inv keep p -> exec rd_pipe keep a p = Next q ->
  (p_ok q = true -> p_ok p = true) /\ (p_stop q = MILTER_CONT -> p_stop p = MILTER_CONT).
Proof.
  intros I H. split; [by eapply exec_ok|]. destruct (exec_stop _ _ _ I H) as [-> |(n & _ & ->)]; [done|].
  unfold raise_stop. destruct (Z.ltb_spec (p_stop p) n); [|done]. simpl.
  pose proof (pctl_stop _ _ (inv_ctl _ _ I)). lia.
Qed.

Lemma run_cons a l p q : run rd_pipe keep (a :: l) p = Next q ->
  exists r, exec rd_pipe keep a p = Next r /\ run rd_pipe keep l r = Next q.
Proof. simpl. destruct (exec _ _ a p) as [r| |]; [eauto|done..]. Qed.

Lemma run_monotone l p q : inv keep p -> run rd_pipe keep l p = Next q ->
  (p_ok q = true -> p_ok p = true) /\ (p_stop q = MILTER_CONT -> p_stop p = MILTER_CONT).
Proof.
  revert p. induction l as [|a l IH]; intros p I H; [by simplify_eq/=|].
  apply run_cons in H as (r & Hr & H). pose proof (inv_exec _ _ _ _ _ I Hr) as Ir.
  destruct (IH _ Ir H), (exec_monotone _ _ _ I Hr). auto.
Qed.

(** A run in which a worker takes as many steps as it has left. *)
Lemma run_takes t l : forall p q w c,
  inv keep p -> run rd_pipe keep l p = Next q -> p_ok q = true -> p_stop q = MILTER_CONT ->
  ready p c -> p_workers p !! t = Some w -> active w = true ->
  (budget w <= length (filter (fun a => acts t a = true) l))%nat ->
  exists l1 a l2 r r', l = l1 ++ a :: l2 /\ run rd_pipe keep l1 p = Next r /\ exec rd_pipe keep a r = Next r' /\ taken r r'.
Proof.
  induction l as [|a l IH]; intros p q w c I H Ho Hs R Ht Hw B.
  { simpl in B. destruct w as [| |[]| | | | | | |]; simpl in *; try lia; done. }
  apply run_cons in H as (r & Hr & H). pose proof (inv_exec _ _ _ _ _ I Hr) as Ir.
  destruct (run_monotone _ _ _ Ir H) as [Mo Ms].
  destruct (progress_exec a p r t w c I Hr (Mo Ho) (Ms Hs) R Ht Hw) as [T|(R' & w' & Ht' & Hw' & Bw)].
  { exists [], a, l, p, r. done. }
  destruct (IH r q w' c Ir H Ho Hs R' Ht' Hw') as (l1 & b & l2 & s & s' & -> & H1 & H2 & H3).
  { rewrite filter_cons in B. case_decide as D; simpl in B; destruct (acts t a); try done; lia. }
  exists (a :: l1), b, l2, s, s'. split; [done|]. simpl. by rewrite Hr.
Qed.

(** A worker can always move while the lock is there. *)
Lemma worker_enabled p t w :
  inv keep p -> p_workers p !! t = Some w -> active w = true -> k_pc (p_ctl p) <> KEnd ->
  exists a q, acts t a = true /\ exec rd_pipe keep a p = Next q.
Proof.
  intros I Ht Hw K. destruct w as [| | |c| | | | | |] eqn:Ew; try done.
  4: { destruct (held_ctx keep _ _ c _ I Ht eq_refl) as (x & Hx & _).
       exists (AEngine t MI_CONTINUE x). eexists. split; [by apply bool_decide_true|]. simpl. unfold engine_returns, with_ctx.
       rewrite Ht, Hx. by rewrite decide_True by done. }
  all: exists (AWorker t true); simpl;
    destruct (mi_worker t true p) as [q| |f] eqn:E; [exists q; split; [by apply bool_decide_true|done]|exfalso..].
  all: try (destruct (fault_mi_worker keep _ _ _ _ I E); done).
  all: unfold mi_worker, locked, with_ctx in E; rewrite Ht in E; repeat (case_match || case_decide); done.
Qed.

End progress.

(** ** A session nobody looks after *)

Section stranded.
Context {P : Type} (rd_pipe : Z) (keep : bool).
Implicit Types (x y : smfi_str P) (p q : @pool P).

(** What a step does to the workers, none of which comes to hold [c]. *)
Inductive crew_step (a : @action P) (c : nat) (ws : list wpc) : list wpc -> Prop :=
  | CrewSame : crew_step a c ws ws
  | CrewMove t v v' : acts t a = true -> ws !! t = Some v -> holds v' <> Some c -> crew_step a c ws (<[t := v']> ws)
  | CrewGrow w : holds w <> Some c -> crew_step a c ws (ws ++ [w]).

(** The context [c] is not written, and no worker comes to hold it. *)
Definition kept (a : @action P) (c : nat) p q : Prop :=
  p_mem q !! c = p_mem p !! c /\ crew_step a c (p_workers p) (p_workers q).

Lemma kept_same a c p q : p_mem q !! c = p_mem p !! c -> p_workers q = p_workers p -> kept a c p q.
Proof. intros Em Ew. split; [done|]. rewrite Ew. constructor. Qed.

Lemma kept_dispatch a created d x p c : c <> d -> kept a c p (dispatch created d x p).
Proof.
  intros N. unfold dispatch, launch. destruct (0 <? _), created; split; simpl;
    rewrite ?lookup_insert_ne by done; try done; try constructor. simpl. congruence.
Qed.

(** A worker that does not hold [c] leaves it alone while it is running. *)
Lemma kept_worker t ok p q c z :
  inv keep p -> mi_worker t ok p = Next q -> p_mem p !! c = Some z -> ctx_wstate z = WKST_RUNNING ->
  (forall w, p_workers p !! t = Some w -> holds w <> Some c) -> kept (AWorker t ok) c p q.
Proof.
  intros I H Hz Ez U. unfold mi_worker, locked in H.
  destruct (p_workers p !! t) as [v|] eqn:Ht; [|done].
  assert (K : forall v', p_workers q = <[t := v']> (p_workers p) -> holds v' <> Some c ->
    (p_mem q = p_mem p \/ exists d, d <> c /\ ((exists y, p_mem q = <[d := y]> (p_mem p)) \/ p_mem q = delete d (p_mem p))) ->
    kept (AWorker t ok) c p q).
  { intros v' E Hv Hm. split; [|rewrite E; eapply CrewMove; [by apply bool_decide_eq_true|exact Ht|done]].
    destruct Hm as [-> |(d & Nd & [[y ->]| ->])]; [done|by rewrite lookup_insert_ne|by rewrite lookup_delete_ne]. }
  assert (G : forall d x, get_task (p_mem p) (tm_ctx_head (p_tm p)) = Some (Some (d, x)) -> d <> c).
  { intros d x G. destruct (get_task_spec (p_mem p) (tm_ctx_head (p_tm p))) as [(d' & x' & G' & _ & Hd & Hx)|[G' _]];
      [by apply core_head_mem, I| |congruence]. rewrite G' in G. intros ->. simplify_eq. by rewrite Hx in Ez. }
  pose proof (U _ eq_refl) as Nc.
  destruct v as [arg|arg|[d|]|d|d res| | | | |]; simpl in *; try done.
  - destruct arg as [d|]; simplify_eq; [|by destruct ok; eapply K; simpl; eauto].
    unfold with_ctx in H. destruct (p_mem p !! d); [|done]. assert (d <> c) by congruence.
    destruct ok; simplify_eq; eapply K; simpl; eauto 6.
  - case_decide; [done|]. simplify_eq. eapply K; simpl; eauto.
  - destruct (negb _); simplify_eq; eapply K; simpl; eauto.
  - destruct (negb _); simplify_eq; eapply K; simpl; eauto.
  - case_decide; [done|]. unfold with_ctx in H. destruct (p_mem p !! d); [|done]. assert (d <> c) by congruence.
    destruct (negb _); [|destruct ok]; simplify_eq; eapply K; simpl; eauto 6.
    right. exists d. split; [done|]. right. apply delete_insert_eq.
  - case_decide; [done|]. destruct (get_task _ _) as [[[d x]|]|] eqn:E; [|destruct (_ && _)|done]; simplify_eq;
      eapply K; eauto; specialize (G _ _ eq_refl); simpl; [congruence|right; exists d; eauto].
  - case_decide; [done|]. destruct (get_task _ _) as [[[d x]|]|] eqn:E; [| |done]; simplify_eq;
      eapply K; eauto; specialize (G _ _ eq_refl); simpl; [congruence|right; exists d; eauto].
Qed.

(** A context that is running is left alone by every step but those of the
    worker that holds it. *)
Lemma running_kept a p q c z :
  inv keep p -> exec rd_pipe keep a p = Next q -> p_mem p !! c = Some z -> ctx_wstate z = WKST_RUNNING ->
  (forall t w, acts t a = true -> p_workers p !! t = Some w -> holds w <> Some c) -> kept a c p q.
Proof.
  intros I H Hz Ez U. destruct a; simpl in H, U.
  - case_decide as Hn; [|done]. unfold mi_start_session, locked in H.
    destruct (negb _); simpl in H; [by simplify_eq; apply kept_same|]. case_decide; [done|]. simplify_eq.
    apply (kept_dispatch _ _ _ _ (set_id (p_id p + 1) (mi_list_add_ctx c0 p))). congruence.
  - eapply kept_worker; [done..|]. intros w. by apply U, bool_decide_eq_true.
  - unfold engine_returns, with_ctx in H. destruct (p_workers p !! t) as [[]|] eqn:Hu; try done.
    destruct (p_mem p !! c0) as [y'|] eqn:Hy; [|done]. case_decide; [|done]. simplify_eq.
    pose proof (U t _ (proj2 (bool_decide_eq_true _) eq_refl) Hu) as Nc. simpl in Nc.
    split; simpl; [by rewrite lookup_insert_ne by congruence|].
    eapply CrewMove; [by apply bool_decide_eq_true|exact Hu|done].
  - unfold ctl_start in H. destruct (k_pc _); try done. simplify_eq. apply kept_same; by destruct ok.
  - destruct (round_effect rd_pipe keep _ _ _ _ I H) as (Ew & _ & _ & Hr). apply kept_same; [|done].
    by rewrite (Hr _ _ Hz), Hz; rewrite ?Ez.
  - destruct (poll_effect _ _ _ H) as (E & Em & _). apply kept_same; [by rewrite Em|by rewrite E].
  - unfold ctl_event, locked in H. destruct (k_pc (p_ctl p)) as [| | |i rs| |] eqn:Pc; try done.
    destruct (rs !! i) as [rev|]; [|by simplify_eq; apply kept_same]. destruct (k_pfd (p_ctl p) !! i) as [fd|]; [|done].
    case_decide; [by simplify_eq; apply kept_same|].
    destruct (fd =? rd_pipe); [simplify_eq; by case_decide; apply kept_same|].
    rewrite decide_False in H by done. simpl in H.
    destruct (find_waiting_spec fd (p_mem p) (tm_ctx_head (p_tm p))) as [E|(d & x & E & Hd & Hx)];
      [by apply core_head_mem, I|rewrite E in H; by simplify_eq; apply kept_same|].
    rewrite E in H. simplify_eq. apply (kept_dispatch _ _ _ _ (set_ctl (set_pc (KEvents (S i) rs) (p_ctl p)) p)).
    intros ->. simplify_eq. by rewrite Hx in Ez.
  - simplify_eq. apply kept_same; unfold raise_stop; by destruct (_ <? _).
Qed.

(** The session is marked as running and no worker has it. *)
Definition stranded p (c : nat) : Prop :=
  unheld (p_workers p) c /\ exists x, p_mem p !! c = Some x /\ ctx_wstate x = WKST_RUNNING.

Lemma crew_unheld a c ws ws' : crew_step a c ws ws' -> unheld ws c -> unheld ws' c.
Proof.
  intros [|t v v' _ Ht N|w N] U; [done| |].
  - intros u x Hu. destruct (lookup_insert_worker _ _ _ _ _ _ Ht Hu) as [[-> ->]|[_ ?]]; eauto.
  - intros u x [[-> ->]|?]%lookup_snoc_worker; eauto.
Qed.

Lemma stranded_exec a p q c :
  inv keep p -> exec rd_pipe keep a p = Next q -> stranded p c -> stranded q c.
Proof.
  intros I H (U & z & Hz & Ez). destruct (running_kept _ _ _ _ _ I H Hz Ez) as [Em C]; [intros t w _; apply U|].
  split; [by eapply crew_unheld|]. exists z. by rewrite Em.
Qed.

(** The context a worker holds stays the same, and so does the worker, until its
    own next step. *)
Lemma holder_undisturbed a p q t w c :
  inv keep p -> exec rd_pipe keep a p = Next q -> p_workers p !! t = Some w -> holds w = Some c -> acts t a = false ->
  p_workers q !! t = Some w /\ p_mem q !! c = p_mem p !! c.
Proof.
  intros I H Ht Hw Nt. destruct (core_held _ _ _ _ _ (inv_core _ _ I) _ _ c Ht Hw) as (z & Hz & Ez).
  destruct (running_kept _ _ _ _ _ I H Hz Ez) as [Em C].
  { intros u w' Ha Hu Hh. pose proof (core_uniq _ _ _ _ _ (inv_core _ _ I) _ _ _ _ c Ht Hu Hw Hh). congruence. }
  split; [|done]. inversion C as [E|u v v' Ha Hu _ E|w' _ E]; [done| |].
  - rewrite list_lookup_insert_ne by (intros ->; congruence). done.
  - by apply lookup_app_l_Some.
Qed.

Lemma stranded_run l : forall p q c,
  inv keep p -> run rd_pipe keep l p = Next q -> stranded p c -> stranded q c.
Proof.
  induction l as [|a l IH]; intros p q c I H S; [by simplify_eq/=|].
  apply run_cons in H as (r & Hr & H). eapply IH; [by eapply inv_exec|exact H|]. by eapply stranded_exec.
Qed.

(** A worker has the result of [mi_engine] only from [mi_engine]. *)
Lemma done_from_engine a p q t c r :
  inv keep p -> exec rd_pipe keep a p = Next q -> p_workers q !! t = Some (WDone c r) ->
  p_workers p !! t = Some (WDone c r) \/ exists y, a = AEngine t r y.
Proof.
  intros I H. assert (D : forall created d x p', p_workers p' = p_workers p ->
    p_workers (dispatch created d x p') !! t = Some (WDone c r) -> p_workers p !! t = Some (WDone c r)).
  { intros created d x p' E. unfold dispatch, launch. rewrite <- E.
    destruct (0 <? _), created; simpl; try done. by intros [[_ ?]|?]%lookup_snoc_worker. }
  destruct a as [created d x|u ok|u res y|ok now|now fits|ans|created|n]; simpl in H.
  - case_decide; [|done]. unfold mi_start_session, locked in H. destruct (negb _); simpl in H; [simplify_eq; auto|].
    case_decide; [done|]. simplify_eq. intros Hd. left. by eapply D; [|exact Hd].
  - unfold mi_worker, locked, with_ctx in H. destruct (p_workers p !! u) as [v|] eqn:Hu; [|done].
    repeat (case_match || case_decide); simplify_eq/=; intros [[_ ?]|[_ ?]]%(lookup_insert_worker _ _ _ _ _ _ Hu); auto; done.
  - unfold engine_returns, with_ctx in H. destruct (p_workers p !! u) as [[]|] eqn:Hu; try done.
    destruct (p_mem p !! _); [|done]. case_decide; [|done]. simplify_eq. simpl.
    intros [[-> [= <- <-]]|[_ ?]]%(lookup_insert_worker _ _ _ _ _ _ Hu); eauto.
  - unfold ctl_start in H. destruct (k_pc _); try done. simplify_eq. destruct ok; auto.
  - destruct (round_effect rd_pipe keep _ _ _ _ I H) as (-> & _). auto.
  - destruct (poll_effect _ _ _ H) as (-> & _). auto.
  - unfold ctl_event, locked in H. repeat (case_match || case_decide); simplify_eq/=; auto.
    intros Hd. left. by eapply D; [|exact Hd].
  - simplify_eq. unfold raise_stop. destruct (_ <? _); auto.
Qed.

End stranded.

(** ** What a step does to the sessions *)

Section sessions.
Context {P : Type} (rd_pipe : Z) (keep : bool).
Implicit Types (x y : smfi_str P) (p q : @pool P).

(** The contexts of [q] are contexts of [p] with the same session. *)
Definition keeps_sess p q : Prop :=
  forall c y, p_mem q !! c = Some y -> exists x, p_mem p !! c = Some x /\ sess y = sess x.

Lemma keeps_sess_same p q : p_mem q = p_mem p -> keeps_sess p q.
Proof. intros E c y. rewrite E. eauto. Qed.

Lemma keeps_sess_put p q d x y :
  p_mem q = <[d := y]> (p_mem p) -> p_mem p !! d = Some x -> sess y = sess x -> keeps_sess p q.
Proof. intros E Hd Es c z. rewrite E. intros [[<- <-]|[_ Hc]]%lookup_insert_Some; eauto. Qed.

Lemma keeps_sess_delete p q d : p_mem q = delete d (p_mem p) -> keeps_sess p q.
Proof. intros E c z. rewrite E. intros [_ Hc]%lookup_delete_Some. eauto. Qed.

Lemma dispatch_mem created d x p : exists y, p_mem (dispatch created d x p) = <[d := y]> (p_mem p) /\ sess y = sess x /\
  (ctx_wstate y = WKST_READY_TO_RUN \/ ctx_wstate y = WKST_RUNNING).
Proof. unfold dispatch, launch. destruct (0 <? _), created; eexists; split_and!; simpl; try done; auto. Qed.

Lemma get_task_lookup (mem : gmap nat (smfi_str P)) l d x : get_task mem l = Some (Some (d, x)) -> mem !! d = Some x.
Proof.
  induction l as [|c l IH]; simpl; [done|]. destruct (mem !! c) as [z|] eqn:E; [|done].
  destruct (_ =? _); [by intros [= <- <-]|done].
Qed.

Lemma keeps_sess_worker t ok p q : mi_worker t ok p = Next q -> keeps_sess p q.
Proof.
  unfold mi_worker, locked, with_ctx. intros H.
  repeat (case_match || case_decide); simplify_eq/=; try (by apply keeps_sess_same);
    try (eapply keeps_sess_put; [simpl; done|done|done]);
    try (eapply keeps_sess_put; [simpl; done|by eapply get_task_lookup|done]).
  all: eapply keeps_sess_delete; simpl; apply delete_insert_eq.
Qed.

Lemma keeps_sess_round now fits p q : inv keep p -> ctl_round rd_pipe keep now fits p = Next q -> keeps_sess p q.
Proof.
  intros I. unfold ctl_round. destruct (k_pc (p_ctl p)) eqn:Pc; try done.
  destruct (negb _); [intros [= <-]; by apply keeps_sess_same|].
  destruct (round_checked keep now p I) as (r & -> & Ir & Cr). pose proof (ch_sess _ _ Cr) as Es.
  rewrite <- (ch_ctl _ _ Cr) in *. destruct (k_rebuild _); [|by intros [= <-]].
  set (last := if _ <? _ then now else _).
  destruct (inv_rebuild rd_pipe keep now fits last r Ir Pc) as (s & -> & Is & Hs & _). intros [= <-].
  intros c y Hy. simpl in Hy.
  destruct (core_head_mem r (inv_core _ _ Ir) c) as [x Hx].
  { apply (core_mem _ _ _ _ _ (inv_core _ _ Is)). by eexists. }
  destruct (Hs _ _ Hx) as (y' & Hy' & E & _). rewrite Hy in Hy'; injection Hy' as <-. destruct (Es _ _ Hx) as (x' & ? & ?).
  exists x'. split; [done|congruence].
Qed.

Lemma find_waiting_lookup fd (mem : gmap nat (smfi_str P)) l c x :
  find_waiting fd mem l = Some (Some (c, x)) -> c ∈ l /\ mem !! c = Some x /\ ctx_wstate x = WKST_WAITING /\ ctx_sd x = fd.
Proof.
  induction l as [|d l IH]; simpl; [done|]. destruct (mem !! d) as [z|] eqn:E; [|done].
  destruct (_ && _) eqn:B.
  - intros [= <- <-]. apply andb_prop in B as [?%Z.eqb_eq ?%Z.eqb_eq]. split; [left|done].
  - intros H. destruct (IH H) as (? & ? & ? & ?). split; [by right|done].
Qed.

Lemma keeps_sess_event created p q : ctl_event rd_pipe created p = Next q -> keeps_sess p q.
Proof.
  unfold ctl_event, locked. intros H. repeat (case_match || case_decide); simplify_eq/=; try (by apply keeps_sess_same).
  match goal with E : find_waiting _ _ _ = Some (Some (?c, ?x)) |- keeps_sess _ (dispatch ?b _ _ ?r) =>
    apply find_waiting_lookup in E as (_ & E & _); destruct (dispatch_mem b c x r) as (y & Ey & Es & _);
    eapply keeps_sess_put; [exact Ey|exact E|exact Es] end.
Qed.

(** What becomes of the contexts in a step: only [mi_engine] changes a session,
    and only the start of one adds a context. *)
Inductive mem_step (a : @action P) p q : Prop :=
  | MemKeep : keeps_sess p q -> mem_step a p q
  | MemEngine t res y c x : a = AEngine t res y -> p_workers p !! t = Some (WEngine c) -> p_mem p !! c = Some x ->
      p_mem q = <[c := y]> (p_mem p) -> same_pool_fields x y -> mem_step a p q
  | MemStart created c x y : a = AStart created c x -> p_mem p !! c = None -> p_mem q = <[c := y]> (p_mem p) ->
      sess y = sess x -> mem_step a p q.

Lemma exec_mem a p q : inv keep p -> exec rd_pipe keep a p = Next q -> mem_step a p q.
Proof.
  intros I H. destruct a; simpl in H.
  - case_decide as Hc; [|done]. unfold mi_start_session, locked in H.
    destruct (negb _); simpl in H; [simplify_eq; apply MemKeep; by apply keeps_sess_same|]. case_decide; [done|]. simplify_eq.
    destruct (dispatch_mem created c (set_ctx_sid (p_id p) x) (set_id (p_id p + 1) (mi_list_add_ctx c p))) as (y & Ey & Es & _).
    by eapply MemStart.
  - apply MemKeep. by eapply keeps_sess_worker.
  - unfold engine_returns, with_ctx in H. destruct (p_workers p !! t) as [[]|] eqn:Ht; try done.
    destruct (p_mem p !! c) as [x|] eqn:Hc; [|done]. destruct (decide _) as [S|]; [|done]. simplify_eq.
    by eapply MemEngine.
  - apply MemKeep. unfold ctl_start in H. destruct (k_pc _); try done. simplify_eq. apply keeps_sess_same. by destruct ok.
  - apply MemKeep. by eapply keeps_sess_round.
  - apply MemKeep. apply keeps_sess_same. by destruct (poll_effect _ _ _ H) as (_ & ? & _).
  - apply MemKeep. by eapply keeps_sess_event.
  - apply MemKeep. simplify_eq. apply keeps_sess_same. unfold raise_stop. by destruct (_ <? _).
Qed.

(** Contexts keep their socket. *)
Definition keeps_sd p q : Prop :=
  forall c y, p_mem q !! c = Some y -> exists x, p_mem p !! c = Some x /\ ctx_sd y = ctx_sd x.

(** Only a new session adds a socket. *)
Lemma exec_sd a p q : inv keep p -> exec rd_pipe keep a p = Next q ->
  keeps_sd p q \/ exists created c x y, a = AStart created c x /\ p_mem p !! c = None /\
    p_mem q = <[c := y]> (p_mem p) /\ ctx_sd y = ctx_sd x.
Proof.
  intros I H. destruct (exec_mem _ _ _ I H) as [K|t res y c x -> _ Hc E (_ & S & _)|created c x y -> Hc E S].
  - left. intros c y Hy. destruct (K _ _ Hy) as (x & ? & ?%sess_sd). eauto.
  - left. intros d z. rewrite E. intros [[<- <-]|[_ ?]]%lookup_insert_Some; eauto.
  - right. apply sess_sd in S. by exists created, c, x, y.
Qed.

End sessions.

(** ** The theorems *)

Section theorems.
Context {P : Type} (rd_pipe : Z) (keep : bool).
Implicit Types (x y : smfi_str P) (p q : @pool P).

(** C2: In every reachable state of the pool, whatever the threads, the MTA and
    the failures of system calls did before, a session is in the hands of at
    most one worker, and that worker finds its context allocated, in the list and
    marked as running.  No step of any thread then accesses a context that is
    gone or leaves the poll array.  What can go wrong is the poll of a round that
    did not set [nfd], and a lock taken after the controller has destroyed it,
    which it does when the milter stops or poll has failed 16 times. *)
Theorem session_exclusive (min : Z) (p : @pool P) :
  reachable rd_pipe keep min p ->
  (forall t t' w w' c, p_workers p !! t = Some w -> p_workers p !! t' = Some w' ->
     holds w = Some c -> holds w' = Some c -> t = t') /\
  (forall t w c, p_workers p !! t = Some w -> holds w = Some c ->
     c ∈ tm_ctx_head (p_tm p) /\ exists x, p_mem p !! c = Some x /\ ctx_wstate x = WKST_RUNNING) /\
  (forall a f, exec rd_pipe keep a p = Fault f ->
     (f = Indeterminate /\ keep = false /\ exists ans, a = ACtlPoll ans) \/
     (f = DestroyedLock /\ (p_stop p <> MILTER_CONT \/ MAX_FAILS_S <= k_pcnt (p_ctl p)))).
Proof.
  intros R. pose proof (reachable_inv _ _ _ _ R) as I. pose proof (inv_core _ _ I) as C. split_and!.
  - apply C.
  - intros t w c Ht Hw. destruct (core_held _ _ _ _ _ C _ _ _ Ht Hw) as (x & Hx & Ex). split; [|eauto].
    apply (core_mem _ _ _ _ _ C). by eexists.
  - intros a f H. destruct (fault_exec _ _ _ _ _ I H) as [?|[-> K]]; [by left|right]. split; [done|].
    by apply (pctl_end _ _ (inv_ctl _ _ I)).
Qed.

(** C8: No session is forgotten.  While the milter runs and no call to create or
    detach a thread, to write to the pipe or to grow the poll array has failed,
    every session in memory is in one of four states, and looked after in each:
    running, with a worker that has it; ready to run, with a worker that will
    look for a task; handed back, with a byte in the pipe or a rebuild of the
    poll set to come; waiting, with its socket in the poll set. *)
Theorem no_session_lost (min : Z) (p : @pool P) (c : nat) (x : smfi_str P) :
  reachable rd_pipe keep min p -> p_ok p = true -> p_stop p = MILTER_CONT -> p_mem p !! c = Some x ->
  (ctx_wstate x = WKST_RUNNING /\ exists t w, p_workers p !! t = Some w /\ holds w = Some c) \/
  (ctx_wstate x = WKST_READY_TO_RUN /\ exists t w, p_workers p !! t = Some w /\ active w = true) \/
  (ctx_wstate x = WKST_READY_TO_WAIT /\ ((0 < tm_p (p_tm p))%nat \/ k_rebuild (p_ctl p) = true)) \/
  (ctx_wstate x = WKST_WAITING /\ ctx_sd x ∈ k_pfd (p_ctl p)).
Proof.
  intros R Ho Hs Hx. pose proof (reachable_inv _ _ _ _ R) as I.
  destruct (inv_alive _ _ I Ho Hs c x Hx) as [A1 A2 A3 A4].
  pose proof (core_state _ _ _ _ _ (inv_core _ _ I) _ _ Hx) as S.
  unfold pool_state, WKST_RUNNING, WKST_READY_TO_RUN, WKST_READY_TO_WAIT, WKST_WAITING in *.
  assert (ctx_wstate x = 1 \/ ctx_wstate x = 2 \/ ctx_wstate x = 3 \/ ctx_wstate x = 4) by lia. intuition auto.
Qed.

(** The counters of the task manager are exact in every reachable state, and
    a worker quits only when at least [min_worker] workers and more than MIN_IDLE
    idle ones are left. *)
Theorem pool_counts (min : Z) (p : @pool P) :
  reachable rd_pipe keep min p ->
  tm_nb_workers (p_tm p) = count counted (p_workers p) /\
  tm_nb_idle (p_tm p) = count idle (p_workers p) /\
  forall t ok q, p_workers p !! t <> Some WQuit -> exec rd_pipe keep (AWorker t ok) p = Next q ->
    p_workers q !! t = Some WQuit ->
    p_min p <= count counted (p_workers q) /\ MIN_IDLE < count idle (p_workers q).
Proof.
  intros R. pose proof (reachable_inv _ _ _ _ R) as I. pose proof (inv_core _ _ I) as C.
  split; [apply C|]. split; [apply C|]. intros t ok q N H Q. simpl in H.
  pose proof (inv_mi_worker _ _ _ _ _ I H) as I'. pose proof (inv_core _ _ I') as C'.
  rewrite <- (core_workers _ _ _ _ _ C'), <- (core_idle _ _ _ _ _ C').
  unfold mi_worker, locked, with_ctx in H.
  destruct (p_workers p !! t) as [w|] eqn:Ht; [|done]. pose proof (lookup_lt_Some _ _ _ Ht) as L.
  repeat (case_match || case_decide); simplify_eq; simpl in Q; rewrite ?list_lookup_insert_eq in Q by done; try done.
  match goal with E : _ && _ = true |- _ => apply andb_prop in E as [?%Z.ltb_lt ?%Z.ltb_lt] end. simpl. lia.
Qed.


(** When no worker is idle and the thread for a new session cannot be
    created, [mi_start_session] still reports success, and the session is
    abandoned: in every state that can follow it is marked as running and no
    worker has it, so that it is never served, polled or closed. *)
Theorem launch_failure_strands (min : Z) (p : @pool P) (c : nat) (x : smfi_str P) :
  reachable rd_pipe keep min p -> tm_signature (p_tm p) = TM_SIGNATURE -> k_pc (p_ctl p) <> KEnd ->
  tm_nb_idle (p_tm p) = 0 -> p_mem p !! c = None ->
  (mi_start_session false c x p).1 = true /\
  exists q, exec rd_pipe keep (AStart false c x) p = Next q /\
    forall l r, run rd_pipe keep l q = Next r -> stranded r c /\ c ∈ tm_ctx_head (p_tm r).
Proof.
  intros R Es K Ei Hc. pose proof (reachable_inv _ _ _ _ R) as I.
  assert (E : exists q, exec rd_pipe keep (AStart false c x) p = Next q /\ stranded q c).
  { simpl. rewrite decide_True by done. unfold mi_start_session, locked. rewrite Es. simpl. rewrite decide_False by done.
    eexists. split; [done|]. unfold dispatch, launch. simpl. rewrite Ei. simpl. split; simpl.
    - by eapply core_absent; [apply I|].
    - eexists. by rewrite lookup_insert_eq. }
  destruct E as (q & E & S). split; [unfold mi_start_session; by rewrite Es|]. exists q. split; [done|].
  intros l r H. pose proof (inv_exec _ _ _ _ _ I E) as Iq. pose proof (stranded_run _ _ _ _ _ _ Iq H S) as S'. split; [done|].
  destruct S' as (_ & y & Hy & _). apply (core_mem _ _ _ _ _ (inv_core _ _ (inv_run _ _ _ _ _ Iq H))). by eexists.
Qed.

End theorems.

(** Where [nfd] does not keep its value from one round to the next, which
    the language does not promise for a variable declared in the body of a loop,
    the poll after a timeout uses an indeterminate number of descriptors: the set
    is not rebuilt, and [nfd] is only set when it is. *)
Theorem poll_timeout_indeterminate (P : Type) (rd_pipe min : Z) (p : @pool P) (now : Z) (fits : list bool) (ans : poll_ans) :
  reachable rd_pipe false min p -> k_pc (p_ctl p) = KPoll -> k_nfd (p_ctl p) <> None -> p_stop p = MILTER_CONT ->
  run rd_pipe false [ACtlPoll PollTimeout; ACtlRound now fits; ACtlPoll ans] p = Fault Indeterminate.
Proof.
  intros R Pc Hn Hs. pose proof (reachable_inv _ _ _ _ R) as I.
  pose proof (pctl_poll _ _ (inv_ctl _ _ I) Pc) as Hr. destruct (k_nfd (p_ctl p)) as [n|] eqn:En; [|done].
  simpl. unfold ctl_poll at 1. rewrite Pc, En. set (q := set_ctl _ p).
  assert (Iq : inv false q) by (eapply (inv_ctl_poll false PollTimeout p); [done|]; unfold ctl_poll; by rewrite Pc, En).
  unfold ctl_round. simpl. rewrite Hs. simpl.
  destruct (round_checked false now q Iq) as (r & Er & _). simpl in Er. rewrite Er. rewrite Hr. simpl.
  done.
Qed.

(** ** Witnesses *)

Definition demo_ctx : smfi_str unit :=
  mk_ctx 0 5 0 7210 0 0 0 0 0 0 [] [] [] None tt 0 0 0 0 0 0.

(** The controller is up, worker 0 idles, and a session arrives. *)
Definition demo_ready : list (@action unit) :=
  [ACtlStart true 1000; ACtlRound 1000 []; AWorker 0 true; AWorker 0 true; AWorker 0 true; AWorker 0 true;
   AStart true 7 demo_ctx].

Definition demo_state (l : list (@action unit)) (keep : bool) : @pool unit :=
  match run 3 keep l (pool_start 0) with Next p => p | _ => pool0 end.

Lemma run_reachable {P} rd keep min (l : list (@action P)) : forall p q,
  reachable rd keep min p -> run rd keep l p = Next q -> reachable rd keep min q.
Proof.
  induction l as [|a l IH]; intros p q R H; [by simplify_eq/=|].
  apply run_cons in H as (r & Hr & H). eapply IH; [|exact H]. by eapply reach_step.
Qed.

Lemma demo_reachable l keep :
  match run 3 keep l (pool_start 0) with Next _ => true | _ => false end = true ->
  reachable 3 keep 0 (demo_state l keep).
Proof.
  unfold demo_state. intros H. destruct (run 3 keep l (pool_start 0)) as [p| |] eqn:E; try done.
  eapply run_reachable; [constructor|exact E].
Qed.

Lemma session_exclusive_witness :
  7%nat ∈ tm_ctx_head (p_tm (demo_state (demo_ready ++ [AWorker 0 true]) true)).
Proof.
  apply (session_exclusive 3 true 0 (demo_state (demo_ready ++ [AWorker 0 true]) true)
    (demo_reachable (demo_ready ++ [AWorker 0 true]) true eq_refl)) with (t := 0%nat) (w := WTop (Some 7%nat)); reflexivity.
Defined.

Definition ready_ctx : smfi_str unit := set_ctx_wstate WKST_READY_TO_RUN demo_ctx.

Lemma no_session_lost_witness :
  (ctx_wstate ready_ctx = WKST_RUNNING /\
     exists t w, p_workers (demo_state demo_ready true) !! t = Some w /\ holds w = Some 7%nat) \/
  (ctx_wstate ready_ctx = WKST_READY_TO_RUN /\
     exists t w, p_workers (demo_state demo_ready true) !! t = Some w /\ active w = true) \/
  (ctx_wstate ready_ctx = WKST_READY_TO_WAIT /\
     ((0 < tm_p (p_tm (demo_state demo_ready true)))%nat \/ k_rebuild (p_ctl (demo_state demo_ready true)) = true)) \/
  (ctx_wstate ready_ctx = WKST_WAITING /\ ctx_sd ready_ctx ∈ k_pfd (p_ctl (demo_state demo_ready true))).
Proof.
  apply (no_session_lost 3 true 0 (demo_state demo_ready true) 7 ready_ctx); [by apply demo_reachable|reflexivity..].
Defined.

Lemma pool_counts_witness :
  tm_nb_idle (p_tm (demo_state demo_ready true)) = count idle (p_workers (demo_state demo_ready true)).
Proof. apply (pool_counts 3 true 0 (demo_state demo_ready true)). by apply demo_reachable. Defined.


Lemma launch_failure_strands_witness :
  (mi_start_session false 7 demo_ctx (demo_state [ACtlStart true 1000] true)).1 = true.
Proof.
  apply (launch_failure_strands 3 true 0 (demo_state [ACtlStart true 1000] true) 7 demo_ctx);
    [by apply demo_reachable|reflexivity|discriminate|reflexivity|reflexivity].
Defined.

Lemma poll_timeout_indeterminate_witness :
  run 3 false [ACtlPoll PollTimeout; ACtlRound 1010 []; ACtlPoll PollTimeout] (demo_state demo_ready false) =
  Fault Indeterminate.
Proof.
  apply (poll_timeout_indeterminate unit 3 0 (demo_state demo_ready false) 1010 [] PollTimeout);
    [by apply demo_reachable|reflexivity|discriminate|reflexivity].
Defined.
