(* ===== verification/WorkerQueue.v ===== *)
(** * The queue of the worker pool: worker.c on tailq.h

    Worker.v keeps the sessions of the pool in a list.  In the code they are in
    a tail queue, linked through the contexts themselves, which are taken from
    malloc and given back while other threads go through the queue.  This file
    runs the queue of Tailq.v beside the pool: the pointers that each step of
    the pool follows and writes, in the order of the code.  [queue_simulates]
    shows that in every reachable state of the pool these accesses are valid
    and that the queue stays the one of the list. *)

From stdpp Require Import base option numbers gmap list.
From Stdlib Require Import ZArith Lia.
From S2P Require Import Prelude Mfdef Worker WorkerProps WorkerTheorems Tailq.
Local Open Scope Z_scope.

Section queue.
Context {P : Type}.
Variable rd_pipe : Z.
Variable keep : bool.

(** ** The accesses *)

(** malloc gives the context [c], with [junk] in its link, and
    [mi_list_add_ctx] takes it in. *)
Definition queue_add (junk : entry) (c : nat) (q : tailq) : option tailq :=
  SM_TAILQ_INSERT_TAIL c (set_links (<[c := junk]> (links q)) q).

(** [mi_list_del_ctx]; an empty queue is its error, which is ignored. *)
Definition queue_del (c : nat) (q : tailq) : option tailq :=
  if SM_TAILQ_EMPTY q then Some q else SM_TAILQ_REMOVE c q.

(** [mi_close_session]: the context is freed after it was taken out. *)
Definition queue_close (c : nat) (q : tailq) : option tailq :=
  q ← queue_del c q; Some (set_links (delete c (links q)) q).

(** The loop that closes old sessions; [ctx_nxt] is read before the session
    may be closed. *)
Fixpoint queue_check_old (fuel : nat) (now : Z) (ctx : option nat) (p : @pool P) (q : tailq) :
    option (@pool P * tailq) :=
  match fuel, ctx with
  | _, None => Some (p, q)
  | O, Some _ => None
  | S n, Some c =>
      x ← p_mem p !! c;
      ctx_nxt ← SM_TAILQ_NEXT c q;
      if ctx_wstate x =? WKST_WAITING then
        if ctx_wait x =? 0 then queue_check_old n now ctx_nxt (put_ctx c (set_ctx_wait now x) p) q
        else if ctx_wait x + ctx_timeout x <? now then
          q ← queue_close c q; queue_check_old n now ctx_nxt (mi_close_session c p) q
        else queue_check_old n now ctx_nxt p q
      else queue_check_old n now ctx_nxt p q
  end.

(** Whether the controller checks for old sessions in this round. *)
Definition checks_old (now : Z) (p : @pool P) : bool :=
  bool_decide (k_pc (p_ctl p) = KTop) && (p_stop p =? MILTER_CONT) &&
  (k_lastcheck (p_ctl p) + DT_CHECK_OLD_SESSIONS <? now).

(** What a step of the pool does to the queue. *)
Definition queue_exec (junk : entry) (a : @action P) (p : @pool P) (q : tailq) : option tailq :=
  match a with
  | AStart created c x => if (mi_start_session created c x p).1 then queue_add junk c q else Some q
  | AWorker t _ =>
      match p_workers p !! t with
      | Some (WDone c res) => if negb (res =? MI_CONTINUE) then queue_close c q else Some q
      | _ => Some q
      end
  | ACtlRound now _ =>
      if checks_old now p
      then snd <$> queue_check_old (length (tm_ctx_head (p_tm p))) now (SM_TAILQ_FIRST q) p q
      else Some q
  | _ => Some q
  end.

(** ** The simulation *)

(** [q] is the queue of the pool, and the links that can be accessed are those
    of the contexts that are allocated. *)
Record queued (p : @pool P) (q : tailq) : Prop := mk_queued {
  qd_repr : repr q (tm_ctx_head (p_tm p));
  qd_alloc : ∀ c, allocated c q ↔ is_Some (p_mem p !! c)
}.

Lemma queued_ext p p' q :
  queued p q → tm_ctx_head (p_tm p') = tm_ctx_head (p_tm p) →
  (∀ c, is_Some (p_mem p' !! c) ↔ is_Some (p_mem p !! c)) → queued p' q.
Proof. intros [H1 H2] E1 E2. split; [by rewrite E1|]. intros c. rewrite E2. done. Qed.

Lemma put_ctx_dom c x y (p : @pool P) d :
  p_mem p !! c = Some y → is_Some (p_mem (put_ctx c x p) !! d) ↔ is_Some (p_mem p !! d).
Proof. intros H. cbn. rewrite lookup_insert_is_Some'. naive_solver. Qed.

Lemma filter_absent (l : list nat) c : c ∉ l → filter (fun d => d <> c) l = l.
Proof.
  induction l as [|d l IH]; [done|]. intros Hc. rewrite filter_cons_True by set_solver.
  rewrite IH by set_solver. done.
Qed.

Lemma filter_out (k r : list nat) c : NoDup (k ++ c :: r) → filter (fun d => d <> c) (k ++ c :: r) = k ++ r.
Proof.
  intros (_ & Hd & [Hc _]%NoDup_cons)%NoDup_app. rewrite filter_app, filter_cons_False by (intros H; by apply H).
  rewrite !filter_absent; [done|done|]. set_solver.
Qed.

Lemma queue_add_ok junk c (p : @pool P) q :
  queued p q → p_mem p !! c = None →
  ∃ q', queue_add junk c q = Some q' ∧ repr q' (tm_ctx_head (p_tm p) ++ [c]) ∧
    ∀ d, allocated d q' ↔ d = c ∨ is_Some (p_mem p !! d).
Proof.
  intros [Hr Ha] Hc.
  assert (Hin : c ∉ tm_ctx_head (p_tm p)).
  { intros (k & r & E)%list_elem_of_split. rewrite E in Hr.
    apply repr_split in Hr as (_ & _ & _ & _ & _ & _ & Hs & _). apply Ha in Hs as [y Hy]. congruence. }
  destruct (insert_tail_becomes (set_links (<[c := junk]> (links q)) q) (tm_ctx_head (p_tm p)) c)
    as (q' & Hq & Hr' & Hal & _); [|by exists junk; apply lookup_insert_eq|done|].
  - apply (repr_ext q); try done. intros d Hd. apply lookup_insert_ne. set_solver.
  - exists q'. split; [done|]. split; [done|]. intros d. rewrite Hal, <- Ha. unfold allocated. cbn.
    rewrite lookup_insert_is_Some'. naive_solver.
Qed.

Lemma queue_close_ok c (p : @pool P) q :
  queued p q → c ∈ tm_ctx_head (p_tm p) →
  ∃ q', queue_close c q = Some q' ∧ queued (mi_close_session c p) q'.
Proof.
  intros [Hr Ha] (k & r & E)%list_elem_of_split. pose proof (r_nodup _ _ Hr) as Hn.
  rewrite E in Hr, Hn. destruct (remove_becomes q k c r Hr) as (q' & Hq & Hr' & Hal & _).
  unfold queue_close, queue_del. rewrite (empty_repr _ _ Hr), bool_decide_eq_false_2 by (by destruct k).
  rewrite Hq. cbn. eexists. split; [done|]. split.
  - cbn. rewrite E, filter_out by done. apply (repr_ext q'); try done. cbn.
    intros d Hd. apply lookup_delete_ne. intros ->. apply NoDup_app in Hn as (_ & Hn & [Hc _]%NoDup_cons).
    set_solver.
  - intros d. cbn. unfold allocated. cbn. rewrite !lookup_delete_is_Some. rewrite <- Ha, <- Hal. done.
Qed.

Lemma check_old_ok now r : ∀ k p q p',
  queued p q → tm_ctx_head (p_tm p) = k ++ r → check_old now r p = Some p' →
  ∃ q', queue_check_old (length r) now (head r) p q = Some (p', q') ∧ queued p' q'.
Proof.
  induction r as [|c r IH]; intros k p q p' Hq Hh; cbn [check_old queue_check_old length head].
  { intros [= <-]. eauto. }
  destruct (p_mem p !! c) as [x|] eqn:Hx; [|done].
  assert (Hn : SM_TAILQ_NEXT c q = Some (head r)).
  { apply (next_repr q k). rewrite <- Hh. apply Hq. }
  assert (Hh' : tm_ctx_head (p_tm p) = (k ++ [c]) ++ r) by (rewrite Hh, <- app_assoc; done).
  cbn [mbind option_bind]. rewrite Hn. cbn [mbind option_bind].
  destruct (ctx_wstate x =? WKST_WAITING); [|eauto].
  destruct (ctx_wait x =? 0).
  { apply (IH (k ++ [c])); [|done]. apply (queued_ext p); try done. intros d. by apply (put_ctx_dom c _ x). }
  destruct (_ <? now); [|eauto].
  destruct (queue_close_ok c p q Hq) as (q1 & -> & Hq1); [rewrite Hh; set_solver|].
  cbn [mbind option_bind]. apply (IH k); [done|]. cbn. rewrite Hh. apply filter_out.
  rewrite <- Hh. apply (r_nodup _ _ (qd_repr _ _ Hq)).
Qed.

(** In states of the pool the list says which contexts are allocated. *)
Lemma queued_inv p q :
  inv keep p → repr q (tm_ctx_head (p_tm p)) → (∀ c, allocated c q ↔ c ∈ tm_ctx_head (p_tm p)) → queued p q.
Proof. intros I Hr Ha. split; [done|]. intros c. rewrite Ha. apply (core_mem _ _ _ _ _ (inv_core _ _ I)). Qed.

Lemma queued_same p p' q :
  inv keep p → inv keep p' → queued p q → tm_ctx_head (p_tm p') = tm_ctx_head (p_tm p) → queued p' q.
Proof.
  intros I I' [Hr Ha] E. apply queued_inv; rewrite ?E; try done. intros c. rewrite Ha.
  symmetry. apply (core_mem _ _ _ _ _ (inv_core _ _ I)).
Qed.

Lemma dispatch_head created c x (p : @pool P) :
  tm_ctx_head (p_tm (dispatch created c x p)) = tm_ctx_head (p_tm p).
Proof. unfold dispatch, launch. destruct (0 <? _), created; done. Qed.

Lemma queue_start junk created c x p p' q :
  inv keep p → inv keep p' → queued p q → exec rd_pipe keep (AStart created c x) p = Next p' →
  ∃ q', queue_exec junk (AStart created c x) p q = Some q' ∧ queued p' q'.
Proof.
  intros I I' Hq H. cbn in *. case_decide as Hc; [|done].
  unfold mi_start_session in *. destruct (negb _); cbn in *; [simplify_eq; eauto|].
  unfold locked in H. case_decide; [done|]. simplify_eq.
  destruct (queue_add_ok junk c p q Hq Hc) as (q' & Hq' & Hr & Ha). exists q'. split; [done|].
  apply queued_inv; [done|by rewrite dispatch_head|]. intros d. rewrite dispatch_head, Ha. cbn.
  rewrite elem_of_app, list_elem_of_singleton, <- (core_mem _ _ _ _ _ (inv_core _ _ I)). tauto.
Qed.

Lemma queue_worker junk t ok p p' q :
  inv keep p → inv keep p' → queued p q → exec rd_pipe keep (AWorker t ok) p = Next p' →
  ∃ q', queue_exec junk (AWorker t ok) p q = Some q' ∧ queued p' q'.
Proof.
  intros I I' Hq H. cbn in *. unfold mi_worker, locked, with_ctx in H.
  destruct (p_workers p !! t) as [w|] eqn:Hw; [|done].
  destruct w; repeat (case_match || case_decide); simplify_eq;
    try (exists q; split; [done|]; by apply (queued_same p)).
  destruct (held_ctx keep _ _ c p I Hw eq_refl) as (y & Hy & _).
  destruct (queue_close_ok c p q Hq) as (q' & Hq' & Hd).
  { apply (core_mem _ _ _ _ _ (inv_core _ _ I)). eauto. }
  exists q'. split; [done|]. apply queued_inv; [done|apply Hd|].
  intros d. rewrite (qd_alloc _ _ Hd). rewrite (core_mem _ _ _ _ _ (inv_core _ _ I')). cbn.
  rewrite delete_insert_eq. done.
Qed.

Lemma queue_round junk now fits p p' q :
  inv keep p → inv keep p' → queued p q → exec rd_pipe keep (ACtlRound now fits) p = Next p' →
  ∃ q', queue_exec junk (ACtlRound now fits) p q = Some q' ∧ queued p' q'.
Proof.
  intros I I' Hq H. cbn in *. unfold ctl_round, checks_old in *.
  destruct (k_pc (p_ctl p)) eqn:Pc; try done. rewrite bool_decide_eq_true_2 by done.
  destruct (p_stop p =? MILTER_CONT); cbn in *;
    [|simplify_eq; exists q; split; [done|]; by apply (queued_same p)].
  destruct (round_checked keep now p I) as (p1 & H1 & I1 & _). rewrite H1 in H.
  assert (Hh : tm_ctx_head (p_tm p') = tm_ctx_head (p_tm p1)).
  { repeat case_match; simplify_eq; done. }
  destruct (_ <? now); cbn in *.
  - destruct (check_old_ok now _ [] p q p1 Hq eq_refl H1) as (q' & E & Hq').
    rewrite (first_repr _ _ (qd_repr _ _ Hq)), E. exists q'. split; [done|]. by apply (queued_same p1).
  - simplify_eq. exists q. split; [done|]. by apply (queued_same p1).
Qed.

Lemma queue_step junk a p p' q :
  inv keep p → queued p q → exec rd_pipe keep a p = Next p' →
  ∃ q', queue_exec junk a p q = Some q' ∧ queued p' q'.
Proof.
  intros I Hq H. pose proof (inv_exec rd_pipe keep a p p' I H) as I'.
  destruct a; [by eapply queue_start|by eapply queue_worker| | |by eapply queue_round|..];
    (exists q; split; [done|]; apply (queued_same p); try done; cbn in H).
  - unfold engine_returns, with_ctx in H. repeat case_match; simplify_eq; done.
  - unfold ctl_start in H. repeat case_match; simplify_eq; done.
  - unfold ctl_poll in H. repeat case_match; simplify_eq; done.
  - unfold ctl_event, locked in H. repeat case_match; simplify_eq; try done. apply (dispatch_head _ _ _ (set_ctl _ p)).
  - unfold raise_stop in H. repeat case_match; simplify_eq; done.
Qed.

(** The pool and its queue, from a start with the queue initialised. *)
Inductive queue_reachable (min : Z) : @pool P → tailq → Prop :=
  | qr_init q : links q = ∅ → queue_reachable min (pool_start min) (SM_TAILQ_INIT q)
  | qr_step p q a junk p' q' :
      queue_reachable min p q → exec rd_pipe keep a p = Next p' → queue_exec junk a p q = Some q' →
      queue_reachable min p' q'.

Lemma queue_reachable_queued min p q :
  queue_reachable min p q → reachable rd_pipe keep min p ∧ queued p q.
Proof.
  induction 1 as [q Hl|p q a junk p' q' _ [R Hq] Ha Hb].
  - split; [constructor|]. rewrite pool_start_eq. split; cbn; [apply init_repr|].
    intros c. unfold allocated. cbn. rewrite Hl, !lookup_empty, !is_Some_alt. done.
  - split; [by econstructor|].
    destruct (queue_step junk a p p' q (reachable_inv _ _ _ _ R) Hq Ha) as (q1 & E & Hq1). congruence.
Qed.

(** C14: In every state the pool comes to, in any interleaving, the pointers of its
    queue lead through exactly the sessions of the list, in both directions,
    and no link but those of allocated contexts is in it; each step of the pool
    finds the pointers it follows valid, also where it frees contexts while it
    goes through the queue, and the queue after it is the one of the next
    state. *)
Theorem queue_simulates min p q :
  queue_reachable min p q →
  reachable rd_pipe keep min p ∧
  SM_TAILQ_FOREACH (length (tm_ctx_head (p_tm p))) q = Some (tm_ctx_head (p_tm p)) ∧
  SM_TAILQ_FOREACH_REVERSE (length (tm_ctx_head (p_tm p))) q = Some (reverse (tm_ctx_head (p_tm p))) ∧
  (∀ c, allocated c q ↔ c ∈ tm_ctx_head (p_tm p)) ∧
  ∀ a junk p', exec rd_pipe keep a p = Next p' →
    ∃ q', queue_exec junk a p q = Some q' ∧ queue_reachable min p' q'.
Proof.
  intros Q. destruct (queue_reachable_queued min p q Q) as [R Hq].
  pose proof (reachable_inv _ _ _ _ R) as I. pose proof (qd_repr _ _ Hq) as Hr. split_and!; [done|..].
  - unfold SM_TAILQ_FOREACH. rewrite (first_repr _ _ Hr). apply (foreach_forward q [] _ Hr).
  - unfold SM_TAILQ_FOREACH_REVERSE. rewrite (last_repr _ _ Hr). apply (foreach_backward q _ []).
    rewrite app_nil_r. done.
  - intros c. rewrite (qd_alloc _ _ Hq). symmetry. apply (core_mem _ _ _ _ _ (inv_core _ _ I)).
  - intros a junk p' Ha. destruct (queue_step junk a p p' q I Hq Ha) as (q' & E & _).
    exists q'. split; [done|]. by econstructor.
Qed.

(** A run of both. *)
Fixpoint queue_run (junk : entry) (l : list (@action P)) (p : @pool P) (q : tailq) : option (@pool P * tailq) :=
  match l with
  | [] => Some (p, q)
  | a :: r =>
      match exec rd_pipe keep a p, queue_exec junk a p q with
      | Next p', Some q' => queue_run junk r p' q'
      | _, _ => None
      end
  end.

Lemma queue_run_reachable min junk l : ∀ p q p' q',
  queue_reachable min p q → queue_run junk l p q = Some (p', q') → queue_reachable min p' q'.
Proof.
  induction l as [|a l IH]; intros p q p' q' R H; cbn in H; [by simplify_eq|].
  destruct (exec rd_pipe keep a p) as [p1| |] eqn:E; try done.
  destruct (queue_exec junk a p q) as [q1|] eqn:E'; [|done]. eapply IH; [|exact H]. by econstructor.
Qed.
End queue.

(** ** Witness *)

(** Two sessions arrive; the links of new contexts hold a wild pointer. *)
Definition demo_two : list (@action unit) := demo_ready ++ [AStart true 8 demo_ctx].

Definition demo_junk : entry := mk_entry (Some 99%nat) (NextOf 99).

Definition demo_both : @pool unit * tailq :=
  default (pool_start 0, SM_TAILQ_INIT (mk_tailq None Head ∅))
    (queue_run 3 true demo_junk demo_two (pool_start 0) (SM_TAILQ_INIT (mk_tailq None Head ∅))).

Lemma demo_both_reachable : queue_reachable 3 true 0 demo_both.1 demo_both.2.
Proof.
  unfold demo_both. destruct (queue_run _ _ _ _ _ _) as [[p q]|] eqn:E; [|by constructor].
  eapply queue_run_reachable; [|exact E]. by constructor.
Qed.

Lemma queue_simulates_witness :
  tm_ctx_head (p_tm demo_both.1) = [7; 8]%nat ∧ SM_TAILQ_FOREACH_REVERSE 2 demo_both.2 = Some [8; 7]%nat.
Proof.
  split; [vm_compute; reflexivity|].
  apply (queue_simulates 3 true 0 demo_both.1 demo_both.2 demo_both_reachable).
Defined.
