(* ===== verification/Monitor.v ===== *)
(** * The thread monitor: libmilter/monitor.c

    With _FFR_THREAD_MONITOR a thread of its own watches how long the callbacks
    of the filter take and stops the milter when one takes too long.  The
    default build leaves this out; the model is of the code as it is with the
    flag.

    As in Worker.v the threads interleave freely and the code under [Mon_mutex]
    is one step, or several while the monitor keeps the mutex.  The worker
    threads enter with MI_MONITOR_BEGIN and MI_MONITOR_END around a callback,
    once for a context at a time, as the engine does (engine.c:404).  An action
    carries the time that time(NULL) gives in it.  The contexts are queued on
    the pointers of Tailq.v. *)

From stdpp Require Import base option numbers gmap sets list.
From Stdlib Require Import ZArith Lia Sorting.Sorted.
From S2P Require Import Prelude Mfdef Worker Tailq.
Local Open Scope Z_scope.

(** ** State *)

(** Where the monitoring thread is. *)
Inductive mpc :=
  | MNone                                        (* not created *)
  | MNew                                         (* created *)
  | MTop                                         (* at the head of the loop, with the mutex *)
  | MWait (abstime : option Z) (signalled : bool)  (* waiting for the condition *)
  | MWoken                                       (* woken, with the mutex again *)
  | MExit (ret : Z).                             (* returned *)

#[global] Instance mpc_eq_dec : EqDecision mpc.
Proof. solve_decision. Defined.

(** The static variables; [ctx_start] is that field of all allocated contexts,
    whose fields [ctx_mon_link] are in [Mon_ctx_head].  [m_busy] holds the
    contexts between MI_MONITOR_BEGIN and MI_MONITOR_END, and [m_log] the
    warnings (now, end, context). *)
Record mon := mk_mon {
  Monitor : bool;
  Mon_exec_time : Z;
  Mon_cur_ctx : option nat;
  Mon_ctx_head : tailq;
  ctx_start : gmap nat Z;
  m_pc : mpc;
  m_stop : Z;
  m_busy : gset nat;
  m_log : list (Z * Z * nat)
}.

Definition set_monitor v m := mk_mon v (Mon_exec_time m) (Mon_cur_ctx m) (Mon_ctx_head m) (ctx_start m) (m_pc m) (m_stop m) (m_busy m) (m_log m).
Definition set_exec_time v m := mk_mon (Monitor m) v (Mon_cur_ctx m) (Mon_ctx_head m) (ctx_start m) (m_pc m) (m_stop m) (m_busy m) (m_log m).
Definition set_cur v m := mk_mon (Monitor m) (Mon_exec_time m) v (Mon_ctx_head m) (ctx_start m) (m_pc m) (m_stop m) (m_busy m) (m_log m).
Definition set_queue v m := mk_mon (Monitor m) (Mon_exec_time m) (Mon_cur_ctx m) v (ctx_start m) (m_pc m) (m_stop m) (m_busy m) (m_log m).
Definition set_starts v m := mk_mon (Monitor m) (Mon_exec_time m) (Mon_cur_ctx m) (Mon_ctx_head m) v (m_pc m) (m_stop m) (m_busy m) (m_log m).
Definition set_mpc v m := mk_mon (Monitor m) (Mon_exec_time m) (Mon_cur_ctx m) (Mon_ctx_head m) (ctx_start m) v (m_stop m) (m_busy m) (m_log m).
Definition set_mstop v m := mk_mon (Monitor m) (Mon_exec_time m) (Mon_cur_ctx m) (Mon_ctx_head m) (ctx_start m) (m_pc m) v (m_busy m) (m_log m).
Definition set_busy v m := mk_mon (Monitor m) (Mon_exec_time m) (Mon_cur_ctx m) (Mon_ctx_head m) (ctx_start m) (m_pc m) (m_stop m) v (m_log m).
Definition add_log v m := mk_mon (Monitor m) (Mon_exec_time m) (Mon_cur_ctx m) (Mon_ctx_head m) (ctx_start m) (m_pc m) (m_stop m) (m_busy m) (m_log m ++ [v]).

(** Static data is zero. *)
Definition mon0 : mon := mk_mon false 0 None (mk_tailq None Null ∅) ∅ MNone MILTER_CONT ∅ [].

Inductive mresult := MNext (m : mon) | MDisabled | MFault (f : fault).

(** ** Operations *)

Definition smfi_set_max_exec_time (tm : Z) (m : mon) : Z * mon := (MI_SUCCESS, set_exec_time tm m).

(** The test of [mi_stop_milters]; the closing of the listening socket is in
    Server.v. *)
Definition stop_milters (v : Z) (m : mon) : mon := if m_stop m <? v then set_mstop v m else m.

(** MON_CHK_STOP for the context [c] that started at [start]: [None] is to go
    on; otherwise the milter is stopped and the loop left. *)
Definition MON_CHK_STOP (now : Z) (c : nat) (start : Z) (m : mon) : option mon :=
  if start + Mon_exec_time m <? now
  then Some (stop_milters MILTER_STOP (add_log (now, start + Mon_exec_time m, c) m))
  else None.

(** [Mon_cur_ctx != NULL && Mon_cur_ctx->ctx_start > 0]: the context and its
    start. *)
Definition watched (m : mon) : option (option (nat * Z)) :=
  match Mon_cur_ctx m with
  | None => Some None
  | Some c => start ← ctx_start m !! c; Some (if 0 <? start then Some (c, start) else None)
  end.

(** The steps of [mi_monitor_thread]; [ok]: the thread could be detached. *)
Definition mi_monitor_thread (ok : bool) (now : Z) (m : mon) : mresult :=
  match m_pc m with
  | MNew =>
      if negb (Monitor m && (0 <? Mon_exec_time m)) then MFault AssertFailed
      else if negb ok then MNext (set_mpc (MExit 1) m) else MNext (set_mpc MTop m)
  | MTop =>
      if negb (m_stop m =? MILTER_CONT) then MNext (set_mpc (MExit 0) m)
      else match watched m with
      | None => MFault UseAfterFree
      | Some (Some (c, start)) =>
          match MON_CHK_STOP now c start m with
          | Some m => MNext (set_mpc (MExit 0) m)
          | None => MNext (set_mpc (MWait (Some (start + Mon_exec_time m)) false) m)
          end
      | Some None => MNext (set_mpc (MWait None false) m)
      end
  | MWoken =>
      if negb (m_stop m =? MILTER_CONT) then MNext (set_mpc (MExit 0) m)
      else match watched m with
      | None => MFault UseAfterFree
      | Some (Some (c, start)) =>
          match MON_CHK_STOP now c start m with
          | Some m => MNext (set_mpc (MExit 0) m)
          | None => MNext (set_mpc MTop m)
          end
      | Some None => MNext (set_mpc MTop m)
      end
  | MNone | MWait _ _ | MExit _ => MDisabled
  end.

(** [created]: what thread_create returns. *)
Definition mi_monitor_init (mutex : bool) (cond created : Z) (m : mon) : fault + Z * mon :=
  if Monitor m then inl AssertFailed
  else if Mon_exec_time m <=? 0 then inr (MI_SUCCESS, m)
  else
    let m := set_monitor true m in
    if negb mutex then inr (MI_FAILURE, m)
    else if negb (cond =? 0) then inr (MI_FAILURE, m)
    else
      let m := set_queue (SM_TAILQ_INIT (Mon_ctx_head m)) m in
      if negb (created =? 0) then inr (created, m) else inr (MI_SUCCESS, set_mpc MNew m).

(** scond_signal(&Mon_cv) *)
Definition cond_signal (m : mon) : mon :=
  match m_pc m with MWait t _ => set_mpc (MWait t true) m | _ => m end.

(** [None] is an access through a pointer that is not valid. *)
Definition mi_monitor_work_begin (c : nat) (now : Z) (m : mon) : option mon :=
  let m := match Mon_cur_ctx m with None => cond_signal (set_cur (Some c) m) | Some _ => m end in
  _ ← ctx_start m !! c;
  let m := set_starts (<[c := now]> (ctx_start m)) m in
  q ← SM_TAILQ_INSERT_TAIL c (Mon_ctx_head m);
  Some (set_queue q m).

Definition mi_monitor_work_end (c : nat) (m : mon) : option mon :=
  _ ← ctx_start m !! c;
  let m := set_starts (<[c := 0]> (ctx_start m)) m in
  q ← SM_TAILQ_REMOVE c (Mon_ctx_head m);
  let m := set_queue q m in
  Some (if decide (Mon_cur_ctx m = Some c)
        then if SM_TAILQ_EMPTY q then set_cur None m else set_cur (SM_TAILQ_FIRST q) m
        else m).

Definition MI_MONITOR_BEGIN (c : nat) (now : Z) (m : mon) : option mon :=
  if Monitor m then mi_monitor_work_begin c now m else Some m.

Definition MI_MONITOR_END (c : nat) (m : mon) : option mon :=
  if Monitor m then mi_monitor_work_end c m else Some m.

(** ** Runs *)

(** Whether the monitoring thread has the mutex. *)
Definition mutex_taken (m : mon) : bool := match m_pc m with MTop | MWoken => true | _ => false end.

Inductive maction :=
  | MAlloc (c : nat) (junk : entry)    (* a context is allocated *)
  | MFree (c : nat)                    (* and freed, outside of callbacks *)
  | MBegin (c : nat)                   (* the engine is about to call the filter *)
  | MEnd (c : nat)                     (* the callback has returned *)
  | MThread (ok : bool)                (* the monitoring thread *)
  | MWake                              (* its wait ends *)
  | MStop (v : Z).                     (* another thread stops the milter *)

Definition of_option (o : option mon) : mresult :=
  match o with Some m => MNext m | None => MFault NullDeref end.

Definition mexec (a : maction) (now : Z) (m : mon) : mresult :=
  match a with
  | MAlloc c junk =>
      if decide (ctx_start m !! c = None)
      then let q := Mon_ctx_head m in
           MNext (set_starts (<[c := 0]> (ctx_start m)) (set_queue (set_links (<[c := junk]> (links q)) q) m))
      else MDisabled
  | MFree c =>
      if decide (c ∈ m_busy m) then MDisabled
      else let q := Mon_ctx_head m in
           MNext (set_starts (delete c (ctx_start m)) (set_queue (set_links (delete c (links q)) q) m))
  | MBegin c =>
      if decide (c ∈ m_busy m) then MDisabled
      else if decide (ctx_start m !! c = None) then MDisabled
      else if mutex_taken m then MDisabled
      else of_option (set_busy ({[c]} ∪ m_busy m) <$> MI_MONITOR_BEGIN c now m)
  | MEnd c =>
      if decide (c ∈ m_busy m) then
        if mutex_taken m then MDisabled
        else of_option (set_busy (m_busy m ∖ {[c]}) <$> MI_MONITOR_END c m)
      else MDisabled
  | MThread ok => mi_monitor_thread ok now m
  | MWake => match m_pc m with MWait _ _ => MNext (set_mpc MWoken m) | _ => MDisabled end
  | MStop v => MNext (stop_milters v m)
  end.

(** After a start without failures, with at most [tm] seconds for a callback. *)
Definition mon_start (tm : Z) : mon :=
  match mi_monitor_init true 0 0 (smfi_set_max_exec_time tm mon0).2 with
  | inr (_, m) => m
  | inl _ => mon0
  end.

Definition start (m : mon) (c : nat) : Z := default 0 (ctx_start m !! c).

(** A callback that has taken longer than allowed. *)
Definition overdue (now : Z) (m : mon) (c : nat) : Prop := c ∈ m_busy m ∧ start m c + Mon_exec_time m < now.

(** ** The invariant *)

Section monitor.

(** The clock never goes back. *)
Variable steady : Prop.
Variable tm : Z.

(** The states of a run with the time of the last step. *)
Inductive watches : Z → mon → Prop :=
  | w_init t : watches t (mon_start tm)
  | w_step t m a now m' :
      watches t m → 0 < now → (steady → t <= now) → mexec a now m = MNext m' → watches now m'.

(** [l] is the list of contexts in callbacks, the oldest first, which is the
    one that is monitored; a thread that waits unsignalled does not wait longer
    than until the end of its time. *)
Record minv (t : Z) (m : mon) (l : list nat) : Prop := mk_minv {
  i_on : Monitor m = true;
  i_tm : Mon_exec_time m = tm;
  i_repr : repr (Mon_ctx_head m) l;
  i_cur : Mon_cur_ctx m = head l;
  i_busy : ∀ c, c ∈ l ↔ c ∈ m_busy m;
  i_alloc : ∀ c, allocated c (Mon_ctx_head m) ↔ is_Some (ctx_start m !! c);
  i_start : ∀ c, c ∈ l → 0 < start m c ∧ (steady → start m c <= t);
  i_sorted : steady → StronglySorted (fun c d => start m c <= start m d) l;
  i_wait : ∀ abstime c, m_pc m = MWait abstime false → head l = Some c →
    ∃ e, abstime = Some e ∧ (steady → e <= start m c + tm)
}.

Lemma minv_alloc t m l c : minv t m l → c ∈ l → ∃ s, ctx_start m !! c = Some s ∧ start m c = s.
Proof.
  intros I (k & r & E)%list_elem_of_split. pose proof (i_repr _ _ _ I) as Hr. rewrite E in Hr.
  apply repr_split in Hr as (_ & _ & _ & _ & _ & _ & Ha & _). apply (i_alloc _ _ _ I) in Ha as [s Hs].
  exists s. unfold start. rewrite Hs. done.
Qed.

Lemma sorted_ext (f g : nat → Z) l :
  (∀ c, c ∈ l → g c = f c) →
  StronglySorted (fun c d => f c <= f d) l → StronglySorted (fun c d => g c <= g d) l.
Proof.
  intros E H. induction H as [|c l Hs IH Hf]; constructor.
  - apply IH. intros d Hd. apply E. set_solver.
  - rewrite Forall_forall in *. intros d Hd. rewrite !E by set_solver. auto.
Qed.

Lemma sorted_snoc (f : nat → Z) l c :
  StronglySorted (fun c d => f c <= f d) l → (∀ d, d ∈ l → f d <= f c) →
  StronglySorted (fun c d => f c <= f d) (l ++ [c]).
Proof.
  induction 1 as [|d l Hs IH Hf]; intros H; cbn; constructor.
  - constructor.
  - constructor.
  - apply IH. set_solver.
  - rewrite Forall_app. split; [done|]. constructor; [|done]. apply H. set_solver.
Qed.

Lemma sorted_out (f : nat → Z) k c r :
  StronglySorted (fun c d => f c <= f d) (k ++ c :: r) → StronglySorted (fun c d => f c <= f d) (k ++ r).
Proof.
  induction k as [|d k IH]; cbn; inversion 1 as [|? ? Hs Hf]; subst; [done|].
  constructor; [auto|]. rewrite Forall_app, Forall_cons in *. tauto.
Qed.

Lemma sorted_head (f : nat → Z) l c d :
  StronglySorted (fun c d => f c <= f d) l → head l = Some c → d ∈ l → f c <= f d.
Proof.
  intros H Hh. destruct l as [|e l]; [done|]. cbn in Hh. simplify_eq. inversion H as [|? ? _ Hf]; subst.
  rewrite elem_of_cons. intros [->|Hd]; [lia|]. rewrite Forall_forall in Hf. auto.
Qed.

Lemma start_insert m m' c s d :
  ctx_start m' = <[c := s]> (ctx_start m) → start m' d = if decide (d = c) then s else start m d.
Proof.
  unfold start. intros ->.
  case_decide as H; [subst; rewrite lookup_insert_eq|rewrite lookup_insert_ne by done]; done.
Qed.

Lemma minv_init t : 0 < tm → minv t (mon_start tm) [].
Proof.
  intros Htm. unfold mon_start, mi_monitor_init. cbn. rewrite (proj2 (Z.leb_gt tm 0) Htm). cbn.
  split; cbn; try done.
  - apply init_repr.
  - set_solver.
  - intros c. unfold allocated. cbn. rewrite !lookup_empty, !is_Some_alt. done.
  - set_solver.
  - intros _. constructor.
Qed.

(** Steps that only move the monitoring thread or raise the stop level. *)
Lemma minv_ext t now m m' l :
  minv t m l → (steady → t <= now) → Monitor m' = Monitor m → Mon_exec_time m' = Mon_exec_time m →
  Mon_ctx_head m' = Mon_ctx_head m → Mon_cur_ctx m' = Mon_cur_ctx m → m_busy m' = m_busy m →
  ctx_start m' = ctx_start m →
  (m_pc m' = m_pc m ∨ ∀ abstime c, m_pc m' = MWait abstime false → head l = Some c →
    ∃ e, abstime = Some e ∧ (steady → e <= start m c + tm)) →
  minv now m' l.
Proof.
  intros [I1 I2 I3 I4 I5 I6 I7 I8 I9] Ht E1 E2 E3 E4 E5 E6 Hpc.
  assert (Es : ∀ c, start m' c = start m c) by (intros c; unfold start; rewrite E6; done).
  split; try congruence.
  - by rewrite E5.
  - by rewrite E3, E6.
  - intros c Hc. rewrite Es. destruct (I7 c Hc) as [Hp Hs]. split; [done|]. intros S. specialize (Ht S). specialize (Hs S). lia.
  - intros S. eapply sorted_ext; [|apply I8, S]. auto.
  - intros ab c Hp Hh. setoid_rewrite Es. destruct Hpc as [E|H]; [rewrite E in Hp|]; eauto.
Qed.

Lemma watched_inv t m l :
  minv t m l → watched m = Some (c ← head l; Some (c, start m c)).
Proof.
  intros I. unfold watched. rewrite (i_cur _ _ _ I). destruct l as [|c l]; [done|]. cbn.
  destruct (minv_alloc t m _ c I) as (s & Hs & Es); [set_solver|]. rewrite Hs. cbn.
  destruct (i_start _ _ _ I c) as [Hp _]; [set_solver|]. rewrite Es in *.
  rewrite (proj2 (Z.ltb_lt 0 s) Hp). done.
Qed.

Lemma minv_begin t now m l c :
  minv t m l → 0 < now → (steady → t <= now) → c ∉ m_busy m → is_Some (ctx_start m !! c) →
  ∃ m', mi_monitor_work_begin c now m = Some m' ∧ m_busy m' = m_busy m ∧
    minv now (set_busy ({[c]} ∪ m_busy m) m') (l ++ [c]).
Proof.
  intros I Hnow Ht Hc Hs. pose proof I as [I1 I2 I3 I4 I5 I6 I7 I8 I9].
  assert (Hcl : c ∉ l) by (rewrite I5; done).
  destruct (insert_tail_becomes (Mon_ctx_head m) l c I3) as (q & Hq & Hr & Ha & _); [by apply I6|done|].
  set (m1 := match Mon_cur_ctx m with None => cond_signal (set_cur (Some c) m) | Some _ => m end).
  assert (E : Monitor m1 = Monitor m ∧ Mon_exec_time m1 = Mon_exec_time m ∧ Mon_ctx_head m1 = Mon_ctx_head m ∧
    ctx_start m1 = ctx_start m ∧ m_busy m1 = m_busy m).
  { unfold m1, cond_signal. repeat case_match; done. }
  destruct E as (E1 & E2 & E3 & E4 & E5).
  destruct Hs as [s0 Hs0]. unfold mi_monitor_work_begin. fold m1. rewrite E4, Hs0.
  cbn -[SM_TAILQ_INSERT_TAIL]. rewrite E3, Hq. cbn -[SM_TAILQ_INSERT_TAIL].
  eexists. split; [done|]. split; [done|].
  set (m' := set_busy _ _).
  assert (Es : ∀ d, start m' d = if decide (d = c) then now else start m d) by (intros d; by apply start_insert).
  assert (El : ∀ d, d ∈ l → start m' d = start m d).
  { intros d Hd. rewrite Es, decide_False; [done|]. set_solver. }
  assert (Ec : start m' c = now) by (rewrite Es, decide_True; done).
  split; cbn; try congruence.
  - unfold m1. rewrite I4. destruct l as [|d l]; cbn; [by unfold cond_signal; case_match|done].
  - intros d. rewrite elem_of_app, list_elem_of_singleton, I5. set_solver.
  - intros d. rewrite Ha, I6, lookup_insert_is_Some'. naive_solver.
  - intros d [Hd| ->%list_elem_of_singleton]%elem_of_app; [|rewrite Ec; lia].
    rewrite El by done. destruct (I7 d Hd) as [Hp Hle]. split; [done|]. intros S. specialize (Ht S). specialize (Hle S). lia.
  - intros S. apply sorted_snoc.
    + eapply sorted_ext; [|apply I8, S]. done.
    + intros d Hd. rewrite El, Ec by done. specialize (Ht S). destruct (I7 d Hd) as [_ Hle]. specialize (Hle S). lia.
  - intros ab d Hp Hh. unfold m1 in Hp. rewrite I4 in Hp. destruct l as [|e l]; cbn in *; simplify_eq.
    + unfold cond_signal in Hp. repeat case_match; simplify_eq; cbn in *; simplify_eq; congruence.
    + rewrite El by set_solver. eauto.
Qed.

Lemma minv_end t now m l c :
  minv t m l → (steady → t <= now) → c ∈ m_busy m →
  ∃ m' l', mi_monitor_work_end c m = Some m' ∧ m_busy m' = m_busy m ∧
    minv now (set_busy (m_busy m ∖ {[c]}) m') l'.
Proof.
  intros I Ht Hc. pose proof I as [I1 I2 I3 I4 I5 I6 I7 I8 I9].
  apply I5 in Hc as Hcl. destruct (minv_alloc t m l c I Hcl) as (s0 & Hs0 & _).
  apply list_elem_of_split in Hcl as (k & r & ->).
  destruct (remove_becomes (Mon_ctx_head m) k c r I3) as (q & Hq & Hr & Ha & _).
  pose proof (r_nodup _ _ I3) as (_ & Hd & [Hcr _]%NoDup_cons)%NoDup_app.
  unfold mi_monitor_work_end. rewrite Hs0. cbn -[SM_TAILQ_REMOVE SM_TAILQ_EMPTY]. rewrite Hq.
  cbn -[SM_TAILQ_REMOVE SM_TAILQ_EMPTY].
  rewrite (empty_repr _ _ Hr), (first_repr _ _ Hr).
  eexists _, (k ++ r). split; [done|]. split; [by repeat case_match|].
  set (m' := set_busy _ _).
  assert (E : Monitor m' = Monitor m ∧ Mon_exec_time m' = Mon_exec_time m ∧ Mon_ctx_head m' = q ∧
    ctx_start m' = <[c := 0]> (ctx_start m) ∧ m_pc m' = m_pc m ∧ m_busy m' = m_busy m ∖ {[c]}).
  { unfold m'. repeat case_match; done. }
  destruct E as (E1 & E2 & E3 & E4 & E5 & E6).
  assert (El : ∀ d, d ∈ k ++ r → start m' d = start m d).
  { intros d Hdin. rewrite (start_insert m m' c 0 d E4), decide_False; [done|]. set_solver. }
  split; try congruence.
  - unfold m'. cbn. rewrite I4. destruct k as [|d k]; cbn.
    + rewrite decide_True by done. destruct r; done.
    + rewrite decide_False; [|set_solver]. cbn. done.
  - intros d. rewrite E6, elem_of_difference, <- I5. set_solver.
  - intros d. rewrite E3, E4, Ha, I6, lookup_insert_is_Some'. naive_solver.
  - intros d Hdin. rewrite El by done. destruct (I7 d) as [Hp Hle]; [set_solver|]. split; [done|].
    intros S. specialize (Ht S). specialize (Hle S). lia.
  - intros S. eapply sorted_ext; [exact El|]. apply (sorted_out _ _ c). auto.
  - intros ab d Hp Hh. rewrite E5 in Hp. rewrite El by (by apply head_Some_elem_of).
    destruct (head (k ++ c :: r)) as [f|] eqn:Hf; [|by destruct k].
    destruct (I9 ab f Hp eq_refl) as (e & -> & He). exists e. split; [done|]. intros S. specialize (He S).
    assert (start m f <= start m d); [|lia]. apply (sorted_head (start m) _ _ _ (I8 S) Hf).
    apply head_Some_elem_of in Hh. set_solver.
Qed.

(** The loop of the thread: the milter is stopped exactly if the oldest callback
    is overdue. *)
Lemma thread_step t now m l ok :
  minv t m l → mutex_taken m = true → m_stop m = MILTER_CONT →
  mi_monitor_thread ok now m =
    match head l with
    | Some c =>
        if start m c + tm <? now
        then MNext (set_mpc (MExit 0) (set_mstop MILTER_STOP (add_log (now, start m c + tm, c) m)))
        else MNext (set_mpc (if decide (m_pc m = MTop) then MWait (Some (start m c + tm)) false else MTop) m)
    | None => MNext (set_mpc (if decide (m_pc m = MTop) then MWait None false else MTop) m)
    end.
Proof.
  intros I Hm Hs. unfold mi_monitor_thread, MON_CHK_STOP, stop_milters.
  rewrite (watched_inv _ _ _ I), Hs, (i_tm _ _ _ I). unfold mutex_taken in Hm.
  destruct (m_pc m); try done; cbn; (destruct (head l) as [c|]; cbn; [|done]);
    (destruct (_ <? now); [|done]); rewrite Hs; done.
Qed.

Lemma minv_thread t now m l ok m' :
  minv t m l → (steady → t <= now) → mi_monitor_thread ok now m = MNext m' → minv now m' l.
Proof.
  intros I Ht H. destruct (mutex_taken m) eqn:Hm.
  - destruct (decide (m_stop m = MILTER_CONT)) as [Hs|Hs].
    + rewrite (thread_step t now m l ok I Hm Hs) in H. destruct (head l) as [c|] eqn:Hh.
      * destruct (_ <? now); simplify_eq; apply (minv_ext t now m); try done; right; cbn; [done|].
        intros ab d. case_decide; intros; simplify_eq. eexists. split; [done|]. lia.
      * simplify_eq. apply (minv_ext t now m); try done. right. cbn. congruence.
    + unfold mi_monitor_thread, mutex_taken in *. apply Z.eqb_neq in Hs. rewrite Hs in H. cbn in H.
      destruct (m_pc m); simplify_eq; apply (minv_ext t now m); try done; right; done.
  - unfold mi_monitor_thread, mutex_taken in *. destruct (m_pc m); try done.
    destruct (negb _); [done|]. destruct ok; cbn in H; simplify_eq; apply (minv_ext t now m); try done; right; done.
Qed.

Lemma minv_memory t now m l c q (f : gmap nat Z) :
  minv t m l → (steady → t <= now) → c ∉ l →
  tqh_first q = tqh_first (Mon_ctx_head m) → tqh_last q = tqh_last (Mon_ctx_head m) →
  (∀ d, d ≠ c → links q !! d = links (Mon_ctx_head m) !! d ∧ f !! d = ctx_start m !! d) →
  (allocated c q ↔ is_Some (f !! c)) → minv now (set_starts f (set_queue q m)) l.
Proof.
  intros [I1 I2 I3 I4 I5 I6 I7 I8 I9] Ht Hc E1 E2 E3 Ea.
  assert (Es : ∀ d, d ∈ l → start (set_starts f (set_queue q m)) d = start m d).
  { intros d Hd. unfold start. cbn. destruct (E3 d) as [_ ->]; [|done]. set_solver. }
  split; cbn; try done.
  - apply (repr_ext (Mon_ctx_head m)); try done. intros d Hd. apply E3. set_solver.
  - intros d. destruct (decide (d = c)) as [->|Hd]; [done|]. unfold allocated.
    destruct (E3 d Hd) as [-> ->]. apply I6.
  - intros d Hd. rewrite Es by done. destruct (I7 d Hd) as [Hp Hle]. split; [done|].
    intros S. specialize (Ht S). specialize (Hle S). lia.
  - intros S. eapply sorted_ext; [exact Es|auto].
  - intros ab d Hp Hh. rewrite Es by (by apply head_Some_elem_of). eauto.
Qed.

Lemma minv_step t now m l a m' :
  minv t m l → 0 < now → (steady → t <= now) → mexec a now m = MNext m' → ∃ l', minv now m' l'.
Proof.
  intros I Hnow Ht H. destruct a as [c junk|c|c|c|ok| |v]; cbn in H.
  - case_decide as Hc; simplify_eq. exists l. apply (minv_memory t now m l c); try done.
    + intros Hl. destruct (minv_alloc t m l c I Hl) as (s & Hs & _). congruence.
    + intros d Hd. cbn. rewrite !lookup_insert_ne; done.
    + unfold allocated. cbn. rewrite !lookup_insert_eq, !is_Some_alt. done.
  - case_decide as Hc; simplify_eq. exists l. apply (minv_memory t now m l c); try done.
    + by rewrite (i_busy _ _ _ I).
    + intros d Hd. cbn. rewrite !lookup_delete_ne; done.
    + unfold allocated. cbn. rewrite !lookup_delete_eq, !is_Some_alt. done.
  - repeat case_decide; try done. destruct (mutex_taken m); [done|].
    unfold MI_MONITOR_BEGIN in H. rewrite (i_on _ _ _ I) in H.
    destruct (minv_begin t now m l c I Hnow Ht) as (m1 & E & Eb & I1); [done|by apply not_eq_None_Some|].
    rewrite E in H. cbn in H. simplify_eq. eauto.
  - case_decide as Hc; [|done]. destruct (mutex_taken m); [done|].
    unfold MI_MONITOR_END in H. rewrite (i_on _ _ _ I) in H.
    destruct (minv_end t now m l c I Ht Hc) as (m1 & l' & E & Eb & I1).
    rewrite E in H. cbn in H. simplify_eq. eauto.
  - exists l. by eapply minv_thread.
  - exists l. case_match; simplify_eq. apply (minv_ext t now m); try done. right. done.
  - exists l. simplify_eq. unfold stop_milters. case_match; apply (minv_ext t now m); try done; by left.
Qed.

Lemma watches_inv t m : 0 < tm → watches t m → ∃ l, minv t m l.
Proof.
  intros Htm. induction 1 as [t|t m a now m' _ [l I] Hnow Ht H]; [exists []; by apply minv_init|]. by eapply minv_step.
Qed.
End monitor.

(** ** What the monitor does *)

(** Whatever the threads and the clock do, the monitor follows no pointer that
    is not valid and no assertion of it fails. *)
Theorem monitor_safe tm t m a now f :
  0 < tm → watches False tm t m → 0 < now → mexec a now m ≠ MFault f.
Proof.
  intros Htm R Hnow. destruct (watches_inv False tm t m Htm R) as [l I]. destruct a as [c junk|c|c|c|ok| |v]; cbn.
  - by case_decide.
  - by case_decide.
  - repeat case_decide; try done. destruct (mutex_taken m); [done|].
    unfold MI_MONITOR_BEGIN. rewrite (i_on _ _ _ _ _ I).
    destruct (minv_begin False tm t now m l c I Hnow) as (m1 & E & _); [done|done|by apply not_eq_None_Some|].
    rewrite E. done.
  - case_decide; [|done]. destruct (mutex_taken m); [done|].
    unfold MI_MONITOR_END. rewrite (i_on _ _ _ _ _ I).
    destruct (minv_end False tm t now m l c I) as (m1 & l' & E & _); [done|done|]. rewrite E. done.
  - unfold mi_monitor_thread, MON_CHK_STOP. rewrite (watched_inv _ _ _ _ _ I), (i_on _ _ _ _ _ I), (i_tm _ _ _ _ _ I).
    rewrite (proj2 (Z.ltb_lt 0 tm) Htm). cbn. destruct (m_pc m), ok, (m_stop m =? MILTER_CONT), l; cbn; try done; by case_match.
  - by case_match.
  - done.
Qed.

(** With a clock that never goes back, in any interleaving:
    the monitored context is the one whose callback was entered the longest
    time ago, exactly, and there is none only if no callback runs;
    the thread never sleeps past the end of the time of any callback, unless a
    signal is on its way to it;
    and in each round it stops the milter if a callback has taken longer than
    allowed, and only then. *)
Theorem monitor_watches tm t m :
  0 < tm → watches True tm t m →
  match Mon_cur_ctx m with
  | None => ∀ c, c ∉ m_busy m
  | Some c => c ∈ m_busy m ∧ ∀ d, d ∈ m_busy m → start m c <= start m d
  end ∧
  (∀ abstime c, m_pc m = MWait abstime false → c ∈ m_busy m →
     ∃ e, abstime = Some e ∧ e <= start m c + tm) ∧
  (∀ ok now, mutex_taken m = true → m_stop m = MILTER_CONT →
     ∃ m', mexec (MThread ok) now m = MNext m' ∧
       ((∃ c, overdue now m c) ∧ m_stop m' = MILTER_STOP ∧ m_pc m' = MExit 0 ∨
        (∀ c, ~ overdue now m c) ∧ m_stop m' = MILTER_CONT ∧ ∀ r, m_pc m' ≠ MExit r)).
Proof.
  intros Htm R. destruct (watches_inv True tm t m Htm R) as [l I].
  assert (Hh : ∀ c d, head l = Some c → d ∈ m_busy m → start m c <= start m d).
  { intros c d Hc Hd%(i_busy _ _ _ _ _ I). apply (sorted_head (start m) l); [|done|done].
    by apply (i_sorted _ _ _ _ _ I). }
  assert (He : head l = None → ∀ c, c ∉ m_busy m).
  { intros Hn c Hc%(i_busy _ _ _ _ _ I). destruct l; [set_solver|done]. }
  split_and!.
  - rewrite (i_cur _ _ _ _ _ I). destruct (head l) as [c|] eqn:E; [|auto].
    split; [|eauto]. by apply (i_busy _ _ _ _ _ I), head_Some_elem_of.
  - intros ab d Hp Hd. destruct (head l) as [c|] eqn:E; [|by edestruct He].
    destruct (i_wait _ _ _ _ _ I ab c Hp E) as (e & -> & Hle). exists e. split; [done|].
    specialize (Hle Logic.I). pose proof (Hh c d eq_refl Hd). lia.
  - intros ok now Hm Hs. cbn [mexec]. rewrite (thread_step True tm t now m l ok I Hm Hs). unfold overdue.
    rewrite (i_tm _ _ _ _ _ I). destruct (head l) as [c|] eqn:E.
    + destruct (Z.ltb_spec (start m c + tm) now) as [Hlt|Hge]; eexists; (split; [done|]).
      * left. split; [|done]. exists c. split; [|done]. by apply (i_busy _ _ _ _ _ I), head_Some_elem_of.
      * right. split; [|by case_decide]. intros d [Hd Hlt]. pose proof (Hh c d eq_refl Hd). lia.
    + eexists. split; [done|]. right. split; [|by case_decide]. intros d [Hd _]. by edestruct He.
Qed.

(** When the mutex or the condition cannot be initialised, monitoring is on all
    the same and the queue is not initialised, and smfi_main goes on to the
    listener (main.c:263): the first callback then writes through NULL. *)
Theorem monitor_init_failure tm mutex cond created c junk now :
  0 < tm → mutex = false ∨ cond ≠ 0 →
  ∃ m, mi_monitor_init mutex cond created (smfi_set_max_exec_time tm mon0).2 = inr (MI_FAILURE, m) ∧
    ∃ m', mexec (MAlloc c junk) now m = MNext m' ∧ mexec (MBegin c) now m' = MFault NullDeref.
Proof.
  intros Htm H. unfold mi_monitor_init. cbn. rewrite (proj2 (Z.leb_gt tm 0) Htm).
  exists (set_monitor true (set_exec_time tm mon0)). split.
  - destruct mutex; [|done]. destruct H as [|H]; [done|]. apply Z.eqb_neq in H. rewrite H. done.
  - eexists. split; [done|]. cbn [mexec m_busy set_starts ctx_start]. rewrite decide_False by set_solver.
    rewrite decide_False by (rewrite lookup_insert_eq; done).
    cbn -[SM_TAILQ_INSERT_TAIL]. unfold mi_monitor_work_begin. cbn -[SM_TAILQ_INSERT_TAIL].
    rewrite lookup_insert_eq. cbn -[SM_TAILQ_INSERT_TAIL]. rewrite insert_tail_null; done.
Qed.

(** In the second in which the time of a callback ends, the thread is woken at
    once each time it waits: it waits for a time that has come and stops the
    milter only after it. *)
Theorem monitor_spins tm t m ok c :
  0 < tm → watches False tm t m → m_pc m = MWoken → m_stop m = MILTER_CONT → Mon_cur_ctx m = Some c →
  ∃ m1 m2, mexec (MThread ok) (start m c + tm) m = MNext m1 ∧ mexec (MThread ok) (start m c + tm) m1 = MNext m2 ∧
    m_pc m2 = MWait (Some (start m c + tm)) false ∧ m_stop m2 = MILTER_CONT.
Proof.
  intros Htm R Hp Hs Hc. destruct (watches_inv False tm t m Htm R) as [l I].
  rewrite (i_cur _ _ _ _ _ I) in Hc. eexists _, _. cbn [mexec].
  rewrite (thread_step False tm t _ m l ok I) by (done || by unfold mutex_taken; rewrite Hp).
  rewrite Hc, (proj2 (Z.ltb_ge (start m c + tm) (start m c + tm)) (Z.le_refl _)), Hp, decide_False by done.
  split; [done|]. assert (I1 : minv False tm t (set_mpc MTop m) l).
  { apply (minv_ext False tm t t m); try done. by right. }
  rewrite (thread_step False tm t _ (set_mpc MTop m) l ok I1) by done. rewrite Hc.
  change (start (set_mpc MTop m) c) with (start m c).
  rewrite (proj2 (Z.ltb_ge (start m c + tm) (start m c + tm)) (Z.le_refl _)). done.
Qed.

(** ** Witnesses *)

Fixpoint mrun (l : list (maction * Z)) (m : mon) : option mon :=
  match l with
  | [] => Some m
  | (a, now) :: r => match mexec a now m with MNext m' => mrun r m' | _ => None end
  end.

(** The times of a run are positive and do not go back. *)
Fixpoint in_time (t : Z) (l : list (maction * Z)) : bool :=
  match l with [] => true | (_, now) :: r => (0 <? now) && (t <=? now) && in_time now r end.

Lemma mrun_watches steady tm l : ∀ t m m',
  watches steady tm t m → in_time t l = true → mrun l m = Some m' → ∃ t', watches steady tm t' m'.
Proof.
  induction l as [|[a now] l IH]; intros t m m' R Ht H; cbn in *; [simplify_eq; eauto|].
  apply andb_prop in Ht as [[H1%Z.ltb_lt H2%Z.leb_le]%andb_prop H3].
  destruct (mexec a now m) as [m1| |] eqn:E; try done. eapply IH; [|exact H3|exact H].
  apply (w_step steady tm t m a now); done.
Qed.

(** Two callbacks begin while the thread waits, and it is woken: the first is
    overdue. *)
Definition demo_watch : list (maction * Z) :=
  let x := mk_entry None Null in
  [(MThread true, 100); (MAlloc 5 x, 100); (MAlloc 6 x, 100); (MThread true, 100);
   (MBegin 5, 103); (MBegin 6, 105); (MWake, 120)].

Definition demo_mon : mon := default mon0 (mrun demo_watch (mon_start 10)).

Lemma demo_mon_watches steady : ∃ t, watches steady 10 t demo_mon.
Proof.
  unfold demo_mon. destruct (mrun demo_watch (mon_start 10)) as [m|] eqn:E; [|vm_compute in E; discriminate E].
  apply (mrun_watches steady 10 demo_watch 100 (mon_start 10)); [constructor|reflexivity|exact E].
Qed.

Lemma monitor_safe_witness : mexec (MEnd 5) 121 demo_mon ≠ MFault NullDeref.
Proof.
  destruct (demo_mon_watches False) as [t R].
  apply (monitor_safe 10 t demo_mon (MEnd 5) 121 NullDeref); [lia|exact R|lia].
Defined.

Lemma monitor_watches_witness :
  Mon_cur_ctx demo_mon = Some 5%nat ∧
  ∃ m', mexec (MThread true) 121 demo_mon = MNext m' ∧
    ((∃ c, overdue 121 demo_mon c) ∧ m_stop m' = MILTER_STOP ∧ m_pc m' = MExit 0 ∨
     (∀ c, ~ overdue 121 demo_mon c) ∧ m_stop m' = MILTER_CONT ∧ ∀ r, m_pc m' ≠ MExit r).
Proof.
  destruct (demo_mon_watches True) as [t R]. split; [vm_compute; reflexivity|].
  destruct (monitor_watches 10 t demo_mon ltac:(lia) R) as (_ & _ & H).
  apply (H true 121); vm_compute; reflexivity.
Defined.

Lemma monitor_init_failure_witness :
  ∃ m, mi_monitor_init false 0 0 (smfi_set_max_exec_time 10 mon0).2 = inr (MI_FAILURE, m).
Proof.
  destruct (monitor_init_failure 10 false 0 0 5%nat (mk_entry None Null) 100) as (m & E & _);
    [lia|left; reflexivity|]. exists m. exact E.
Defined.

Lemma monitor_spins_witness : ∃ m1, mexec (MThread true) (start demo_mon 5 + 10) demo_mon = MNext m1.
Proof.
  destruct (demo_mon_watches False) as [t R].
  destruct (monitor_spins 10 t demo_mon true 5) as (m1 & _ & E & _);
    [lia|exact R|vm_compute; reflexivity..|]. exists m1. exact E.
Defined.
