(* ===== verification/Listener.v ===== *)
(** * The listening socket: libmilter/listener.c

    [mi_opensocket] and [mi_milteropen] parse the socket description of the
    configuration and open the socket, [mi_closener] closes it and removes its
    file, and the body of [mi_listener] accepts connections and builds the context
    each session starts from.  The loop itself, with the threads it runs beside,
    is in [Server].

    What the system answers to the calls is an argument.  [l_trace] lists the
    calls that create, remove or use a socket. *)

From stdpp Require Import base option numbers sets list strings.
From Stdlib Require Import Strings.Byte ZArith Lia.
From S2P Require Import Prelude Mfdef Inet Smfi.
Import CStr.
Local Open Scope Z_scope.

Definition INVALID_SOCKET : Z := -1.
Definition ValidSocket (sd : Z) : bool := 0 <=? sd.

(** Values of the system's headers. *)
Definition AF_UNSPEC : Z := 0.
Definition AF_UNIX : Z := 1.
Definition AF_INET : Z := 2.
Definition sizeof_sun_path : Z := 108.
Definition sizeof_sockaddr_un : Z := 110.
Definition sizeof_sockaddr_in : Z := 16.

Definition MAX_FAILS_M : Z := 16.
Definition MAX_FAILS_T : Z := 16.
Definition MAX_FAILS_A : Z := 16.

(** ** Strings *)

(** [strchr]: the index of the first such character. *)
Fixpoint strchr (s : bytes) (c : byte) : option nat :=
  match s with
  | [] => None
  | d :: r => if decide (d = c) then Some 0%nat else S <$> strchr r c
  end.

Definition tolower (c : byte) : byte :=
  if (65 <=? uchar c) && (uchar c <=? 90) then byte_of (uchar c + 32) else c.

(** [strcasecmp(s, t) == 0] *)
Definition same_nocase (s t : bytes) : bool := bool_decide (tolower <$> s = tolower <$> t).

Definition LONG_MAX : Z := 2 ^ 63 - 1.

(** [(unsigned short) atoi(s)] where [s] starts with a digit: [atoi] converts
    what [strtol] gives, which stays within a long. *)
Definition atoi_ushort (s : bytes) : Z := Z.min (read_digits 10 s 0).1 LONG_MAX mod 65536.

(** ** The state of listener.c *)

Inductive syscall :=
  | SysSocket (fd : Z)
  | SysClose (fd : Z)
  | SysUnlink (path : bytes)
  | SysBind (fd : Z) (addr : sockaddr) (len : Z)
  | SysListen (fd backlog : Z).

(** [l_conn] is the socket description, a string of main.c that is written to
    while it is parsed. *)
Record lsock := mk_lsock {
  listenfd : Z;
  sockpath : option bytes;
  L_family : Z;
  L_socksize : Z;
  l_conn : bytes;
  l_trace : list syscall
}.

Definition set_listenfd v s := mk_lsock v (sockpath s) (L_family s) (L_socksize s) (l_conn s) (l_trace s).
Definition set_sockpath v s := mk_lsock (listenfd s) v (L_family s) (L_socksize s) (l_conn s) (l_trace s).
Definition set_family v s := mk_lsock (listenfd s) (sockpath s) v (L_socksize s) (l_conn s) (l_trace s).
Definition set_socksize v s := mk_lsock (listenfd s) (sockpath s) (L_family s) v (l_conn s) (l_trace s).
Definition set_conn v s := mk_lsock (listenfd s) (sockpath s) (L_family s) (L_socksize s) v (l_trace s).
Definition sys c s := mk_lsock (listenfd s) (sockpath s) (L_family s) (L_socksize s) (l_conn s) (l_trace s ++ [c]).

(** The static data before any call. *)
Definition lsock0 (conn : bytes) : lsock := mk_lsock INVALID_SOCKET None 0 0 conn [].

(** What [stat] says about the path. *)
Inductive stat_ans := StatNoEnt | StatError | StatSock | StatOther.

(** Answers of the library and the system. *)
Record open_env := mk_oenv {
  o_getservbyname : bytes -> option Z;            (* port of a service *)
  o_gethostbyname : bytes -> option (Z * bytes);  (* family and address *)
  o_socket : Z;
  o_cloexec : bool;
  o_reuseaddr : bool;
  o_stat : stat_ans;
  o_unlink : bool;
  o_bind : bool;
  o_listen : bool;
  o_malloc : bool
}.

(** ** Opening *)

(** Only the requested family is returned. *)
Definition mi_gethostbyname (e : open_env) (name : bytes) (family : Z) : option (Z * bytes) :=
  match o_gethostbyname e name with
  | Some (t, a) => if t =? family then Some (t, a) else None
  | None => None
  end.

(** [inet_addr], where INADDR_NONE is [None]. *)
Definition inet_addr (s : bytes) : option bytes :=
  match inet_aton s with
  | Some a => if bool_decide (a = [xff; xff; xff; xff]) then None else Some a
  | None => None
  end.

(** protocol: the family, the size of its addresses, and the rest.  [inl]: the
    state at a failure. *)
Definition open_proto (s : lsock) : lsock + (Z * bytes * lsock) :=
  let conn := l_conn s in
  let unix rest := inr (AF_UNIX, rest, set_socksize sizeof_sockaddr_un s) in
  match strchr conn ":"%byte with
  | Some i =>
      let p := take i conn in
      let rest := drop (S i) conn in
      if bool_decide (p = []) then unix rest
      else if same_nocase p (lit "unix") || same_nocase p (lit "local") then unix rest
      else if same_nocase p (lit "inet") then inr (AF_INET, rest, set_socksize sizeof_sockaddr_in s)
      else inl (set_conn p s)
  | None => unix conn
  end.

(** The port, by number or by name. *)
Definition open_port (e : open_env) (s : bytes) : option Z :=
  match s with
  | c :: _ => if (uchar c <? 128) && isdigit c then Some (atoi_ushort s) else o_getservbyname e s
  | [] => o_getservbyname e s
  end.

(** The host after the @. *)
Definition open_host (e : open_env) (host : bytes) : option bytes :=
  match host with
  | "["%byte :: h =>
      match strchr h "]"%byte with
      | Some j => inet_addr (take j h)
      | None => None
      end
  | _ => match mi_gethostbyname e host AF_INET with Some (_, a) => Some (take 4 a) | None => None end
  end.

Definition INADDR_ANY : bytes := [x00; x00; x00; x00].

(** port@host; [rest] is the end of the string in [l_conn]. *)
Definition open_inet (e : open_env) (rest : bytes) (s : lsock) : lsock + sockaddr :=
  match strchr rest "@"%byte with
  | None =>
      match open_port e rest with
      | None => inl s
      | Some port => inr (SA_INET INADDR_ANY port)
      end
  | Some i =>
      match open_port e (take i rest) with
      | None => inl (set_conn (take (length (l_conn s) - length rest + i) (l_conn s)) s)
      | Some port =>
          match open_host e (drop (S i) rest) with
          | None => inl s
          | Some a => inr (SA_INET a port)
          end
      end
  end.

Definition open_unix (rest : bytes) (s : lsock) : lsock + sockaddr :=
  if sizeof_sun_path <=? Z.of_nat (length rest) + 1 then inl s else inr (SA_UNIX rest).

(** The file that is in the way is removed if it is a socket: false is a failure. *)
Definition open_remove (e : open_env) (path : bytes) (s : lsock) : bool * lsock :=
  match o_stat e with
  | StatNoEnt => (true, s)
  | StatError | StatOther => (false, s)
  | StatSock => if o_unlink e then (true, sys (SysUnlink path) s) else (false, s)
  end.

(** The calls on the new socket. *)
Definition open_socket (e : open_env) (backlog : Z) (rmsocket : bool) (addr : sockaddr) (s : lsock) : Z * lsock :=
  let sock := o_socket e in
  if negb (ValidSocket sock) then (INVALID_SOCKET, s)
  else
    let s := sys (SysSocket sock) s in
    let fail s := (INVALID_SOCKET, sys (SysClose sock) s) in
    let is_unix := match addr with SA_UNIX _ => true | SA_INET _ _ => false end in
    if negb (o_cloexec e) then fail s
    else if negb is_unix && negb (o_reuseaddr e) then fail s
    else
      let '(ok, s) := match addr with
        | SA_UNIX path => if rmsocket then open_remove e path s else (true, s)
        | SA_INET _ _ => (true, s)
        end in
      if negb ok then fail s
      else if negb (o_bind e) then fail s
      else
        let s := sys (SysBind sock addr (L_socksize s)) s in
        if negb (o_listen e) then fail s
        else
          let s := sys (SysListen sock backlog) s in
          match addr with
          | SA_UNIX path =>
              if o_malloc e then (sock, set_family AF_UNIX (set_sockpath (Some path) s))
              else fail (set_sockpath None s)
          | SA_INET _ _ => (sock, set_family AF_INET s)
          end.

Definition mi_milteropen (e : open_env) (backlog : Z) (rmsocket : bool) (s : lsock) : Z * lsock :=
  if bool_decide (l_conn s = []) then (INVALID_SOCKET, s)
  else
    match open_proto s with
    | inl s => (INVALID_SOCKET, s)
    | inr (family, rest, s) =>
        match (if family =? AF_UNIX then open_unix rest s else open_inet e rest s) with
        | inl s => (INVALID_SOCKET, s)
        | inr addr => open_socket e backlog rmsocket addr s
        end
    end.

Definition mi_opensocket (e : open_env) (backlog : Z) (rmsocket : bool) (s : lsock) : Z * lsock :=
  if ValidSocket (listenfd s) then (MI_SUCCESS, s)
  else
    let '(fd, s) := mi_milteropen e backlog rmsocket s in
    let s := set_listenfd fd s in
    if negb (ValidSocket (listenfd s)) then (MI_FAILURE, s) else (MI_SUCCESS, s).

(** ** Closing *)

(** What the system says at the end: the effective user, the types of the socket
    and of the file at the path, and whether they are the same inode. *)
Inductive file_type := FtFifo | FtSock | FtOther.

Record close_env := mk_cenv {
  c_euid : Z;
  c_fstat : option file_type;
  c_stat : option (file_type * bool)
}.

Definition fifo_or_sock (t : file_type) : bool := match t with FtFifo | FtSock => true | FtOther => false end.
Definition is_sock (t : file_type) : bool := match t with FtSock => true | _ => false end.

Definition mi_closener (e : close_env) (s : lsock) : lsock :=
  if ValidSocket (listenfd s) then
    let removable :=
      bool_decide (is_Some (sockpath s)) && negb (c_euid e =? 0) &&
      match c_fstat e with Some t => fifo_or_sock t | None => false end in
    let s := set_listenfd INVALID_SOCKET (sys (SysClose (listenfd s)) s) in
    match sockpath s with
    | Some path =>
        let s :=
          if removable && match c_stat e with
                          | Some (t, same) => (same || is_sock t) && fifo_or_sock t
                          | None => false
                          end
          then sys (SysUnlink path) s else s in
        set_sockpath None s
    | None => s
    end
  else s.

(** ** The context of a session *)

Definition new_ctx {W P} (smfi : smfiDesc W) (dbg timeout : Z) (initpriv : P) (connfd : Z) : smfi_str P :=
  let flag (b : bool) f := if b then f else 0 in
  let none {A} (o : option A) := bool_decide (o = None) in
  set_ctx_pflags
    (Z.lor (Z.lor (Z.lor (Z.lor (Z.lor (Z.lor (Z.lor (Z.lor
      (flag (none (xxfi_connect smfi)) SMFIP_NOCONNECT)
      (flag (none (xxfi_helo smfi)) SMFIP_NOHELO))
      (flag (none (xxfi_envfrom smfi)) SMFIP_NOMAIL))
      (flag (none (xxfi_envrcpt smfi)) SMFIP_NORCPT))
      (flag (none (xxfi_header smfi)) SMFIP_NOHDRS))
      (flag (none (xxfi_eoh smfi)) SMFIP_NOEOH))
      (flag (none (xxfi_body smfi)) SMFIP_NOBODY))
      (flag ((xxfi_version smfi <=? 3) || none (xxfi_data smfi)) SMFIP_NODATA))
      (flag ((xxfi_version smfi <=? 2) || none (xxfi_unknown smfi)) SMFIP_NOUNKNOWN))
    (set_ctx_timeout timeout (set_ctx_dbg dbg (set_ctx_sd connfd (zero_ctx initpriv)))).

(** ** Socket descriptions *)

(** What a description can say. *)
Inductive proto_name := PUnix | PLocal | PEmpty | PNone.

Inductive sockspec :=
  | SpecUnix (name : proto_name) (path : bytes)
  | SpecInet (port : Z) (host : option bytes).

Definition print_proto (n : proto_name) : bytes :=
  match n with PUnix => lit "unix:" | PLocal => lit "local:" | PEmpty => lit ":" | PNone => [] end.

Definition print_spec (d : sockspec) : bytes :=
  match d with
  | SpecUnix n path => print_proto n ++ path
  | SpecInet port None => lit "inet:" ++ udec 5 port
  | SpecInet port (Some a) => lit "inet:" ++ udec 5 port ++ lit "@[" ++ inet_ntop a ++ lit "]"
  end.

(** Descriptions that can be opened: paths that fit, ports, addresses but for the
    one that is INADDR_NONE. *)
Definition spec_ok (d : sockspec) : Prop :=
  match d with
  | SpecUnix n path =>
      Z.of_nat (length path) + 1 < sizeof_sun_path /\
      (n = PNone -> path <> [] /\ ":"%byte ∉ path)
  | SpecInet port host =>
      0 <= port < 65536 /\
      match host with None => True | Some a => length a = 4%nat /\ a <> [xff; xff; xff; xff] end
  end.

(** The address, its size and family, and the path to remove at the end. *)
Definition spec_addr (d : sockspec) : sockaddr :=
  match d with
  | SpecUnix _ path => SA_UNIX path
  | SpecInet port host => SA_INET (default INADDR_ANY host) port
  end.

Definition spec_size (d : sockspec) : Z :=
  match d with SpecUnix _ _ => sizeof_sockaddr_un | SpecInet _ _ => sizeof_sockaddr_in end.

Definition spec_family (d : sockspec) : Z := match d with SpecUnix _ _ => AF_UNIX | SpecInet _ _ => AF_INET end.

Definition spec_path (d : sockspec) : option bytes :=
  match d with SpecUnix _ path => Some path | SpecInet _ _ => None end.

Lemma strchr_app_None s c t : c ∉ s -> strchr (s ++ c :: t) c = Some (length s).
Proof.
  induction s as [|d s IH]; intros N; simpl; [by rewrite decide_True|].
  apply not_elem_of_cons in N as [Nd N]. rewrite decide_False by congruence. by rewrite IH.
Qed.

Lemma strchr_None s c : c ∉ s -> strchr s c = None.
Proof.
  induction s as [|d s IH]; intros N; simpl; [done|].
  apply not_elem_of_cons in N as [Nd N]. rewrite decide_False by congruence. by rewrite IH.
Qed.

Lemma digit_char_val n : 0 <= n < 10 -> digit_val 10 (byte_of (48 + n)) = Some n /\
  uchar (byte_of (48 + n)) = 48 + n.
Proof.
  intros H. assert (E : uchar (byte_of (48 + n)) = 48 + n) by (rewrite uchar_byte_of; apply Z.mod_small; lia).
  split; [|done]. unfold digit_val. rewrite E.
  rewrite (proj2 (Z.leb_le 48 (48 + n))), (proj2 (Z.leb_le (48 + n) 57)) by lia. simpl.
  rewrite (proj2 (Z.ltb_lt _ _)) by lia. f_equal. lia.
Qed.

Lemma read_digits_dec fuel : forall n r, 0 <= n < 10 ^ Z.of_nat fuel -> (0 < fuel)%nat ->
  read_digits 10 (udec fuel n ++ r) 0 = read_digits 10 r n.
Proof.
  induction fuel as [|f IH]; intros n r H L; [lia|]. cbn [udec]. rewrite <- app_assoc.
  destruct (digit_char_val (n mod 10)) as [D _]; [apply Z.mod_pos_bound; lia|].
  destruct (Z.ltb_spec n 10) as [S|B].
  - simpl. rewrite D, Z.mod_small by lia. done.
  - rewrite Nat2Z.inj_succ, Z.pow_succ_r in H by lia.
    assert (0 < f)%nat by (destruct f; [simpl in H; lia|lia]).
    rewrite IH; [|split; [apply Z.div_pos; lia|apply Z.div_lt_upper_bound; lia]|done].
    simpl. rewrite D. f_equal. rewrite (Z.div_mod n 10) at 3 by lia. lia.
Qed.

Lemma udec_digit fuel : forall n, 0 <= n -> Forall (fun c => 48 <= uchar c <= 57) (udec fuel n).
Proof.
  induction fuel as [|f IH]; intros n H; simpl; [constructor|]. apply Forall_app. split.
  - destruct (n <? 10); [constructor|]. apply IH, Z.div_pos; lia.
  - constructor; [|constructor]. pose proof (Z.mod_pos_bound n 10 ltac:(lia)) as B. rewrite (proj2 (digit_char_val (n mod 10) B)). lia.
Qed.

Lemma udec_head fuel n r : (0 < fuel)%nat -> 0 <= n ->
  exists c t, udec fuel n ++ r = c :: t /\ (uchar c <? 128) && isdigit c = true.
Proof.
  intros L H. pose proof (udec_digit fuel n H) as F.
  assert (N : udec fuel n <> []) by (destruct fuel; [lia|]; simpl; by destruct (n <? 10), (udec fuel (n / 10))).
  destruct (udec fuel n) as [|c t]; [done|]. apply Forall_cons in F as [F _].
  exists c, (t ++ r). split; [done|]. unfold isdigit. rewrite !andb_true_iff, Z.ltb_lt, !Z.leb_le. lia.
Qed.

Lemma open_port_dec e n r : 0 <= n < 65536 -> (forall c t, r = c :: t -> digit_val 10 c = None) ->
  open_port e (udec 5 n ++ r) = Some n.
Proof.
  intros H Hr. destruct (udec_head 5 n r) as (c & t & E & D); [lia|lia|].
  unfold open_port. pose proof E as E'. destruct (udec 5 n ++ r) as [|c' t'] eqn:Ed; [done|].
  simplify_eq. rewrite D, <- Ed. unfold atoi_ushort. rewrite read_digits_dec by lia.
  assert (R : (read_digits 10 r n).1 = n).
  { destruct r as [|c' t']; [done|]. simpl. by rewrite (Hr _ _ eq_refl). }
  rewrite R, Z.min_l by (unfold LONG_MAX; lia). by rewrite Z.mod_small.
Qed.

Lemma inet_ntop_no_bracket a : length a = 4%nat -> "]"%byte ∉ inet_ntop a.
Proof.
  intros L. destruct a as [|a0 [|a1 [|a2 [|a3 [|]]]]]; try done. unfold inet_ntop.
  assert (N : forall b, "]"%byte ∉ dec_byte b).
  { intros b H. assert (F : bool_decide ("]"%byte ∈ dec_byte b) = true) by (by apply bool_decide_true). revert F.
    clear H. destruct b; vm_compute; discriminate. }
  rewrite !elem_of_app, !elem_of_cons, !elem_of_app, !elem_of_cons, elem_of_app, elem_of_cons. naive_solver.
Qed.

(** What follows the protocol. *)
Definition spec_rest (d : sockspec) : bytes :=
  match d with
  | SpecUnix _ path => path
  | SpecInet port None => udec 5 port
  | SpecInet port (Some a) => udec 5 port ++ lit "@[" ++ inet_ntop a ++ lit "]"
  end.

Lemma open_proto_print d s : spec_ok d -> l_conn s = print_spec d ->
  open_proto s = inr (spec_family d, spec_rest d, set_socksize (spec_size d) s).
Proof.
  intros H E. unfold open_proto. rewrite E. destruct d as [[| | |] path|port [a|]]; try reflexivity.
  destruct H as (_ & H). destruct (H eq_refl) as [_ N]. cbn [print_spec print_proto app]. by rewrite (strchr_None _ _ N).
Qed.

Lemma at_not_digits n : 0 <= n -> "@"%byte ∉ udec 5 n.
Proof.
  intros H N. pose proof (udec_digit 5 n H) as F. rewrite Forall_forall in F. specialize (F _ N).
  unfold uchar in F. simpl in F. lia.
Qed.

Lemma open_inet_print e port host s : spec_ok (SpecInet port host) ->
  open_inet e (spec_rest (SpecInet port host)) s = inr (spec_addr (SpecInet port host)).
Proof.
  intros [H Ha]. unfold open_inet. destruct host as [a|]; cbn [spec_rest spec_addr default].
  - destruct Ha as [L N]. change (lit "@[" ++ inet_ntop a ++ lit "]") with ("@"%byte :: "["%byte :: inet_ntop a ++ ["]"%byte]).
    rewrite (strchr_app_None (udec 5 port) "@"%byte) by (apply at_not_digits; lia).
    rewrite take_app_length. rewrite <- (app_nil_r (udec 5 port)) at 1. rewrite open_port_dec by done.
    rewrite <- Nat.add_1_r, drop_app_add. cbn [drop open_host].
    rewrite strchr_app_None by (by apply inet_ntop_no_bracket). rewrite take_app_length. unfold inet_addr.
    destruct a as [|a0 [|a1 [|a2 [|a3 [|]]]]]; try done. rewrite inet_roundtrip. by rewrite bool_decide_false.
  - rewrite strchr_None by (apply at_not_digits; lia). rewrite <- (app_nil_r (udec 5 port)). by rewrite open_port_dec.
Qed.

(** All calls of an opening succeed. *)
Definition all_succeed (e : open_env) : Prop :=
  0 <= o_socket e /\ o_cloexec e = true /\ o_reuseaddr e = true /\ o_stat e = StatNoEnt /\
  o_bind e = true /\ o_listen e = true /\ o_malloc e = true.

(** C32: A socket description that is written down is opened as what it says.  For
    every path that fits and every port and numeric address, in each of the forms
    unix:, local:, : and no protocol, inet:port and inet:port@[address], the
    socket is created, bound to exactly that address with the size of its family
    and set to listen, nothing else is called, the description is left as it was,
    and family and path are kept for accepting and closing. *)
Theorem conn_roundtrip (e : open_env) (d : sockspec) (backlog : Z) (rmsocket : bool) (s : lsock) :
  all_succeed e -> spec_ok d -> l_conn s = print_spec d ->
  mi_milteropen e backlog rmsocket s =
  (o_socket e, mk_lsock (listenfd s) (match spec_path d with Some p => Some p | None => sockpath s end)
     (spec_family d) (spec_size d) (l_conn s)
     (l_trace s ++ [SysSocket (o_socket e); SysBind (o_socket e) (spec_addr d) (spec_size d); SysListen (o_socket e) backlog])).
Proof.
  intros (H1 & H2 & H3 & H4 & H5 & H6 & H7) Hd Ec. unfold mi_milteropen.
  rewrite bool_decide_false; [|rewrite Ec; destruct d as [[| | |] path|port [a|]]; try done; by apply Hd].
  rewrite (open_proto_print d s Hd Ec).
  assert (A : (if spec_family d =? AF_UNIX then open_unix (spec_rest d) (set_socksize (spec_size d) s)
               else open_inet e (spec_rest d) (set_socksize (spec_size d) s)) = inr (spec_addr d)).
  { destruct d as [n path|port host]; [|by apply (open_inet_print e port host)].
    simpl. unfold open_unix. destruct Hd as [Hl _]. by rewrite (proj2 (Z.leb_gt _ _)). }
  rewrite A. unfold open_socket, ValidSocket, open_remove. rewrite (proj2 (Z.leb_le _ _)) by done.
  rewrite H2, H3, H4, H5, H6, H7. cbn [negb andb].
  destruct d as [n path|port host]; cbn; [destruct rmsocket|]; cbn; unfold set_family, set_sockpath, sys, set_socksize; simpl; by rewrite <- !app_assoc.
Qed.

(** ** Descriptors *)

(** The sockets that are open after the calls. *)
Definition open_fds (l : list syscall) : list Z :=
  fold_left (fun fds c => match c with
    | SysSocket fd => fd :: fds
    | SysClose fd => filter (fun d => d <> fd) fds
    | _ => fds
    end) l [].

(** Calls that neither create nor close a socket. *)
Definition plain_call (c : syscall) : Prop := match c with SysSocket _ | SysClose _ => False | _ => True end.

Lemma open_fds_plain fd new : Forall plain_call new ->
  open_fds (SysSocket fd :: new) = [fd] /\ open_fds (SysSocket fd :: new ++ [SysClose fd]) = [].
Proof.
  intros H. unfold open_fds. simpl. rewrite fold_left_app. simpl.
  assert (F : forall l, fold_left (fun fds c => match c with
      | SysSocket fd => fd :: fds | SysClose fd => filter (fun d => d <> fd) fds | _ => fds end) new l = l).
  { induction H as [|c new Hc _ IH]; intros l; [done|]. simpl. rewrite IH. by destruct c. }
  rewrite F. split; [done|]. by rewrite filter_cons_False by tauto.
Qed.

(** What an attempt to open a socket has called: the socket it returns is bound
    and listens, or none is left open; a file is removed only if it is a socket
    and that was asked for. *)
Definition attempt (e : open_env) (backlog : Z) (rm : bool) (addr : sockaddr) (s : lsock) (fd : Z) (s' : lsock) : Prop :=
  exists new, l_trace s' = l_trace s ++ new /\ open_fds new = (if ValidSocket fd then [fd] else []) /\
    (ValidSocket fd = true -> SysBind fd addr (L_socksize s) ∈ new /\ SysListen fd backlog ∈ new) /\
    (forall p, SysUnlink p ∈ new -> addr = SA_UNIX p /\ rm = true /\ o_stat e = StatSock).

Lemma attempt_fails e backlog rm addr s t new :
  Forall plain_call new -> l_trace t = l_trace s ++ SysSocket (o_socket e) :: new ->
  (forall p, SysUnlink p ∈ new -> addr = SA_UNIX p /\ rm = true /\ o_stat e = StatSock) ->
  attempt e backlog rm addr s INVALID_SOCKET (sys (SysClose (o_socket e)) t).
Proof.
  intros Hn Et Hu. exists (SysSocket (o_socket e) :: new ++ [SysClose (o_socket e)]).
  split; [simpl; rewrite Et, <- app_assoc; done|]. split; [by apply open_fds_plain|]. split; [done|].
  intros p. rewrite elem_of_cons, elem_of_app, list_elem_of_singleton. intros [?|[?|?]]; [done|auto|done].
Qed.

(** The part before bind. *)
Lemma open_remove_trace e (rm : bool) addr s ok t :
  match addr with SA_UNIX path => if rm then open_remove e path s else (true, s) | SA_INET _ _ => (true, s) end = (ok, t) ->
  L_socksize t = L_socksize s /\ exists new, Forall plain_call new /\ l_trace t = l_trace s ++ new /\
    forall p, SysUnlink p ∈ new -> addr = SA_UNIX p /\ rm = true /\ o_stat e = StatSock.
Proof.
  assert (N : exists new, Forall plain_call new /\ l_trace s = l_trace s ++ new /\
    forall p, SysUnlink p ∈ new -> addr = SA_UNIX p /\ rm = true /\ o_stat e = StatSock).
  { exists (@nil syscall). rewrite app_nil_r. split_and!; [constructor|done|]. intros p. by rewrite elem_of_nil. }
  unfold open_remove. destruct addr as [a port|path]; [intros [= <- <-]; done|].
  destruct rm; [|intros [= <- <-]; done]. destruct (o_stat e); try (intros [= <- <-]; done).
  destruct (o_unlink e); intros [= <- <-]; [|done]. split; [done|]. exists [SysUnlink path].
  split_and!; [by repeat constructor|done|]. intros p [= ->]%list_elem_of_singleton. done.
Qed.

Lemma open_socket_attempt e backlog rm addr s fd s' :
  open_socket e backlog rm addr s = (fd, s') -> attempt e backlog rm addr s fd s'.
Proof.
  unfold open_socket. destruct (ValidSocket (o_socket e)) eqn:V; simpl.
  2: { intros [= <- <-]. exists []. rewrite app_nil_r. split_and!; try done. intros p. by rewrite elem_of_nil. }
  assert (F0 : attempt e backlog rm addr s INVALID_SOCKET (sys (SysClose (o_socket e)) (sys (SysSocket (o_socket e)) s))).
  { apply (attempt_fails _ _ _ _ _ _ []); [constructor|done|]. intros p. by rewrite elem_of_nil. }
  destruct (o_cloexec e); simpl; [|by intros [= <- <-]].
  destruct (negb _ && negb (o_reuseaddr e)); [by intros [= <- <-]|].
  destruct (match addr with SA_UNIX path => _ | _ => _ end) as [ok t] eqn:E.
  apply open_remove_trace in E as (Es & new & Hn & Et & Hu). simpl in Es, Et. rewrite <- app_assoc in Et. simpl in Et.
  destruct ok; simpl; [|intros [= <- <-]; by eapply attempt_fails].
  destruct (o_bind e); simpl; [|intros [= <- <-]; by eapply attempt_fails].
  set (b := SysBind (o_socket e) addr (L_socksize t)). set (l := SysListen (o_socket e) backlog).
  assert (Hu' : forall p k, (forall q, SysUnlink q ∉ k) -> SysUnlink p ∈ new ++ k ->
    addr = SA_UNIX p /\ rm = true /\ o_stat e = StatSock).
  { intros p k Nk [?|?]%elem_of_app; [auto|by destruct (Nk p)]. }
  destruct (o_listen e); simpl.
  2: { intros [= <- <-]. apply (attempt_fails _ _ _ _ _ _ (new ++ [b])); [apply Forall_app; by repeat constructor| |].
       - simpl. by rewrite Et, <- app_assoc.
       - intros p. apply Hu'. intros q. by rewrite list_elem_of_singleton. }
  assert (G : forall u, l_trace u = l_trace s ++ SysSocket (o_socket e) :: new ++ [b; l] -> attempt e backlog rm addr s (o_socket e) u).
  { intros u Eu. exists (SysSocket (o_socket e) :: new ++ [b; l]). rewrite V. split; [done|].
    split; [apply open_fds_plain, Forall_app; by repeat constructor|]. split.
    - intros _. rewrite <- Es. split; set_solver.
    - intros p. rewrite elem_of_cons. intros [?|?]; [done|]. eapply Hu'; [|done]. set_solver. }
  assert (Ht : l_trace (sys l (sys b t)) = l_trace s ++ SysSocket (o_socket e) :: new ++ [b; l]).
  { simpl. rewrite Et, <- !app_assoc. done. }
  destruct addr as [a port|path]; [intros [= <- <-]; by apply G|].
  destruct (o_malloc e); intros [= <- <-]; [by apply G|].
  apply (attempt_fails _ _ _ _ _ _ (new ++ [b; l])); [apply Forall_app; by repeat constructor|done|].
  intros p. apply Hu'. set_solver.
Qed.

Lemma open_fds_app l new : open_fds l = [] -> open_fds (l ++ new) = open_fds new.
Proof. intros H. unfold open_fds in *. by rewrite fold_left_app, H. Qed.

Lemma open_proto_frame s : match open_proto s with
  | inl t => l_trace t = l_trace s /\ sockpath t = sockpath s
  | inr (_, _, t) => l_trace t = l_trace s /\ sockpath t = sockpath s
  end.
Proof. unfold open_proto. repeat case_match; simplify_eq; done. Qed.

Lemma open_addr_frame e (family : Z) rest s t :
  (if family =? AF_UNIX then open_unix rest s else open_inet e rest s) = inl t ->
  l_trace t = l_trace s /\ sockpath t = sockpath s.
Proof. unfold open_unix, open_inet. repeat case_match; intros; simplify_eq; done. Qed.

(** Every attempt, whatever the description. *)
Lemma mi_milteropen_attempt e backlog rm s fd s' :
  mi_milteropen e backlog rm s = (fd, s') ->
  exists addr t, l_trace t = l_trace s /\ attempt e backlog rm addr t fd s'.
Proof.
  assert (F : forall t, l_trace t = l_trace s -> exists addr u, l_trace u = l_trace s /\ attempt e backlog rm addr u INVALID_SOCKET t).
  { intros t Et. exists (SA_UNIX []), t. split; [done|]. exists []. rewrite app_nil_r. split_and!; try done.
    intros p. by rewrite elem_of_nil. }
  unfold mi_milteropen. case_bool_decide; [intros [= <- <-]; auto|].
  pose proof (open_proto_frame s) as P. destruct (open_proto s) as [t|[[family rest] t]]; destruct P as [P _].
  { intros [= <- <-]. auto. }
  destruct (if family =? AF_UNIX then _ else _) as [u|addr] eqn:E.
  - apply open_addr_frame in E as [E _]. intros [= <- <-]. apply F. congruence.
  - intros K. exists addr, t. split; [done|]. by apply open_socket_attempt.
Qed.

Lemma mi_closener_again ce ce' s : mi_closener ce' (mi_closener ce s) = mi_closener ce s.
Proof.
  assert (N : ValidSocket (listenfd (mi_closener ce s)) = false).
  { unfold mi_closener. destruct (ValidSocket (listenfd s)) eqn:V; [|done]. simpl. repeat case_match; done. }
  unfold mi_closener at 1. by rewrite N.
Qed.

Lemma mi_closener_trace ce s : ValidSocket (listenfd s) = true ->
  ValidSocket (listenfd (mi_closener ce s)) = false /\ sockpath (mi_closener ce s) = None /\
  exists k, l_trace (mi_closener ce s) = l_trace s ++ SysClose (listenfd s) :: k /\
    (k = [] \/ exists p t same, k = [SysUnlink p] /\ sockpath s = Some p /\ c_euid ce <> 0 /\
       c_stat ce = Some (t, same) /\ fifo_or_sock t = true).
Proof.
  intros V. unfold mi_closener. rewrite V. simpl. destruct (sockpath s) as [p|] eqn:Ep; simpl.
  2: { split; [done|]. split; [done|]. exists []. auto. }
  destruct (negb (c_euid ce =? 0) && _ && _) eqn:B; simpl.
  - split; [done|]. split; [done|]. exists [SysUnlink p]. rewrite <- app_assoc. split; [done|]. right.
    apply andb_prop in B as [B1 B2]. apply andb_prop in B1 as [B1 _]. destruct (c_stat ce) as [[t same]|]; [|done].
    apply andb_prop in B2 as [_ B2]. exists p, t, same. split_and!; try done.
    by apply negb_true_iff, Z.eqb_neq in B1.
  - split; [done|]. split; [done|]. exists []. auto.
Qed.


(** ** Witnesses *)

Definition demo_open : open_env :=
  mk_oenv (fun _ => None) (fun _ => None) 6 true true StatNoEnt true true true true.

Definition demo_spec : sockspec := SpecInet 8025 (Some [x7f; x00; x00; x01]).

Lemma conn_roundtrip_witness :
  mi_milteropen demo_open 10 false (lsock0 (lit "inet:8025@[127.0.0.1]")) =
  (6, mk_lsock INVALID_SOCKET None AF_INET 16 (lit "inet:8025@[127.0.0.1]")
        [SysSocket 6; SysBind 6 (SA_INET [x7f; x00; x00; x01] 8025) 16; SysListen 6 10]).
Proof.
  apply (conn_roundtrip demo_open demo_spec 10 false (lsock0 (lit "inet:8025@[127.0.0.1]"))).
  - unfold all_succeed. simpl. repeat split; lia || reflexivity.
  - simpl. repeat split; lia || reflexivity || discriminate.
  - vm_compute. reflexivity.
Defined.


(** A port number above 65535 is taken modulo 65536. *)
Example port_wraps :
  (mi_milteropen demo_open 10 false (lsock0 (lit "inet:65561"))).2 =
  mk_lsock INVALID_SOCKET None AF_INET 16 (lit "inet:65561")
    [SysSocket 6; SysBind 6 (SA_INET INADDR_ANY 25) 16; SysListen 6 10].
Proof. vm_compute. reflexivity. Qed.

(** A description of an unknown protocol is cut at its colon. *)
Example unknown_protocol :
  mi_milteropen demo_open 10 false (lsock0 (lit "tcp:8025")) = (INVALID_SOCKET, lsock0 (lit "tcp")).
Proof. vm_compute. reflexivity. Qed.
