(* ===== verification/Server.v ===== *)
(** * The running server: the loop of [mi_listener] beside the worker pool

    The listener accepts connections and hands them to the pool, the signal
    thread (signal.c) asks for a stop and closes the listening socket; their steps
    interleave with those of [Worker].  The code of the listener under L_Mutex is
    one step, as is [mi_stop_milters]; a stop can come between the test of
    [mi_stop] and the lock.

    The theorems: every run of the server is one of the pool, so that the pool's
    theorems hold of it; no two sessions have the same socket, so that an event
    wakes the session it is for; how the listener ends. *)

From stdpp Require Import base option numbers gmap list strings.
From Stdlib Require Import ZArith Lia.
From S2P Require Import Prelude Mfdef Stm Engine EngineOrder Worker WorkerProps WorkerTheorems Listener.
Local Open Scope Z_scope.

(** ** Data *)

(** Errors of accept: those after which the loop just goes on, and others. *)
Inductive acc_errno := AccTransient | AccOther.

(** What accept gives: an error, or a socket with the family and the length of
    the peer's address. *)
Inductive accept_ans := AccErr (e : acc_errno) | AccOk (fd family len : Z).

(** What poll says of the listening socket, and accept if it is called. *)
Inductive select_ans := SelTimeout | SelEintr | SelError | SelExc | SelReady (a : accept_ans).

(** Where the listener is. *)
Inductive lpc :=
  | LTop                (* at the test of the loop *)
  | LLock               (* about to lock L_Mutex *)
  | LConn (fd : Z)      (* with a new connection *)
  | LDone (ret : Z).    (* [mi_listener] has returned *)

(** The variables of [mi_listener]. *)
Record lis := mk_lis { l_pc : lpc; l_mcnt : Z; l_tcnt : Z; l_acnt : Z; l_scnt : Z; l_clilen : Z }.

Definition set_lpc v l := mk_lis v (l_mcnt l) (l_tcnt l) (l_acnt l) (l_scnt l) (l_clilen l).
Definition set_mcnt v l := mk_lis (l_pc l) v (l_tcnt l) (l_acnt l) (l_scnt l) (l_clilen l).
Definition set_tcnt v l := mk_lis (l_pc l) (l_mcnt l) v (l_acnt l) (l_scnt l) (l_clilen l).
Definition set_acnt v l := mk_lis (l_pc l) (l_mcnt l) (l_tcnt l) v (l_scnt l) (l_clilen l).
Definition set_scnt v l := mk_lis (l_pc l) (l_mcnt l) (l_tcnt l) (l_acnt l) v (l_clilen l).
Definition set_clilen v l := mk_lis (l_pc l) (l_mcnt l) (l_tcnt l) (l_acnt l) (l_scnt l) v.

Section server.
Context {W P : Type}.

(** The arguments of [mi_listener]; the descriptor RD_PIPE; whether [nfd] survives
    a round of the controller. *)
Variables (smfi : smfiDesc W) (dbg timeout : Z) (initpriv : P) (rd_pipe : Z) (keep : bool).

Record server := mk_server { v_pool : @pool P; v_sock : lsock; v_lis : lis }.

Inductive sresult := SNext (v : server) | SDisabled | SFault (f : fault).

Definition set_lis (l : lis) (v : server) : server := mk_server (v_pool v) (v_sock v) l.

(** A stop is asked for, and the listening socket is closed. *)
Definition mi_stop_milters (n : Z) (ce : close_env) (v : server) : server :=
  mk_server (raise_stop n (v_pool v)) (mi_closener ce (v_sock v)) (v_lis v).

(** After the loop. *)
Definition lis_end (ret : Z) (ce : close_env) (v : server) : server :=
  let v := if negb (ret =? MI_SUCCESS) then mi_stop_milters MILTER_ABRT ce v
           else mk_server (v_pool v) (mi_closener ce (v_sock v)) (v_lis v) in
  set_lis (set_lpc (LDone ret) (v_lis v)) v.

(** A failure is counted by [set]; at [max] of them the loop is left. *)
Definition lis_failed (max n : Z) (set : Z -> lis -> lis) (ce : close_env) (v : server) : server :=
  let l := set (n + 1) (v_lis v) in
  if max <=? n + 1 then lis_end MI_FAILURE ce (set_lis l v) else set_lis (set_lpc LTop l) v.

Definition lis_top (ce : close_env) (v : server) : sresult :=
  match l_pc (v_lis v) with
  | LTop =>
      if p_stop (v_pool v) =? MILTER_CONT then SNext (set_lis (set_lpc LLock (v_lis v)) v)
      else SNext (lis_end MI_SUCCESS ce v)
  | _ => SDisabled
  end.

(** The kernel gives a descriptor that is not in use. *)
Definition fd_free (fd : Z) (v : server) : Prop :=
  0 <= fd /\ fd <> rd_pipe /\ fd <> listenfd (v_sock v) /\
  map_Forall (fun (_ : nat) (x : smfi_str P) => ctx_sd x <> fd) (p_mem (v_pool v)).

#[global] Instance fd_free_dec fd v : Decision (fd_free fd v).
Proof. unfold fd_free. apply _. Defined.

(** accept, with the socket's family in the address if it has room for it. *)
Definition lis_accept (a : accept_ans) (ce : close_env) (v : server) : sresult :=
  let l := v_lis v in
  match a with
  | AccErr AccTransient => SNext (set_lis (set_lpc LTop l) v)
  | AccErr AccOther => SNext (lis_failed MAX_FAILS_A (l_acnt l) set_acnt ce v)
  | AccOk fd family len =>
      if decide (fd_free fd v) then
        let seen := if 2 <=? l_clilen l then family else AF_UNSPEC in
        let v := set_lis (set_clilen len l) v in
        if (len =? 0) || negb (seen =? L_family (v_sock v))
        then SNext (lis_failed MAX_FAILS_A (l_acnt l) set_acnt ce v)
        else SNext (set_lis (set_lpc (LConn fd) (set_acnt 0 (v_lis v))) v)
      else SDisabled
  end.

Definition lis_select (s : select_ans) (ce : close_env) (v : server) : sresult :=
  let l := v_lis v in
  match l_pc l with
  | LLock =>
      if negb (ValidSocket (listenfd (v_sock v))) then SNext (lis_end MI_FAILURE ce v)
      else match s with
           | SelTimeout | SelEintr => SNext (set_lis (set_lpc LTop l) v)
           | SelError => SNext (lis_failed MAX_FAILS_S (l_scnt l) set_scnt ce v)
           | SelExc => SNext (lis_end MI_FAILURE ce v)
           | SelReady a => lis_accept a ce (set_lis (set_scnt 0 l) v)
           end
  | _ => SDisabled
  end.

(** The context, at the address malloc gives or none, and its session. *)
Definition lis_session (mem : option nat) (created : bool) (ce : close_env) (v : server) : sresult :=
  let l := v_lis v in
  match l_pc l with
  | LConn fd =>
      match mem with
      | None => SNext (lis_failed MAX_FAILS_M (l_mcnt l) set_mcnt ce v)
      | Some c =>
          if decide (p_mem (v_pool v) !! c = None) then
            let v := set_lis (set_mcnt 0 l) v in
            match mi_start_session created c (new_ctx smfi dbg timeout initpriv fd) (v_pool v) with
            | (false, _) => SNext (lis_failed MAX_FAILS_T (l_tcnt l) set_tcnt ce v)
            | (true, Next p) => SNext (mk_server p (v_sock v) (set_lpc LTop (set_tcnt 0 (v_lis v))))
            | (true, Disabled) => SDisabled
            | (true, Fault f) => SFault f
            end
          else SDisabled
      end
  | _ => SDisabled
  end.

(** ** Runs *)

Inductive saction :=
  | SPool (a : @action P)                             (* workers and controller *)
  | STop (ce : close_env)                             (* the listener *)
  | SSelect (s : select_ans) (ce : close_env)
  | SSession (mem : option nat) (created : bool) (ce : close_env)
  | SStop (abrt : bool) (ce : close_env).             (* the signal thread, smfi_stop *)

Definition sexec (a : saction) (v : server) : sresult :=
  match a with
  | SPool (AStart _ _ _ | AStop _) => SDisabled
  | SPool a =>
      match exec rd_pipe keep a (v_pool v) with
      | Next p => SNext (mk_server p (v_sock v) (v_lis v))
      | Disabled => SDisabled
      | Fault f => SFault f
      end
  | STop ce => lis_top ce v
  | SSelect s ce => lis_select s ce v
  | SSession mem created ce => lis_session mem created ce v
  | SStop abrt ce => SNext (mi_stop_milters (if abrt then MILTER_ABRT else MILTER_STOP) ce v)
  end.

(** The server after the start of [mi_listener]: the socket is open and the pool
    initialised. *)
Definition server_start (min : Z) (s : lsock) : server :=
  mk_server (pool_start min) s (mk_lis LTop 0 0 0 0 (L_socksize s)).

Definition started (s : lsock) : Prop :=
  ValidSocket (listenfd s) = true /\ open_fds (l_trace s) = [listenfd s].

Inductive sreachable (min : Z) : server -> Prop :=
  | sreach_init s : started s -> sreachable min (server_start min s)
  | sreach_step v a v' : sreachable min v -> sexec a v = SNext v' -> sreachable min v'.

Fixpoint srun (l : list saction) (v : server) : sresult :=
  match l with
  | [] => SNext v
  | a :: r => match sexec a v with SNext v' => srun r v' | e => e end
  end.

(** ** The pool inside the server *)

Lemma raise_reach min n (p : @pool P) : reachable rd_pipe keep min p -> reachable rd_pipe keep min (raise_stop n p).
Proof. intros R. by eapply (reach_step _ _ _ _ (AStop n)). Qed.

Lemma lis_end_pool ret ce v : v_pool (lis_end ret ce v) = v_pool v \/ v_pool (lis_end ret ce v) = raise_stop MILTER_ABRT (v_pool v).
Proof. unfold lis_end. destruct (negb _); auto. Qed.

Lemma lis_failed_pool max n set ce v :
  v_pool (lis_failed max n set ce v) = v_pool v \/ v_pool (lis_failed max n set ce v) = raise_stop MILTER_ABRT (v_pool v).
Proof. unfold lis_failed. destruct (max <=? n + 1); [|by left]. apply (lis_end_pool _ _ (set_lis _ v)). Qed.

(** The action of the pool a step of the server is. *)
Definition origin (a : saction) (b : @action P) : Prop :=
  match b with
  | AEngine _ _ _ => a = SPool b
  | AStart created c x => exists ce fd, a = SSession (Some c) created ce /\ x = new_ctx smfi dbg timeout initpriv fd
  | _ => True
  end.

(** What a step of the server does to the pool. *)
Lemma sexec_origin a v v' : sexec a v = SNext v' ->
  v_pool v' = v_pool v \/ exists b, exec rd_pipe keep b (v_pool v) = Next (v_pool v') /\ origin a b.
Proof.
  assert (K : forall q, v_pool q = v_pool v \/ v_pool q = raise_stop MILTER_ABRT (v_pool v) ->
    v_pool q = v_pool v \/ exists b, exec rd_pipe keep b (v_pool v) = Next (v_pool q) /\ origin a b).
  { intros q [?| ->]; [by left|right]. by exists (AStop MILTER_ABRT). }
  intros H. destruct a as [b|ce|s ce|mem created ce|abrt ce]; simpl in H.
  - right. exists b. by destruct b; try done; destruct (exec _ _ _ _); simplify_eq.
  - unfold lis_top in H. repeat case_match; simplify_eq; auto.
  - unfold lis_select, lis_accept in H. repeat (case_match || case_decide); simplify_eq; auto;
      first [apply K, lis_end_pool | apply K, (lis_failed_pool _ _ _ _ (set_lis _ v)) | apply K, lis_failed_pool
            | apply K, (lis_failed_pool _ _ _ _ (set_lis _ (set_lis _ v)))].
  - unfold lis_session in H. destruct (l_pc _); try done. destruct mem as [c|]; [|simplify_eq; apply K, lis_failed_pool].
    destruct (decide _) as [Hc|]; [|done]. destruct (mi_start_session _ _ _ _) as [[] [p| |f]] eqn:E; simplify_eq.
    + right. exists (AStart created c (new_ctx smfi dbg timeout initpriv fd)). simpl in E |- *.
      rewrite decide_True by done. rewrite E. split; [done|]. by exists ce, fd.
    + apply K, (lis_failed_pool _ _ _ _ (set_lis _ v)).
    + apply K, (lis_failed_pool _ _ _ _ (set_lis _ v)).
    + apply K, (lis_failed_pool _ _ _ _ (set_lis _ v)).
  - simplify_eq. right. by exists (AStop (if abrt then MILTER_ABRT else MILTER_STOP)).
Qed.

Lemma sexec_pool a v v' : sexec a v = SNext v' ->
  v_pool v' = v_pool v \/ exists b, exec rd_pipe keep b (v_pool v) = Next (v_pool v').
Proof. intros H. destruct (sexec_origin _ _ _ H) as [?|(b & ? & _)]; eauto. Qed.

Lemma sreachable_pool min v : sreachable min v -> reachable rd_pipe keep min (v_pool v).
Proof.
  induction 1 as [|v a v' _ IH H]; [constructor|].
  destruct (sexec_pool _ _ _ H) as [-> |[b Hb]]; [done|by eapply reach_step].
Qed.

(** ** The invariant of the server *)

Definition bounded (l : lis) (n : Z) : Prop :=
  0 <= l_mcnt l <= n /\ 0 <= l_tcnt l <= n /\ 0 <= l_acnt l <= n /\ 0 <= l_scnt l <= n.

(** Sockets of sessions are distinct, and the listener's new one is none of them. *)
Record sockets (p : @pool P) (l : lis) : Prop := mk_sockets {
  so_pipe : forall c x, p_mem p !! c = Some x -> ctx_sd x <> rd_pipe;
  so_inj : forall c d x y, p_mem p !! c = Some x -> p_mem p !! d = Some y -> ctx_sd x = ctx_sd y -> c = d;
  so_conn : forall fd, l_pc l = LConn fd -> fd <> rd_pipe /\ forall c x, p_mem p !! c = Some x -> ctx_sd x <> fd
}.

Record sinv (v : server) : Prop := mk_sinv {
  si_pool : inv keep (v_pool v);
  si_sockets : sockets (v_pool v) (v_lis v);
  si_fds : open_fds (l_trace (v_sock v)) = (if ValidSocket (listenfd (v_sock v)) then [listenfd (v_sock v)] else []);
  si_stop : p_stop (v_pool v) <= MILTER_ABRT;
  si_count : bounded (v_lis v) 16 /\ ((forall ret, l_pc (v_lis v) <> LDone ret) -> bounded (v_lis v) 15);
  si_done : forall ret, l_pc (v_lis v) = LDone ret ->
    ValidSocket (listenfd (v_sock v)) = false /\ p_stop (v_pool v) <> MILTER_CONT /\
    (ret <> MI_SUCCESS -> p_stop (v_pool v) = MILTER_ABRT)
}.

Lemma sockets_same p p' l l' :
  p_mem p' = p_mem p -> (forall fd, l_pc l' = LConn fd -> l_pc l = LConn fd) -> sockets p l -> sockets p' l'.
Proof. intros E H [A B C]. split; rewrite E; auto. Qed.

Lemma sockets_keeps p p' l : keeps_sd p p' -> sockets p l -> sockets p' l.
Proof.
  intros K [A B C]. split.
  - intros c y Hy. destruct (K _ _ Hy) as (x & Hx & ->). eauto.
  - intros c d y z Hy Hz E. destruct (K _ _ Hy) as (x & Hx & Ex), (K _ _ Hz) as (x' & Hx' & Ex'). eapply B; eauto; congruence.
  - intros fd Hf. destruct (C fd Hf) as [? D]. split; [done|]. intros c y Hy. destruct (K _ _ Hy) as (x & Hx & ->). eauto.
Qed.

Lemma closener_fds ce s :
  open_fds (l_trace s) = (if ValidSocket (listenfd s) then [listenfd s] else []) ->
  ValidSocket (listenfd (mi_closener ce s)) = false /\ open_fds (l_trace (mi_closener ce s)) = [].
Proof.
  intros H. destruct (ValidSocket (listenfd s)) eqn:V.
  - destruct (mi_closener_trace ce s V) as (V' & _ & k & -> & K). split; [done|].
    unfold open_fds in *. rewrite fold_left_app, H. simpl. rewrite filter_cons_False by tauto.
    destruct K as [-> |(p & ? & ? & -> & _)]; done.
  - unfold mi_closener. by rewrite V.
Qed.

Lemma raise_stop_mem n (p : @pool P) : p_mem (raise_stop n p) = p_mem p.
Proof. unfold raise_stop. by destruct (_ <? _). Qed.

Lemma raise_stop_val n (p : @pool P) : p_stop (raise_stop n p) = Z.max (p_stop p) n.
Proof. unfold raise_stop. destruct (Z.ltb_spec (p_stop p) n); simpl; lia. Qed.

(** A stop is asked for. *)
Lemma sinv_stop n ce v : sinv v -> MILTER_STOP <= n <= MILTER_ABRT -> sinv (mi_stop_milters n ce v).
Proof.
  intros [I S F St C D] Hn. destruct (closener_fds ce _ F) as [V' F'].
  assert (MILTER_STOP = 1 /\ MILTER_ABRT = 2) by done. split; simpl.
  - by apply inv_stop.
  - eapply sockets_same; [apply raise_stop_mem| |done]. done.
  - by rewrite V', F'.
  - rewrite raise_stop_val. lia.
  - done.
  - intros ret E. destruct (D ret E) as (_ & Hs & Hr). rewrite raise_stop_val. split; [done|].
    assert (MILTER_CONT = 0) by done. split; [lia|]. intros N. rewrite (Hr N). lia.
Qed.

(** The listener returns. *)
Lemma sinv_end ret ce v :
  sinv v -> (ret = MI_SUCCESS -> p_stop (v_pool v) <> MILTER_CONT) -> sinv (lis_end ret ce v).
Proof.
  intros H Hr. assert (K : forall v, sinv v -> p_stop (v_pool v) <> MILTER_CONT ->
    (ret <> MI_SUCCESS -> p_stop (v_pool v) = MILTER_ABRT) -> ValidSocket (listenfd (v_sock v)) = false ->
    sinv (set_lis (set_lpc (LDone ret) (v_lis v)) v)).
  { clear. intros v [I S F St C D] Hs Ha V. split; simpl; try done.
    - by eapply sockets_same; [..|exact S].
    - split; [apply C|]. intros N. by destruct (N ret).
    - by intros ? [= <-]. }
  unfold lis_end. destruct (Z.eqb_spec ret MI_SUCCESS) as [E|N]; simpl.
  - destruct H as [I S F St C D]. destruct (closener_fds ce _ F) as [V' F'].
    apply (K (mk_server (v_pool v) (mi_closener ce (v_sock v)) (v_lis v))); simpl; auto; [|done].
    split; simpl; try done; [by rewrite V', F'|]. intros r Er. by destruct (D r Er) as (_ & ? & ?).
  - assert (MILTER_STOP <= MILTER_ABRT <= MILTER_ABRT) by done.
    pose proof (sinv_stop MILTER_ABRT ce v H ltac:(done)) as H'. pose proof (closener_fds ce _ (si_fds _ H)) as [V' _].
    pose proof (si_stop _ H). assert (E : p_stop (raise_stop MILTER_ABRT (v_pool v)) = MILTER_ABRT).
    { rewrite raise_stop_val. lia. }
    apply (K (mi_stop_milters MILTER_ABRT ce v) H'); simpl; try done. by rewrite E.
Qed.

(** The same with other counters. *)
Lemma sinv_end_lis ret ce l v :
  sinv v -> (ret = MI_SUCCESS -> p_stop (v_pool v) <> MILTER_CONT) -> bounded l 16 ->
  sinv (lis_end ret ce (set_lis l v)).
Proof.
  intros H Hr B. pose proof (sinv_end ret ce v H Hr) as [I S F St C D].
  assert (E : lis_end ret ce (set_lis l v) = set_lis (set_lpc (LDone ret) l) (lis_end ret ce v)).
  { unfold lis_end. by destruct (negb _). }
  assert (L : l_pc (v_lis (lis_end ret ce v)) = LDone ret) by (unfold lis_end; by destruct (negb _)).
  rewrite E. split; simpl; try done.
  - eapply sockets_same; [..|exact S]; done.
  - split; [done|]. intros N. by destruct (N ret).
Qed.

(** Only the listener's own variables change. *)
Lemma sinv_lis l v :
  sinv v -> bounded l 15 -> (forall ret, l_pc l <> LDone ret) ->
  (forall fd, l_pc l = LConn fd -> l_pc (v_lis v) = LConn fd \/ fd_free fd v) -> sinv (set_lis l v).
Proof.
  intros [I S F St C D] B N K. split; simpl; try done.
  - destruct S as [S1 S2 S3]. split; try done. intros fd E. destruct (K fd E) as [?|(_ & ? & _ & M)]; [auto|].
    split; [done|]. intros c x Hx. exact (M c x Hx).
  - split; [|done]. unfold bounded in *. lia.
  - intros ret E. by destruct (N ret).
Qed.

Lemma sinv_failed max n set ce v l0 :
  sinv v -> bounded l0 15 -> max = 16 -> bounded (set (n + 1) l0) 16 ->
  (n + 1 < 16 -> bounded (set (n + 1) l0) 15) ->
  sinv (lis_failed max n set ce (set_lis l0 v)).
Proof.
  intros H B0 -> B16 B15. unfold lis_failed. simpl. destruct (Z.leb_spec 16 (n + 1)).
  - apply (sinv_end_lis MI_FAILURE ce (set (n + 1) l0) v H); done.
  - apply (sinv_lis (set_lpc LTop (set (n + 1) l0)) v H); try done.
    specialize (B15 ltac:(lia)). by destruct (set (n + 1) l0).
Qed.

Lemma sinv_running v pc : sinv v -> l_pc (v_lis v) = pc -> (forall ret, pc <> LDone ret) -> bounded (v_lis v) 15.
Proof. intros H <- N. by apply (si_count _ H). Qed.

Lemma sinv_top ce v v' : sinv v -> lis_top ce v = SNext v' -> sinv v'.
Proof.
  intros H. unfold lis_top. destruct (l_pc (v_lis v)) eqn:Pc; try done.
  pose proof (sinv_running v _ H Pc ltac:(done)) as B.
  destruct (Z.eqb_spec (p_stop (v_pool v)) MILTER_CONT); intros [= <-].
  - by apply sinv_lis.
  - by apply sinv_end.
Qed.

Lemma sinv_select s ce v v' : sinv v -> lis_select s ce v = SNext v' -> sinv v'.
Proof.
  intros H. unfold lis_select. destruct (l_pc (v_lis v)) eqn:Pc; try done.
  pose proof (sinv_running v _ H Pc ltac:(done)) as B. destruct (v_lis v) as [pc m t a sc cl] eqn:L. simpl in Pc. subst pc.
  unfold bounded in B. simpl in B.
  destruct (negb _); [intros [= <-]; by apply sinv_end|].
  destruct s as [| | | |[[]|fd fam len]]; simpl.
  - intros [= <-]. by apply sinv_lis.
  - intros [= <-]. by apply sinv_lis.
  - intros [= <-]. replace v with (set_lis (v_lis v) v) by (by destruct v). rewrite L.
    apply sinv_failed; unfold bounded; simpl; try done; lia.
  - intros [= <-]. by apply sinv_end.
  - intros [= <-]. apply (sinv_lis (mk_lis LTop m t a 0 cl) v H); unfold bounded; simpl; try done; lia.
  - intros [= <-]. apply sinv_failed; unfold bounded; simpl; try done; lia.
  - unfold lis_accept. destruct (decide _) as [Hf|]; [|done]. simpl.
    destruct (_ || _); intros [= <-].
    + apply (sinv_failed _ _ _ _ v (mk_lis LLock m t a 0 len)); unfold bounded; simpl; try done; lia.
    + apply (sinv_lis (mk_lis (LConn fd) m t 0 0 len) v H); unfold bounded; simpl; try done; [lia|].
      intros ? [= <-]. by right.
Qed.

Lemma sinv_session mem created ce v v' :
  sinv v -> lis_session mem created ce v = SNext v' -> sinv v'.
Proof.
  intros H. unfold lis_session. destruct (l_pc (v_lis v)) as [| |fd|] eqn:Pc; try done.
  pose proof (sinv_running v _ H Pc ltac:(done)) as B. pose proof (so_conn _ _ (si_sockets _ H) _ Pc) as [Np Nf].
  destruct (v_lis v) as [pc m t a sc cl] eqn:L. simpl in Pc. subst pc. unfold bounded in B. simpl in B.
  destruct mem as [c|].
  2: { intros [= <-]. replace v with (set_lis (v_lis v) v) by (by destruct v). rewrite L.
       apply sinv_failed; unfold bounded; simpl; try done; lia. }
  destruct (decide _) as [Hc|]; [|done]. simpl. set (x := new_ctx _ _ _ _ _).
  destruct (mi_start_session created c x (v_pool v)) as [[] r] eqn:E.
  2: { intros [= <-]. apply (sinv_failed _ _ _ _ v (mk_lis (LConn fd) 0 t a sc cl)); unfold bounded; simpl; try done; lia. }
  destruct r as [p| |f]; try done. intros [= <-].
  assert (Ex : exec rd_pipe keep (AStart created c x) (v_pool v) = Next p) by (simpl; rewrite decide_True by done; by rewrite E).
  destruct H as [I S F St C D].
  assert (Ep : p_stop p = p_stop (v_pool v)).
  { destruct (exec_stop rd_pipe keep _ _ _ I Ex) as [?|(? & ? & _)]; done. }
  split; simpl; try done.
  - by eapply inv_exec.
  - destruct (exec_sd rd_pipe keep _ _ _ I Ex) as [K|(cr & d & x' & y & [= <- <- <-] & _ & Em & Ey)].
    + eapply sockets_same; [done| |by eapply sockets_keeps]. done.
    + destruct S as [S1 S2 S3]. change (ctx_sd x) with fd in Ey. split; rewrite Em.
      * intros d z [[<- <-]|[_ ?]]%lookup_insert_Some; [congruence|eauto].
      * intros d d' z z' [[<- <-]|[? Hz]]%lookup_insert_Some [[<- <-]|[? Hz']]%lookup_insert_Some Es; eauto.
        -- destruct (Nf _ _ Hz'). congruence.
        -- destruct (Nf _ _ Hz). congruence.
      * done.
  - by rewrite Ep.
  - unfold bounded. simpl. lia.
Qed.

Lemma sinv_exec a v v' :
  sinv v -> sexec a v = SNext v' -> sinv v'.
Proof.
  intros H E. destruct a as [b|ce|s ce|mem created ce|abrt ce]; simpl in E.
  - assert (X : exists p, exec rd_pipe keep b (v_pool v) = Next p /\ v' = mk_server p (v_sock v) (v_lis v) /\
      (forall n, b <> AStop n) /\ (forall cr c x, b <> AStart cr c x)).
    { destruct b; try done; destruct (exec _ _ _ _) as [p| |]; simplify_eq; by exists p. }
    destruct X as (p & Ex & -> & N1 & N2). destruct H as [I S F St C D].
    assert (Ep : p_stop p = p_stop (v_pool v)).
    { destruct (exec_stop rd_pipe keep _ _ _ I Ex) as [?|(n & -> & _)]; [done|by destruct (N1 n)]. }
    split; simpl; rewrite ?Ep; try done; [by eapply inv_exec|].
    destruct (exec_sd rd_pipe keep _ _ _ I Ex) as [K|(cr & d & x & y & -> & _)]; [by eapply sockets_keeps|by destruct (N2 cr d x)].
  - by eapply sinv_top.
  - by eapply sinv_select.
  - by eapply sinv_session.
  - simplify_eq. apply sinv_stop; [done|]. by destruct abrt.
Qed.

Lemma sreachable_inv min v : sreachable min v -> sinv v.
Proof.
  induction 1 as [s [V F]|v a v' _ IH H]; [|by eapply sinv_exec].
  split; simpl; try done; [by eapply (inv_init keep)| |by rewrite V, F|by rewrite pool_start_eq].
  split; simpl; rewrite pool_start_eq; simpl; done.
Qed.

(** ** The theorems *)

(** C13: Whatever the listener, the signal thread, the MTA and the failures of
    system calls do, the pool inside the server is in a state the pool can reach by
    itself, so that the pool's theorems hold of the server; every step of the
    server is one step of the pool or leaves the pool alone; and the sockets of
    the sessions are pairwise distinct and none is the pipe's. *)
Theorem server_refines_pool (min : Z) (v : server) :
  sreachable min v ->
  reachable rd_pipe keep min (v_pool v) /\
  (forall a v', sexec a v = SNext v' ->
     v_pool v' = v_pool v \/ exists b, exec rd_pipe keep b (v_pool v) = Next (v_pool v')) /\
  (forall c d x y, p_mem (v_pool v) !! c = Some x -> p_mem (v_pool v) !! d = Some y -> ctx_sd x = ctx_sd y -> c = d) /\
  (forall c x, p_mem (v_pool v) !! c = Some x -> ctx_sd x <> rd_pipe).
Proof.
  intros R. pose proof (sreachable_inv _ _ R) as I. split; [by eapply sreachable_pool|].
  split; [intros a v'; apply sexec_pool|]. split; apply (si_sockets _ I).
Qed.

Lemma find_waiting_unique (p : @pool P) l c x :
  inv keep p -> sockets p l -> p_mem p !! c = Some x -> ctx_wstate x = WKST_WAITING ->
  find_waiting (ctx_sd x) (p_mem p) (tm_ctx_head (p_tm p)) = Some (Some (c, x)).
Proof.
  intros I S Hc Hw. assert (Hin : c ∈ tm_ctx_head (p_tm p)) by (apply (core_mem _ _ _ _ _ (inv_core _ _ I)); by eexists).
  assert (Hh := core_head_mem p (inv_core _ _ I)). revert Hin Hh. generalize (tm_ctx_head (p_tm p)) as h.
  induction h as [|d h IH]; [by rewrite elem_of_nil|]. intros Hin Hh. simpl.
  destruct (Hh d) as [y Hy]; [left|]. rewrite Hy. destruct ((ctx_wstate y =? WKST_WAITING) && (ctx_sd y =? ctx_sd x)) eqn:B.
  - apply andb_prop in B as [_ B%Z.eqb_eq]. pose proof (so_inj _ _ S d c y x Hy Hc B). subst d. congruence.
  - apply IH; [|intros; apply Hh; by right]. apply elem_of_cons in Hin as [<-|?]; [|done].
    simplify_eq. by rewrite Hw, !Z.eqb_refl in B.
Qed.


(** How the listener ends.  In every reachable state the listening socket is
    the only one it holds open, or none is; none of its failure counters passes
    16, and they stay below 16 as long as it runs.  Once it has returned, the
    socket is closed and all threads have been told to stop, with MILTER_ABRT if
    it returned a failure. *)
Theorem listener_exit (min : Z) (v : server) :
  sreachable min v ->
  open_fds (l_trace (v_sock v)) = (if ValidSocket (listenfd (v_sock v)) then [listenfd (v_sock v)] else []) /\
  bounded (v_lis v) 16 /\ ((forall ret, l_pc (v_lis v) <> LDone ret) -> bounded (v_lis v) 15) /\
  (forall ret, l_pc (v_lis v) = LDone ret ->
     ValidSocket (listenfd (v_sock v)) = false /\ p_stop (v_pool v) <> MILTER_CONT /\
     (ret <> MI_SUCCESS -> p_stop (v_pool v) = MILTER_ABRT)).
Proof. intros R. pose proof (sreachable_inv _ _ R) as [_ _ F _ [C1 C2] D]. done. Qed.

(** An orderly stop can be reported as a failure.  When the request comes
    after the listener has tested [mi_stop] and before it has locked L_Mutex, the
    listener finds its socket closed, takes it for corrupted, turns the stop into
    an abort and makes [smfi_main] fail. *)
Theorem stop_taken_for_failure (min : Z) (v : server) (s : select_ans) (ce ce' : close_env) :
  sreachable min v -> l_pc (v_lis v) = LLock ->
  exists v', srun [SStop false ce; SSelect s ce'] v = SNext v' /\
    l_pc (v_lis v') = LDone MI_FAILURE /\ p_stop (v_pool v') = MILTER_ABRT.
Proof.
  intros R Pc. pose proof (sreachable_inv _ _ R) as I. destruct (closener_fds ce _ (si_fds _ I)) as [V _].
  simpl. unfold lis_select. simpl. rewrite Pc, V. simpl. eexists. split; [done|]. simpl. split; [done|].
  rewrite !raise_stop_val. pose proof (si_stop _ I). unfold MILTER_STOP, MILTER_ABRT in *. lia.
Qed.

End server.

(** ** The context of a session *)

(** The filter's entry for a step that can be left out of the protocol, with the
    flag that leaves it out. *)
Definition step_flags {W} (smfi : smfiDesc W) : list (bool * Z) :=
  [(bool_decide (xxfi_connect smfi = None), SMFIP_NOCONNECT);
   (bool_decide (xxfi_helo smfi = None), SMFIP_NOHELO);
   (bool_decide (xxfi_envfrom smfi = None), SMFIP_NOMAIL);
   (bool_decide (xxfi_envrcpt smfi = None), SMFIP_NORCPT);
   (bool_decide (xxfi_header smfi = None), SMFIP_NOHDRS);
   (bool_decide (xxfi_eoh smfi = None), SMFIP_NOEOH);
   (bool_decide (xxfi_body smfi = None), SMFIP_NOBODY);
   ((xxfi_version smfi <=? 3) || bool_decide (xxfi_data smfi = None), SMFIP_NODATA);
   ((xxfi_version smfi <=? 2) || bool_decide (xxfi_unknown smfi = None), SMFIP_NOUNKNOWN)].

(** The context the listener builds is where a session of the engine starts.
    Its protocol flags leave out exactly the steps the filter has no callback for
    (or is too old for); and for a filter with all of them the world of the
    session, also after the pool has numbered and scheduled it, is an initial one
    of the engine's theorems. *)
Theorem listener_context {P S} (smfi : smfiDesc (world P S)) (dbg timeout : Z) (priv : P) (fd : Z)
    (net : net) (max : Z) (stop : list Z) (oom : list bool) (app : S) (sid wstate wait : Z) :
  Forall (fun bf => negb (Z.land (ctx_pflags (new_ctx smfi dbg timeout priv fd)) bf.2 =? 0) = bf.1) (step_flags smfi) /\
  (Forall (fun bf => bf.1 = false) (step_flags smfi) ->
   session smfi (mk_world (set_ctx_wait wait (set_ctx_wstate wstate (set_ctx_sid sid (new_ctx smfi dbg timeout priv fd))))
     net next_states max stop oom app [])).
Proof.
  unfold step_flags, new_ctx. set (a1 := bool_decide _). set (a2 := bool_decide _). set (a3 := bool_decide _).
  set (a4 := bool_decide _). set (a5 := bool_decide _). set (a6 := bool_decide _). set (a7 := bool_decide _).
  set (a8 := _ || _). set (a9 := _ || _). clearbody a1 a2 a3 a4 a5 a6 a7 a8 a9. split.
  - repeat constructor; simpl; destruct a1, a2, a3, a4, a5, a6, a7, a8, a9; reflexivity.
  - rewrite !Forall_cons. simpl. intros (-> & -> & -> & -> & -> & -> & -> & -> & -> & _).
    apply session_start; try reflexivity. split; [done|]. simpl. repeat constructor.
Qed.

(** ** Witnesses *)

(** The socket of the demonstration. *)
Definition demo_sock : lsock := (mi_opensocket demo_open 10 false (lsock0 (CStr.lit "unix:/tmp/p.sock"))).2.

Definition demo_close : close_env := mk_cenv 1000 (Some FtSock) (Some (FtSock, true)).

Abbreviation demo_exec := (sexec demo_filter 0 7210 tt 3 true).
Abbreviation demo_srun := (srun demo_filter 0 7210 tt 3 true).
Abbreviation demo_reach := (sreachable demo_filter 0 7210 tt 3 true 0).

Definition demo_running : smfi_str unit := set_ctx_wstate WKST_RUNNING (new_ctx demo_filter 0 7210 tt 7).
Definition demo_waiting : smfi_str unit := set_ctx_wstate WKST_WAITING (set_ctx_wait 1001 demo_running).

(** A connection is accepted, served by a new worker, and waits; then its socket
    is ready. *)
Definition demo_accept : list (@saction unit) :=
  [SPool (ACtlStart true 1000); STop demo_close].

Definition demo_event : list (@saction unit) :=
  demo_accept ++
  [SSelect (SelReady (AccOk 7 AF_UNIX 110)) demo_close; SSession (Some 1%nat) true demo_close;
   SPool (AWorker 2 true); SPool (AWorker 2 true); SPool (AWorker 2 true); SPool (AEngine 2 MI_CONTINUE demo_running);
   SPool (AWorker 2 true); SPool (ACtlRound 1001 []); SPool (ACtlPoll (PollReady [RevNone; RevRead]));
   SPool (ACtlEvent true)].

Definition demo_server (l : list (@saction unit)) : server :=
  match demo_srun l (server_start 0 demo_sock) with SNext v => v | _ => server_start 0 demo_sock end.

Lemma srun_reachable {W P} (smfi : smfiDesc W) dbg timeout (priv : P) rd keep min l : forall v v',
  sreachable smfi dbg timeout priv rd keep min v -> srun smfi dbg timeout priv rd keep l v = SNext v' ->
  sreachable smfi dbg timeout priv rd keep min v'.
Proof.
  induction l as [|a l IH]; intros v v' R H; simpl in H; [by simplify_eq|].
  destruct (sexec _ _ _ _ _ _ a v) as [u| |] eqn:E; try done. eapply IH; [|exact H]. by eapply sreach_step.
Qed.

Lemma demo_server_reachable l : demo_reach (demo_server l).
Proof.
  assert (R : demo_reach (server_start 0 demo_sock)) by (by constructor).
  unfold demo_server. destruct (demo_srun l _) as [v| |] eqn:E; [|done|done]. by eapply srun_reachable.
Qed.

Lemma server_refines_pool_witness : reachable 3 true 0 (v_pool (demo_server demo_event)).
Proof. apply (server_refines_pool demo_filter 0 7210 tt 3 true 0 (demo_server demo_event) (demo_server_reachable _)). Defined.


Lemma listener_exit_witness : bounded (v_lis (demo_server demo_event)) 16.
Proof.
  destruct (listener_exit demo_filter 0 7210 tt 3 true 0 (demo_server demo_event) (demo_server_reachable _)) as (_ & B & _).
  exact B.
Defined.

Lemma stop_taken_for_failure_witness :
  exists v', demo_srun [SStop false demo_close; SSelect SelTimeout demo_close] (demo_server demo_accept) = SNext v' /\
    l_pc (v_lis v') = LDone MI_FAILURE /\ p_stop (v_pool v') = MILTER_ABRT.
Proof.
  apply (stop_taken_for_failure demo_filter 0 7210 tt 3 true 0 (demo_server demo_accept) SelTimeout demo_close demo_close
    (demo_server_reachable _)). reflexivity.
Defined.
