(* ===== verification/Service.v ===== *)
(** * The service: mi_engine inside the running server

    In [Server] the return of [mi_engine] is a step of its own kind, with any
    result.  Here each such step is a run of [Engine.mi_engine] on the context the
    worker holds, for a filter that keeps to the interface of the library
    ([EngineProps.WellBehaved]).  Beside the server goes what its contexts do not
    hold: the table of the state machine, which all sessions share, and the
    callbacks made so far for the session at each address.

    The theorem: [mi_engine] keeps what the pool assumes of it, nobody writes to
    the context it works on, and in every interleaving of all threads each session
    keeps the order of the protocol and ends with the close callback.  It is stated
    of pmilter's own filter, for all handlers. *)

From stdpp Require Import base option numbers gmap list strings.
From Stdlib Require Import ZArith Lia.
From S2P Require Import Prelude Mfdef Comm Stm Engine EngineProps EngineOrder Config Session SessionProps SessionTheorems Worker WorkerProps WorkerTheorems Listener Server.
Local Open Scope Z_scope.

(** ** Runs *)

Section service.
Context {P S : Type}.
Variables (smfi : smfiDesc (world P S)) (dbg timeout : Z) (initpriv : P) (rd_pipe : Z) (keep : bool).
Implicit Types (v : @server P) (w : world P S) (tbl : list Z) (tr : nat -> list callback).

Abbreviation step := (sexec smfi dbg timeout initpriv rd_pipe keep).

(** The callbacks of the session at [c] are now [l]. *)
Definition upd (c : nat) (l : list callback) tr : nat -> list callback := fun d => if decide (d = c) then l else tr d.

(** Steps that are neither a return of [mi_engine] nor the start of a session. *)
Definition plain (a : @saction P) : Prop :=
  match a with SPool (AEngine _ _ _) | SSession (Some _) _ _ => False | _ => True end.

(** The states the server can come to, with the shared table and the callbacks of
    each session. *)
Inductive serves (min : Z) : server -> list Z -> (nat -> list callback) -> Prop :=
  | serve_init s : started s -> serves min (server_start min s) next_states (fun _ => [])
  | serve_plain v tbl tr a v' :
      serves min v tbl tr -> plain a -> step a v = SNext v' -> serves min v' tbl tr
  | serve_session v tbl tr c created ce v' :
      serves min v tbl tr -> step (SSession (Some c) created ce) v = SNext v' -> serves min v' tbl (upd c [] tr)
  | serve_engine v tbl tr t c w r w' v' :
      serves min v tbl tr ->
      p_workers (v_pool v) !! t = Some (WEngine c) -> p_mem (v_pool v) !! c = Some (w_ctx w) ->
      w_next_states w = tbl -> w_trace w = tr c -> mi_engine smfi w = Done r w' ->
      step (SPool (AEngine t r (w_ctx w'))) v = SNext v' ->
      serves min v' (w_next_states w') (upd c (w_trace w') tr).

Lemma serves_reachable min v tbl tr :
  serves min v tbl tr -> sreachable smfi dbg timeout initpriv rd_pipe keep min v.
Proof. induction 1; [by constructor|by eapply sreach_step..]. Qed.

(** ** The invariant *)

Context {Hwb : WellBehaved True smfi}.
Hypotheses (Henv : full_envelope smfi) (Hsteps : keeps_steps smfi).
Hypothesis Hall : Forall (fun bf => bf.1 = false) (step_flags smfi).
Variable close : cM (world P S) Z.
Hypothesis Hclose : xxfi_close smfi = Some close.

(** What [mi_engine] needs of the context of a session with the callbacks [l]. *)
Definition runnable (x : smfi_str P) (l : list callback) : Prop :=
  ctx_good x /\ ctx_pflags x = 0 /\ eom_ok l /\ tstage l (ctx_state x) /\ ctx_state x <> ST_QUIT.

(** A session the filter has closed: its worker is about to free it. *)
Definition closing (p : @pool P) (c : nat) (l : list callback) : Prop :=
  eom_ok l /\ last l = Some CbClose /\ exists t r, p_workers p !! t = Some (WDone c r) /\ r <> MI_CONTINUE.

Definition service_inv v tbl tr : Prop :=
  tbl = next_states /\
  forall c x, p_mem (v_pool v) !! c = Some x -> runnable x (tr c) \/ closing (v_pool v) c (tr c).

Lemma runnable_sess x y l : sess y = sess x -> runnable x l -> runnable y l.
Proof.
  intros E. unfold runnable, ctx_good.
  rewrite (f_equal ctx_reply E : ctx_reply y = ctx_reply x), (f_equal ctx_mac_list E : ctx_mac_list y = ctx_mac_list x),
    (f_equal ctx_pflags E : ctx_pflags y = ctx_pflags x), (f_equal ctx_state E : ctx_state y = ctx_state x). done.
Qed.

Lemma runnable_new fd : runnable (new_ctx smfi dbg timeout initpriv fd) [].
Proof.
  assert (E : ctx_pflags (new_ctx smfi dbg timeout initpriv fd) = 0).
  { unfold step_flags in Hall. rewrite !Forall_cons in Hall. simpl in Hall.
    destruct Hall as (E1 & E2 & E3 & E4 & E5 & E6 & E7 & E8 & E9 & _). unfold new_ctx. simpl.
    by rewrite E1, E2, E3, E4, E5, E6, E7, E8, E9. }
  split; [split; [done|repeat constructor]|]. split; [done|]. split; [apply eom_ok_nil|].
  split; [|done]. change (tstage [] ST_INIT). apply tstage_other; stage_num.
Qed.

(** The worker that is about to free a session does so, or waits. *)
Lemma closing_step a p q c l y :
  inv keep p -> exec rd_pipe keep a p = Next q -> closing p c l -> p_mem q !! c = Some y -> closing q c l.
Proof.
  intros I H (He & Hl & t & r & Ht & Hr) Hy. split; [done|]. split; [done|]. exists t, r. split; [|done].
  destruct (acts t a) eqn:Ha; [|by eapply holder_undisturbed].
  destruct a as [|u ok|u res z| | | | |]; try done; apply bool_decide_eq_true in Ha; subst u; simpl in H.
  - unfold mi_worker, locked, with_ctx in H. rewrite Ht in H. case_decide; [done|].
    destruct (p_mem p !! c); [|done]. rewrite (proj2 (Z.eqb_neq _ _) Hr) in H. simplify_eq/=.
    by rewrite lookup_delete_eq in Hy.
  - unfold engine_returns in H. by rewrite Ht in H.
Qed.

(** A step of the pool that neither returns from [mi_engine] nor starts a session. *)
Lemma keeps_service p q tr c y :
  (exists b, exec rd_pipe keep b p = Next q) -> inv keep p -> keeps_sess p q ->
  (forall c x, p_mem p !! c = Some x -> runnable x (tr c) \/ closing p c (tr c)) ->
  p_mem q !! c = Some y -> runnable y (tr c) \/ closing q c (tr c).
Proof.
  intros (b & Hb) I K H Hy. destruct (K _ _ Hy) as (x & Hx & E).
  destruct (H _ _ Hx) as [R|C]; [left; by eapply runnable_sess|right; by eapply closing_step].
Qed.

Lemma upd_eq c l tr : upd c l tr c = l.
Proof. unfold upd. by rewrite decide_True. Qed.

Lemma upd_ne c d l tr : d <> c -> upd c l tr d = tr d.
Proof. intros N. unfold upd. by rewrite decide_False. Qed.

Lemma service_plain v tbl tr a v' :
  inv keep (v_pool v) -> plain a -> step a v = SNext v' -> service_inv v tbl tr -> service_inv v' tbl tr.
Proof.
  intros I Pl H [Ht Hs]. split; [done|]. destruct (sexec_origin _ _ _ _ _ _ _ _ _ H) as [-> |(b & Hb & O)]; [done|].
  destruct (exec_mem rd_pipe keep _ _ _ I Hb) as [K|t r y c x -> _ _ _ _|created c x y -> _ _ _].
  - intros c x. eapply keeps_service; eauto.
  - simpl in O. by rewrite O in Pl.
  - simpl in O. destruct O as (ce & fd & -> & _). done.
Qed.

Lemma session_fresh v c created ce v' :
  step (SSession (Some c) created ce) v = SNext v' -> p_mem (v_pool v) !! c = None.
Proof. simpl. unfold lis_session. destruct (l_pc _); try done. by case_decide. Qed.

Lemma service_session v tbl tr c created ce v' :
  inv keep (v_pool v) -> step (SSession (Some c) created ce) v = SNext v' ->
  service_inv v tbl tr -> service_inv v' tbl (upd c [] tr).
Proof.
  intros I H [Ht Hs]. split; [done|]. pose proof (session_fresh _ _ _ _ _ H) as Hc.
  assert (Hs' : forall d x, p_mem (v_pool v) !! d = Some x ->
    runnable x (upd c [] tr d) \/ closing (v_pool v) d (upd c [] tr d)).
  { intros d x Hd. rewrite upd_ne by congruence. by apply Hs. }
  destruct (sexec_origin _ _ _ _ _ _ _ _ _ H) as [-> |(b & Hb & O)]; [done|].
  destruct (exec_mem rd_pipe keep _ _ _ I Hb) as [K|t r y d x -> _ _ _ _|cr d x y -> _ E S'].
  - intros d x. eapply keeps_service; eauto.
  - by simpl in O.
  - simpl in O. destruct O as (ce' & fd & [= -> -> ->] & ->). rewrite E.
    intros d' z [[<- <-]|[N Hz]]%lookup_insert_Some.
    + left. rewrite upd_eq. eapply runnable_sess; [exact S'|]. apply runnable_new.
    + destruct (Hs' _ _ Hz) as [|C]; [by left|right]. eapply closing_step; [exact I|exact Hb|exact C|].
      rewrite E. by rewrite lookup_insert_ne.
Qed.

(** What a worker in [mi_engine] has. *)
Lemma engine_ready v tbl tr t c x :
  inv keep (v_pool v) -> service_inv v tbl tr ->
  p_workers (v_pool v) !! t = Some (WEngine c) -> p_mem (v_pool v) !! c = Some x -> runnable x (tr c).
Proof.
  intros I [_ Hs] Ht Hx. destruct (Hs _ _ Hx) as [|(_ & _ & u & r & Hu & _)]; [done|].
  pose proof (core_uniq _ _ _ _ _ (inv_core _ _ I) _ _ _ _ c Ht Hu eq_refl eq_refl). congruence.
Qed.

(** A run of [mi_engine]. *)
Lemma engine_run w r w' :
  runnable (w_ctx w) (w_trace w) -> w_next_states w = next_states -> mi_engine smfi w = Done r w' ->
  same_pool_fields (w_ctx w) (w_ctx w') /\ w_next_states w' = next_states /\ eom_ok (w_trace w') /\
  (r = MI_CONTINUE -> runnable (w_ctx w') (w_trace w')) /\ (r <> MI_CONTINUE -> last (w_trace w') = Some CbClose).
Proof.
  intros (Hg & Hp & He & Hst & Nq) Ht H.
  pose proof (mi_engine_held smfi w Hg) as H1. eapply wp_Done in H1; [|exact H]. destruct H1 as [Hg' Hv].
  assert (Hi : session_inv w) by done.
  pose proof (mi_engine_order smfi Henv Hsteps w Hi) as H2. eapply wp_Done in H2; [|exact H].
  destruct H2 as [(_ & Ht' & Hp' & He') Hc].
  pose proof (mi_engine_close smfi close Hclose w Hg Nq) as H3. eapply wp_Done in H3; [|exact H]. simpl in H3.
  split; [by injection Hv|]. split; [done|]. split; [done|]. split.
  - intros ->. rewrite decide_True in H3 by done. destruct (Hc eq_refl) as [_ ?]. done.
  - intros Nr. by rewrite decide_False in H3.
Qed.

(** The pool takes the result of [mi_engine]. *)
Lemma engine_accepted v t c x r y :
  p_workers (v_pool v) !! t = Some (WEngine c) -> p_mem (v_pool v) !! c = Some x -> same_pool_fields x y ->
  step (SPool (AEngine t r y)) v =
    SNext (mk_server (set_worker t (WDone c r) (put_ctx c y (v_pool v))) (v_sock v) (v_lis v)).
Proof. intros Ht Hx Hs. simpl. unfold engine_returns, with_ctx. by rewrite Ht, Hx, decide_True. Qed.

Lemma service_engine v tbl tr t c w r w' v' :
  inv keep (v_pool v) -> p_workers (v_pool v) !! t = Some (WEngine c) -> p_mem (v_pool v) !! c = Some (w_ctx w) ->
  w_next_states w = tbl -> w_trace w = tr c -> mi_engine smfi w = Done r w' ->
  step (SPool (AEngine t r (w_ctx w'))) v = SNext v' ->
  service_inv v tbl tr -> service_inv v' (w_next_states w') (upd c (w_trace w') tr).
Proof.
  intros I Ht Hx Htbl Htr Hrun H Hs. pose proof (engine_ready _ _ _ _ _ _ I Hs Ht Hx) as R.
  destruct Hs as [-> Hs]. rewrite <- Htr in R. destruct (engine_run _ _ _ R Htbl Hrun) as (Sf & Ht' & He' & Hc & Hcl).
  assert (Hb : exec rd_pipe keep (AEngine t r (w_ctx w')) (v_pool v) = Next (v_pool v')).
  { rewrite (engine_accepted _ _ _ _ _ _ Ht Hx Sf) in H. injection H as <-. simpl.
    unfold engine_returns, with_ctx. by rewrite Ht, Hx, decide_True. }
  rewrite (engine_accepted _ _ _ _ _ _ Ht Hx Sf) in H. injection H as <-.
  split; [done|]. intros d z Hz. pose proof Hz as Hz'. simpl in Hz'.
  apply lookup_insert_Some in Hz' as [[<- <-]|[N Hd]].
  - rewrite upd_eq. destruct (decide (r = MI_CONTINUE)) as [Hr|Hr]; [left; auto|right].
    split; [done|]. split; [auto|]. exists t, r. split; [|done]. simpl. apply list_lookup_insert_eq. by eapply lookup_lt_Some.
  - rewrite upd_ne by done. destruct (Hs _ _ Hd) as [|C]; [by left|right]. by eapply closing_step.
Qed.

Lemma serves_pool min v tbl tr : serves min v tbl tr -> inv keep (v_pool v).
Proof. intros R. apply (si_pool _ _ _ (sreachable_inv _ _ _ _ _ _ _ _ (serves_reachable _ _ _ _ R))). Qed.

Lemma serves_inv min v tbl tr : serves min v tbl tr -> service_inv v tbl tr.
Proof.
  induction 1; [|eapply service_plain; eauto using serves_pool|eapply service_session; eauto using serves_pool
                |eapply service_engine; eauto using serves_pool].
  split; [done|]. intros c x. simpl. rewrite pool_start_eq. done.
Qed.

(** A worker that is to close a session finds it closed by the filter. *)
Lemma serves_done min v tbl tr t c r :
  serves min v tbl tr -> p_workers (v_pool v) !! t = Some (WDone c r) -> r <> MI_CONTINUE -> last (tr c) = Some CbClose.
Proof.
  intros R. revert t c r. induction R as [s _|v tbl tr a v' R IH Pl H|v tbl tr d created ce v' R IH H
    |v tbl tr u d w r0 w' v' R IH Hu Hd Htbl Htr Hrun H]; intros t c r Ht Hr.
  - simpl in Ht. rewrite pool_start_eq in Ht. simpl in Ht. by apply lookup_replicate in Ht as [? _].
  - destruct (sexec_origin _ _ _ _ _ _ _ _ _ H) as [E|(b & Hb & O)]; [rewrite E in Ht; eauto|].
    destruct (done_from_engine _ _ _ _ _ _ _ _ (serves_pool _ _ _ _ R) Hb Ht) as [?|[y ->]]; [eauto|].
    simpl in O. by rewrite O in Pl.
  - assert (Ht' : p_workers (v_pool v) !! t = Some (WDone c r)).
    { destruct (sexec_origin _ _ _ _ _ _ _ _ _ H) as [E|(b & Hb & O)]; [by rewrite E in Ht|].
      destruct (done_from_engine _ _ _ _ _ _ _ _ (serves_pool _ _ _ _ R) Hb Ht) as [?|[y ->]]; [done|]. done. }
    destruct (core_held _ _ _ _ _ (inv_core _ _ (serves_pool _ _ _ _ R)) _ _ c Ht' eq_refl) as (x & Hx & _).
    rewrite upd_ne; [by eapply IH|]. intros ->. by rewrite (session_fresh _ _ _ _ _ H) in Hx.
  - pose proof (serves_inv _ _ _ _ R) as Hs. pose proof (engine_ready _ _ _ _ _ _ (serves_pool _ _ _ _ R) Hs Hu Hd) as Rn.
    destruct Hs as [-> _]. rewrite <- Htr in Rn. destruct (engine_run _ _ _ Rn Htbl Hrun) as (Sf & _ & _ & _ & Hcl).
    rewrite (engine_accepted _ _ _ _ _ _ Hu Hd Sf) in H. injection H as <-. simpl in Ht.
    destruct (lookup_insert_worker _ _ _ _ _ _ Hu Ht) as [[-> [= -> ->]]|[N Ht']]; [rewrite upd_eq; auto|].
    rewrite upd_ne; [by eapply IH|]. intros ->.
    by destruct N; eapply (core_uniq _ _ _ _ _ (inv_core _ _ (serves_pool _ _ _ _ R))).
Qed.

(** Nobody writes to the context [mi_engine] works on. *)
Lemma serves_undisturbed min v tbl tr t c a v' :
  serves min v tbl tr -> p_workers (v_pool v) !! t = Some (WEngine c) -> step a v = SNext v' ->
  (forall r y, a <> SPool (AEngine t r y)) ->
  p_workers (v_pool v') !! t = Some (WEngine c) /\ p_mem (v_pool v') !! c = p_mem (v_pool v) !! c.
Proof.
  intros R Ht H N. destruct (sexec_origin _ _ _ _ _ _ _ _ _ H) as [-> |(b & Hb & O)]; [done|].
  eapply holder_undisturbed; [exact (serves_pool _ _ _ _ R)|exact Hb|exact Ht|done|].
  destruct b as [|u ok|u r y| | | | |]; try done; simpl; apply bool_decide_eq_false; intros ->.
  - simpl in Hb. unfold mi_worker in Hb. by rewrite Ht in Hb.
  - by apply (N r y).
Qed.

(** The result of every run of [mi_engine] on a context a worker holds is taken. *)
Lemma serves_engine_step min v tbl tr t c w r w' :
  serves min v tbl tr -> p_workers (v_pool v) !! t = Some (WEngine c) -> p_mem (v_pool v) !! c = Some (w_ctx w) ->
  w_next_states w = tbl -> w_trace w = tr c -> mi_engine smfi w = Done r w' ->
  exists v', step (SPool (AEngine t r (w_ctx w'))) v = SNext v' /\
    serves min v' (w_next_states w') (upd c (w_trace w') tr).
Proof.
  intros R Ht Hx Htbl Htr Hrun. pose proof (serves_inv _ _ _ _ R) as Hs.
  pose proof (engine_ready _ _ _ _ _ _ (serves_pool _ _ _ _ R) Hs Ht Hx) as Rn. rewrite <- Htr in Rn.
  destruct (engine_run w r w' Rn) as (Sf & _); [by destruct Hs as [<- _]|done|].
  pose proof (engine_accepted v t c (w_ctx w) r (w_ctx w') Ht Hx Sf) as E.
  eexists. split; [exact E|]. by eapply serve_engine.
Qed.

End service.

(** ** pmilter's sessions *)

Section pmilter.
Context {V : Type} (vm0 : V) (mrb_load : bytes -> option (compiled V)) (mrb_parse_string : bytes -> compiled V).
Context (dbg timeout rd_pipe : Z) (keep : bool).

Abbreviation filter := (@smfilter V vm0 mrb_load mrb_parse_string).

Lemma smfilter_all : Forall (fun bf => bf.1 = false) (step_flags filter).
Proof. repeat constructor. Qed.

(** C3: pmilter's sessions in the running server.  In every interleaving of the
    listener, the controller, the workers and the signal thread, whatever the MTAs
    send, the handlers do and the system calls answer: each session in memory has
    called the end-of-message callback only inside a message (or after an unknown
    command); every result of [mi_engine] on the context a worker holds is one the
    pool can go on with, and no other thread writes to that context meanwhile; and
    a session a worker is about to close has had the close callback last. *)
Theorem pmilter_serves (min : Z) (v : @server priv) (tbl : list Z) (tr : nat -> list callback)
    (R : serves filter dbg timeout PrivConfig rd_pipe keep min v tbl tr) :
  (forall c x before after, p_mem (v_pool v) !! c = Some x -> tr c = before ++ CbEom :: after ->
     CbUnknown ∈ before \/ exists t0 mid, before = t0 ++ CbEnvfrom :: CbEnvrcpt :: mid /\ Forall msg_cb mid) /\
  (forall t c w r w', p_workers (v_pool v) !! t = Some (WEngine c) -> p_mem (v_pool v) !! c = Some (w_ctx w) ->
     w_next_states w = tbl -> w_trace w = tr c -> mi_engine filter w = Done r w' ->
     exists v', sexec filter dbg timeout PrivConfig rd_pipe keep (SPool (AEngine t r (w_ctx w'))) v = SNext v' /\
       serves filter dbg timeout PrivConfig rd_pipe keep min v' (w_next_states w') (upd c (w_trace w') tr)) /\
  (forall t c a v', p_workers (v_pool v) !! t = Some (WEngine c) ->
     sexec filter dbg timeout PrivConfig rd_pipe keep a v = SNext v' -> (forall r y, a <> SPool (AEngine t r y)) ->
     p_workers (v_pool v') !! t = Some (WEngine c) /\ p_mem (v_pool v') !! c = p_mem (v_pool v) !! c) /\
  (forall t c r, p_workers (v_pool v) !! t = Some (WDone c r) -> r <> MI_CONTINUE -> last (tr c) = Some CbClose).
Proof.
  pose proof (smfilter_envelope vm0 mrb_load mrb_parse_string) as He.
  pose proof (smfilter_steps vm0 mrb_load mrb_parse_string) as Hs. pose proof smfilter_all as Ha.
  split; [|split; [|split]].
  - intros c x before after Hx. revert before after. change (eom_ok (tr c)).
    destruct (serves_inv _ _ _ _ _ _ He Hs Ha _ eq_refl _ _ _ _ R) as [_ H].
    by destruct (H _ _ Hx) as [(_ & _ & ? & _)|(? & _)].
  - intros t c w r w'. by apply (serves_engine_step _ _ _ _ _ _ He Hs Ha _ eq_refl).
  - intros t c a v'. by apply (serves_undisturbed _ _ _ _ _ _ min _ tbl tr).
  - intros t c r. by apply (serves_done _ _ _ _ _ _ He Hs Ha _ eq_refl _ _ _ _ _ _ _ R).
Qed.

End pmilter.

(** ** Witness *)

Lemma serves_run {P S} (smfi : smfiDesc (world P S)) dbg timeout (priv : P) rd keep min l : forall v tbl tr v',
  serves smfi dbg timeout priv rd keep min v tbl tr -> Forall plain l -> srun smfi dbg timeout priv rd keep l v = SNext v' ->
  serves smfi dbg timeout priv rd keep min v' tbl tr.
Proof.
  induction l as [|a l IH]; intros v tbl tr v' R Pl H; simpl in H; [by simplify_eq|]. apply Forall_cons in Pl as [Pa Pl].
  destruct (sexec _ _ _ _ _ _ a v) as [u| |] eqn:E; try done. eapply IH; [|exact Pl|exact H]. by eapply serve_plain.
Qed.

Abbreviation demo_sx := (sexec demo_pmilter 0 7210 PrivConfig 3 true).
Abbreviation demo_sr := (srun demo_pmilter 0 7210 PrivConfig 3 true).

Definition after (r : @sresult priv) : server := match r with SNext v => v | _ => server_start 0 demo_sock end.

(** A connection is accepted, gets a context, and its worker is in [mi_engine]. *)
Definition demo_s1 : server :=
  after (demo_sr [SPool (ACtlStart true 1000); STop demo_close; SSelect (SelReady (AccOk 7 AF_UNIX 110)) demo_close]
    (server_start 0 demo_sock)).
Definition demo_s2 : server := after (demo_sx (SSession (Some 1%nat) true demo_close) demo_s1).
Definition demo_s3 : server :=
  after (demo_sr [SPool (AWorker 2 true); SPool (AWorker 2 true); SPool (AWorker 2 true)] demo_s2).

(** What the MTA of that session sends: one message. *)
Definition demo_w : world priv (app unit) :=
  set_w_ctx (default (zero_ctx PrivConfig) (p_mem (v_pool demo_s3) !! 1%nat)) (demo_start 0 [Hbody] demo_bytes).
Definition demo_w' : world priv (app unit) := final (mi_engine demo_pmilter demo_w).
Definition demo_s4 : server := after (demo_sx (SPool (AEngine 2 MI_SUCCESS (w_ctx demo_w'))) demo_s3).

Lemma demo_serves1 : serves demo_pmilter 0 7210 PrivConfig 3 true 0 demo_s1 next_states (fun _ => []).
Proof.
  eapply (serves_run _ _ _ _ _ _ _ [SPool (ACtlStart true 1000); STop demo_close; SSelect (SelReady (AccOk 7 AF_UNIX 110)) demo_close]
    (server_start 0 demo_sock)); [by constructor|by repeat constructor|vm_compute; reflexivity].
Qed.

Lemma demo_serves3 : serves demo_pmilter 0 7210 PrivConfig 3 true 0 demo_s3 next_states (upd 1 [] (fun _ => [])).
Proof.
  eapply (serves_run _ _ _ _ _ _ _ [SPool (AWorker 2 true); SPool (AWorker 2 true); SPool (AWorker 2 true)] demo_s2);
    [|by repeat constructor|vm_compute; reflexivity].
  eapply (serve_session _ _ _ _ _ _ _ demo_s1 _ _ 1 true demo_close); [exact demo_serves1|vm_compute; reflexivity].
Qed.

Lemma demo_serves4 :
  serves demo_pmilter 0 7210 PrivConfig 3 true 0 demo_s4 (w_next_states demo_w') (upd 1 (w_trace demo_w') (upd 1 [] (fun _ => []))).
Proof.
  eapply (serve_engine _ _ _ _ _ _ _ demo_s3 _ _ 2 1 demo_w MI_SUCCESS); [exact demo_serves3|..]; vm_compute; reflexivity.
Qed.

Lemma pmilter_serves_witness :
  upd 1 (w_trace demo_w') (upd 1 [] (fun _ => [])) 1%nat = [CbNegotiate; CbConnect; CbEnvfrom; CbEnvrcpt; CbEom; CbClose] /\
  last (upd 1 (w_trace demo_w') (upd 1 [] (fun _ => [])) 1%nat) = Some CbClose.
Proof.
  split; [vm_compute; reflexivity|].
  destruct (pmilter_serves tt demo_load demo_parse 0 7210 3 true 0 demo_s4 _ _ demo_serves4) as (_ & _ & _ & H).
  apply (H 2%nat 1%nat MI_SUCCESS); [vm_compute; reflexivity|discriminate].
Defined.
