(* ===== verification/Main.v ===== *)
(** * Start and end of the program

    libmilter/main.c, the start of the signal thread in signal.c, the head of
    [mi_listener], and pmilter.c from the handlers of the server to [main].  The
    state is that of the process: the static variables of main.c, the memory
    allocator's answers, and what the program did.  Arguments are what [getopt]
    and the system answer, what the handler files hold, and the steps of the
    threads while the server runs. *)

From stdpp Require Import base option numbers gmap list strings.
From Stdlib Require Import Strings.Byte ZArith Lia.
From S2P Require Import Prelude Mfdef Utils Toml TomlParse TomlMachine TomlTree TomlTyped Config Session Worker WorkerProps Listener Server.
Import CStr.
Local Open Scope cM_scope.
Local Open Scope Z_scope.

Definition SM_LM_VRS_MAJOR (v : Z) : Z := Z.shiftr (Z.land v 0x7f000000) 24.
Definition SM_LM_VRS_MINOR (v : Z) : Z := Z.shiftr (Z.land v 0x007fff00) 8.

(** The default backlog, from the system's SOMAXCONN. *)
Definition MI_SOMAXCONN (somaxconn : Z) : Z := if 20 <? somaxconn then somaxconn else 20.

(** What a server handler's file holds, for mruby. *)
Inductive sfile := CannotOpen | SyntaxError | Runs (raises : bool).

(** What the program does that can be seen from outside. *)
Inductive mevent :=
  | EvHook (h : server_hook)                                             (* a server handler runs *)
  | EvListen (conn : bytes) (dbg timeout backlog max min : Z).           (* [mi_listener] is called *)

Section main.
Context {V : Type} (vm0 : V) (mrb_load : bytes -> option (compiled V)) (mrb_parse_string : bytes -> compiled V).
Abbreviation SW := (world priv (app V)).

(** The process. *)
Record proc := mk_proc {
  m_smfi : option (smfiDesc SW);
  m_conn : option bytes;
  m_dbg : Z;
  m_timeout : Z;
  m_backlog : Z;
  m_max : Z;
  m_min : Z;
  m_mrb : bool;                        (* config->mrb is not NULL *)
  m_code : server_hook -> option bool; (* the code of a server handler; true: with a compiler context *)
  m_oom : list bool;                   (* answers of malloc *)
  m_log : list mevent
}.

Definition set_smfi v w := mk_proc v (m_conn w) (m_dbg w) (m_timeout w) (m_backlog w) (m_max w) (m_min w) (m_mrb w) (m_code w) (m_oom w) (m_log w).
Definition set_mconn v w := mk_proc (m_smfi w) v (m_dbg w) (m_timeout w) (m_backlog w) (m_max w) (m_min w) (m_mrb w) (m_code w) (m_oom w) (m_log w).
Definition set_mdbg v w := mk_proc (m_smfi w) (m_conn w) v (m_timeout w) (m_backlog w) (m_max w) (m_min w) (m_mrb w) (m_code w) (m_oom w) (m_log w).
Definition set_mtimeout v w := mk_proc (m_smfi w) (m_conn w) (m_dbg w) v (m_backlog w) (m_max w) (m_min w) (m_mrb w) (m_code w) (m_oom w) (m_log w).
Definition set_mbacklog v w := mk_proc (m_smfi w) (m_conn w) (m_dbg w) (m_timeout w) v (m_max w) (m_min w) (m_mrb w) (m_code w) (m_oom w) (m_log w).
Definition set_mworkers mx mn w := mk_proc (m_smfi w) (m_conn w) (m_dbg w) (m_timeout w) (m_backlog w) mx mn (m_mrb w) (m_code w) (m_oom w) (m_log w).
Definition set_mmrb v w := mk_proc (m_smfi w) (m_conn w) (m_dbg w) (m_timeout w) (m_backlog w) (m_max w) (m_min w) v (m_code w) (m_oom w) (m_log w).
Definition set_mcode v w := mk_proc (m_smfi w) (m_conn w) (m_dbg w) (m_timeout w) (m_backlog w) (m_max w) (m_min w) (m_mrb w) v (m_oom w) (m_log w).
Definition set_moom v w := mk_proc (m_smfi w) (m_conn w) (m_dbg w) (m_timeout w) (m_backlog w) (m_max w) (m_min w) (m_mrb w) (m_code w) v (m_log w).
Definition see e w := mk_proc (m_smfi w) (m_conn w) (m_dbg w) (m_timeout w) (m_backlog w) (m_max w) (m_min w) (m_mrb w) (m_code w) (m_oom w) (m_log w ++ [e]).

(** The static data of a new process. *)
Definition proc0 (somaxconn : Z) (oom : list bool) : proc :=
  mk_proc None None 0 MI_TIMEOUT (MI_SOMAXCONN somaxconn) 0 0 false (fun _ => None) oom [].

#[global] Instance proc_malloc : HasMalloc proc := fun w =>
  match m_oom w with
  | [] => Done true w
  | b :: r => Done b (set_moom r w)
  end.

(** ** libmilter/main.c *)

(** The descriptor is a copy, with a copy of the name. *)
Definition smfi_register (smfilter : smfiDesc SW) : cM proc Z :=
  let* old := gets m_smfi in
  let* ok := match old with None => malloc | Some _ => ret true end in
  if negb ok then ret MI_FAILURE
  else
    modify (set_smfi (Some smfilter)) ;;;
    let* named := malloc in
    if negb named then ret MI_FAILURE
    else
      let v := xxfi_version smfilter in
      if (negb (SM_LM_VRS_MAJOR v =? SM_LM_VRS_MAJOR SMFI_VERSION) || negb (SM_LM_VRS_MINOR v =? SM_LM_VRS_MINOR SMFI_VERSION))
         && negb (v =? 2) && negb (v =? 3) && negb (v =? 4)
      then ret MI_FAILURE
      else ret MI_SUCCESS.

Definition smfi_setworker (max min : Z) : cM proc Z := modify (set_mworkers max min) ;;; ret MI_SUCCESS.
Definition smfi_setdbg (odbg : Z) : cM proc Z := modify (set_mdbg odbg) ;;; ret MI_SUCCESS.
Definition smfi_settimeout (otimeout : Z) : cM proc Z := modify (set_mtimeout otimeout) ;;; ret MI_SUCCESS.

(** The copy has room for the whole string. *)
Definition smfi_setconn (oconn : option bytes) : cM proc Z :=
  match oconn with
  | None | Some [] => ret MI_FAILURE
  | Some c =>
      let* ok := malloc in
      if negb ok then modify (set_mconn None) ;;; ret MI_FAILURE
      else modify (set_mconn (Some c)) ;;; ret MI_SUCCESS
  end.

Definition smfi_setbacklog (obacklog : Z) : cM proc Z :=
  if obacklog <=? 0 then ret MI_FAILURE else modify (set_mbacklog obacklog) ;;; ret MI_SUCCESS.

(** What the system does while the server runs: opening the socket, starting the
    threads, and the steps of all threads. *)
Record run_env := mk_renv {
  r_mutex : bool;                       (* smutex_init *)
  r_sigmask : bool;                     (* pthread_sigmask *)
  r_sigthread : bool;                   (* thread_create of the signal thread *)
  r_open : open_env;
  r_pool : list bool;                   (* pipe, fcntl four times, the controller's thread *)
  r_crew : list bool;
  r_rd_pipe : Z;
  r_keep : bool;
  r_steps : list (@saction priv)
}.

(** [mi_control_startup], with [mi_spawn_signal_thread]. *)
Definition mi_control_startup (e : run_env) : Z :=
  if negb (r_mutex e) then MI_FAILURE
  else if negb (r_sigmask e) then MI_FAILURE
  else if negb (r_sigthread e) then MI_FAILURE
  else MI_SUCCESS.

Definition pool_answer (e : run_env) (i : nat) : bool := nth i (r_pool e) true.

(** [mi_listener]: the socket, the pool, then the loop with the other threads; it
    has not returned when the steps end before it does. *)
Definition mi_listener (e : run_env) (conn : bytes) (dbg : Z) (smfi : smfiDesc SW) (initpriv : priv)
    (timeout backlog max_worker min_worker : Z) : cM proc Z :=
  modify (see (EvListen conn dbg timeout backlog max_worker min_worker)) ;;;
  let '(r, s) := mi_opensocket (r_open e) backlog false (lsock0 conn) in
  modify (set_mconn (Some (l_conn s))) ;;;
  if r =? MI_FAILURE then ret MI_FAILURE
  else
    let '(r, p) := mi_pool_controller_init (pool_answer e 0) (pool_answer e 1) (pool_answer e 2) (pool_answer e 3)
      (pool_answer e 4) (pool_answer e 5) (r_crew e) max_worker min_worker pool0 in
    if r =? MI_FAILURE then ret MI_FAILURE
    else
      match srun smfi dbg timeout initpriv (r_rd_pipe e) (r_keep e) (r_steps e)
              (mk_server p s (mk_lis LTop 0 0 0 0 (L_socksize s))) with
      | SNext v => match l_pc (v_lis v) with LDone r => ret r | _ => fun w => Blocked w end
      | SDisabled => fun w => Blocked w
      | SFault f => undef f
      end.

Definition smfi_main (e : run_env) (privatedata : priv) : cM proc Z :=
  let* w := get in
  match m_conn w with
  | None => let* _ := deref NullDeref (m_smfi w) in ret MI_FAILURE
  | Some conn =>
      let* smfi := deref NullDeref (m_smfi w) in
      if negb (mi_control_startup e =? MI_SUCCESS) then ret MI_FAILURE
      else
        let* r := mi_listener e conn (m_dbg w) smfi privatedata (m_timeout w) (m_backlog w) (m_max w) (m_min w) in
        ret (if negb (r =? MI_SUCCESS) then MI_FAILURE else MI_SUCCESS)
  end.

(** ** The server's handlers: pmilter.c *)

Context (server_file : bytes -> sfile).

(** [pmilter_<phase>_handler_run] *)
Definition server_handler_run (h : server_hook) (config : pmilter_config) : cM proc unit :=
  match server_handler_path config h with
  | None => modify (fun w => set_mcode (upd (m_code w) h None) w)
  | Some path =>
      let* ok := malloc in
      modify (fun w => set_mcode (upd (m_code w) h (if ok then Some false else None)) w) ;;;
      let* mrb := gets m_mrb in
      if ok && mrb then
        match server_file path with
        | CannotOpen | SyntaxError => exit EX_SOFTWARE
        | Runs raises =>
            modify (fun w => set_mcode (upd (m_code w) h (Some true)) w) ;;;
            modify (see (EvHook h)) ;;;
            if raises then exit EX_SOFTWARE else ret tt
        end
      else ret tt
  end.

(** [pmilter_<phase>_handler_free]: [pmilter_mrb_state_clean] writes to the mruby
    state. *)
Definition server_handler_free (h : server_hook) : cM proc unit :=
  modify (fun w => set_mcode (upd (m_code w) h None) w) ;;;
  let* mrb := gets m_mrb in
  if mrb then ret tt else undef NullDeref.

(** ** [main] *)

(** The options as getopt returns them; the last -c counts. *)
Fixpoint getopt_loop (file : option bytes) (opts : list (byte * bytes)) : cM proc (option bytes) :=
  match opts with
  | [] => ret file
  | (c, optarg) :: r => if bool_decide (c = "c"%byte) then getopt_loop (Some optarg) r else exit EX_USAGE
  end.

Context (strtod : bytes -> Z) (answers : list bool) (fs : bytes -> file_state) (mrb_open : bool).

(** The options, the file and its values: the tree and the configuration. *)
Definition load_config (opts : list (byte * bytes)) : cM proc (toml_node * pmilter_config) :=
  let* file := getopt_loop None opts in
  let* toml_root := pmilter_toml_load strtod answers fs file in
  let* c := pmilter_config_init in
  let* config := pmilter_config_parse c toml_root in
  ret (toml_root, config).

(** libmilter is given the configuration. *)
Definition configure (config : pmilter_config) : cM proc unit :=
  let* r := smfi_setconn (Some (listen config)) in
  if r =? MI_FAILURE then exit EX_SOFTWARE
  else
    let* r := smfi_settimeout (timeout config) in
    if r =? MI_FAILURE then exit EX_SOFTWARE
    else
      let* r := smfi_setbacklog (listen_backlog config) in
      if r =? MI_FAILURE then exit EX_SOFTWARE
      else
        smfi_setdbg (debug config) ;;;
        smfi_setworker 0 (min_worker config) ;;;
        let* r := smfi_register (smfilter vm0 mrb_load mrb_parse_string) in
        if r =? MI_FAILURE then exit EX_UNAVAILABLE else ret tt.

Definition main (opts : list (byte * bytes)) (e : run_env) : cM proc Z :=
  let* loaded := load_config opts in
  let config := loaded.2 in
  configure config ;;;
  modify (set_mmrb mrb_open) ;;;
  server_handler_run Hpostconfig config ;;;
  let* smfi_status := smfi_main e PrivConfig in
  server_handler_run Hmaster_exit config ;;;
  let* _ := lift (toml_free loaded.1) in
  server_handler_free Hpostconfig ;;;
  server_handler_free Hmaster_exit ;;;
  ret smfi_status.

(** ** Properties *)

(** Nothing is shown, and the allocator keeps its promise. *)
Definition calm (w w' : proc) : Prop := m_log w' = m_log w /\ (m_oom w = [] -> m_oom w' = []).

(** A part of the program that shows nothing, can end the process with the given
    codes only, and is not held up. *)
Definition quiet {A} (codes : list Z) (m : cM proc A) : Prop :=
  forall w, match m w with
  | Done _ w' | Undef _ w' => calm w w'
  | Exited c w' => c ∈ codes /\ calm w w'
  | Blocked _ => False
  end.

Lemma quiet_bind {A B} codes (m : cM proc A) (k : A -> cM proc B) :
  quiet codes m -> (forall a, quiet codes (k a)) -> quiet codes (bind m k).
Proof.
  intros Hm Hk w. specialize (Hm w). unfold bind. destruct (m w) as [a w1|w1|c w1|f w1]; try done.
  assert (T : forall w', calm w1 w' -> calm w w').
  { destruct Hm as [Hl Ho]. intros w' [Hl' Ho']. split; [congruence|auto]. }
  specialize (Hk a w1). destruct (k a w1); auto; destruct Hk; auto.
Qed.

Lemma quiet_ret {A} codes (a : A) : quiet codes (ret a).
Proof. done. Qed.

Lemma quiet_undef {A} codes f : quiet codes (@undef proc A f).
Proof. done. Qed.

Lemma quiet_exit {A} codes c : c ∈ codes -> quiet codes (@exit proc A c).
Proof. done. Qed.

Lemma quiet_deref {A} codes f (o : option A) : quiet codes (deref f o).
Proof. by destruct o. Qed.

Lemma quiet_lift {A} codes (r : fault + A) : quiet codes (lift r).
Proof. by destruct r. Qed.

Lemma quiet_malloc codes : quiet codes malloc.
Proof. intros w. unfold malloc, proc_malloc. destruct (m_oom w) eqn:E; (split; simpl; [done|congruence]). Qed.

Lemma quiet_modify codes f : (forall w, calm w (f w)) -> quiet codes (modify f).
Proof. intros H w. apply H. Qed.

Lemma quiet_gets {A} codes (f : proc -> A) : quiet codes (gets f).
Proof. done. Qed.

Ltac quiet_step :=
  first [ apply quiet_bind; [|intros ?] | apply quiet_ret | apply quiet_undef | apply quiet_deref | apply quiet_lift
        | apply quiet_malloc | apply quiet_gets | (apply quiet_modify; done) | (apply quiet_exit; set_solver)
        | case_match ].

Lemma quiet_options codes opts : EX_USAGE ∈ codes -> forall file, quiet codes (getopt_loop file opts).
Proof. intros H. induction opts as [|[c a] r IH]; intros file; simpl; repeat quiet_step; auto. Qed.

Lemma quiet_session_paths codes root hs : forall c, quiet codes (session_paths c root hs).
Proof. induction hs as [|h r IH]; intros c; simpl; [apply quiet_ret|]. unfold get_path, get_node, value_string. repeat quiet_step; auto. Qed.

Lemma quiet_toml_load file : quiet [EX_USAGE; 1] (pmilter_toml_load strtod answers fs file).
Proof.
  unfold pmilter_toml_load, EXIT_FAILURE. destruct file as [f|]; [|by quiet_step].
  destruct (fs f) as [| |text mmap_ok] eqn:Ef; [by quiet_step..|]. apply quiet_bind; [apply quiet_malloc|intros ok].
  destruct (negb ok); [by quiet_step|].
  destruct (toml_parse_stops strtod answers toml_init (toml_content text mmap_ok) (length text) (rounds_for text)) as [r ->]; [done|].
  destruct r as [g|[code root]]; [by quiet_step|]. destruct (code =? 0); quiet_step.
Qed.

Lemma quiet_load opts : quiet [EX_USAGE; 1] (load_config opts).
Proof.
  unfold load_config. apply quiet_bind; [apply quiet_options; set_solver|intros file].
  apply quiet_bind; [apply quiet_toml_load|intros root].
  unfold pmilter_config_init. apply quiet_bind; [repeat quiet_step|intros c].
  unfold pmilter_config_parse, pmilter_config_mruby_handler, pmilter_config_get_log_level, pmilter_config_get_bool,
    pmilter_config_get_integer, pmilter_config_get_string, get_typed, get_path, get_node, value_string, value_integer.
  repeat (apply quiet_session_paths || quiet_step).
Qed.

Lemma quiet_configure c : quiet [EX_SOFTWARE; EX_UNAVAILABLE] (configure c).
Proof.
  unfold configure, smfi_setconn, smfi_settimeout, smfi_setbacklog, smfi_setdbg, smfi_setworker, smfi_register.
  repeat quiet_step.
Qed.

(** What libmilter is given. *)
Record configured (c : pmilter_config) (w : proc) : Prop := mk_configured {
  cf_smfi : m_smfi w = Some (smfilter vm0 mrb_load mrb_parse_string);
  cf_conn : m_conn w = Some (listen c);
  cf_dbg : m_dbg w = debug c;
  cf_timeout : m_timeout w = timeout c;
  cf_backlog : m_backlog w = listen_backlog c;
  cf_max : m_max w = 0;
  cf_min : m_min w = min_worker c;
  cf_listen : listen c <> [];
  cf_pos : 0 < listen_backlog c
}.

Lemma configure_configured c w u w' : configure c w = Done u w' -> configured c w'.
Proof.
  unfold configure, smfi_setconn, smfi_settimeout, smfi_setbacklog, smfi_setdbg, smfi_setworker, smfi_register,
    malloc, proc_malloc, bind, modify, gets, ret, exit.
  intros H. repeat (cM_case_in H; simplify_eq/=; try done).
  all: match goal with E : (_ <=? 0) = false |- _ => apply Z.leb_gt in E end.
  all: split; simpl; congruence || done.
Qed.

(** What a server handler and [smfi_main] leave alone. *)
Definition same_static (w w' : proc) : Prop :=
  m_smfi w' = m_smfi w /\ m_conn w' = m_conn w /\ m_dbg w' = m_dbg w /\ m_timeout w' = m_timeout w /\
  m_backlog w' = m_backlog w /\ m_max w' = m_max w /\ m_min w' = m_min w /\ m_mrb w' = m_mrb w.

Lemma configured_same c w w' : configured c w -> same_static w w' -> configured c w'.
Proof. intros [] (E1 & E2 & E3 & E4 & E5 & E6 & E7 & _). split; congruence. Qed.

(** The handler has run as it should: it is not configured; or it ran without an
    error; or mruby or memory was missing. *)
Definition hook_ran (h : server_hook) (c : pmilter_config) (mrb : bool) (oom : list bool) (k : list mevent) : Prop :=
  match server_handler_path c h with
  | None => k = []
  | Some path => (k = [EvHook h] /\ server_file path = Runs false) \/ (k = [] /\ (mrb = false \/ oom <> []))
  end.

(** ... or has failed: it could not be read or compiled, or it raised. *)
Definition hook_failed (h : server_hook) (c : pmilter_config) (k : list mevent) : Prop :=
  exists path, server_handler_path c h = Some path /\
    (k = [] /\ (server_file path = CannotOpen \/ server_file path = SyntaxError) \/
     k = [EvHook h] /\ server_file path = Runs true).

Lemma server_handler_run_outcome h c w :
  match server_handler_run h c w with
  | Done _ w' => same_static w w' /\ (m_oom w = [] -> m_oom w' = []) /\
      exists k, hook_ran h c (m_mrb w) (m_oom w) k /\ m_log w' = m_log w ++ k
  | Exited code w' => code = EX_SOFTWARE /\ exists k, hook_failed h c k /\ m_log w' = m_log w ++ k
  | Blocked _ | Undef _ _ => False
  end.
Proof.
  unfold server_handler_run, hook_ran, hook_failed, malloc, proc_malloc, bind, modify, gets, ret, exit.
  destruct (server_handler_path c h) as [path|]; simpl; [|by split; [done|split; [done|]]; exists []; rewrite app_nil_r].
  assert (N : forall (w' : proc), m_log w' = m_log w -> (m_mrb w = false \/ m_oom w <> []) ->
    exists k, (k = [EvHook h] /\ server_file path = Runs false \/ k = [] /\ (m_mrb w = false \/ m_oom w <> [])) /\ m_log w' = m_log w ++ k).
  { intros w' E H. exists []. rewrite app_nil_r. auto. }
  destruct (m_oom w) as [|[] l] eqn:Eo; simpl; [| |split; [done|]; split; [done|]; by apply N; auto].
  all: destruct (m_mrb w) eqn:Em; simpl; [|split; [unfold same_static; simpl; auto 12|]; split; [done|]; by apply N; auto].
  all: destruct (server_file path) as [| |[]] eqn:Ef; simpl.
  all: try (split; [done|]; exists []; rewrite app_nil_r; split; [|done]; exists path; by auto 6).
  all: try (split; [done|]; exists [EvHook h]; split; [|done]; exists path; by auto 6).
  all: split; [unfold same_static; simpl; auto 12|]; split; [done|]; exists [EvHook h]; auto.
Qed.

(** The call of the listener. *)
Definition serve (c : pmilter_config) : mevent :=
  EvListen (listen c) (debug c) (timeout c) (listen_backlog c) 0 (min_worker c).

Definition serves (e : run_env) (c : pmilter_config) : list mevent :=
  if mi_control_startup e =? MI_SUCCESS then [serve c] else [].

Lemma smfi_main_outcome e c w : configured c w ->
  match smfi_main e PrivConfig w with
  | Done r w' => (r = MI_SUCCESS \/ r = MI_FAILURE) /\ m_log w' = m_log w ++ serves e c /\ m_mrb w' = m_mrb w /\ m_oom w' = m_oom w
  | Blocked w' => m_log w' = m_log w ++ [serve c] /\ mi_control_startup e = MI_SUCCESS
  | Undef _ w' => m_log w' = m_log w ++ [serve c]
  | Exited _ _ => False
  end.
Proof.
  intros [E1 E2 E3 E4 E5 E6 E7 _ _]. unfold smfi_main, mi_listener, serves, serve, bind, get, modify, deref, ret, undef.
  rewrite E1, E2, E3, E4, E5, E6, E7. cbn [m_conn].
  destruct (Z.eqb_spec (mi_control_startup e) MI_SUCCESS); cbn [negb]; [|by rewrite app_nil_r; auto].
  destruct (mi_opensocket _ _ _ _) as [r s]. destruct (r =? MI_FAILURE); [by auto|].
  destruct (mi_pool_controller_init _ _ _ _ _ _ _ _ _ _) as [r' p]. destruct (r' =? MI_FAILURE); [by auto|].
  destruct (srun _ _ _ _ _ _ _ _) as [v| |f]; [|done|done].
  destruct (l_pc (v_lis v)) as [| | |ret]; try done. destruct (negb _); auto.
Qed.

(** The configuration of the file is what the server is started with. *)
Definition from_tree (opts : list (byte * bytes)) (w0 : proc) (root : toml_node) (c : pmilter_config) : Prop :=
  listen c <> [] /\ 0 < listen_backlog c /\ exists w1, load_config opts w0 = Done (root, c) w1.
Definition from_file (opts : list (byte * bytes)) (w0 : proc) (c : pmilter_config) : Prop := exists root, from_tree opts w0 root c.

(** The tree is one the parser has made. *)
Lemma load_good opts w0 root c w1 : load_config opts w0 = Done (root, c) w1 -> good root.
Proof.
  unfold load_config, bind. destruct (getopt_loop None opts w0) as [file w2| | |]; try done.
  unfold pmilter_toml_load. destruct file as [f|]; [|done]. destruct (fs f) as [| |text mmap_ok]; try done.
  unfold bind. destruct (malloc w2) as [[] w3| | |]; try done. simpl.
  destruct (toml_parse _ _ _ _ _ _) as [[g|[code t]]|] eqn:E; try done. apply toml_parse_good in E; [|done].
  destruct (code =? 0); [|done]. simpl. destruct (pmilter_config_init w3) as [c0 w4| | |]; try done.
  destruct (pmilter_config_parse c0 t w4) as [c1 w5| | |]; try done. by intros [= <- <- <-].
Qed.

(** [toml_free] can only fail at a name that the parser left unset. *)
Lemma toml_free_fault root f : good root -> toml_free root = inl f -> f = Indeterminate /\ names_set root = false.
Proof.
  intros [Ht Hr] H. split.
  - unfold toml_free in H. rewrite bool_decide_true in H by done. simpl in H. unfold toml_dive in H. fold dive in H.
    destruct (dive [] root) eqn:E; [|done]. injection H as <-. by eapply dive_faults.
  - destruct (names_set root) eqn:En; [|done]. destruct (freed_node root Ht En []) as (es & E & _).
    unfold toml_free, toml_dive in H. rewrite bool_decide_true in H by done. fold dive in H. by rewrite E in H.
Qed.

Lemma server_handler_free_outcome h w :
  match server_handler_free h w with
  | Done _ w' => m_mrb w = true /\ m_mrb w' = true /\ m_log w' = m_log w
  | Undef f w' => m_mrb w = false /\ f = NullDeref /\ m_log w' = m_log w
  | _ => False
  end.
Proof. unfold server_handler_free, bind, modify, gets. simpl. by destruct (m_mrb w) eqn:E; simpl. Qed.

(** How a run of [main] can end, and what it has done by then. *)
Definition main_ends (opts : list (byte * bytes)) (e : run_env) (w0 : proc) (o : outcome proc Z) : Prop :=
  match o with
  | Done status w =>
      (status = MI_SUCCESS \/ status = MI_FAILURE) /\ mrb_open = true /\
      exists c pre post, from_file opts w0 c /\ hook_ran Hpostconfig c true (m_oom w0) pre /\
        hook_ran Hmaster_exit c true (m_oom w0) post /\ m_log w = pre ++ serves e c ++ post
  | Blocked w =>
      exists c pre, from_file opts w0 c /\ hook_ran Hpostconfig c mrb_open (m_oom w0) pre /\ m_log w = pre ++ [serve c]
  | Exited code w =>
      code ∈ [EX_USAGE; 1; EX_SOFTWARE; EX_UNAVAILABLE] /\ m_log w = [] \/
      code = EX_SOFTWARE /\ exists c, from_file opts w0 c /\
        (hook_failed Hpostconfig c (m_log w) \/
         exists pre post, hook_ran Hpostconfig c mrb_open (m_oom w0) pre /\ hook_failed Hmaster_exit c post /\
           m_log w = pre ++ serves e c ++ post)
  | Undef f w =>
      m_log w = [] \/ (mrb_open = false /\ f = NullDeref) \/
      (f = Indeterminate /\ exists root c, from_tree opts w0 root c /\ names_set root = false) \/
      exists c pre, from_file opts w0 c /\ hook_ran Hpostconfig c mrb_open (m_oom w0) pre /\ m_log w = pre ++ [serve c]
  end.

Lemma hook_ran_oom h c mrb oom oom' k : hook_ran h c mrb oom k -> (oom' = [] -> oom = []) -> hook_ran h c mrb oom' k.
Proof. unfold hook_ran. destruct (server_handler_path c h); [|done]. intros [?|(? & [?|N])] K; auto 6.
  right. split; [done|]. right. intros E. auto.
Qed.

(** The part before the handlers. *)
Lemma main_setup opts w0 : m_log w0 = [] ->
  match (let* loaded := load_config opts in configure loaded.2 ;;; ret loaded) w0 with
  | Done (root, c) w => from_tree opts w0 root c /\ configured c w /\ calm w0 w
  | Exited code w => code ∈ [EX_USAGE; 1; EX_SOFTWARE; EX_UNAVAILABLE] /\ m_log w = []
  | Undef _ w => m_log w = []
  | Blocked _ => False
  end.
Proof.
  intros E0. unfold bind. pose proof (quiet_load opts w0) as Q.
  destruct (load_config opts w0) as [[root c] w1|w1|code w1|f w1] eqn:El; simpl in Q.
  2: done.
  2: { destruct Q as [Q [-> _]]. split; [set_solver|done]. }
  2: { destruct Q as [-> _]. done. }
  cbn [snd]. pose proof (quiet_configure c w1) as Q2. destruct Q as [L1 O1].
  destruct (configure c w1) as [u w2|w2|code w2|f w2] eqn:Ec; simpl in Q2.
  2: done.
  2: { destruct Q2 as [Q2 [-> _]]. split; [set_solver|congruence]. }
  2: { destruct Q2 as [-> _]. congruence. }
  pose proof (configure_configured c w1 u w2 Ec) as C. destruct Q2 as [L2 O2].
  split; [split; [apply C|split; [apply C|by exists w1]]|]. split; [done|]. split; [congruence|auto].
Qed.

(** The part after the server. *)
Lemma main_cleanup root c w : m_mrb w = mrb_open -> good root ->
  match (server_handler_run Hmaster_exit c ;;; let* _ := lift (toml_free root) in
         server_handler_free Hpostconfig ;;; server_handler_free Hmaster_exit) w with
  | Done _ w' => mrb_open = true /\ exists k, hook_ran Hmaster_exit c true (m_oom w) k /\ m_log w' = m_log w ++ k
  | Exited code w' => code = EX_SOFTWARE /\ exists k, hook_failed Hmaster_exit c k /\ m_log w' = m_log w ++ k
  | Undef f _ => mrb_open = false /\ f = NullDeref \/ f = Indeterminate /\ names_set root = false
  | Blocked _ => False
  end.
Proof.
  intros M G. unfold bind. pose proof (server_handler_run_outcome Hmaster_exit c w) as H.
  destruct (server_handler_run Hmaster_exit c w) as [u w1|w1|code w1|f w1]; try done.
  destruct H as ((_ & _ & _ & _ & _ & _ & _ & M1) & _ & k & Hk & L1). rewrite M in M1, Hk.
  destruct (toml_free root) as [f|es] eqn:Ef; simpl; [right; by apply toml_free_fault|].
  pose proof (server_handler_free_outcome Hpostconfig w1) as H1.
  destruct (server_handler_free Hpostconfig w1) as [u1 w2|w2|code w2|f w2]; try done.
  2: { destruct H1 as (H1 & -> & _). left. by rewrite <- M1. }
  destruct H1 as (H1 & M2 & L2). pose proof (server_handler_free_outcome Hmaster_exit w2) as H2.
  destruct (server_handler_free Hmaster_exit w2) as [u2 w3|w3|code w3|f w3]; try done.
  - destruct H2 as (_ & _ & L3). assert (mrb_open = true) as -> by congruence. split; [done|]. exists k.
    split; [done|]. by rewrite L3, L2, L1.
  - destruct H2 as (H2 & _). congruence.
Qed.

Lemma main_shape opts e w0 : m_log w0 = [] -> main_ends opts e w0 (main opts e w0).
Proof.
  intros E0. pose proof (main_setup opts w0 E0) as S. unfold main_ends, main.
  unfold bind at 1. unfold bind in S. destruct (load_config opts w0) as [[root c] w1|w1|code w1|f w1] eqn:El; [|done|by left..].
  cbv zeta. cbn [fst snd] in S |- *.
  unfold bind at 1. destruct (configure c w1) as [u w2|w2|code w2|f w2]; [|done|by left..].
  destruct S as (FT & C & [L2 O2]). assert (F : from_file opts w0 c) by (by exists root). apply load_good in El as G.
  unfold bind at 1, modify. set (w3 := set_mmrb mrb_open w2).
  assert (C3 : configured c w3) by (destruct C; by split). rewrite E0 in L2.
  unfold bind at 1. pose proof (server_handler_run_outcome Hpostconfig c w3) as H1. cbn [m_mrb set_mmrb m_oom m_log w3] in H1.
  rewrite L2 in H1.
  destruct (server_handler_run Hpostconfig c w3) as [u1 w4|w4|code w4|f w4]; try done.
  2: { right. destruct H1 as (-> & k & Hk & ->). split; [done|]. exists c. by split; [|left]. }
  destruct H1 as (S4 & O4 & k & Hk & L4). simpl in L4. pose proof (configured_same _ _ _ C3 S4) as C4.
  assert (M4 : m_mrb w4 = mrb_open) by (by destruct S4 as (_ & _ & _ & _ & _ & _ & _ & ->)).
  apply (hook_ran_oom _ _ _ _ (m_oom w0)) in Hk; [|done].
  unfold bind at 1. pose proof (smfi_main_outcome e c w4 C4) as H2. rewrite L4 in H2.
  destruct (smfi_main e PrivConfig w4) as [st w5|w5|code w5|f w5]; [|by exists c, k; destruct H2|done|].
  2: { right. right. right. by exists c, k. }
  destruct H2 as (Hst & L5 & M5 & O5). rewrite M4 in M5.
  pose proof (main_cleanup root c w5 M5 G) as H3. unfold bind in H3. unfold bind.
  assert (X : forall code w', (code = EX_SOFTWARE /\ exists k', hook_failed Hmaster_exit c k' /\ m_log w' = m_log w5 ++ k') ->
    main_ends opts e w0 (Exited code w')).
  { intros code w' (-> & k' & Hk' & L'). right. split; [done|]. exists c. split; [done|]. right.
    exists k, k'. by rewrite L', L5, <- app_assoc. }
  assert (U : forall f (w' : proc), mrb_open = false /\ f = NullDeref \/ f = Indeterminate /\ names_set root = false ->
    main_ends opts e w0 (Undef f w')).
  { intros f w' [U|[U1 U2]]; [by right; left|]. right. right. left. split; [done|]. by exists root, c. }
  destruct (server_handler_run Hmaster_exit c w5) as [u2 w6|w6|code w6|f w6]; [|done|by apply X|by apply U].
  assert (R : forall w8, (mrb_open = true /\ exists k', hook_ran Hmaster_exit c true (m_oom w5) k' /\ m_log w8 = m_log w5 ++ k') ->
    main_ends opts e w0 (Done st w8)).
  { intros w8 (Em & k' & Hk' & L8). split; [done|]. split; [done|]. rewrite Em in Hk.
    exists c, k, k'. split; [done|]. split; [done|]. split.
    - eapply hook_ran_oom; [exact Hk'|]. intros E. rewrite O5. auto.
    - by rewrite L8, L5, <- app_assoc. }
  destruct (toml_free root) as [f|es]; simpl in H3 |- *; [by apply (U f w6)|].
  destruct (server_handler_free Hpostconfig w6) as [u3 w7|w7|code w7|f w7]; [|done|by apply X|by apply U].
  destruct (server_handler_free Hmaster_exit w7) as [u4 w8|w8|code w8|f w8]; [by apply R|done|by apply X|by apply U].
Qed.

(** C26: What [main] does, in every case.  The listener is called only after the
    options, the configuration file and its values were accepted, the backlog is
    positive, the socket is named, and the postconfig handler, where one is
    configured, has run without an error (it is skipped when mruby or memory is
    missing); and it is called with exactly the values of the configuration.  The
    master_exit handler runs once, after the listener has returned.  [main]
    returns the status of [smfi_main]; before the listener is called it can exit
    with EX_USAGE, 1, EX_SOFTWARE or EX_UNAVAILABLE, and after that only with
    EX_SOFTWARE, when the master_exit handler fails.  The clean-up at the end goes
    wrong only when there was no mruby, or when the file had a list in a list, whose
    name the parser leaves unset and [toml_free] frees.  Only the server waits for
    its environment: reading the configuration always ends. *)
Theorem main_outcomes (opts : list (byte * bytes)) (e : run_env) (somaxconn : Z) (oom : list bool) :
  main_ends opts e (proc0 somaxconn oom) (main opts e (proc0 somaxconn oom)).
Proof. by apply main_shape. Qed.

(** ** The server that [main] runs *)

Lemma start_crew_success {P} n : forall crew (p q : @pool P),
  start_crew n crew p = (MI_SUCCESS, q) -> start_crew n [] p = (MI_SUCCESS, q).
Proof.
  induction n as [|n IH]; intros crew p q; simpl; [done|]. destruct crew as [|[] crew]; simpl; [done| |done]. apply IH.
Qed.

(** A start that reports success is one in which no call failed. *)
Lemma pool_init_success {P} pipe wg ws rg rs created crew max min (p : @pool P) :
  mi_pool_controller_init pipe wg ws rg rs created crew max min pool0 = (MI_SUCCESS, p) -> p = pool_start min.
Proof.
  unfold pool_start, mi_pool_controller_init, nonblocking.
  destruct pipe, wg, ws, rg, rs, created; try done. cbn -[start_crew Z.to_nat].
  intros H. destruct (Z.eqb_spec min 0); apply start_crew_success in H; by rewrite H.
Qed.

Lemma mi_opensocket_started e backlog conn s :
  mi_opensocket e backlog false (lsock0 conn) = (MI_SUCCESS, s) -> started s.
Proof.
  intros H. unfold mi_opensocket in H. simpl in H.
  destruct (mi_milteropen e backlog false (lsock0 conn)) as [fd t] eqn:E.
  apply mi_milteropen_attempt in E as (addr & u & Eu & new & En & Ef & _). rewrite Eu in En. simpl in En.
  simpl in H. destruct (ValidSocket fd) eqn:Vf; simplify_eq/=. split; simpl; [done|]. done.
Qed.

(** The program's threads are the modelled server.  When [mi_listener] has
    opened its socket and started the pool, every state its threads can come to is
    a reachable state of the server with the configured number of workers, so that
    the theorems on the server and on the pool hold while pmilter serves. *)
Theorem listener_runs_server (e : run_env) (conn : bytes) (backlog dbg tmo max min : Z) (s : lsock) (p : @pool priv) :
  mi_opensocket (r_open e) backlog false (lsock0 conn) = (MI_SUCCESS, s) ->
  mi_pool_controller_init (pool_answer e 0) (pool_answer e 1) (pool_answer e 2) (pool_answer e 3)
    (pool_answer e 4) (pool_answer e 5) (r_crew e) max min pool0 = (MI_SUCCESS, p) ->
  forall steps v,
    srun (smfilter vm0 mrb_load mrb_parse_string) dbg tmo PrivConfig (r_rd_pipe e) (r_keep e) steps
      (mk_server p s (mk_lis LTop 0 0 0 0 (L_socksize s))) = SNext v ->
    sreachable (smfilter vm0 mrb_load mrb_parse_string) dbg tmo PrivConfig (r_rd_pipe e) (r_keep e) min v.
Proof.
  intros Ho Hp steps v H. apply pool_init_success in Hp as ->. apply mi_opensocket_started in Ho.
  eapply srun_reachable; [|exact H]. by apply (sreach_init _ _ _ _ _ _ min s).
Qed.

(** When mruby cannot be opened for the server, [main] never returns: if the
    server ends, the clean-up writes to the state that is NULL. *)
Lemma cleanup_without_mruby opts e w0 : m_log w0 = [] -> mrb_open = false ->
  forall status w, main opts e w0 <> Done status w.
Proof.
  intros L N status w E. pose proof (main_shape opts e w0 L) as H. rewrite E in H. destruct H as (_ & H & _). congruence.
Qed.

End main.

(** ** The signal thread *)

Inductive signal := SIGHUP | SIGTERM | SIGINT | SIGOther.
Inductive sigwait_ans := SigError (eintr : bool) | SigGot (s : signal).

(** The value the thread stops the milter with, [None] while it waits. *)
Fixpoint mi_signal_thread (errs : Z) (l : list sigwait_ans) : option Z :=
  match l with
  | [] => None
  | SigError true :: r => mi_signal_thread errs r
  | SigError false :: r =>
      if MAX_FAILS_T <? errs + 1 then Some MILTER_ABRT else mi_signal_thread (errs + 1) r
  | SigGot (SIGHUP | SIGTERM) :: _ => Some MILTER_STOP
  | SigGot SIGINT :: _ => Some MILTER_ABRT
  | SigGot SIGOther :: r => mi_signal_thread 0 r
  end.

(** The thread stops the milter, and never un-stops it. *)
Lemma mi_signal_thread_stops l : forall errs v, mi_signal_thread errs l = Some v -> MILTER_STOP <= v <= MILTER_ABRT.
Proof.
  induction l as [|[[]|[]] l IH]; intros errs v; simpl; try done; [| |by intros [= <-]..|]; eauto.
  destruct (_ <? _); [by intros [= <-]|eauto].
Qed.

(** A signal that asks for a stop is obeyed unless 17 errors come first. *)
Lemma mi_signal_thread_obeys k n r : (n <= 16)%nat ->
  mi_signal_thread 0 (replicate k (SigError true) ++ replicate n (SigError false) ++ SigGot SIGTERM :: r) = Some MILTER_STOP.
Proof.
  intros L. induction k as [|k IH]; [|done]. simpl.
  assert (H : forall m e, 0 <= e -> e + Z.of_nat m <= 16 ->
    mi_signal_thread e (replicate m (SigError false) ++ SigGot SIGTERM :: r) = Some MILTER_STOP).
  { induction m as [|m IHm]; intros e He Hm; simpl; [done|].
    rewrite (proj2 (Z.ltb_ge _ _)) by (unfold MAX_FAILS_T; lia). apply IHm; lia. }
  apply H; lia.
Qed.

(** ** Witnesses *)

Definition demo_env : run_env := mk_renv true true true demo_open [] [] 3 true [].

Definition main_sock : lsock := (mi_opensocket demo_open 10 false (lsock0 (lit "unix:/tmp/p.sock"))).2.

Definition main_server : @server priv := mk_server (pool_start 0) main_sock (mk_lis LTop 0 0 0 0 (L_socksize main_sock)).

Lemma listener_runs_server_witness :
  sreachable (smfilter tt (fun _ => None) (fun _ => BadSyntax)) 0 7210 PrivConfig 3 true 0 main_server.
Proof.
  apply (listener_runs_server tt (fun _ => None) (fun _ => BadSyntax) demo_env (lit "unix:/tmp/p.sock") 10 0 7210 0 0
    main_sock (pool_start 0)) with (steps := []); reflexivity.
Defined.
